(** * Psd-to-Elementor: the structure-inference core, embedded in Rocq

    The development follows the JavaScript sources:
    - [JS]: the fragment of JavaScript numbers the code relies on
      (finite values, the two infinities and NaN);
    - the layer record shared by every helper;
    - [LayoutDistanceHelper], [SpatialClusteringHelper],
      [ContainerLayoutHelper];
    - [ImageBoxContentClassifier], [StructureInferenceEngine];
    - the name-based [layerClassifier];
    - [RawPSDAdapter], with identifiers drawn from an explicit source and
      thrown errors as results;
    - [Store], a store-passing reading of the two functions that receive
      shared layer objects and build results from them;
    - [LayoutRelationshipHelper], [ContainerLayoutScorer], the colour of
      [TextStyleExtractor], the generator's [extractCompositeData];
    - [psdParser], from the decoded file to the layer tree;
    - [LayerPreview], the tree edits of the drag-and-drop component, with
      the arrays it edits in place referred to by their place in the tree.
    The properties follow the definitions, one module for each helper.

    Finite numbers are exact rationals: rounding of IEEE doubles and the sign
    of zero are not modelled.  On boxes whose edges are whole numbers of
    pixels of size at most 2^25 ([PixelSpec]) the sums, differences and
    squares the helpers compute are exact in binary64 as well; [Doubles]
    reads [getMinDistance] in binary64 to show what rounding does outside
    them. *)

From Stdlib Require Import ZArith QArith Qminmax Qabs Lia Lqa Bool.
From Stdlib Require Import List String Ascii Permutation Sorted.
From stdpp Require Import base gmap sets list strings pretty.

Set Default Proof Using "Type".
Set Warnings "-register-all,-clear-no-such-hyp".
Open Scope string_scope.

(* ===================================================================== *)
(** ** JavaScript numbers *)
(* ===================================================================== *)

Module JS.

Inductive num : Type :=
| Num (q : Q)
| Infinity
| NegInfinity
| NaN.

Definition of_Z (z : Z) : num := Num (inject_Z z).
Definition zero : num := Num 0.

(** Three-way comparison; [None] when one side is NaN, in which case every
    relational operator of JavaScript answers [false]. *)
Definition compare (x y : num) : option comparison :=
  match x, y with
  | NaN, _ | _, NaN => None
  | Num p, Num q => Some (p ?= q)%Q
  | Infinity, Infinity => Some Eq
  | NegInfinity, NegInfinity => Some Eq
  | Infinity, _ => Some Gt
  | _, Infinity => Some Lt
  | NegInfinity, _ => Some Lt
  | _, NegInfinity => Some Gt
  end.

Definition lt (x y : num) : bool :=
  match compare x y with Some Lt => true | _ => false end.
Definition gt (x y : num) : bool := lt y x.
Definition le (x y : num) : bool :=
  match compare x y with Some Lt | Some Eq => true | _ => false end.
Definition ge (x y : num) : bool := le y x.
(** [x === y] on numbers. *)
Definition strict_eq (x y : num) : bool :=
  match compare x y with Some Eq => true | _ => false end.

(** Truthiness of a number: [0] and [NaN] are falsy. *)
Definition truthy (x : num) : bool :=
  match x with
  | Num q => negb (Qeq_bool q 0)
  | Infinity | NegInfinity => true
  | NaN => false
  end.

(** [x || d] on numbers. *)
Definition or_default (x d : num) : num := if truthy x then x else d.

Definition neg (x : num) : num :=
  match x with
  | Num q => Num (- q)
  | Infinity => NegInfinity
  | NegInfinity => Infinity
  | NaN => NaN
  end.

Definition add (x y : num) : num :=
  match x, y with
  | NaN, _ | _, NaN => NaN
  | Num p, Num q => Num (p + q)
  | Infinity, NegInfinity | NegInfinity, Infinity => NaN
  | Infinity, _ | _, Infinity => Infinity
  | NegInfinity, _ | _, NegInfinity => NegInfinity
  end.

Definition sub (x y : num) : num := add x (neg y).

Definition mul (x y : num) : num :=
  match x, y with
  | NaN, _ | _, NaN => NaN
  | Num p, Num q => Num (p * q)
  | _, _ =>
      match compare x zero, compare y zero with
      | Some Gt, Some Gt | Some Lt, Some Lt => Infinity
      | Some Gt, Some Lt | Some Lt, Some Gt => NegInfinity
      | _, _ => NaN
      end
  end.

Definition div (x y : num) : num :=
  match x, y with
  | NaN, _ | _, NaN => NaN
  | Num p, Num q =>
      if Qeq_bool q 0
      then match (p ?= 0)%Q with Gt => Infinity | Lt => NegInfinity | Eq => NaN end
      else Num (p / q)
  | Num _, _ => zero
  | _, Num q =>
      match compare x zero, (q ?= 0)%Q with
      | Some Gt, Lt | Some Lt, (Gt | Eq) => NegInfinity
      | _, _ => Infinity
      end
  | _, _ => NaN
  end.

(** [Math.max] and [Math.min] of two arguments: NaN is contagious. *)
Definition max (x y : num) : num :=
  match compare x y with
  | None => NaN
  | Some Lt => y
  | Some _ => x
  end.

Definition min (x y : num) : num :=
  match compare x y with
  | None => NaN
  | Some Gt => y
  | Some _ => x
  end.

(** [Math.max(...xs)] and [Math.min(...xs)]: the neutral elements are the
    infinities, as in the language. *)
Definition max_list (xs : list num) : num := fold_left max xs NegInfinity.
Definition min_list (xs : list num) : num := fold_left min xs Infinity.

Definition abs (x : num) : num :=
  match x with
  | Num q => Num (Qabs q)
  | Infinity | NegInfinity => Infinity
  | NaN => NaN
  end.

(** [Math.sqrt] is kept symbolic: [Sqrt r] stands for the exact square root
    of [r].  The code only ever compares a square root with a threshold,
    and that comparison is decided exactly on the radicand. *)
Inductive surd : Type := Sqrt (radicand : num).

(** [Math.sqrt(r) <= t]. *)
Definition surd_le (s : surd) (t : num) : bool :=
  match s, t with
  | Sqrt (Num r), Num q => Qle_bool 0 r && Qle_bool 0 q && Qle_bool r (q * q)
  | Sqrt (Num r), Infinity => Qle_bool 0 r
  | Sqrt Infinity, Infinity => true
  | _, _ => false
  end.

Definition not_NaN (x : num) : Prop := x <> NaN.

(** Two numbers denote the same value: rationals are compared as fractions,
    not as numerator/denominator pairs. *)
Definition eqv (x y : num) : Prop :=
  match x, y with
  | Num p, Num q => (p == q)%Q
  | Infinity, Infinity => True
  | NegInfinity, NegInfinity => True
  | NaN, NaN => True
  | _, _ => False
  end.

Definition of_nat (n : nat) : num := of_Z (Z.of_nat n).

(** [Array.prototype.sort(cmp)]: the sort is stable, and a comparator
    result that is not greater than zero (NaN included) leaves the pair in
    its order.  Modelled as a stable insertion sort. *)
Section Sort.
Context {A : Type} (cmp : A -> A -> num).

Fixpoint insert (x : A) (l : list A) : list A :=
  match l with
  | [] => [x]
  | y :: l' => if gt (cmp y x) zero then x :: y :: l' else y :: insert x l'
  end.

Definition sort (l : list A) : list A :=
  fold_left (fun acc x => insert x acc) l [].

(** [a] may stand before [b]: the comparator does not ask for a swap. *)
Definition in_order (a b : A) : Prop := gt (cmp a b) zero = false.
End Sort.

(** The outcome of running a piece of code: a value, a thrown [TypeError],
    or a bounded loop of the model running out of its bound. *)
Inductive result (A : Type) : Type :=
| Ok (a : A)
| TypeError (msg : string)
| OutOfFuel.
Arguments Ok {A} a.
Arguments TypeError {A} msg.
Arguments OutOfFuel {A}.

Definition bind {A B : Type} (r : result A) (f : A -> result B) : result B :=
  match r with
  | Ok a => f a
  | TypeError m => TypeError m
  | OutOfFuel => OutOfFuel
  end.

Fixpoint mapM {A B : Type} (f : A -> result B) (l : list A)
    : result (list B) :=
  match l with
  | [] => Ok []
  | x :: l' => bind (f x) (fun y => bind (mapM f l') (fun ys => Ok (y :: ys)))
  end.

(** *** Strings *)

Definition lower_ascii (c : ascii) : ascii :=
  let n := nat_of_ascii c in
  if ((65 <=? n) && (n <=? 90))%nat then ascii_of_nat (n + 32) else c.

(** [s.toLowerCase()], on ASCII text. *)
Fixpoint toLowerCase (s : string) : string :=
  match s with
  | EmptyString => EmptyString
  | String c s' => String (lower_ascii c) (toLowerCase s')
  end.

(** [s.includes(sub)]. *)
Fixpoint includes (s sub : string) : bool :=
  String.prefix sub s ||
  match s with
  | EmptyString => false
  | String _ s' => includes s' sub
  end.

(** [/^(a1|a2|...)[-_]?/i.test(s)]: the trailing separator is optional, so
    the expression matches exactly when [s] starts, case-insensitively,
    with one of the (lower-case) alternatives. *)
Definition test_prefix_ci (alternatives : list string) (s : string) : bool :=
  existsb (fun alt => String.prefix alt (toLowerCase s)) alternatives.

(** [s.split('\n').length]. *)
Fixpoint lineCount (s : string) : nat :=
  match s with
  | EmptyString => 1
  | String c s' =>
      if Ascii.eqb c (ascii_of_nat 10) then S (lineCount s') else lineCount s'
  end.

(** [s || d] on strings: the empty string is falsy. *)
Definition str_or (s d : string) : string :=
  match s with EmptyString => d | _ => s end.

End JS.

Abbreviation num := JS.num.
Coercion JS.of_Z : Z >-> JS.num.

(* ===================================================================== *)
(** ** Data model *)
(* ===================================================================== *)

(** [bounds] objects carry six stored numbers; width and height are fields of
    their own (the decoder fills them in), not derived on access. *)
Record Bounds : Type := mkBounds {
  b_top : num;
  b_left : num;
  b_right : num;
  b_bottom : num;
  b_width : num;
  b_height : num
}.

(** A rectangle given by its four edges, with width and height filled in the
    way [extractLayerInfo] does. *)
Definition rect (t l r b : num) : Bounds :=
  mkBounds t l r b (JS.sub r l) (JS.sub b t).

(* ===================================================================== *)
(** ** LayoutDistanceHelper *)
(* ===================================================================== *)

Module LayoutDistanceHelper.

Definition verticalDistance (a b : Bounds) : num :=
  if JS.lt (b_bottom a) (b_top b) then JS.sub (b_top b) (b_bottom a)
  else if JS.lt (b_bottom b) (b_top a) then JS.sub (b_top a) (b_bottom b)
  else JS.zero.

Definition horizontalDistance (a b : Bounds) : num :=
  if JS.lt (b_right a) (b_left b) then JS.sub (b_left b) (b_right a)
  else if JS.lt (b_right b) (b_left a) then JS.sub (b_left a) (b_right b)
  else JS.zero.

Definition smartDistance (a b : Bounds) : num :=
  let vertical := verticalDistance a b in
  let horizontal := horizontalDistance a b in
  if JS.strict_eq vertical JS.zero then horizontal
  else if JS.strict_eq horizontal JS.zero then vertical
  else JS.min vertical horizontal.

End LayoutDistanceHelper.

(* ===================================================================== *)
(** ** Layer records *)
(* ===================================================================== *)

Inductive LayerType : Type := TGroup | TText | TShape | TImage.

Inductive WidgetType : Type :=
| WContainer | WHeading | WTextEditor | WButton | WImage
| WImageBox | WIconBox | WIconList.

#[global] Instance LayerType_eq_dec : EqDecision LayerType.
Proof. solve_decision. Defined.
#[global] Instance WidgetType_eq_dec : EqDecision WidgetType.
Proof. solve_decision. Defined.

(** The string a widget type is written as in the sources. *)
Definition widgetType_name (w : WidgetType) : string :=
  match w with
  | WContainer => "container"
  | WHeading => "heading"
  | WTextEditor => "text-editor"
  | WButton => "button"
  | WImage => "image"
  | WImageBox => "image-box"
  | WIconBox => "icon-box"
  | WIconList => "icon-list"
  end.

(** The normalized text style produced by [TextStyleExtractor.extract]. *)
Record TextInfo : Type := mkTextInfo {
  ti_text : string;
  ti_fontSize : num;
  ti_fontFamily : string;
  ti_color : string;
  ti_alignment : string;
  ti_fontWeight : string;
  ti_lineHeight : string;
  ti_textTransform : string;
  ti_letterSpacing : string
}.

Record Layout : Type := mkLayout {
  lay_direction : string;
  lay_wrap : string;
  lay_gap : option num;
  lay_justifyContent : string;
  lay_alignItems : string
}.

(** [compositeData]: the image-box / icon-box shape ([title], [description],
    and an url left empty) or the icon-list shape ([listItems]). *)
Inductive CompositeData : Type :=
| ImageBoxData (title description imageUrl : string)
| IconBoxData (title description iconUrl : string)
| ListData (listItems : list string).

(** One record type for every plain object the core passes around: decoded
    layers carry the first group of fields, and the classification results
    are the same objects with the second group filled in ([None] and [false]
    stand for an absent property).  The decoder's [depth] is carried along by
    object spreads but never read by the core and is left out. *)
Inductive Node : Type := mkNode {
  n_id : string;
  n_name : string;
  n_type : LayerType;
  n_visible : bool;
  n_bounds : Bounds;
  n_children : list Node;
  n_textInfo : option TextInfo;
  n_hasImage : bool;
  n_widgetType : option WidgetType;
  n_badgeClass : option string;
  n_isSmartDetected : bool;
  n_confidence : option num;
  n_layout : option Layout;
  n_compositeData : option CompositeData;
  n_isComposite : bool;
  n_sourceLayerCount : option nat;
  n_isRepeatingPattern : bool;
  n_patternCount : option nat
}.

(** A decoded layer, as [extractLayerInfo] builds it. *)
Definition layer (id name : string) (ty : LayerType) (visible : bool)
    (b : Bounds) (children : list Node) (ti : option TextInfo)
    (hasImage : bool) : Node :=
  mkNode id name ty visible b children ti hasImage
         None None false None None None false None false None.

(** What [detectContainerBoundaries] hands to [buildTree] as the element of
    a row.  Rows built by [groupIntoRows] hold clusters (arrays of layers);
    the single-cluster shortcut returns the cluster list itself, whose one
    "row" is then the cluster and whose elements are bare layers. *)
Inductive RowItem : Type :=
| ClusterItem (cluster : list Node)
| LayerItem (layer : Node).

(* ===================================================================== *)
(** ** SpatialClusteringHelper *)
(* ===================================================================== *)

Module SpatialClusteringHelper.

Definition DEFAULT_THRESHOLD : num := 20%Z.

Definition getMinDistance (boundsA boundsB : Bounds) : JS.surd :=
  let hGap := JS.max JS.zero
                (JS.sub (JS.max (b_left boundsA) (b_left boundsB))
                        (JS.min (b_right boundsA) (b_right boundsB))) in
  let vGap := JS.max JS.zero
                (JS.sub (JS.max (b_top boundsA) (b_top boundsB))
                        (JS.min (b_bottom boundsA) (b_bottom boundsB))) in
  JS.Sqrt (JS.add (JS.mul hGap hGap) (JS.mul vGap vGap)).

(** The predicate of the [filter] in [findNeighbors]. *)
Definition isNeighbor (threshold : num) (layer other : Node) : bool :=
  if String.eqb (n_id other) (n_id layer) then false
  else JS.surd_le (getMinDistance (n_bounds layer) (n_bounds other)) threshold.

Definition findNeighbors (layer : Node) (allLayers : list Node)
    (threshold : num) : list Node :=
  List.filter (isNeighbor threshold layer) allLayers.

(** The state of [expandCluster]'s loops: the cluster built so far, the
    work queue and the set of visited ids. *)
Record bfs : Type := mkBfs {
  bfs_cluster : list Node;
  bfs_queue : list Node;
  bfs_visited : gset string
}.

(** The inner [for] loop over the neighbours of the layer just dequeued. *)
Fixpoint visitNeighbors (neighbors : list Node) (st : bfs) : bfs :=
  match neighbors with
  | [] => st
  | neighbor :: rest =>
      if bool_decide (n_id neighbor ∈ bfs_visited st)
      then visitNeighbors rest st
      else visitNeighbors rest
             (mkBfs (bfs_cluster st ++ [neighbor])
                    (bfs_queue st ++ [neighbor])
                    ({[ n_id neighbor ]} ∪ bfs_visited st))
  end.

(** The [while (queue.length > 0)] loop, with a bound on its iterations.
    [None] means the bound was reached with work left. *)
Fixpoint expandLoop (fuel : nat) (allLayers : list Node) (threshold : num)
    (st : bfs) : option bfs :=
  match bfs_queue st with
  | [] => Some st
  | current :: queue' =>
      match fuel with
      | O => None
      | S fuel' =>
          let neighbors := findNeighbors current allLayers threshold in
          expandLoop fuel' allLayers threshold
            (visitNeighbors neighbors
               (mkBfs (bfs_cluster st) queue' (bfs_visited st)))
      end
  end.

(** [expandCluster] returns the cluster; the visited set is mutated in
    place by the source and is therefore returned alongside. *)
Definition expandCluster (fuel : nat) (seed : Node) (allLayers : list Node)
    (threshold : num) (visited : gset string)
    : option (list Node * gset string) :=
  match expandLoop fuel allLayers threshold
          (mkBfs [seed] [seed] ({[ n_id seed ]} ∪ visited)) with
  | Some st => Some (bfs_cluster st, bfs_visited st)
  | None => None
  end.

(** The outer [for (const layer of layers)] loop. *)
Fixpoint clusterLoop (fuel : nat) (todo allLayers : list Node)
    (threshold : num) (visited : gset string) (clusters : list (list Node))
    : option (list (list Node)) :=
  match todo with
  | [] => Some clusters
  | layer :: rest =>
      if bool_decide (n_id layer ∈ visited)
      then clusterLoop fuel rest allLayers threshold visited clusters
      else
        match expandCluster fuel layer allLayers threshold visited with
        | None => None
        | Some (cluster, visited') =>
            clusterLoop fuel rest allLayers threshold visited'
              (if (0 <? length cluster)%nat
               then clusters ++ [cluster] else clusters)
        end
  end.

(** Every pass of the [while] loop dequeues a layer whose id entered the
    visited set exactly once, so the number of input layers plus one bounds
    the passes of any single expansion. *)
Definition clusterByProximity_fuel (fuel : nat) (layers : list Node)
    (threshold : num) : option (list (list Node)) :=
  match layers with
  | [] => Some []
  | [_] => Some [layers]
  | _ => clusterLoop fuel layers layers threshold ∅ []
  end.

Definition clusterByProximity (layers : list Node) (threshold : num)
    : option (list (list Node)) :=
  clusterByProximity_fuel (S (length layers)) layers threshold.


(** [calculateClusterBounds]: the union box, folded from the infinities
    exactly as the source does. *)
Definition calculateClusterBounds (cluster : list Node) : Bounds :=
  match cluster with
  | [] => mkBounds JS.zero JS.zero JS.zero JS.zero JS.zero JS.zero
  | _ =>
      let minTop := fold_left (fun m l => JS.min m (b_top (n_bounds l)))
                              cluster JS.Infinity in
      let minLeft := fold_left (fun m l => JS.min m (b_left (n_bounds l)))
                               cluster JS.Infinity in
      let maxRight := fold_left (fun m l => JS.max m (b_right (n_bounds l)))
                                cluster JS.NegInfinity in
      let maxBottom := fold_left (fun m l => JS.max m (b_bottom (n_bounds l)))
                                 cluster JS.NegInfinity in
      mkBounds minTop minLeft maxRight maxBottom
               (JS.sub maxRight minLeft) (JS.sub maxBottom minTop)
  end.

Definition getVerticalOverlap (topA bottomA topB bottomB : num) : num :=
  JS.max JS.zero (JS.sub (JS.min bottomA bottomB) (JS.max topA topB)).

(** The running bounds of the open row in [groupIntoRows]; once a second
    cluster is merged the object no longer has a width. *)
Record RowBounds : Type := mkRowBounds {
  rb_top : num; rb_bottom : num; rb_left : num; rb_right : num;
  rb_height : num
}.

Definition rowBounds_of (b : Bounds) : RowBounds :=
  mkRowBounds (b_top b) (b_bottom b) (b_left b) (b_right b) (b_height b).

(** The body of the [for] loop of [groupIntoRows], after the first
    cluster.  The state is the closed rows, the open row and its bounds. *)
Fixpoint groupLoop (clusters : list (list Node)) (rows : list (list (list Node)))
    (currentRow : list (list Node)) (currentRowBounds : RowBounds)
    : list (list (list Node)) :=
  match clusters with
  | [] => rows ++ [currentRow]
  | cluster :: rest =>
      let clusterBounds := calculateClusterBounds cluster in
      let overlapY := getVerticalOverlap (rb_top currentRowBounds)
                        (rb_bottom currentRowBounds)
                        (b_top clusterBounds) (b_bottom clusterBounds) in
      let minHeight := JS.min (rb_height currentRowBounds)
                              (b_height clusterBounds) in
      if JS.gt overlapY (JS.mul minHeight (JS.Num 0.3))
      then
        let t := JS.min (rb_top currentRowBounds) (b_top clusterBounds) in
        let b := JS.max (rb_bottom currentRowBounds) (b_bottom clusterBounds) in
        groupLoop rest rows (currentRow ++ [cluster])
          (mkRowBounds t b
             (JS.min (rb_left currentRowBounds) (b_left clusterBounds))
             (JS.max (rb_right currentRowBounds) (b_right clusterBounds))
             (JS.sub b t))
      else
        groupLoop rest (rows ++ [currentRow]) [cluster]
          (rowBounds_of clusterBounds)
  end.

Definition groupIntoRows (clusters : list (list Node))
    : list (list (list Node)) :=
  match clusters with
  | [] => []
  | cluster :: rest =>
      groupLoop rest [] [cluster] (rowBounds_of (calculateClusterBounds cluster))
  end.

(** [calculateClusterBounds] applied to a row element: a bare layer has no
    [length] and is not iterable, so the [for ... of] loop throws. *)
Definition calculateClusterBounds_item (it : RowItem) : JS.result Bounds :=
  match it with
  | ClusterItem c => JS.Ok (calculateClusterBounds c)
  | LayerItem _ => JS.TypeError "cluster is not iterable"
  end.

Definition detectContainerBoundaries (clusters : list (list Node))
    (canvasWidth : num) : list (list RowItem) :=
  match clusters with
  | [] => []
  | [c] => [List.map LayerItem c]
  | _ =>
      let sortedClusters :=
        JS.sort (fun a b => JS.sub (b_top (calculateClusterBounds a))
                                   (b_top (calculateClusterBounds b)))
                clusters in
      List.map (List.map ClusterItem) (groupIntoRows sortedClusters)
  end.

Record Pattern : Type := mkPattern {
  isRepeating : bool;
  count : option nat;
  avgWidth : option num;
  avgHeight : option num
}.

Definition detectRepeatingPattern (clusters : list RowItem)
    : JS.result Pattern :=
  if (length clusters <? 2)%nat then JS.Ok (mkPattern false None None None)
  else
    JS.bind (JS.mapM calculateClusterBounds_item clusters) (fun bounds =>
      let widths := List.map b_width bounds in
      let heights := List.map b_height bounds in
      let avgW := JS.div (fold_left JS.add widths JS.zero)
                         (JS.of_nat (length widths)) in
      let avgH := JS.div (fold_left JS.add heights JS.zero)
                         (JS.of_nat (length heights)) in
      let rep :=
        forallb (fun b =>
                   JS.lt (JS.abs (JS.sub (b_width b) avgW))
                         (JS.mul avgW (JS.Num 0.2)) &&
                   JS.lt (JS.abs (JS.sub (b_height b) avgH))
                         (JS.mul avgH (JS.Num 0.2)))
                bounds in
      JS.Ok (mkPattern rep (Some (length clusters)) (Some avgW) (Some avgH))).

End SpatialClusteringHelper.

(* ===================================================================== *)
(** ** ContainerLayoutHelper *)
(* ===================================================================== *)

Module ContainerLayoutHelper.

Definition getVisibleChildren (children : list Node) : list Node :=
  List.filter (fun c => n_visible c
                        && JS.gt (b_width (n_bounds c)) JS.zero
                        && JS.gt (b_height (n_bounds c)) JS.zero)
              children.

Definition rowPair (a b : Bounds) : bool :=
  let overlapY := JS.max JS.zero
                    (JS.sub (JS.min (b_bottom a) (b_bottom b))
                            (JS.max (b_top a) (b_top b))) in
  let minHeight := JS.min (b_height a) (b_height b) in
  JS.gt overlapY (JS.mul minHeight (JS.Num 0.3)).

(** The two nested loops over pairs [i < j], leaving at the first hit. *)
Fixpoint hasRowStructure (children : list Node) : bool :=
  match children with
  | [] => false
  | a :: rest =>
      existsb (fun b => rowPair (n_bounds a) (n_bounds b)) rest
      || hasRowStructure rest
  end.

Definition detectFlexDirection (children : list Node) : string :=
  if (length children <? 2)%nat then "column"
  else if hasRowStructure children then "row" else "column".

Fixpoint wrapSweep (items : list Node) (rows : nat)
    (currentTop currentBottom : num) : nat :=
  match items with
  | [] => rows
  | it :: rest =>
      let item := n_bounds it in
      let centerLine :=
        JS.add currentTop
               (JS.div (JS.sub currentBottom currentTop) (JS.of_Z 2)) in
      if JS.gt (b_top item) centerLine
      then wrapSweep rest (S rows) (b_top item) (b_bottom item)
      else wrapSweep rest rows currentTop
                     (JS.max currentBottom (b_bottom item))
  end.

Definition detectWrap (children : list Node) : bool :=
  if (length children <? 3)%nat then false
  else
    match JS.sort (fun a b => JS.sub (b_top (n_bounds a)) (b_top (n_bounds b)))
                  children with
    | [] => false
    | first :: rest =>
        (1 <? wrapSweep rest 1 (b_top (n_bounds first))
                        (b_bottom (n_bounds first)))%nat
    end.

Definition axisKey (direction : string) (c : Node) : num :=
  if String.eqb direction "row" then b_left (n_bounds c)
  else b_top (n_bounds c).

Definition axisDistance (direction : string) (a b : Bounds) : num :=
  if String.eqb direction "row"
  then LayoutDistanceHelper.horizontalDistance a b
  else LayoutDistanceHelper.verticalDistance a b.

(** The loop over consecutive pairs of the sorted children, keeping the
    gaps that are greater than zero. *)
Fixpoint positiveGaps (direction : string) (sorted : list Node) : list num :=
  match sorted with
  | a :: ((b :: _) as rest) =>
      let gap := axisDistance direction (n_bounds a) (n_bounds b) in
      if JS.gt gap JS.zero then gap :: positiveGaps direction rest
      else positiveGaps direction rest
  | _ => []
  end.

Definition calculateGap (children : list Node) (direction : string) : num :=
  if (length children <? 2)%nat then JS.zero
  else
    let sorted :=
      JS.sort (fun a b => JS.sub (axisKey direction a) (axisKey direction b))
              children in
    let gaps := JS.sort (fun a b => JS.sub a b)
                        (positiveGaps direction sorted) in
    match gaps with
    | [] => JS.zero
    | _ => nth (length gaps / 2) gaps JS.zero
    end.

Definition calculateLayout (children : list Node) : Layout :=
  let visibleChildren := getVisibleChildren children in
  if (length visibleChildren <? 2)%nat
  then mkLayout "column" "nowrap" (Some JS.zero) "flex-start" "stretch"
  else
    let direction := detectFlexDirection visibleChildren in
    let wrap := if String.eqb direction "row" && detectWrap visibleChildren
                then "wrap" else "nowrap" in
    let gap := calculateGap visibleChildren direction in
    mkLayout direction wrap (Some gap)
      (if String.eqb direction "row" then "space-between" else "flex-start")
      (if String.eqb direction "row" then "flex-start" else "stretch").

End ContainerLayoutHelper.

(* ===================================================================== *)
(** ** TextStyleExtractor *)
(* ===================================================================== *)

Module TextStyleExtractor.

(** [extract(undefined)]: no producer in the repository sets a layer's
    [textData], so this is the only call [classify] can make.  The default
    parameter [{}] gives size 16 at scale 1 and the fallback of every
    helper. *)
Definition extract_undefined : TextInfo :=
  mkTextInfo "" (JS.of_Z 16) "Arial" "#000000" "left" "normal" "1" "none"
             "normal".

End TextStyleExtractor.

(* ===================================================================== *)
(** ** ImageBoxContentClassifier (the text role classifier) *)
(* ===================================================================== *)

Module ImageBoxContentClassifier.

Module NAME_PATTERNS.
Definition heading : list string :=
  ["heading"; "title"; "h1"; "h2"; "h3"; "h4"; "h5"; "h6"; "headline";
   "header"; "name"].
Definition description : list string :=
  ["desc"; "description"; "text"; "paragraph"; "body"; "content";
   "subtitle"; (* sub[-_]?title: *) "subtitle"; "sub-title"; "sub_title";
   "info"].
Definition image : list string :=
  ["img"; "image"; "photo"; "picture"; "pic"; "icon"; "logo"; "thumb";
   "thumbnail"].
End NAME_PATTERNS.

(** The instance state set up by the constructor. *)
Record thresholds : Type := mkThresholds { headingFontSize : num }.

Record Roles : Type := mkRoles {
  r_image : option Node;
  r_heading : option Node;
  r_description : option Node
}.

Record Scored : Type := mkScored {
  s_layer : Node;
  s_score : Z;
  s_top : num
}.

Definition pickImage (imageLayers : list Node) : option Node :=
  match imageLayers with
  | [] => None
  | first :: _ =>
      match List.find (fun l => JS.test_prefix_ci NAME_PATTERNS.image (n_name l))
                      imageLayers with
      | Some l => Some l
      | None => Some first
      end
  end.

Definition noTextInfo {A : Type} : JS.result A :=
  JS.TypeError "cannot destructure textInfo of undefined".

Definition assignSingleText (th : thresholds) (layer : Node) (result : Roles)
    : JS.result Roles :=
  match n_textInfo layer with
  | None => noTextInfo
  | Some ti =>
      if JS.ge (ti_fontSize ti) (headingFontSize th)
         || JS.test_prefix_ci NAME_PATTERNS.heading (n_name layer)
      then JS.Ok (mkRoles (r_image result) (Some layer) (r_description result))
      else JS.Ok (mkRoles (r_image result) (r_heading result) (Some layer))
  end.

Definition scoreLayer (layer : Node) : JS.result Scored :=
  match n_textInfo layer with
  | None => noTextInfo
  | Some ti =>
      let text := ti_text ti in
      let fontSize := ti_fontSize ti in
      let name := n_name layer in
      let score := 0%Z in
      let score := if JS.test_prefix_ci NAME_PATTERNS.heading name
                   then (score + 50)%Z else score in
      let score := if JS.test_prefix_ci NAME_PATTERNS.description name
                   then (score - 50)%Z else score in
      let score :=
        if JS.ge fontSize (JS.of_Z 24) then (score + 30)%Z
        else if JS.ge fontSize (JS.of_Z 20) then (score + 20)%Z
        else if JS.ge fontSize (JS.of_Z 18) then (score + 10)%Z
        else if JS.le fontSize (JS.of_Z 14) then (score - 20)%Z
        else score in
      let score := if String.eqb (ti_fontWeight ti) "bold"
                   then (score + 15)%Z else score in
      let score :=
        if (String.length text <=? 50)%nat then (score + 10)%Z
        else if (100 <? String.length text)%nat then (score - 15)%Z
        else score in
      let lines := JS.lineCount text in
      let score :=
        if (lines =? 1)%nat then (score + 10)%Z
        else if (2 <? lines)%nat then (score - 10)%Z
        else score in
      JS.Ok (mkScored layer score (b_top (n_bounds layer)))
  end.

Definition classifyTextLayers (textLayers : list Node)
    : JS.result (option Node * option Node) :=
  JS.bind (JS.mapM scoreLayer textLayers) (fun scored0 =>
    let scored := JS.sort (fun a b => JS.of_Z (s_score b - s_score a)) scored0 in
    let heading := option_map s_layer (List.head scored) in
    let description := option_map s_layer (List.last (List.map Some scored) None) in
    match scored with
    | s0 :: s1 :: _ =>
        if (s_score s0 =? s_score s1)%Z
        then
          let byTop := JS.sort (fun a b => JS.sub (s_top a) (s_top b)) scored in
          JS.Ok (option_map s_layer (List.head byTop),
                 option_map s_layer (List.last (List.map Some byTop) None))
        else JS.Ok (heading, description)
    | _ => JS.Ok (heading, description)
    end).

(** [child.textInfo ??= TextStyleExtractor.extract(child.textData)] as a
    function on the value of the child: the object after the assignment. *)
Definition fillTextInfo (child : Node) : Node :=
  match n_type child, n_textInfo child with
  | TText, None =>
      mkNode (n_id child) (n_name child) (n_type child) (n_visible child)
        (n_bounds child) (n_children child)
        (Some TextStyleExtractor.extract_undefined) (n_hasImage child)
        (n_widgetType child) (n_badgeClass child) (n_isSmartDetected child)
        (n_confidence child) (n_layout child) (n_compositeData child)
        (n_isComposite child) (n_sourceLayerCount child)
        (n_isRepeatingPattern child) (n_patternCount child)
  | _, _ => child
  end.

Definition isImageChild (child : Node) : bool :=
  bool_decide (n_type child = TImage) || n_hasImage child.

(** [classify(children)], on values: the roles refer to the children as
    they are once the loop has run. *)
Definition classify (th : thresholds) (children : list Node)
    : JS.result Roles :=
  let children' := List.map fillTextInfo children in
  let imageLayers := List.filter isImageChild children' in
  let textLayers :=
    List.filter (fun c => bool_decide (n_type c = TText)) children' in
  let result := mkRoles (pickImage imageLayers) None None in
  match textLayers with
  | [] => JS.Ok result
  | [single] => assignSingleText th single result
  | _ =>
      JS.bind (classifyTextLayers textLayers) (fun hd =>
        JS.Ok (mkRoles (r_image result) (fst hd) (snd hd)))
  end.

End ImageBoxContentClassifier.

(* ===================================================================== *)
(** ** StructureInferenceEngine *)
(* ===================================================================== *)

Module StructureInferenceEngine.

Module THRESHOLDS.
Definition HEADING_FONT_SIZE : num := JS.of_Z 24.
Definition BUTTON_MAX_WIDTH : num := JS.of_Z 300.
Definition BUTTON_MAX_HEIGHT : num := JS.of_Z 80.
Definition BUTTON_ASPECT_MIN : num := JS.of_Z 2.
Definition BUTTON_ASPECT_MAX : num := JS.of_Z 6.
Definition ICON_MAX_SIZE : num := JS.of_Z 100.
Definition PROXIMITY_THRESHOLD : num := JS.of_Z 50.
End THRESHOLDS.

(** The object [inferWidgetType] returns. *)
Record Inference : Type := mkInference {
  widgetType : WidgetType;
  confidence : num;
  layers : list Node;
  compositeData : option CompositeData
}.

Record Composition : Type := mkComposition {
  hasImage : bool;
  hasSmallImage : bool;
  hasHeading : bool;
  hasText : bool;
  hasButtonShape : bool;
  textCount : nat;
  imageCount : nat;
  texts : list string;
  headings : list Node;
  images : list Node
}.

(** [layer.type === 'text' || layer.textInfo]. *)
Definition isTextLayer (layer : Node) : bool :=
  bool_decide (n_type layer = TText) || bool_decide (is_Some (n_textInfo layer)).

(** [layer.type === 'image' || layer.type === 'shape' || layer.hasImage]. *)
Definition isImageLayer (layer : Node) : bool :=
  bool_decide (n_type layer = TImage) || bool_decide (n_type layer = TShape)
  || n_hasImage layer.

(** [layer.textInfo?.fontSize || 16]. *)
Definition fontSizeOf (layer : Node) : num :=
  match n_textInfo layer with
  | Some ti => JS.or_default (ti_fontSize ti) (JS.of_Z 16)
  | None => JS.of_Z 16
  end.

(** [layer.textInfo?.text || layer.name]. *)
Definition textOf (layer : Node) : string :=
  match n_textInfo layer with
  | Some ti => JS.str_or (ti_text ti) (n_name layer)
  | None => n_name layer
  end.

Definition isButtonShape (layer : Node) : bool :=
  let width := b_width (n_bounds layer) in
  let height := b_height (n_bounds layer) in
  if negb (JS.truthy width) || negb (JS.truthy height) then false
  else
    let ratio := JS.div width height in
    JS.le width THRESHOLDS.BUTTON_MAX_WIDTH
    && JS.le height THRESHOLDS.BUTTON_MAX_HEIGHT
    && JS.ge ratio THRESHOLDS.BUTTON_ASPECT_MIN
    && JS.le ratio THRESHOLDS.BUTTON_ASPECT_MAX.

Definition classifySingleLayer (layer : Node) : Inference :=
  if isTextLayer layer then
    if JS.ge (fontSizeOf layer) THRESHOLDS.HEADING_FONT_SIZE
    then mkInference WHeading (JS.Num 0.9) [layer] None
    else mkInference WTextEditor (JS.Num 0.9) [layer] None
  else if isButtonShape layer then
    mkInference WButton (JS.Num 0.7) [layer] None
  else if isImageLayer layer then
    mkInference WImage (JS.Num 0.85) [layer] None
  else mkInference WContainer (JS.Num 0.3) [layer] None.

Definition emptyComposition : Composition :=
  mkComposition false false false false false 0 0 [] [] [].

(** One pass of the loop body of [analyzeComposition]. *)
Definition analyzeLayer (c : Composition) (layer : Node) : Composition :=
  if isTextLayer layer then
    let fontSize := fontSizeOf layer in
    let text := textOf layer in
    if JS.ge fontSize THRESHOLDS.HEADING_FONT_SIZE
    then mkComposition (hasImage c) (hasSmallImage c) true (hasText c)
           (hasButtonShape c) (S (textCount c)) (imageCount c) (texts c)
           (headings c ++ [layer]) (images c)
    else mkComposition (hasImage c) (hasSmallImage c) (hasHeading c) true
           (hasButtonShape c) (S (textCount c)) (imageCount c)
           (texts c ++ [text]) (headings c) (images c)
  else if isImageLayer layer then
    let small := JS.le (b_width (n_bounds layer)) THRESHOLDS.ICON_MAX_SIZE
                 && JS.le (b_height (n_bounds layer)) THRESHOLDS.ICON_MAX_SIZE in
    mkComposition (if small then hasImage c else true)
      (if small then true else hasSmallImage c)
      (hasHeading c) (hasText c)
      (if isButtonShape layer then true else hasButtonShape c)
      (textCount c) (S (imageCount c)) (texts c) (headings c)
      (images c ++ [layer])
  else c.

Definition analyzeComposition (cluster : list Node) : Composition :=
  fold_left analyzeLayer cluster emptyComposition.

Definition titleOf (composition : Composition) : string :=
  match headings composition with
  | heading :: _ => textOf heading
  | [] => ""
  end.

Definition descriptionOf (composition : Composition) : string :=
  match texts composition with
  | t :: _ => t
  | [] => ""
  end.

Definition extractImageBoxData (cluster : list Node)
    (composition : Composition) : CompositeData :=
  ImageBoxData (titleOf composition) (descriptionOf composition) "".

Definition extractIconBoxData (cluster : list Node)
    (composition : Composition) : CompositeData :=
  IconBoxData (titleOf composition) (descriptionOf composition) "".

Definition inferWidgetType (cluster : list Node) : Inference :=
  match cluster with
  | [] => mkInference WContainer JS.zero [] None
  | [single] => classifySingleLayer single
  | _ =>
      let composition := analyzeComposition cluster in
      if hasImage composition && hasHeading composition then
        mkInference WImageBox (JS.Num 0.85) cluster
          (Some (extractImageBoxData cluster composition))
      else if hasSmallImage composition && hasHeading composition
              && hasText composition then
        mkInference WIconBox (JS.Num 0.8) cluster
          (Some (extractIconBoxData cluster composition))
      else if hasButtonShape composition && (textCount composition =? 1)%nat then
        mkInference WButton (JS.Num 0.75) cluster None
      else if (3 <=? textCount composition)%nat && negb (hasImage composition) then
        mkInference WIconList (JS.Num 0.7) cluster
          (Some (ListData (texts composition)))
      else mkInference WContainer (JS.Num 0.5) cluster None
  end.

(** [inferWidgetType] applied to a row element.  A bare layer is neither
    falsy nor has a [length], so it reaches [analyzeComposition], whose
    [for ... of] throws. *)
Definition inferWidgetType_item (it : RowItem) : JS.result Inference :=
  match it with
  | ClusterItem c => JS.Ok (inferWidgetType c)
  | LayerItem _ => JS.TypeError "cluster is not iterable"
  end.

Record RepeatingPatterns : Type := mkRepeatingPatterns {
  rp_isRepeating : bool;
  rp_count : option nat;
  rp_widgetType : option WidgetType;
  rp_avgWidth : option num;
  rp_avgHeight : option num;
  rp_clusters : list RowItem
}.

Definition detectRepeatingPatterns (clusters : list RowItem)
    : JS.result RepeatingPatterns :=
  JS.bind (SpatialClusteringHelper.detectRepeatingPattern clusters)
    (fun pattern =>
       if negb (SpatialClusteringHelper.isRepeating pattern)
       then JS.Ok (mkRepeatingPatterns false None None None None clusters)
       else
         match clusters with
         | [] =>
             (* [inferWidgetType(undefined)] *)
             JS.Ok (mkRepeatingPatterns true
                      (SpatialClusteringHelper.count pattern)
                      (Some WContainer)
                      (SpatialClusteringHelper.avgWidth pattern)
                      (SpatialClusteringHelper.avgHeight pattern)
                      clusters)
         | c0 :: _ =>
             JS.bind (inferWidgetType_item c0) (fun sampleType =>
               JS.Ok (mkRepeatingPatterns true
                        (SpatialClusteringHelper.count pattern)
                        (Some (widgetType sampleType))
                        (SpatialClusteringHelper.avgWidth pattern)
                        (SpatialClusteringHelper.avgHeight pattern)
                        clusters))
         end).

Definition scoreCompositeMatch (cluster : list Node) (w : WidgetType) : num :=
  let inferred := inferWidgetType cluster in
  if bool_decide (widgetType inferred = w) then confidence inferred
  else JS.zero.

(** The object spread [{...l, widgetType, badgeClass}] that turns a source
    layer into a child of a composite widget. *)
Definition compositeChild (l : Node) : Node :=
  mkNode (n_id l) (n_name l) (n_type l) (n_visible l) (n_bounds l)
    (n_children l) (n_textInfo l) (n_hasImage l)
    (Some (widgetType (classifySingleLayer l)))
    (Some (if bool_decide (n_type l = TText)
           then (if match n_textInfo l with
                    | Some ti => JS.ge (ti_fontSize ti) (JS.of_Z 24)
                    | None => false
                    end
                 then "heading" else "text")
           else (if n_hasImage l || bool_decide (n_type l = TImage)
                 then "image" else "container")))
    (n_isSmartDetected l) (n_confidence l) (n_layout l) (n_compositeData l)
    (n_isComposite l) (n_sourceLayerCount l) (n_isRepeatingPattern l)
    (n_patternCount l).

(** [buildClassifiedLayer], given the identifier [generateId()] returned. *)
Definition buildClassifiedLayer (newId : string) (inference : Inference)
    (bounds : Bounds) : Node :=
  let w := widgetType inference in
  let isText := bool_decide (w = WHeading) || bool_decide (w = WTextEditor) in
  mkNode newId
    ("Smart " ++ widgetType_name w)
    (if bool_decide (w = WContainer) then TGroup
     else match layers inference with
          | l0 :: _ => n_type l0
          | [] => TGroup
          end)
    true bounds
    (match compositeData inference with
     | Some _ => List.map compositeChild (layers inference)
     | None => []
     end)
    (if isText
     then match layers inference with
          | l0 :: _ => n_textInfo l0
          | [] => None
          end
     else None)
    false
    (Some w) None true (Some (confidence inference)) None
    (compositeData inference)
    (bool_decide (is_Some (compositeData inference)))
    (if bool_decide (w = WContainer)
     then Some (length (layers inference)) else None)
    false None.

End StructureInferenceEngine.

(* ===================================================================== *)
(** ** layerClassifier (name-based classification of the decoded tree) *)
(* ===================================================================== *)

Module layerClassifier.

Definition COMPOSITE_WIDGETS : list WidgetType :=
  [WImageBox; WIconBox; WIconList].

Module PATTERNS.
Definition heading : list string :=
  ["heading"; "title"; "h1"; "h2"; "h3"; "h4"; "h5"; "h6"; "headline";
   "header"].
Definition button : list string := ["btn"; "button"; "cta"; "action"].
Definition image : list string :=
  ["img"; "image"; "photo"; "picture"; "pic"; "banner"; "hero"].
Definition text : list string :=
  ["text"; "paragraph"; "desc"; "description"; "body"; "content"; "p"].
Definition iconBox : list string :=
  ["iconbox"; "icon-box"; "icon_box"; "featurebox"; "feature-box";
   "feature_box"; "service"].
Definition imageBox : list string :=
  ["imagebox"; "image-box"; "image_box"; "card"; "product"; "item";
   "blogpost"; "blog-post"; "blog_post"].
Definition iconList : list string :=
  ["iconlist"; "icon-list"; "icon_list"; "list"; "menu"; "nav";
   "features"; "bullets"].
Definition container : list string :=
  ["container"; "section"; "row"; "wrapper"; "box"; "group"; "block"].
End PATTERNS.

(** [BADGE_CLASSES[w] || 'container'] *)
Definition BADGE_CLASSES (w : WidgetType) : string :=
  match w with
  | WContainer => "container"
  | WHeading => "heading"
  | WTextEditor => "text"
  | WButton => "button"
  | WImage => "image"
  | WImageBox => "image-box"
  | WIconBox => "icon-box"
  | WIconList => "icon-list"
  end.

Definition isHeadingName (name : string) : bool :=
  existsb (fun keyword => JS.includes name keyword)
          ["title"; "heading"; "header"; "headline"; "name"].

Definition isButtonShape (layer : Node) (name : string) : bool :=
  if existsb (fun keyword => JS.includes name keyword)
             ["btn"; "button"; "cta"; "click"; "submit"; "action"]
  then true
  else
    let width := b_width (n_bounds layer) in
    let height := b_height (n_bounds layer) in
    if JS.truthy width && JS.truthy height then
      let ratio := JS.div width height in
      JS.ge ratio (JS.of_Z 2) && JS.le ratio (JS.of_Z 6)
      && JS.le height (JS.of_Z 80)
    else false.

Definition determineWidgetType (layer : Node) : WidgetType :=
  let name := JS.toLowerCase (n_name layer) in
  if JS.test_prefix_ci PATTERNS.button name then WButton
  else if JS.test_prefix_ci PATTERNS.heading name then WHeading
  else if JS.test_prefix_ci PATTERNS.iconBox name then WIconBox
  else if JS.test_prefix_ci PATTERNS.imageBox name then WImageBox
  else if JS.test_prefix_ci PATTERNS.iconList name then WIconList
  else if JS.test_prefix_ci PATTERNS.text name then WTextEditor
  else if JS.test_prefix_ci PATTERNS.image name then WImage
  else if JS.test_prefix_ci PATTERNS.container name then WContainer
  else
    match n_type layer with
    | TGroup => WContainer
    | TText =>
        if JS.ge (StructureInferenceEngine.fontSizeOf layer) (JS.of_Z 24)
           || isHeadingName name
        then WHeading else WTextEditor
    | TImage | TShape =>
        if isButtonShape layer name then WButton else WImage
    end.

Definition isComplexWidget (t : option WidgetType) : bool :=
  match t with
  | Some (WImageBox | WIconBox | WIconList | WContainer | WButton) => true
  | _ => false
  end.

Definition includesType (types : list (option WidgetType)) (w : WidgetType)
    : bool :=
  existsb (fun t => bool_decide (t = Some w)) types.

Definition detectCompositeWidget (children : list Node)
    : option WidgetType :=
  match children with
  | [] => None
  | _ =>
      let types := List.map n_widgetType children in
      let hasImage := includesType types WImage in
      let hasHeading := includesType types WHeading in
      let hasText := includesType types WTextEditor in
      let hasComplexWidgets := existsb isComplexWidget types in
      if hasComplexWidgets then None
      else if hasImage && hasHeading then Some WImageBox
      else
        let textCount :=
          length (List.filter
                    (fun t => bool_decide (t = Some WTextEditor)
                              || bool_decide (t = Some WHeading)) types) in
        if (3 <=? textCount)%nat && negb hasImage then Some WIconList
        else if hasHeading && hasText && negb hasImage then Some WIconBox
        else None
  end.

Fixpoint classifyLayer (layer : Node) : Node :=
  match layer with
  | mkNode id name ty vis b children ti hi _ _ sd conf lay cd ic slc rp pc =>
      let w := determineWidgetType layer in
      match children with
      | _ :: _ =>
          if existsb (fun c => bool_decide (c = w)) COMPOSITE_WIDGETS
          then mkNode id name ty vis b children ti hi (Some w)
                      (Some (BADGE_CLASSES w)) sd conf lay cd ic slc rp pc
          else
            let children' := List.map classifyLayer children in
            match detectCompositeWidget children' with
            | Some compositeType =>
                if bool_decide (w = WContainer)
                then mkNode id name ty vis b children' ti hi
                            (Some compositeType)
                            (Some (BADGE_CLASSES compositeType))
                            sd conf lay cd true slc rp pc
                else mkNode id name ty vis b children' ti hi (Some w)
                            (Some (BADGE_CLASSES w)) sd conf lay cd ic slc rp pc
            | None =>
                mkNode id name ty vis b children' ti hi (Some w)
                       (Some (BADGE_CLASSES w)) sd conf lay cd ic slc rp pc
            end
      | [] =>
          mkNode id name ty vis b children ti hi (Some w)
                 (Some (BADGE_CLASSES w)) sd conf lay cd ic slc rp pc
      end
  end.

Definition classifyLayers (layers : list Node) : list Node :=
  List.map classifyLayer layers.

End layerClassifier.

(* ===================================================================== *)
(** ** RawPSDAdapter (the orchestrator) *)
(* ===================================================================== *)

Module RawPSDAdapter.

Module CONFIG.
Definition PROXIMITY_THRESHOLD : num := JS.of_Z 50.
Definition MIN_CLUSTER_GAP : num := JS.of_Z 80.
Definition ROW_OVERLAP_RATIO : num := JS.Num 0.3.
End CONFIG.

Fixpoint flattenLayer (layer : Node) : list Node :=
  match layer with
  | mkNode _ _ _ _ _ children _ _ _ _ _ _ _ _ _ _ _ _ =>
      match children with
      | [] => [layer]
      | _ => flat_map flattenLayer children
      end
  end.

Definition flattenLayers (layers : list Node) : list Node :=
  flat_map flattenLayer layers.

(** The decoder always supplies [visible] and [bounds], so the tests
    [visible !== false] and [layer.bounds] reduce to the flag itself. *)
Definition isValidLayer (layer : Node) : bool :=
  n_visible layer
  && JS.gt (b_width (n_bounds layer)) JS.zero
  && JS.gt (b_height (n_bounds layer)) JS.zero.

Definition filterValidLayers (layers : list Node) : list Node :=
  List.filter isValidLayer layers.

Definition getBadgeClass (w : WidgetType) : string :=
  match w with
  | WContainer => "container"
  | WHeading => "heading"
  | WTextEditor => "text"
  | WButton => "button"
  | WImage => "image"
  | WImageBox => "image-box"
  | WIconBox => "icon-box"
  | WIconList => "icon-list"
  end.

Definition subClusterLayers (layers : list Node) : option (list (list Node)) :=
  let subThreshold := JS.mul CONFIG.PROXIMITY_THRESHOLD (JS.Num 0.6) in
  SpatialClusteringHelper.clusterByProximity layers subThreshold.

Definition with_children (element : Node) (children : list Node) : Node :=
  mkNode (n_id element) (n_name element) (n_type element) (n_visible element)
    (n_bounds element) children (n_textInfo element) (n_hasImage element)
    (n_widgetType element) (n_badgeClass element) (n_isSmartDetected element)
    (n_confidence element) (n_layout element) (n_compositeData element)
    (n_isComposite element) (n_sourceLayerCount element)
    (n_isRepeatingPattern element) (n_patternCount element).

Definition with_badgeClass (element : Node) (badge : string) : Node :=
  mkNode (n_id element) (n_name element) (n_type element) (n_visible element)
    (n_bounds element) (n_children element) (n_textInfo element)
    (n_hasImage element) (n_widgetType element) (Some badge)
    (n_isSmartDetected element) (n_confidence element) (n_layout element)
    (n_compositeData element) (n_isComposite element)
    (n_sourceLayerCount element) (n_isRepeatingPattern element)
    (n_patternCount element).

Definition union_bounds (elements : list Node) : Bounds :=
  let allBounds := List.map n_bounds elements in
  let t := JS.min_list (List.map b_top allBounds) in
  let l := JS.min_list (List.map b_left allBounds) in
  let r := JS.max_list (List.map b_right allBounds) in
  let b := JS.max_list (List.map b_bottom allBounds) in
  mkBounds t l r b (JS.sub r l) (JS.sub b t).

Section WithIdentifiers.

(** [generateId()] draws from [Math.random]: the [k]-th identifier the
    ambient source hands out is [randomId k]. *)
Variable randomId : nat -> string.

(** Computations that draw identifiers and may throw: the state is the
    number of identifiers drawn so far. *)
Definition M (A : Type) : Type := nat -> JS.result (A * nat).

Definition ret {A : Type} (a : A) : M A := fun k => JS.Ok (a, k).

Definition bindM {A B : Type} (m : M A) (f : A -> M B) : M B :=
  fun k =>
    match m k with
    | JS.Ok (a, k') => f a k'
    | JS.TypeError msg => JS.TypeError msg
    | JS.OutOfFuel => JS.OutOfFuel
    end.

Definition lift {A : Type} (r : JS.result A) : M A :=
  fun k =>
    match r with
    | JS.Ok a => JS.Ok (a, k)
    | JS.TypeError msg => JS.TypeError msg
    | JS.OutOfFuel => JS.OutOfFuel
    end.

Definition generateId : M string := fun k => JS.Ok (randomId k, S k).

Fixpoint mapM {A B : Type} (f : A -> M B) (l : list A) : M (list B) :=
  match l with
  | [] => ret []
  | x :: l' =>
      bindM (f x) (fun y => bindM (mapM f l') (fun ys => ret (y :: ys)))
  end.

Definition buildWidgetFromLayer (layer : Node)
    (inference : StructureInferenceEngine.Inference) : M Node :=
  bindM (match n_id layer with
         | EmptyString => generateId
         | id => ret id
         end)
    (fun id =>
       let w := StructureInferenceEngine.widgetType inference in
       ret (mkNode id (n_name layer) (n_type layer) (n_visible layer)
              (n_bounds layer) [] (n_textInfo layer) (n_hasImage layer)
              (Some w) (Some (getBadgeClass w)) true
              (Some (StructureInferenceEngine.confidence inference))
              None None false None false None)).

(** [processCluster] on a cluster proper.  The recursion descends into
    sub-clusters; [fuel] bounds its depth. *)
Fixpoint processCluster (fuel : nat) (cluster : list Node) : M Node :=
  let inference := StructureInferenceEngine.inferWidgetType cluster in
  let bounds := SpatialClusteringHelper.calculateClusterBounds cluster in
  bindM generateId (fun newId =>
    let element :=
      StructureInferenceEngine.buildClassifiedLayer newId inference bounds in
    bindM
      (if bool_decide (StructureInferenceEngine.widgetType inference = WContainer)
          && (1 <? length cluster)%nat
       then
         match subClusterLayers cluster with
         | None => fun _ => JS.OutOfFuel
         | Some subClusters =>
             if (1 <? length subClusters)%nat
             then
               match fuel with
               | O => fun _ => JS.OutOfFuel
               | S fuel' =>
                   bindM (mapM (processCluster fuel') subClusters)
                         (fun cs => ret (with_children element cs))
               end
             else
               bindM (mapM (fun layer =>
                              buildWidgetFromLayer layer
                                (StructureInferenceEngine.inferWidgetType [layer]))
                           cluster)
                     (fun cs => ret (with_children element cs))
         end
       else ret element)
      (fun element =>
         ret (with_badgeClass element
                (getBadgeClass
                   (match n_widgetType element with
                    | Some w => w
                    | None => WContainer
                    end)))))%nat.

(** [processCluster] applied to a row element: on a bare layer the call
    of [inferWidgetType] throws before anything else happens. *)
Definition processCluster_item (it : RowItem) : M Node :=
  match it with
  | ClusterItem c => processCluster (length c) c
  | LayerItem _ => lift (JS.TypeError "cluster is not iterable")
  end.

(** [clusters.flat()] *)
Definition flat (clusters : list RowItem) : list Node :=
  flat_map (fun it => match it with
                      | ClusterItem c => c
                      | LayerItem l => [l]
                      end) clusters.

Definition createRowContainer (clusters : list RowItem) : M Node :=
  let allLayers := flat clusters in
  let bounds := SpatialClusteringHelper.calculateClusterBounds allLayers in
  bindM (lift (StructureInferenceEngine.detectRepeatingPatterns clusters))
    (fun pattern =>
       let rep := StructureInferenceEngine.rp_isRepeating pattern in
       bindM generateId (fun newId =>
         bindM (mapM processCluster_item clusters) (fun children =>
           ret (mkNode newId
                  (if rep then "Card Row" else "Row Container")
                  TGroup true bounds children None false
                  (Some WContainer) (Some "container") true None
                  (Some (mkLayout "row" "nowrap" None "space-between"
                                  "flex-start"))
                  None false None
                  rep
                  (if rep then StructureInferenceEngine.rp_count pattern
                   else None))))).

Definition createColumnContainer (elements : list Node) : M Node :=
  let bounds := union_bounds elements in
  bindM generateId (fun newId =>
    ret (mkNode newId "Root Container" TGroup true bounds elements None
           false (Some WContainer) (Some "container") true None
           (Some (mkLayout "column" "nowrap" None "flex-start" "stretch"))
           None false None false None)).

(** The [for (const row of rows)] loop of [buildTree]. *)
Fixpoint rowPass (rows : list (list RowItem)) : M (list Node) :=
  match rows with
  | [] => ret []
  | row :: rest =>
      match row with
      | [] => rowPass rest
      | [cluster] =>
          bindM (processCluster_item cluster) (fun element =>
            bindM (rowPass rest) (fun result => ret (element :: result)))
      | _ =>
          bindM (createRowContainer row) (fun rowContainer =>
            bindM (rowPass rest) (fun result => ret (rowContainer :: result)))
      end
  end.

Definition buildTree (rows : list (list RowItem)) (canvasWidth : num)
    : M (list Node) :=
  bindM (rowPass rows) (fun result =>
    match result with
    | [] => ret []
    | [_] => ret result
    | _ => bindM (createColumnContainer result) (fun root => ret [root])
    end).

Definition processLayers (layers : list Node) (canvasWidth : num)
    : M (list Node) :=
  let flatLayers := flattenLayers layers in
  match flatLayers with
  | [] => ret []
  | _ =>
      let validLayers := filterValidLayers flatLayers in
      match validLayers with
      | [] => ret []
      | _ =>
          match SpatialClusteringHelper.clusterByProximity validLayers
                  CONFIG.PROXIMITY_THRESHOLD with
          | None => fun _ => JS.OutOfFuel
          | Some clusters =>
              let rows :=
                SpatialClusteringHelper.detectContainerBoundaries
                  clusters canvasWidth in
              buildTree rows canvasWidth
          end
      end
  end.

End WithIdentifiers.

End RawPSDAdapter.


(* ===================================================================== *)
(** ** Shared objects: a store-passing model *)
(* ===================================================================== *)

(** Layer objects are shared by reference: arrays of layers, inference
    results and role assignments all point at the same objects.  This module
    re-reads the two functions that receive input nodes and build results,
    with the objects held in a store: an object literal allocates, an
    assignment to a property replaces the object at its reference.  Every
    other function of the core only reads its arguments and is embedded as a
    function on values. *)
Module Store.

Abbreviation ref := nat.

Definition deref (h : gmap nat Node) (r : ref) : JS.result Node :=
  match h !! r with
  | Some n => JS.Ok n
  | None => JS.TypeError "not an object"
  end.

(** An object literal: a fresh object, at a reference not in use. *)
Definition alloc (n : Node) (h : gmap nat Node) : ref * gmap nat Node :=
  let r := fresh (dom h) in (r, <[r := n]> h).

(** The loop of [ImageBoxContentClassifier.classify].  Its one assignment to
    a property of a child is [child.textInfo ??= extract(child.textData)],
    which assigns only where the text layer has no [textInfo]. *)
Fixpoint classifyLoop (children : list ref) (h : gmap nat Node)
    : JS.result (gmap nat Node) :=
  match children with
  | [] => JS.Ok h
  | c :: rest =>
      JS.bind (deref h c) (fun child =>
        classifyLoop rest
          (match n_type child, n_textInfo child with
           | TText, None =>
               <[c := ImageBoxContentClassifier.fillTextInfo child]> h
           | _, _ => h
           end))
  end.

(** [classify(children)]: the loop, then the role assignment read from the
    objects as the loop left them. *)
Definition classify (th : ImageBoxContentClassifier.thresholds)
    (children : list ref) (h : gmap nat Node)
    : JS.result (ImageBoxContentClassifier.Roles * gmap nat Node) :=
  JS.bind (classifyLoop children h) (fun h' =>
    JS.bind (JS.mapM (deref h') children) (fun values =>
      JS.bind (ImageBoxContentClassifier.classify th values) (fun roles =>
        JS.Ok (roles, h')))).

(** An inference result whose [layers] are references to the source
    layers. *)
Record Inference : Type := mkInference {
  widgetType : WidgetType;
  confidence : num;
  layers : list ref;
  compositeData : option CompositeData
}.

Definition inferWidgetType (cluster : list ref) (h : gmap nat Node)
    : JS.result Inference :=
  JS.bind (JS.mapM (deref h) cluster) (fun values =>
    let i := StructureInferenceEngine.inferWidgetType values in
    JS.Ok (mkInference (StructureInferenceEngine.widgetType i)
                       (StructureInferenceEngine.confidence i)
                       cluster
                       (StructureInferenceEngine.compositeData i))).

(** An assignment [o.f = v]: the object at [r] is replaced by the object
    with the field set. *)
Definition assign (r : ref) (set : Node -> Node) (h : gmap nat Node)
    : gmap nat Node :=
  match h !! r with
  | Some n => <[r := set n]> h
  | None => h
  end.

Definition set_composite (cd : CompositeData) (children : list Node)
    (n : Node) : Node :=
  mkNode (n_id n) (n_name n) (n_type n) (n_visible n) (n_bounds n) children
    (n_textInfo n) (n_hasImage n) (n_widgetType n) (n_badgeClass n)
    (n_isSmartDetected n) (n_confidence n) (n_layout n) (Some cd) true
    (n_sourceLayerCount n) (n_isRepeatingPattern n) (n_patternCount n).

Definition set_sourceLayerCount (k : nat) (n : Node) : Node :=
  mkNode (n_id n) (n_name n) (n_type n) (n_visible n) (n_bounds n)
    (n_children n) (n_textInfo n) (n_hasImage n) (n_widgetType n)
    (n_badgeClass n) (n_isSmartDetected n) (n_confidence n) (n_layout n)
    (n_compositeData n) (n_isComposite n) (Some k) (n_isRepeatingPattern n)
    (n_patternCount n).

Definition set_textInfo (ti : TextInfo) (n : Node) : Node :=
  mkNode (n_id n) (n_name n) (n_type n) (n_visible n) (n_bounds n)
    (n_children n) (Some ti) (n_hasImage n) (n_widgetType n)
    (n_badgeClass n) (n_isSmartDetected n) (n_confidence n) (n_layout n)
    (n_compositeData n) (n_isComposite n) (n_sourceLayerCount n)
    (n_isRepeatingPattern n) (n_patternCount n).

(** [buildClassifiedLayer(inference, bounds)], statement by statement: the
    object literal allocates the new layer, and the assignments that follow
    ([compositeData], [isComposite] and [children]; [sourceLayerCount];
    [textInfo]) all go to that new layer.  The children of a composite are
    spread copies of the source layers. *)
Definition buildClassifiedLayer (newId : string) (inference : Inference)
    (bounds : Bounds) (h : gmap nat Node) : JS.result (ref * gmap nat Node) :=
  JS.bind (JS.mapM (deref h) (layers inference)) (fun values =>
    let w := widgetType inference in
    let '(layer, h1) :=
      alloc (mkNode newId ("Smart " ++ widgetType_name w)
               (if bool_decide (w = WContainer) then TGroup
                else match values with
                     | l0 :: _ => n_type l0
                     | [] => TGroup
                     end)
               true bounds [] None false (Some w) None true
               (Some (confidence inference)) None None false None false None)
            h in
    let h2 :=
      match compositeData inference with
      | Some cd =>
          assign layer
            (set_composite cd
               (List.map StructureInferenceEngine.compositeChild values)) h1
      | None => h1
      end in
    let h3 :=
      if bool_decide (w = WContainer)
      then assign layer (set_sourceLayerCount (length values)) h2
      else h2 in
    let h4 :=
      if bool_decide (w = WHeading) || bool_decide (w = WTextEditor)
      then match values with
           | l0 :: _ =>
               match n_textInfo l0 with
               | Some ti => assign layer (set_textInfo ti) h3
               | None => h3
               end
           | [] => h3
           end
      else h3 in
    JS.Ok (layer, h4)).


End Store.

(* ===================================================================== *)
(** ** The reading of the specification, where it differs from the code *)
(* ===================================================================== *)

Module AsSpecified.

(** "Vertical gap if nonzero, else horizontal gap if nonzero, else 0." *)
Definition smartDistance (a b : Bounds) : num :=
  let vertical := LayoutDistanceHelper.verticalDistance a b in
  let horizontal := LayoutDistanceHelper.horizontalDistance a b in
  if negb (JS.strict_eq vertical JS.zero) then vertical
  else if negb (JS.strict_eq horizontal JS.zero) then horizontal
  else JS.zero.

(** "The median of the positive gaps; fewer than 2 positive gaps -> 0":
    the mean of the two middle values for an even count. *)
Definition median (sortedGaps : list num) : num :=
  let n := length sortedGaps in
  if (n <? 2)%nat then JS.zero
  else if Nat.even n
       then JS.div (JS.add (nth (n / 2 - 1) sortedGaps JS.zero)
                           (nth (n / 2) sortedGaps JS.zero))
                   (JS.of_Z 2)
       else nth (n / 2) sortedGaps JS.zero.

Definition calculateGap (children : list Node) (direction : string) : num :=
  let sorted :=
    JS.sort (fun a b => JS.sub (ContainerLayoutHelper.axisKey direction a)
                               (ContainerLayoutHelper.axisKey direction b))
            children in
  median (JS.sort (fun a b => JS.sub a b)
                  (ContainerLayoutHelper.positiveGaps direction sorted)).

End AsSpecified.

(* ===================================================================== *)
(** ** Sample inputs *)
(* ===================================================================== *)

Module Samples.

(** A visible 10px-high shape spanning [l, r] horizontally. *)
Definition box (id : string) (l r : Z) : Node :=
  layer id id TShape true (rect (JS.of_Z 0) (JS.of_Z l) (JS.of_Z r) (JS.of_Z 10))
        [] None true.

(** Two rectangles separated on both axes: 20 vertically, 5 horizontally. *)
Definition rectA : Bounds := rect (JS.of_Z 0) (JS.of_Z 0) (JS.of_Z 10) (JS.of_Z 10).
Definition rectB : Bounds := rect (JS.of_Z 30) (JS.of_Z 15) (JS.of_Z 25) (JS.of_Z 40).

(** Five boxes in a row whose adjacent gaps are 10, 12, 11 and 90, given
    out of order. *)
Definition gapRow : list Node :=
  [box "c" 42 52; box "a" 0 10; box "e" 163 173; box "b" 20 30; box "d" 63 73].

(** Two boxes in a row, 10 apart: a single positive gap. *)
Definition gapPair : list Node := [box "a" 0 10; box "b" 20 30].

(** Two boxes spanning x = [0,10] and x = [15,25]: 5 apart. *)
Definition boxP : Node := box "p" 0 10.
Definition boxQ : Node := box "q" 15 25.
Definition nearPair : list Node := [boxP; boxQ].

Definition boxPover : Node := box "p" 5 20.
Definition overlappingTwins : list Node := [boxP; boxPover].

(** Text layers. *)
Definition style (text : string) (fontSize : Z) (fontWeight : string) : TextInfo :=
  mkTextInfo text (JS.of_Z fontSize) "Arial" "#000000" "left" fontWeight "1"
             "none" "normal".

Definition textLayer (id name : string) (top : Z) (ti : TextInfo) : Node :=
  layer id name TText true
        (rect (JS.of_Z top) (JS.of_Z 0) (JS.of_Z 200) (JS.of_Z (top + 30)))
        [] (Some ti) false.

(** A 300x200 picture, a 28px heading and two 16px body texts. *)
Definition photo : Node :=
  layer "i1" "Layer 1" TImage true
        (rect (JS.of_Z 0) (JS.of_Z 0) (JS.of_Z 300) (JS.of_Z 200)) [] None true.
Definition heading28 : Node :=
  textLayer "t1" "Layer 2" 210 (style "Our services" 28 "normal").
Definition body1 : Node :=
  textLayer "t2" "Layer 3" 250 (style "First line of copy" 16 "normal").
Definition body2 : Node :=
  textLayer "t3" "Layer 4" 290 (style "Second line of copy" 16 "normal").

(** The two role candidates. *)
Definition title_x : Node :=
  textLayer "r1" "title_x" 0 (style "Welcome" 30 "normal").
Definition desc_y : Node :=
  textLayer "r2" "desc_y" 40 (style "A short description" 14 "normal").

(** A decoded group: its bounds are those of its children. *)
Definition group (id name : string) (children : list Node) : Node :=
  layer id name TGroup true
        (SpatialClusteringHelper.calculateClusterBounds children) children
        None false.

(** A finished card (a group named "card_1" holding a picture and a title),
    a heading next to it, and the group that holds both. *)
Definition card : Node :=
  group "g1" "card_1" [photo; textLayer "t9" "title" 210 (style "Card" 28 "bold")].
Definition sectionGroup : Node := group "g0" "Group 1" [card; heading28].

(** The scenario of the repository's own check: a heading, a text and two
    finished cards in one group. *)
Definition cardsGroup : Node :=
  group "g2" "Group 2" [heading28; body1; card; card].

(** The same heading and text without the cards. *)
Definition textsGroup : Node := group "g3" "Group 3" [heading28; body1].

(** A source of identifiers: the [k]-th draw is "gen" followed by [k]. *)
Definition randomId (k : nat) : string := "gen" ++ pretty k.

(** A text far below everything else. *)
Definition farText : Node :=
  textLayer "f1" "Layer 9" 1000 (style "far away" 16 "normal").

(** A hidden layer. *)
Definition hiddenBox : Node :=
  layer "h1" "Layer 5" TShape false
        (rect (JS.of_Z 0) (JS.of_Z 0) (JS.of_Z 10) (JS.of_Z 10)) [] None true.

(** Layers whose bounds carry non-finite values: an unbounded box, a box
    whose top and bottom are NaN beside a 10x10 size, and a box whose width
    is NaN. *)
Definition unboundedBox : Node :=
  layer "n1" "Layer 6" TShape true
        (rect (JS.of_Z 0) (JS.of_Z 0) JS.Infinity JS.Infinity) [] None true.
Definition nanEdgeBox : Node :=
  layer "n2" "Layer 7" TShape true
        (mkBounds JS.NaN (JS.of_Z 0) (JS.of_Z 10) JS.NaN (JS.of_Z 10) (JS.of_Z 10))
        [] None true.
Definition nanWidthBox : Node :=
  layer "n3" "Layer 8" TShape true
        (mkBounds (JS.of_Z 0) (JS.of_Z 0) JS.NaN (JS.of_Z 10) JS.NaN (JS.of_Z 10))
        [] None true.


End Samples.

(* ===================================================================== *)
(** ** Notions used to state the clustering properties *)
(* ===================================================================== *)

Module ClusterSpec.
Import SpatialClusteringHelper.
Local Open Scope list_scope.

(** The set of ids of a list of layers. *)
Definition ids (l : list Node) : gset string := list_to_set (List.map n_id l).

(** The link the clustering follows: the gap between the two bounds is
    within the threshold. *)
Definition near (threshold : num) (a b : Node) : Prop :=
  JS.surd_le (getMinDistance (n_bounds a) (n_bounds b)) threshold = true.

(** One hop between two layers of the input, and chains of such hops. *)
Definition hop (all : list Node) (threshold : num) (a b : Node) : Prop :=
  a ∈ all /\ b ∈ all /\ near threshold a b.

Definition linked (all : list Node) (threshold : num) : Node -> Node -> Prop :=
  rtc (hop all threshold).


Section Invariants.
Variables (all : list Node) (threshold : num).

(** What holds of the state of [expandCluster] between two passes of its
    [while] loop, for the expansion started from [seed] with [visited0]
    visited beforehand. *)
Record bfs_inv (seed : Node) (visited0 : gset string) (st : bfs) : Prop := {
  inv_visited : bfs_visited st = ids (bfs_cluster st) ∪ visited0;
  inv_nodup : NoDup (List.map n_id (bfs_cluster st));
  inv_fresh : forall x, x ∈ bfs_cluster st -> n_id x ∉ visited0;
  inv_all : forall x, x ∈ bfs_cluster st -> x ∈ all;
  inv_queue : forall x, x ∈ bfs_queue st -> x ∈ bfs_cluster st;
  inv_closed : forall x, x ∈ bfs_cluster st ->
      x ∈ bfs_queue st \/
      forall y, y ∈ all -> isNeighbor threshold x y = true ->
                n_id y ∈ bfs_visited st;
  inv_chain : forall x, x ∈ bfs_cluster st -> linked all threshold seed x;
  inv_seed : seed ∈ bfs_cluster st
}.

(** The quantity that bounds the remaining passes of the [while] loop. *)
Definition bfs_measure (st : bfs) : nat :=
  length (bfs_queue st) + size (ids all ∖ bfs_visited st).

(** What holds of the outer loop of [clusterByProximity] once the layers
    [done] have been looked at. *)
Record loop_inv (done : list Node) (visited : gset string)
    (clusters : list (list Node)) : Prop := {
  li_visited : visited = ids (concat clusters);
  li_nodup : NoDup (List.map n_id (concat clusters));
  li_all : forall x, x ∈ concat clusters -> x ∈ all;
  li_done : forall x, x ∈ done -> n_id x ∈ visited;
  li_nonempty : forall c, c ∈ clusters -> c <> [];
  li_chain : forall c, c ∈ clusters ->
      exists seed, seed ∈ c /\ forall x, x ∈ c -> linked all threshold seed x;
  li_closed : NoDup (List.map n_id all) ->
      forall c, c ∈ clusters -> forall x, x ∈ c ->
      forall y, y ∈ all -> isNeighbor threshold x y = true -> y ∈ c
}.

End Invariants.

End ClusterSpec.

(* ===================================================================== *)
(** ** Notions used to state the classification properties *)
(* ===================================================================== *)

Module InferenceSpec.
Import StructureInferenceEngine.

(** A member the composition analysis counts as a regular image: it is not
    taken as text, it is an image or shape, and it is not icon-sized. *)
Definition isRegularImage (l : Node) : bool :=
  negb (isTextLayer l) && isImageLayer l
  && negb (JS.le (b_width (n_bounds l)) THRESHOLDS.ICON_MAX_SIZE
           && JS.le (b_height (n_bounds l)) THRESHOLDS.ICON_MAX_SIZE).

(** A member counted as a heading: text whose size reaches 24. *)
Definition isHeadingText (l : Node) : bool :=
  isTextLayer l && JS.ge (fontSizeOf l) THRESHOLDS.HEADING_FONT_SIZE.

(** A member counted as body text: text below the heading size. *)
Definition isBodyText (l : Node) : bool :=
  isTextLayer l && negb (JS.ge (fontSizeOf l) THRESHOLDS.HEADING_FONT_SIZE).

End InferenceSpec.

(* ===================================================================== *)
(** ** Notions used to state the orchestrator properties *)
(* ===================================================================== *)

Module AdapterSpec.

(** The layer with its four edges replaced and everything else kept. *)
Definition with_edges (l : Node) (t lf r b : num) : Node :=
  mkNode (n_id l) (n_name l) (n_type l) (n_visible l)
    (mkBounds t lf r b (b_width (n_bounds l)) (b_height (n_bounds l)))
    (n_children l) (n_textInfo l) (n_hasImage l) (n_widgetType l)
    (n_badgeClass l) (n_isSmartDetected l) (n_confidence l) (n_layout l)
    (n_compositeData l) (n_isComposite l) (n_sourceLayerCount l)
    (n_isRepeatingPattern l) (n_patternCount l).

(** Rows as [groupIntoRows] builds them: every element is a cluster. *)
Definition rows_of_clusters (rows : list (list RowItem)) : Prop :=
  forall row, row ∈ rows -> forall it, it ∈ row -> exists c, it = ClusterItem c.

(** The number of rows that hold at least one cluster. *)
Definition nonempty_rows (rows : list (list RowItem)) : nat :=
  length (List.filter (fun row => negb (Nat.eqb (length row) 0)) rows).

(** The synthesized root: a column container around [elements]. *)
Definition is_column_root (root : Node) (newId : string) (elements : list Node)
    : Prop :=
  n_id root = newId /\
  n_name root = "Root Container" /\
  n_type root = TGroup /\
  n_widgetType root = Some WContainer /\
  n_children root = elements /\
  option_map lay_direction (n_layout root) = Some "column" /\
  n_bounds root = RawPSDAdapter.union_bounds elements.

(** No edge of the box is NaN. *)
Definition edges_not_NaN (b : Bounds) : Prop :=
  JS.not_NaN (b_top b) /\ JS.not_NaN (b_left b) /\
  JS.not_NaN (b_right b) /\ JS.not_NaN (b_bottom b).

(** The box [inner] lies within the box [outer]. *)
Definition within (inner outer : Bounds) : Prop :=
  JS.le (b_top outer) (b_top inner) = true /\
  JS.le (b_left outer) (b_left inner) = true /\
  JS.le (b_right inner) (b_right outer) = true /\
  JS.le (b_bottom inner) (b_bottom outer) = true.

End AdapterSpec.

(* ===================================================================== *)
(** ** Notions used to state the role scoring properties *)
(* ===================================================================== *)

Module TextRoleSpec.
Import ImageBoxContentClassifier.
Local Open Scope Z_scope.

(** The part of the score that the name and the font size decide. *)
Definition baseScore (name : string) (fontSize : num) : Z :=
  (if JS.test_prefix_ci NAME_PATTERNS.heading name then 50 else 0)
  + (if JS.test_prefix_ci NAME_PATTERNS.description name then -50 else 0)
  + (if JS.ge fontSize (JS.of_Z 24) then 30
     else if JS.ge fontSize (JS.of_Z 20) then 20
     else if JS.ge fontSize (JS.of_Z 18) then 10
     else if JS.le fontSize (JS.of_Z 14) then -20 else 0).

End TextRoleSpec.

(* ===================================================================== *)
(** ** LayoutRelationshipHelper *)
(* ===================================================================== *)

Module LayoutRelationshipHelper.

(** [mergeBounds(...boundsList)] *)
Definition mergeBounds (boundsList : list Bounds) : Bounds :=
  mkBounds
    (JS.min_list (List.map b_top boundsList))
    (JS.min_list (List.map b_left boundsList))
    (JS.max_list (List.map b_right boundsList))
    (JS.max_list (List.map b_bottom boundsList))
    (JS.sub (JS.max_list (List.map b_right boundsList))
            (JS.min_list (List.map b_left boundsList)))
    (JS.sub (JS.max_list (List.map b_bottom boundsList))
            (JS.min_list (List.map b_top boundsList))).

Record Point : Type := mkPoint { pt_x : num; pt_y : num }.

Definition getCenter (bounds : Bounds) : Point :=
  mkPoint (JS.add (b_left bounds) (JS.div (b_width bounds) (JS.of_Z 2)))
          (JS.add (b_top bounds) (JS.div (b_height bounds) (JS.of_Z 2))).

Definition getRelativePosition (imageBounds textBounds : Bounds) : string :=
  let imageCenter := getCenter imageBounds in
  if JS.lt (pt_x imageCenter) (b_left textBounds) then "left"
  else if JS.gt (pt_x imageCenter) (b_right textBounds) then "right"
  else if JS.lt (pt_y imageCenter) (b_top textBounds) then "top"
  else if JS.gt (pt_y imageCenter) (b_bottom textBounds) then "bottom"
  else "overlapping".

Definition inferFlexDirection (imageBounds textBounds : Bounds) : string :=
  let position := getRelativePosition imageBounds textBounds in
  if String.eqb position "left" then "row"
  else if String.eqb position "right" then "row-reverse"
  else if String.eqb position "top" then "column"
  else if String.eqb position "bottom" then "column-reverse"
  else "row".

End LayoutRelationshipHelper.

(* ===================================================================== *)
(** ** elementorGenerator: the data of a composite widget *)
(* ===================================================================== *)

Module elementorGenerator.

(** The object [extractCompositeData] fills in. *)
Record ChildData : Type := mkChildData {
  title : string;
  description : string;
  imageUrl : string;
  listItems : list string
}.

(** One pass of the loop of [extractCompositeData]; the text of a child is
    [child.textInfo?.text || child.name]. *)
Definition compositeStep (data : ChildData) (child : Node) : ChildData :=
  match n_widgetType child with
  | Some WHeading =>
      mkChildData (StructureInferenceEngine.textOf child) (description data)
                  (imageUrl data) (listItems data)
  | Some WTextEditor =>
      match description data with
      | EmptyString =>
          mkChildData (title data) (StructureInferenceEngine.textOf child)
                      (imageUrl data) (listItems data)
      | _ =>
          mkChildData (title data) (description data) (imageUrl data)
                      (listItems data ++ [StructureInferenceEngine.textOf child])
      end
  | Some WImage =>
      mkChildData (title data) (description data) "" (listItems data)
  | _ => data
  end.

Definition extractCompositeData (children : list Node) : ChildData :=
  fold_left compositeStep children (mkChildData "" "" "" []).

End elementorGenerator.

(* ===================================================================== *)
(** ** ContainerLayoutScorer *)
(* ===================================================================== *)

Module ContainerLayoutScorer.

(** The pairs [(children[i], children[j])] with [i < j], in the order the
    two nested loops visit them. *)
Fixpoint pairs {A : Type} (l : list A) : list (A * A) :=
  match l with
  | [] => []
  | a :: rest => List.map (pair a) rest ++ pairs rest
  end.

(** The pairs [(children[i], children[i + 1])]. *)
Fixpoint consecutive {A : Type} (l : list A) : list (A * A) :=
  match l with
  | a :: ((b :: _) as rest) => (a, b) :: consecutive rest
  | _ => []
  end.

(** [comparisons ? score / comparisons : 0]. *)
Definition fraction (score comparisons : nat) : num :=
  match comparisons with
  | O => JS.zero
  | S _ => JS.div (JS.of_nat score) (JS.of_nat comparisons)
  end.

Definition scoreRow (children : list Node) : num :=
  let visited := pairs children in
  let comparisons := length visited in
  let overlapScore :=
    length (List.filter
              (fun '(a, b) =>
                 ContainerLayoutHelper.rowPair (n_bounds a) (n_bounds b))
              visited) in
  fraction overlapScore comparisons.

Definition scoreColumn (children : list Node) : num :=
  let visited := consecutive children in
  let comparisons := length visited in
  let stackScore :=
    length (List.filter
              (fun '(a, b) =>
                 JS.le (b_bottom (n_bounds a)) (b_top (n_bounds b)))
              visited) in
  fraction stackScore comparisons.

(** The sweep over the children sorted by their top is the one of
    [ContainerLayoutHelper.detectWrap]. *)
Definition scoreWrap (children : list Node) : num :=
  if (length children <? 3)%nat then JS.zero
  else
    match JS.sort (fun a b => JS.sub (b_top (n_bounds a)) (b_top (n_bounds b)))
                  children with
    | [] => JS.zero
    | first :: rest =>
        let rows :=
          ContainerLayoutHelper.wrapSweep rest 1 (b_top (n_bounds first))
                                          (b_bottom (n_bounds first)) in
        if (1 <? rows)%nat
        then JS.min (JS.of_Z 1)
                    (JS.div (JS.of_nat (rows - 1))
                            (JS.of_nat (length children - 1)))
        else JS.zero
    end.

Definition scoreGapConsistency (children : list Node) (direction : string)
    : num :=
  if (length children <? 3)%nat then JS.Num 0.5
  else
    let sorted :=
      JS.sort (fun a b => JS.sub (ContainerLayoutHelper.axisKey direction a)
                                 (ContainerLayoutHelper.axisKey direction b))
              children in
    let gaps := ContainerLayoutHelper.positiveGaps direction sorted in
    if (length gaps <? 2)%nat then JS.Num 0.5
    else
      let avg := JS.div (fold_left (fun s g => JS.add s g) gaps JS.zero)
                        (JS.of_nat (length gaps)) in
      let variance :=
        JS.div (fold_left (fun s g => JS.add s (JS.mul (JS.sub g avg)
                                                       (JS.sub g avg)))
                          gaps JS.zero)
               (JS.of_nat (length gaps)) in
      JS.max JS.zero
             (JS.sub (JS.of_Z 1)
                     (JS.div variance (JS.add (JS.mul avg avg) (JS.of_Z 1)))).

End ContainerLayoutScorer.

From Stdlib Require Import Qround.

(* ===================================================================== *)
(** ** TextStyleExtractor: the colour of a text *)
(* ===================================================================== *)

Module TextColor.

(** [Math.round]: the nearest integer, halves going up. *)
Definition round (x : num) : num :=
  match x with
  | JS.Num q => JS.of_Z (Qfloor (q + (1 # 2)))
  | _ => x
  end.

(** The digits of a positive integer in base 16, most significant first;
    [fuel] bounds their number. *)
Definition hexDigit (d : Z) : ascii :=
  nth (Z.to_nat d)
      ["0"; "1"; "2"; "3"; "4"; "5"; "6"; "7"; "8"; "9";
       "a"; "b"; "c"; "d"; "e"; "f"]%char "0"%char.

Fixpoint hexDigits (fuel : nat) (n : Z) (acc : string) : string :=
  match fuel with
  | O => acc
  | S fuel' =>
      let acc' := String (hexDigit (n mod 16)) acc in
      if (n / 16 =? 0)%Z then acc' else hexDigits fuel' (n / 16) acc'
  end.

(** [v.toString(16)] for the values that reach it: an integer (after
    [Math.round]) or NaN. *)
Definition toString16 (v : num) : string :=
  match v with
  | JS.NaN => "NaN"
  | JS.Infinity => "Infinity"
  | JS.NegInfinity => "-Infinity"
  | JS.Num q =>
      let n := Qfloor q in
      if (n <? 0)%Z then "-" ++ hexDigits (S (Z.to_nat (Z.log2 (- n)))) (- n) ""
      else hexDigits (S (Z.to_nat (Z.log2 n))) n ""
  end.

(** [s.padStart(2, '0')]. *)
Definition padStart2 (s : string) : string :=
  match s with
  | "" => "00"
  | String c "" => String "0" (String c "")
  | _ => s
  end.

(** [#rgbToHex(r, g, b)]. *)
Definition rgbToHex (r g b : num) : string :=
  "#" ++ String.concat ""
           (List.map (fun v => padStart2
                                 (toString16 (JS.max JS.zero
                                                (JS.min (JS.of_Z 255) v))))
                     [r; g; b]).

(** A fill colour; [None] stands for a channel that is [undefined]. *)
Record FillColor : Type := mkFillColor {
  fc_r : option num;
  fc_g : option num;
  fc_b : option num
}.

(** [Math.round] of a property that may be [undefined]. *)
Definition roundChannel (x : option num) : num :=
  match x with
  | Some v => round v
  | None => JS.NaN
  end.

(** [#extractColor(fillColor)]. *)
Definition extractColor (fillColor : option FillColor) : string :=
  match fillColor with
  | None => "#000000"
  | Some c =>
      match fc_r c with
      | None => "#000000"
      | Some _ =>
          rgbToHex (roundChannel (fc_r c)) (roundChannel (fc_g c))
                   (roundChannel (fc_b c))
      end
  end.

End TextColor.

(* ===================================================================== *)
(** ** psdParser: from the decoded file to the layer tree *)
(* ===================================================================== *)

Module psdParser.

(** A layer as the decoder returns it.  [None] stands for a property that
    is absent; an absent [children] and an empty one are read alike, and so
    are an absent [hidden], [vectorMask] or [vectorStroke] and a false one.
    A [text] that is present is an object. *)
Inductive PsdLayer (TextData : Type) : Type := mkPsdLayer {
  psd_name : option string;
  psd_hidden : bool;
  psd_top : option num;
  psd_left : option num;
  psd_right : option num;
  psd_bottom : option num;
  psd_children : list (PsdLayer TextData);
  psd_text : option TextData;
  psd_vectorMask : bool;
  psd_vectorStroke : bool
}.
Arguments mkPsdLayer {TextData}.
Arguments psd_name {TextData}.
Arguments psd_hidden {TextData}.
Arguments psd_top {TextData}.
Arguments psd_left {TextData}.
Arguments psd_right {TextData}.
Arguments psd_bottom {TextData}.
Arguments psd_children {TextData}.
Arguments psd_text {TextData}.
Arguments psd_vectorMask {TextData}.
Arguments psd_vectorStroke {TextData}.

(** The object [extractLayerInfo] builds; [hasImage] is false when it is
    not set. *)
Inductive LayerInfo : Type := mkLayerInfo {
  li_id : string;
  li_name : string;
  li_type : LayerType;
  li_visible : bool;
  li_depth : nat;
  li_bounds : Bounds;
  li_children : list LayerInfo;
  li_textInfo : option TextInfo;
  li_hasImage : bool
}.

(** The layer the classifiers and the adapter read: they never look at
    [depth]. *)
Fixpoint toNode (l : LayerInfo) : Node :=
  layer (li_id l) (li_name l) (li_type l) (li_visible l) (li_bounds l)
        (List.map toNode (li_children l)) (li_textInfo l) (li_hasImage l).

(** [x || 0] for an edge that may be absent. *)
Definition or0 (x : option num) : num :=
  match x with
  | Some v => JS.or_default v JS.zero
  | None => JS.zero
  end.

(** [child.name && child.name.includes('__ignore')]. *)
Definition ignored {TextData : Type} (child : PsdLayer TextData) : bool :=
  match psd_name child with
  | Some name => JS.includes name "__ignore"
  | None => false
  end.

Definition getLayerType {TextData : Type} (layer : PsdLayer TextData)
    : LayerType :=
  match psd_children layer with
  | _ :: _ => TGroup
  | [] =>
      match psd_text layer with
      | Some _ => TText
      | None =>
          if psd_vectorMask layer || psd_vectorStroke layer then TShape
          else TImage
      end
  end.

(** The running minimum and maximum of [calculateBoundsFromChildren]. *)
Record Extent : Type := mkExtent {
  minTop : num;
  minLeft : num;
  maxRight : num;
  maxBottom : num;
  hasValidBounds : bool
}.

Definition extend (e : Extent) (child : LayerInfo) : Extent :=
  let bounds := li_bounds child in
  if JS.strict_eq (b_width bounds) JS.zero
     && JS.strict_eq (b_height bounds) JS.zero
  then e
  else mkExtent (JS.min (minTop e) (b_top bounds))
                (JS.min (minLeft e) (b_left bounds))
                (JS.max (maxRight e) (b_right bounds))
                (JS.max (maxBottom e) (b_bottom bounds))
                true.

Definition calculateBoundsFromChildren (children : list LayerInfo)
    : option Bounds :=
  match children with
  | [] => None
  | _ :: _ =>
      let e := fold_left extend children
                 (mkExtent JS.Infinity JS.Infinity JS.NegInfinity
                           JS.NegInfinity false) in
      if hasValidBounds e
      then Some (mkBounds (minTop e) (minLeft e) (maxRight e) (maxBottom e)
                          (JS.sub (maxRight e) (minLeft e))
                          (JS.sub (maxBottom e) (minTop e)))
      else None
  end.

Section WithSources.

Variable TextData : Type.
(** [TextStyleExtractor.extract]. *)
Variable extract : TextData -> TextInfo.
(** What the [k]-th call of [generateId] returns. *)
Variable randomId : nat -> string.

(** [extractLayerInfo(layer, depth)], drawing the identifier numbered [k]. *)
Definition extractLayerInfo (layer : PsdLayer TextData) (depth : nat)
    (k : nat) : LayerInfo :=
  let isGroup := match psd_children layer with _ :: _ => true | [] => false end in
  let isText := match psd_text layer with Some _ => true | None => false end in
  mkLayerInfo (randomId k)
              (match psd_name layer with
               | Some name => JS.str_or name "Unnamed Layer"
               | None => "Unnamed Layer"
               end)
              (getLayerType layer)
              (negb (psd_hidden layer))
              depth
              (mkBounds (or0 (psd_top layer)) (or0 (psd_left layer))
                        (or0 (psd_right layer)) (or0 (psd_bottom layer))
                        (JS.sub (or0 (psd_right layer)) (or0 (psd_left layer)))
                        (JS.sub (or0 (psd_bottom layer)) (or0 (psd_top layer))))
              []
              (option_map extract (psd_text layer))
              (negb isGroup && negb isText).

Definition with_children (layer : LayerInfo) (children : list LayerInfo)
    : LayerInfo :=
  mkLayerInfo (li_id layer) (li_name layer) (li_type layer) (li_visible layer)
              (li_depth layer) (li_bounds layer) children (li_textInfo layer)
              (li_hasImage layer).

Definition with_bounds (layer : LayerInfo) (bounds : Bounds) : LayerInfo :=
  mkLayerInfo (li_id layer) (li_name layer) (li_type layer) (li_visible layer)
              (li_depth layer) bounds (li_children layer) (li_textInfo layer)
              (li_hasImage layer).

(** The loop of [extractLayers]; [k] counts the identifiers drawn. *)
Definition extractLayers_loop
    (extractChild : PsdLayer TextData -> nat -> LayerInfo * nat)
    : list (PsdLayer TextData) -> nat -> list LayerInfo * nat :=
  fix loop (children : list (PsdLayer TextData)) (k : nat) :=
    match children with
    | [] => ([], k)
    | child :: rest =>
        if ignored child then loop rest k
        else
          let (layer, k1) := extractChild child k in
          let (layers, k2) := loop rest k1 in
          (layer :: layers, k2)
    end.

(** The body of the loop for a child that is kept. *)
Fixpoint extractChild (depth : nat) (child : PsdLayer TextData) (k : nat)
    : LayerInfo * nat :=
  let layer := extractLayerInfo child depth k in
  match psd_children child with
  | [] => (layer, S k)
  | _ :: _ =>
      let (children, k1) :=
        extractLayers_loop (extractChild (S depth)) (psd_children child) (S k) in
      let layer := with_children layer children in
      match li_type layer, children with
      | TGroup, _ :: _ =>
          match calculateBoundsFromChildren children with
          | Some calculatedBounds => (with_bounds layer calculatedBounds, k1)
          | None => (layer, k1)
          end
      | _, _ => (layer, k1)
      end
  end.

Definition extractLayers (children : list (PsdLayer TextData)) (depth : nat)
    (k : nat) : list LayerInfo * nat :=
  extractLayers_loop (extractChild depth) children k.

End WithSources.

End psdParser.

(* ===================================================================== *)
(** ** LayerPreview: editing the layer tree by drag and drop *)
(* ===================================================================== *)

Module LayerPreview.

(** The component keeps the tree in the module variable [layers] and edits
    its arrays in place.  Here the tree is passed and returned; an array of
    the tree is referred to by the indices to follow from [layers] through
    the [children] arrays.  The empty path is [layers] itself, and the path
    of an object is also that of its [children] array (an absent [children]
    and an empty one are searched alike, and [nestLayer] replaces the first
    by the second). *)
Definition path : Type := list nat.

Fixpoint arrayAt (p : path) (ls : list Node) : option (list Node) :=
  match p with
  | [] => Some ls
  | i :: q =>
      match nth_error ls i with
      | Some l => arrayAt q (n_children l)
      | None => None
      end
  end.

(** An in-place edit [f] of the array at [p]. *)
Fixpoint updateArray (p : path) (f : list Node -> list Node)
    (ls : list Node) : list Node :=
  match p with
  | [] => f ls
  | i :: q =>
      match nth_error ls i with
      | Some l =>
          <[i := RawPSDAdapter.with_children l
                   (updateArray q f (n_children l))]> ls
      | None => ls
      end
  end.

(** A [for ... of] loop that returns from the first element on which the
    body finds something. *)
Definition scan {A : Type} (body : nat -> Node -> option A)
    : nat -> list Node -> option A :=
  fix go (i : nat) (ls : list Node) : option A :=
    match ls with
    | [] => None
    | l :: rest =>
        match body i l with
        | Some found => Some found
        | None => go (S i) rest
        end
    end.

Definition under {A : Type} (i : nat) (found : option (path * A))
    : option (path * A) :=
  match found with
  | Some (q, x) => Some (i :: q, x)
  | None => None
  end.

(** [findLayerById(id, searchLayers)]: the object found, with its place. *)
Definition findLayerById_loop (id : string)
    (inChildren : Node -> option (path * Node)) (searchLayers : list Node)
    : option (path * Node) :=
  scan (fun i layer =>
          if String.eqb (n_id layer) id then Some ([i], layer)
          else under i (inChildren layer))
       0 searchLayers.

Fixpoint findLayerById_children (id : string) (layer : Node)
    : option (path * Node) :=
  findLayerById_loop id (findLayerById_children id) (n_children layer).

Definition findLayerById (id : string) (searchLayers : list Node)
    : option (path * Node) :=
  findLayerById_loop id (findLayerById_children id) searchLayers.

(** [findParentOf(id, searchLayers)]: the array [siblings] that holds the
    layer, with its place.  No caller reads [parent]. *)
Definition findParentOf_loop (id : string)
    (inChildren : Node -> option (path * list Node))
    (searchLayers : list Node) : option (path * list Node) :=
  scan (fun i layer =>
          if String.eqb (n_id layer) id then Some ([], searchLayers)
          else under i (inChildren layer))
       0 searchLayers.

Fixpoint findParentOf_children (id : string) (layer : Node)
    : option (path * list Node) :=
  findParentOf_loop id (findParentOf_children id) (n_children layer).

Definition findParentOf (id : string) (searchLayers : list Node)
    : option (path * list Node) :=
  findParentOf_loop id (findParentOf_children id) searchLayers.

(** [siblings.findIndex(l => l.id === id)]. *)
Fixpoint findIndex (id : string) (siblings : list Node) : option nat :=
  match siblings with
  | [] => None
  | l :: rest =>
      if String.eqb (n_id l) id then Some 0%nat
      else option_map S (findIndex id rest)
  end.

(** [a.splice(index, 1)] and [a.splice(index, 0, x)] on the array. *)
Definition splice_out (index : nat) (a : list Node) : list Node :=
  (firstn index a ++ skipn (S index) a)%list.

Definition splice_in (index : nat) (x : Node) (a : list Node) : list Node :=
  (firstn index a ++ x :: skipn index a)%list.

(** Where [removeLayer(id)] splices: the array and the index. *)
Definition removalSite (id : string) (layers : list Node)
    : option (path * nat * Node) :=
  match findParentOf id layers with
  | None => None
  | Some (p, siblings) =>
      match findIndex id siblings with
      | Some index =>
          match nth_error siblings index with
          | Some removed => Some (p, index, removed)
          | None => None
          end
      | None => None
      end
  end.

(** [removeLayer(id)]: the layer taken out, and the tree left. *)
Definition removeLayer (id : string) (layers : list Node)
    : option Node * list Node :=
  match removalSite id layers with
  | Some (p, index, removed) =>
      (Some removed, updateArray p (splice_out index) layers)
  | None => (None, layers)
  end.

(** [isDescendantOf(id, layer)], for a layer that is an object. *)
Fixpoint isDescendantOf (id : string) (layer : Node) : bool :=
  existsb (fun child => String.eqb (n_id child) id || isDescendantOf id child)
          (n_children layer).

(** [moveLayer(draggedId, targetId, before)].  When no layer has the dragged
    id, [isDescendantOf] reads [children] of [null] and throws. *)
Definition moveLayer (draggedId targetId : string) (before : bool)
    (layers : list Node) : JS.result (list Node) :=
  if String.eqb draggedId targetId then JS.Ok layers
  else
    match findLayerById draggedId layers with
    | None => JS.TypeError "cannot read properties of null"
    | Some (_, draggedLayer) =>
        if isDescendantOf targetId draggedLayer then JS.Ok layers
        else
          match removeLayer draggedId layers with
          | (None, layers1) => JS.Ok layers1
          | (Some removed, layers1) =>
              match findParentOf targetId layers1 with
              | None => JS.Ok (layers1 ++ [removed])%list
              | Some (p, siblings) =>
                  match findIndex targetId siblings with
                  | Some targetIndex =>
                      JS.Ok (updateArray p
                               (splice_in (if before then targetIndex
                                           else S targetIndex) removed)
                               layers1)
                  | None => JS.Ok layers1
                  end
              end
          end
    end.

(** The place of the object at [q] once element [index] of the array at [p]
    is spliced out: the later elements of that array move one place down. *)
Fixpoint afterSplice (p : path) (index : nat) (q : path) : path :=
  match p, q with
  | [], j :: q' => (if (index <? j)%nat then pred j else j) :: q'
  | i :: p', j :: q' =>
      if (i =? j)%nat then j :: afterSplice p' index q' else q
  | _, [] => []
  end.

(** [nestLayer(draggedId, containerId)].  [containerLayer] is looked up
    before the removal and pushed to after it: the same object, which the
    splice may have moved. *)
Definition nestLayer (draggedId containerId : string) (layers : list Node)
    : list Node :=
  if String.eqb draggedId containerId then layers
  else
    match findLayerById draggedId layers,
          findLayerById containerId layers with
    | Some (_, draggedLayer), Some (pc, _) =>
        if isDescendantOf containerId draggedLayer then layers
        else
          match removalSite draggedId layers with
          | Some (p, index, removed) =>
              updateArray (afterSplice p index pc)
                          (fun children => (children ++ [removed])%list)
                          (snd (removeLayer draggedId layers))
          | None => layers
          end
    | _, _ => layers
    end.

End LayerPreview.

(* ===================================================================== *)
(** ** SpatialClusteringHelper.getMinDistance in binary64 *)
(* ===================================================================== *)

From Stdlib Require SpecFloat.

(** The numbers of JavaScript are IEEE 754 binary64 values, and every
    operation rounds to the nearest of them.  The modules above compute with
    exact rationals.  This module reads [getMinDistance] and the comparison
    of [findNeighbors] once more with the rounding in place, to see where the
    two part. *)
Module Doubles.

Definition double : Type := SpecFloat.spec_float.
Definition prec : Z := 53.
Definition emax : Z := 1024.

(** The double nearest to [m * 2^e], and the double of a whole number. *)
Definition scaled (m e : Z) : double :=
  SpecFloat.binary_normalize prec emax m e false.
Definition of_Z (z : Z) : double := scaled z 0.
Definition zero : double := SpecFloat.S754_zero false.

Definition add : double -> double -> double := SpecFloat.SFadd prec emax.
Definition sub : double -> double -> double := SpecFloat.SFsub prec emax.
Definition mul : double -> double -> double := SpecFloat.SFmul prec emax.
Definition sqrt : double -> double := SpecFloat.SFsqrt prec emax.
Definition le : double -> double -> bool := SpecFloat.SFleb.

(** [Math.max(x, y)] and [Math.min(x, y)]: NaN when one side is NaN; of the
    two zeros, [max] answers the positive and [min] the negative one. *)
Definition max (x y : double) : double :=
  match SpecFloat.SFcompare x y with
  | None => SpecFloat.S754_nan
  | Some Lt => y
  | Some Gt => x
  | Some Eq => match x with SpecFloat.S754_zero true => y | _ => x end
  end.

Definition min (x y : double) : double :=
  match SpecFloat.SFcompare x y with
  | None => SpecFloat.S754_nan
  | Some Lt => x
  | Some Gt => y
  | Some Eq => match x with SpecFloat.S754_zero false => y | _ => x end
  end.

(** The four edges that [getMinDistance] reads. *)
Record Edges : Type := mkEdges {
  e_top : double;
  e_left : double;
  e_right : double;
  e_bottom : double
}.

Definition getMinDistance (boundsA boundsB : Edges) : double :=
  let hGap := max zero
                (sub (max (e_left boundsA) (e_left boundsB))
                     (min (e_right boundsA) (e_right boundsB))) in
  let vGap := max zero
                (sub (max (e_top boundsA) (e_top boundsB))
                     (min (e_bottom boundsA) (e_bottom boundsB))) in
  sqrt (add (mul hGap hGap) (mul vGap vGap)).

(** [getMinDistance(layer.bounds, other.bounds) <= threshold] *)
Definition withinThreshold (boundsA boundsB : Edges) (threshold : double)
    : bool :=
  le (getMinDistance boundsA boundsB) threshold.

End Doubles.

(** Two boxes 50 apart horizontally and 2^-600 apart vertically, with exact
    edges and with the same edges as doubles. *)
Module RoundingSamples.

Definition tiny : Q := 1 # (2 ^ 600).

Definition boxA : Bounds :=
  rect (JS.of_Z (-10)) (JS.of_Z 0) (JS.of_Z 10) (JS.of_Z 0).
Definition boxB : Bounds :=
  rect (JS.Num tiny) (JS.of_Z 60) (JS.of_Z 70) (JS.of_Z 10).

Definition doubleA : Doubles.Edges :=
  Doubles.mkEdges (Doubles.of_Z (-10)) (Doubles.of_Z 0) (Doubles.of_Z 10)
                  (Doubles.of_Z 0).
Definition doubleB : Doubles.Edges :=
  Doubles.mkEdges (Doubles.scaled 1 (-600)) (Doubles.of_Z 60)
                  (Doubles.of_Z 70) (Doubles.of_Z 10).

End RoundingSamples.

(* ===================================================================== *)
(** ** Notions used to state the geometric properties *)
(* ===================================================================== *)

Module GeometrySpec.

(** The box is not inverted: its top is not below its bottom, nor its left
    beyond its right (so none of its edges is NaN). *)
Definition well_formed (b : Bounds) : Prop :=
  JS.le (b_top b) (b_bottom b) = true /\ JS.le (b_left b) (b_right b) = true.

(** The four edges are finite numbers. *)
Definition finite_edges (b : Bounds) : Prop :=
  exists t l r bt : Q,
    b_top b = JS.Num t /\ b_left b = JS.Num l /\
    b_right b = JS.Num r /\ b_bottom b = JS.Num bt.

(** The closed boxes share a point: they overlap or touch. *)
Definition meet (a b : Bounds) : Prop :=
  JS.le (b_left a) (b_right b) = true /\ JS.le (b_left b) (b_right a) = true /\
  JS.le (b_top a) (b_bottom b) = true /\ JS.le (b_top b) (b_bottom a) = true.

(** The number under the square root. *)
Definition radicand_of (s : JS.surd) : num :=
  match s with JS.Sqrt r => r end.

End GeometrySpec.

(* ===================================================================== *)
(** ** Whole-pixel boxes, and the gap between two boxes *)
(* ===================================================================== *)

Module PixelSpec.
Local Open Scope list_scope.

(** The largest coordinate considered, 2^25 pixels.  Differences of such
    coordinates stay below 2^26, their squares below 2^52 and the sum of two
    squares within 2^53. *)
Definition LIMIT : Z := 33554432.

(** The number is a whole number whose size is at most [LIMIT]. *)
Definition whole (x : num) : bool :=
  match x with
  | JS.Num q => Pos.eqb (Qden q) 1 && (Z.abs (Qnum q) <=? LIMIT)%Z
  | _ => false
  end.

(** The four edges of the box are whole numbers of pixels, and the box is
    not inverted. *)
Definition pixel_edges (b : Bounds) : bool :=
  whole (b_top b) && whole (b_left b) && whole (b_right b) && whole (b_bottom b)
  && JS.le (b_top b) (b_bottom b) && JS.le (b_left b) (b_right b).

(** The point [(x, y)] lies in the closed box. *)
Definition inside (b : Bounds) (x y : Q) : Prop :=
  JS.le (b_left b) (JS.Num x) = true /\ JS.le (JS.Num x) (b_right b) = true /\
  JS.le (b_top b) (JS.Num y) = true /\ JS.le (JS.Num y) (b_bottom b) = true.

(** The minimum Euclidean gap between the two boxes is at most [t]: a point
    of the one lies within [t] of a point of the other. *)
Definition gap_within (t : Q) (a b : Bounds) : Prop :=
  exists x1 y1 x2 y2 : Q,
    inside a x1 y1 /\ inside b x2 y2 /\
    ((x1 - x2) * (x1 - x2) + (y1 - y2) * (y1 - y2) <= t * t)%Q.

(** One hop between two layers of the input whose gap is at most [t], and
    chains of such hops. *)
Definition hop_within (all : list Node) (t : Q) (a b : Node) : Prop :=
  a ∈ all /\ b ∈ all /\ gap_within t (n_bounds a) (n_bounds b).

Definition chained (all : list Node) (t : Q) : Node -> Node -> Prop :=
  rtc (hop_within all t).

End PixelSpec.

(* ===================================================================== *)
(** ** Notions used to state the inference properties *)
(* ===================================================================== *)

Module CompositionSpec.
Import StructureInferenceEngine.

(** What the loop of [analyzeComposition] keeps true, after [n] layers. *)
Record counted (n : nat) (seen : list Node) (c : Composition) : Prop := {
  cnt_text : textCount c = (length (headings c) + length (texts c))%nat;
  cnt_image : imageCount c = length (images c);
  cnt_total : (textCount c + imageCount c <= n)%nat;
  cnt_heading : hasHeading c = true <-> headings c <> [];
  cnt_body : hasText c = true <-> texts c <> [];
  cnt_pictures : hasImage c || hasSmallImage c = true <-> images c <> [];
  cnt_button : hasButtonShape c = true -> images c <> [];
  cnt_headings_in : forall l, l ∈ headings c -> l ∈ seen /\ isTextLayer l = true;
  cnt_images_in : forall l, l ∈ images c -> l ∈ seen /\ isTextLayer l = false
}.

(** The widget types that stand for several layers at once. *)
Definition composite (w : WidgetType) : bool :=
  match w with
  | WImageBox | WIconBox | WIconList => true
  | _ => false
  end.

End CompositionSpec.

(* ===================================================================== *)
(** ** Notions used to state the classifier properties *)
(* ===================================================================== *)

Module ClassifierSpec.

(** The layer tree with the three properties the name-based classifier
    writes ([widgetType], [badgeClass] and [isComposite]) blanked at every
    depth. *)
Fixpoint unclassified (layer : Node) : Node :=
  match layer with
  | mkNode id name ty vis b children ti hi _ _ sd conf lay cd _ slc rp pc =>
      mkNode id name ty vis b (List.map unclassified children) ti hi
             None None sd conf lay cd false slc rp pc
  end.

(** A widget type that is neither a container, a button nor a composite. *)
Definition simple (w : option WidgetType) : Prop :=
  w = Some WImage \/ w = Some WHeading \/ w = Some WTextEditor.

End ClassifierSpec.

(* ===================================================================== *)
(** ** Notions used to state the properties of layer trees *)
(* ===================================================================== *)

Module TreeSpec.
Import AdapterSpec.

(** A layer without children. *)
Definition leaf (l : Node) : Prop := n_children l = [].

(** [x] is the layer [n] or lies somewhere below it. *)
Inductive in_tree (x : Node) : Node -> Prop :=
| in_tree_here : in_tree x x
| in_tree_below (c n : Node) :
    c ∈ n_children n -> in_tree x c -> in_tree x n.

(** [P] holds of the node and of every node below it. *)
Inductive everywhere (P : Node -> Prop) (n : Node) : Prop :=
| everywhere_node :
    P n -> (forall c, c ∈ n_children n -> everywhere P c) -> everywhere P n.

(** The node carries a widget type and a badge class. *)
Definition typed (n : Node) : Prop :=
  is_Some (n_widgetType n) /\ is_Some (n_badgeClass n).

(** The box of every child lies within the box of the node. *)
Definition encloses_children (n : Node) : Prop :=
  forall c, c ∈ n_children n -> within (n_bounds c) (n_bounds n).

(** What the orchestrator keeps true of each node it builds from the
    layers [source]: the node is typed and visible, and its box holds the
    boxes of its children when no edge of a source layer is NaN. *)
Definition sound (source : list Node) (n : Node) : Prop :=
  typed n /\ n_visible n = true /\
  (Forall (fun l => edges_not_NaN (n_bounds l)) source -> encloses_children n).

End TreeSpec.

(* ===================================================================== *)
(** ** Notions used to state the properties of the scores, the colours,
    the parser and the tree edits *)
(* ===================================================================== *)

Module ScorerSpec.

(** A score between 0 and 1. *)
Definition unit_score (x : num) : Prop :=
  JS.le JS.zero x = true /\ JS.le x (JS.of_Z 1) = true.

End ScorerSpec.

Module TextColorSpec.

(** The value of a hexadecimal digit. *)
Definition hexValue (c : ascii) : option Z :=
  let n := Z.of_nat (nat_of_ascii c) in
  if ((48 <=? n) && (n <=? 57))%Z then Some (n - 48)%Z
  else if ((97 <=? n) && (n <=? 102))%Z then Some (n - 87)%Z
  else None.

Definition hexPair (hi lo : ascii) : option Z :=
  match hexValue hi, hexValue lo with
  | Some h, Some l => Some (16 * h + l)%Z
  | _, _ => None
  end.

(** The three channels of a colour written [#rrggbb]; nothing else is
    read. *)
Definition readColor (s : string) : option (Z * Z * Z) :=
  match s with
  | String "#" (String r1 (String r2 (String g1 (String g2
      (String b1 (String b2 ""))))))  =>
      match hexPair r1 r2, hexPair g1 g2, hexPair b1 b2 with
      | Some r, Some g, Some b => Some (r, g, b)
      | _, _, _ => None
      end
  | _ => None
  end.

(** The channel a number stands for: rounded, then kept within 0..255. *)
Definition channel (x : option num) : option Z :=
  match x with
  | Some (JS.Num q) => Some (Z.max 0 (Z.min 255 (Qfloor (q + (1 # 2)))))
  | Some JS.Infinity => Some 255%Z
  | Some JS.NegInfinity => Some 0%Z
  | Some JS.NaN | None => None
  end.

(** [z] is written with two digits that read back as [z]. *)
Definition two_digits (z : Z) : bool :=
  match TextColor.padStart2 (TextColor.toString16 (JS.of_Z z)) with
  | String hi (String lo "") =>
      match hexPair hi lo with
      | Some v => (v =? z)%Z
      | None => false
      end
  | _ => false
  end.

End TextColorSpec.

Module ParserSpec.
Import psdParser AdapterSpec.

(** The layers of a tree, each before the layers below it. *)
Fixpoint flatten (l : LayerInfo) : list LayerInfo :=
  l :: flat_map flatten (li_children l).

(** The decoded layers that are not marked [__ignore] and lie under no
    layer that is. *)
Fixpoint kept {TextData : Type} (l : PsdLayer TextData)
    : list (PsdLayer TextData) :=
  l :: flat_map (fun c => if ignored c then [] else kept c) (psd_children l).

Definition keptOf {TextData : Type} (ls : list (PsdLayer TextData))
    : list (PsdLayer TextData) :=
  flat_map (fun c => if ignored c then [] else kept c) ls.

(** The box has a width or a height that is not zero. *)
Definition sized (b : Bounds) : Prop :=
  JS.strict_eq (b_width b) JS.zero && JS.strict_eq (b_height b) JS.zero = false.

Inductive everywhere (P : LayerInfo -> Prop) (l : LayerInfo) : Prop :=
| everywhere_layer :
    P l -> Forall (everywhere P) (li_children l) -> everywhere P l.

(** No edge of the box is NaN, its width and height are the differences of
    its edges, and it holds the box of every child that has a size. *)
Definition boxed (l : LayerInfo) : Prop :=
  AdapterSpec.edges_not_NaN (li_bounds l) /\
  b_width (li_bounds l)
  = JS.sub (b_right (li_bounds l)) (b_left (li_bounds l)) /\
  b_height (li_bounds l)
  = JS.sub (b_bottom (li_bounds l)) (b_top (li_bounds l)) /\
  Forall (fun c => sized (li_bounds c) ->
                   AdapterSpec.within (li_bounds c) (li_bounds l))
         (li_children l).

(** The children of the layer are one level deeper than it. *)
Definition children_deeper (l : LayerInfo) : Prop :=
  Forall (fun c => li_depth c = S (li_depth l)) (li_children l).

(** The name the parser gives a decoded layer. *)
Definition displayName {TextData : Type} (c : PsdLayer TextData) : string :=
  match psd_name c with
  | Some name => JS.str_or name "Unnamed Layer"
  | None => "Unnamed Layer"
  end.

(** The box the file gives a decoded layer, absent edges read as 0. *)
Definition fileBox {TextData : Type} (c : PsdLayer TextData) : Bounds :=
  mkBounds (or0 (psd_top c)) (or0 (psd_left c)) (or0 (psd_right c))
           (or0 (psd_bottom c))
           (JS.sub (or0 (psd_right c)) (or0 (psd_left c)))
           (JS.sub (or0 (psd_bottom c)) (or0 (psd_top c))).

(** The layer [l] is what the parser reads from the decoded layer [c]; it
    keeps the box of the file when none of its children has a size. *)
Definition reads {TextData : Type} (extract : TextData -> TextInfo)
    (l : LayerInfo) (c : PsdLayer TextData) : Prop :=
  li_name l = displayName c /\
  li_type l = getLayerType c /\
  li_visible l = negb (psd_hidden c) /\
  li_textInfo l = option_map extract (psd_text c) /\
  li_hasImage l = match li_type l with
                  | TImage | TShape => true
                  | TGroup | TText => false
                  end /\
  (Forall (fun child => ~ sized (li_bounds child)) (li_children l) ->
   li_bounds l = fileBox c).

(** The running extent: no NaN comes in, the extent only grows, and it
    holds every child that has a size. *)
Definition extent_ok (e : Extent) : Prop :=
  JS.not_NaN (minTop e) /\ JS.not_NaN (minLeft e) /\
  JS.not_NaN (maxRight e) /\ JS.not_NaN (maxBottom e).

Definition extent_holds (e : Extent) (b : Bounds) : Prop :=
  JS.le (minTop e) (b_top b) = true /\
  JS.le (minLeft e) (b_left b) = true /\
  JS.le (b_right b) (maxRight e) = true /\
  JS.le (b_bottom b) (maxBottom e) = true.

Definition extent_grows (e e' : Extent) : Prop :=
  JS.le (minTop e') (minTop e) = true /\
  JS.le (minLeft e') (minLeft e) = true /\
  JS.le (maxRight e) (maxRight e') = true /\
  JS.le (maxBottom e) (maxBottom e') = true.

(** The layers [out] come from the kept decoded layers [src], with the
    identifiers drawn from [k] on, at depth [depth]. *)
Definition extracted {TextData : Type} (extract : TextData -> TextInfo)
    (randomId : nat -> string) (depth k : nat) (out : list LayerInfo)
    (k' : nat) (src : list (PsdLayer TextData)) : Prop :=
  let flat := flat_map flatten out in
  Forall2 (reads extract) flat src /\
  List.map li_id flat = List.map randomId (seq k (length flat)) /\
  k' = (k + length flat)%nat /\
  Forall (fun l => li_depth l = depth) out /\
  Forall (everywhere children_deeper) out.

End ParserSpec.

Module LayerPreviewSpec.
Import LayerPreview.

(** The ids of a layer and of everything below it, in the order the tree is
    drawn. *)
Fixpoint idsOf (layer : Node) : list string :=
  n_id layer :: flat_map idsOf (n_children layer).

Definition ids (layers : list Node) : list string := flat_map idsOf layers.

(** The two searches visit the tree in the same order; this is what they
    return on the part [ls] of an array whose earlier part [pre] does not
    hold the id. *)
Definition searched (id : string) (pre ls : list Node) : Prop :=
  let bodyF := fun (i : nat) (layer : Node) =>
                 if String.eqb (n_id layer) id then Some ([i], layer)
                 else under i (findLayerById_children id layer) in
  let bodyP := fun (i : nat) (layer : Node) =>
                 if String.eqb (n_id layer) id then Some ([], (pre ++ ls)%list)
                 else under i (findParentOf_children id layer) in
  match scan bodyF (length pre) ls with
  | None => scan bodyP (length pre) ls = None /\ ~ In id (ids ls)
  | Some (q, n) =>
      exists p sib index,
        q = (p ++ [index])%list /\
        scan bodyP (length pre) ls = Some (p, sib) /\
        findIndex id sib = Some index /\
        nth_error sib index = Some n /\
        arrayAt p (pre ++ ls)%list = Some sib /\
        n_id n = id
  end.

(** The place [findLayerById] answers with. *)
Definition findPath (id : string) (ls : list Node) : option path :=
  option_map fst (findLayerById id ls).

Definition bump (q : path) : path :=
  match q with
  | [] => []
  | j :: q' => S j :: q'
  end.

Definition liftAt (i : nat) (g : path -> path) (q : path) : path :=
  match q with
  | [] => []
  | j :: q' => if (i =? j)%nat then j :: g q' else q
  end.

End LayerPreviewSpec.

(* ********************************************************************* *)
(** * Properties *)
(* ********************************************************************* *)
Module JSFacts.

Lemma compare_sub_zero (p q : Q) : (0 ?= p + - q)%Q = (q ?= p)%Q.
Proof.
  destruct (Qcompare_spec q p) as [H|H|H].
  - apply (proj1 (Qeq_alt _ _)). rewrite H. ring.
  - apply (proj1 (Qlt_alt _ _)). lra.
  - apply (proj1 (Qgt_alt _ _)). lra.
Qed.

(** The comparator idiom [a - b > 0] agrees with [a > b], infinities and
    NaN included. *)
Lemma gt_sub_zero (x y : num) : JS.gt (JS.sub x y) JS.zero = JS.gt x y.
Proof.
  destruct x as [p| | |], y as [q| | |]; try reflexivity.
  unfold JS.gt, JS.lt, JS.sub, JS.zero; simpl.
  now rewrite compare_sub_zero.
Qed.

Lemma gt_asym (x y : num) : JS.gt x y = true -> JS.gt y x = false.
Proof.
  destruct x as [p| | |], y as [q| | |]; try reflexivity; try discriminate.
  unfold JS.gt, JS.lt; simpl.
  destruct (Qcompare_spec q p) as [H|H|H]; try discriminate.
  intros _. destruct (Qcompare_spec p q) as [H'|H'|H']; try reflexivity.
  lra.
Qed.

Section SortFacts.
Context {A : Type} (cmp : A -> A -> num).

Lemma insert_Permutation (x : A) (l : list A) :
  Permutation (JS.insert cmp x l) (x :: l).
Proof.
  induction l as [|y l IH]; simpl; [reflexivity|].
  destruct (JS.gt (cmp y x) JS.zero); [reflexivity|].
  rewrite IH. apply perm_swap.
Qed.

Lemma sort_acc_Permutation (l acc : list A) :
  Permutation (fold_left (fun acc x => JS.insert cmp x acc) l acc) (l ++ acc).
Proof.
  revert acc. induction l as [|x l IH]; intros acc; simpl; [reflexivity|].
  rewrite IH, insert_Permutation. symmetry. apply Permutation_middle.
Qed.

Lemma sort_Permutation (l : list A) : Permutation (JS.sort cmp l) l.
Proof. unfold JS.sort. rewrite sort_acc_Permutation. now rewrite app_nil_r. Qed.

Lemma sort_length (l : list A) : length (JS.sort cmp l) = length l.
Proof. apply Permutation_length, sort_Permutation. Qed.

Hypothesis cmp_asym :
  forall x y, JS.gt (cmp y x) JS.zero = true -> JS.gt (cmp x y) JS.zero = false.

Lemma insert_HdRel (a x : A) (l : list A) :
  (JS.in_order cmp) a x -> HdRel (JS.in_order cmp) a l -> HdRel (JS.in_order cmp) a (JS.insert cmp x l).
Proof.
  intros Hax Hal. destruct l as [|y l]; simpl; [now constructor|].
  destruct (JS.gt (cmp y x) JS.zero); constructor; [assumption|].
  now inversion Hal.
Qed.

Lemma insert_Sorted (x : A) (l : list A) :
  Sorted (JS.in_order cmp) l -> Sorted (JS.in_order cmp) (JS.insert cmp x l).
Proof using cmp_asym.
  induction 1 as [|y l Hs IH Hd]; simpl; [repeat constructor|].
  destruct (JS.gt (cmp y x) JS.zero) eqn:E.
  - constructor; [now constructor|]. constructor. now apply cmp_asym.
  - constructor; [assumption|]. now apply insert_HdRel.
Qed.

Lemma sort_Sorted (l : list A) : Sorted (JS.in_order cmp) (JS.sort cmp l).
Proof using cmp_asym.
  unfold JS.sort.
  assert (H : Sorted (JS.in_order cmp) (@nil A)) by constructor.
  revert H. generalize (@nil A) as acc.
  induction l as [|x l IH]; intros acc Hacc; simpl; [assumption|].
  apply IH. now apply insert_Sorted.
Qed.
End SortFacts.

(** Sorting by a numeric key: afterwards no element is followed by one
    with a strictly smaller key. *)
Lemma sort_by_key_Sorted {A : Type} (key : A -> num) (l : list A) :
  Sorted (fun a b => JS.gt (key a) (key b) = false)
         (JS.sort (fun a b => JS.sub (key a) (key b)) l).
Proof.
  eapply Sorted_ind with (P := fun l' => Sorted _ l');
    [ constructor | | apply (sort_Sorted (fun a b => JS.sub (key a) (key b))) ].
  - intros a l' _ Hs Hd. constructor; [assumption|].
    destruct Hd as [|b l'' Hab]; constructor.
    unfold JS.in_order in Hab. now rewrite gt_sub_zero in Hab.
  - intros x y. rewrite !gt_sub_zero. apply gt_asym.
Qed.

(** *** Order facts, for numbers other than NaN *)

Lemma le_Num (p q : Q) : JS.le (JS.Num p) (JS.Num q) = true <-> (p <= q)%Q.
Proof.
  unfold JS.le. simpl. rewrite Qle_alt.
  destruct (p ?= q)%Q; split; congruence.
Qed.

Lemma le_refl (x : num) : JS.not_NaN x -> JS.le x x = true.
Proof.
  destruct x as [p| | |]; intros H; try reflexivity; [|now elim H].
  apply le_Num. apply Qle_refl.
Qed.

Lemma le_trans (x y z : num) :
  JS.le x y = true -> JS.le y z = true -> JS.le x z = true.
Proof.
  destruct x as [p| | |], y as [q| | |], z as [r| | |];
    try reflexivity; try discriminate.
  rewrite !le_Num. apply Qle_trans.
Qed.

Lemma min_not_NaN (x y : num) : JS.not_NaN x -> JS.not_NaN y -> JS.not_NaN (JS.min x y).
Proof.
  unfold JS.not_NaN, JS.min.
  destruct x as [p| | |], y as [q| | |]; simpl; try congruence;
    destruct (p ?= q)%Q; congruence.
Qed.

Lemma max_not_NaN (x y : num) : JS.not_NaN x -> JS.not_NaN y -> JS.not_NaN (JS.max x y).
Proof.
  unfold JS.not_NaN, JS.max.
  destruct x as [p| | |], y as [q| | |]; simpl; try congruence;
    destruct (p ?= q)%Q; congruence.
Qed.

Lemma min_le_l (x y : num) :
  JS.not_NaN x -> JS.not_NaN y -> JS.le (JS.min x y) x = true.
Proof.
  unfold JS.not_NaN, JS.min.
  destruct x as [p| | |], y as [q| | |]; simpl; try congruence; try reflexivity;
    try (intros _ _; apply le_Num, Qle_refl).
  intros _ _. destruct (Qcompare_spec p q) as [H|H|H]; apply le_Num; lra.
Qed.

Lemma min_le_r (x y : num) :
  JS.not_NaN x -> JS.not_NaN y -> JS.le (JS.min x y) y = true.
Proof.
  unfold JS.not_NaN, JS.min.
  destruct x as [p| | |], y as [q| | |]; simpl; try congruence; try reflexivity;
    try (intros _ _; apply le_Num, Qle_refl).
  intros _ _. destruct (Qcompare_spec p q) as [H|H|H]; apply le_Num; lra.
Qed.

Lemma max_ge_l (x y : num) :
  JS.not_NaN x -> JS.not_NaN y -> JS.le x (JS.max x y) = true.
Proof.
  unfold JS.not_NaN, JS.max.
  destruct x as [p| | |], y as [q| | |]; simpl; try congruence; try reflexivity;
    try (intros _ _; apply le_Num, Qle_refl).
  intros _ _. destruct (Qcompare_spec p q) as [H|H|H]; apply le_Num; lra.
Qed.

Lemma max_ge_r (x y : num) :
  JS.not_NaN x -> JS.not_NaN y -> JS.le y (JS.max x y) = true.
Proof.
  unfold JS.not_NaN, JS.max.
  destruct x as [p| | |], y as [q| | |]; simpl; try congruence; try reflexivity;
    try (intros _ _; apply le_Num, Qle_refl).
  intros _ _. destruct (Qcompare_spec p q) as [H|H|H]; apply le_Num; lra.
Qed.

(** [Math.min(...xs)] is below, and [Math.max(...xs)] above, every
    argument when no argument is NaN. *)
Lemma fold_min_le (xs : list num) (acc : num) :
  JS.not_NaN acc -> Forall JS.not_NaN xs ->
  JS.not_NaN (fold_left JS.min xs acc) /\
  JS.le (fold_left JS.min xs acc) acc = true /\
  Forall (fun x => JS.le (fold_left JS.min xs acc) x = true) xs.
Proof.
  revert acc. induction xs as [|x xs IH]; intros acc Hacc Hxs; simpl.
  - split; [assumption|]. split; [now apply le_refl|constructor].
  - apply Forall_cons in Hxs as [Hx Hxs].
    destruct (IH (JS.min acc x) (min_not_NaN _ _ Hacc Hx) Hxs) as (H1 & H2 & H3).
    split; [assumption|]. split; [|constructor; [|assumption]].
    + apply (le_trans _ (JS.min acc x)); [exact H2|now apply min_le_l].
    + apply (le_trans _ (JS.min acc x)); [exact H2|now apply min_le_r].
Qed.

Lemma fold_max_ge (xs : list num) (acc : num) :
  JS.not_NaN acc -> Forall JS.not_NaN xs ->
  JS.not_NaN (fold_left JS.max xs acc) /\
  JS.le acc (fold_left JS.max xs acc) = true /\
  Forall (fun x => JS.le x (fold_left JS.max xs acc) = true) xs.
Proof.
  revert acc. induction xs as [|x xs IH]; intros acc Hacc Hxs; simpl.
  - split; [assumption|]. split; [now apply le_refl|constructor].
  - apply Forall_cons in Hxs as [Hx Hxs].
    destruct (IH (JS.max acc x) (max_not_NaN _ _ Hacc Hx) Hxs) as (H1 & H2 & H3).
    split; [assumption|]. split; [|constructor; [|assumption]].
    + apply (le_trans _ (JS.max acc x)); [now apply max_ge_l|exact H2].
    + apply (le_trans _ (JS.max acc x)); [now apply max_ge_r|exact H2].
Qed.

Lemma min_list_le (xs : list num) (x : num) :
  Forall JS.not_NaN xs -> x ∈ xs -> JS.le (JS.min_list xs) x = true.
Proof.
  intros Hxs Hx. unfold JS.min_list.
  destruct (fold_min_le xs JS.Infinity ltac:(discriminate) Hxs) as (_ & _ & H).
  rewrite Forall_forall in H. now apply H.
Qed.

Lemma max_list_ge (xs : list num) (x : num) :
  Forall JS.not_NaN xs -> x ∈ xs -> JS.le x (JS.max_list xs) = true.
Proof.
  intros Hxs Hx. unfold JS.max_list.
  destruct (fold_max_ge xs JS.NegInfinity ltac:(discriminate) Hxs) as (_ & _ & H).
  rewrite Forall_forall in H. now apply H.
Qed.

End JSFacts.

(* ===================================================================== *)
(** ** LayoutDistanceHelper and ContainerLayoutHelper *)
(* ===================================================================== *)

Module LayoutFacts.
Import LayoutDistanceHelper ContainerLayoutHelper.

(** C7, as stated, fails: with a vertical gap of 20 and a horizontal gap
    of 5 the code answers 5 (the smaller gap), where the stated rule
    answers the vertical gap, 20. *)
Lemma smartDistance_not_vertical_first :
  verticalDistance Samples.rectA Samples.rectB = JS.of_Z 20 /\
  horizontalDistance Samples.rectA Samples.rectB = JS.of_Z 5 /\
  smartDistance Samples.rectA Samples.rectB = JS.of_Z 5 /\
  AsSpecified.smartDistance Samples.rectA Samples.rectB = JS.of_Z 20 /\
  JS.strict_eq (smartDistance Samples.rectA Samples.rectB)
               (AsSpecified.smartDistance Samples.rectA Samples.rectB) = false.
Proof. repeat apply conj; vm_compute; reflexivity. Qed.

(** C7 (amended): [smartDistance] is the horizontal gap when the vertical
    gap is zero, the vertical gap when only the horizontal gap is zero, and
    the smaller of the two gaps when both are nonzero. *)
Theorem smartDistance_cases (a b : Bounds) :
  let vertical := verticalDistance a b in
  let horizontal := horizontalDistance a b in
  (JS.strict_eq vertical JS.zero = true -> smartDistance a b = horizontal) /\
  (JS.strict_eq vertical JS.zero = false ->
   JS.strict_eq horizontal JS.zero = true -> smartDistance a b = vertical) /\
  (JS.strict_eq vertical JS.zero = false ->
   JS.strict_eq horizontal JS.zero = false ->
   smartDistance a b = JS.min vertical horizontal).
Proof.
  cbv zeta. unfold smartDistance.
  repeat apply conj; intros Hv; try intros Hh; rewrite Hv; try rewrite Hh;
    reflexivity.
Qed.

Lemma smartDistance_cases_witness :
  smartDistance Samples.rectA Samples.rectB
  = JS.min (verticalDistance Samples.rectA Samples.rectB)
           (horizontalDistance Samples.rectA Samples.rectB).
Proof.
  apply (smartDistance_cases Samples.rectA Samples.rectB); vm_compute; reflexivity.
Defined.

(** C5, as stated, fails twice.  For adjacent gaps 10, 12, 11, 90 the code
    answers 12, the upper of the two middle gaps, not their mean 11.5; and
    with a single positive gap it answers that gap, not 0. *)
Lemma calculateGap_not_mean_of_middle :
  positiveGaps "row"
    (JS.sort (fun a b => JS.sub (axisKey "row" a) (axisKey "row" b)) Samples.gapRow)
  = [JS.of_Z 10; JS.of_Z 12; JS.of_Z 11; JS.of_Z 90] /\
  calculateGap Samples.gapRow "row" = JS.of_Z 12 /\
  JS.strict_eq (AsSpecified.calculateGap Samples.gapRow "row") (JS.Num 11.5)
  = true /\
  JS.strict_eq (calculateGap Samples.gapRow "row") (JS.Num 11.5) = false /\
  calculateGap Samples.gapPair "row" = JS.of_Z 10 /\
  AsSpecified.calculateGap Samples.gapPair "row" = JS.zero.
Proof. repeat apply conj; vm_compute; reflexivity. Qed.

Lemma calculateGap_unfold (children : list Node) (direction : string) :
  (2 <= length children)%nat ->
  calculateGap children direction =
  let gaps := JS.sort (fun a b => JS.sub a b)
                (positiveGaps direction
                   (JS.sort (fun a b => JS.sub (axisKey direction a)
                                               (axisKey direction b)) children)) in
  match gaps with [] => JS.zero | _ => nth (length gaps / 2) gaps JS.zero end.
Proof.
  intros H. unfold calculateGap.
  destruct (Nat.ltb_spec (length children) 2); [lia|reflexivity].
Qed.

(** Every gap collected by the loop is the distance of two neighbours of
    the sorted list and is greater than zero. *)
Lemma positiveGaps_spec (direction : string) (sorted : list Node) (g : num) :
  In g (positiveGaps direction sorted) ->
  JS.gt g JS.zero = true /\
  exists (i : nat) (a b : Node),
    nth_error sorted i = Some a /\ nth_error sorted (S i) = Some b /\
    g = axisDistance direction (n_bounds a) (n_bounds b).
Proof.
  induction sorted as [|a rest IH]; simpl; [easy|].
  destruct rest as [|b rest']; [easy|].
  destruct (JS.gt (axisDistance direction (n_bounds a) (n_bounds b)) JS.zero) eqn:E.
  - intros [<-|Hin].
    + split; [assumption|]. now exists 0%nat, a, b.
    + destruct (IH Hin) as [Hg (i & x & y & Hx & Hy & ->)].
      split; [assumption|]. now exists (S i), x, y.
  - intros Hin. destruct (IH Hin) as [Hg (i & x & y & Hx & Hy & ->)].
    split; [assumption|]. now exists (S i), x, y.
Qed.

(** C5 (amended): [calculateGap] orders the children along the chosen axis
    (left edge for a row, top edge otherwise), collects the positive
    distances of neighbours, orders them, and returns the one at index
    [floor(n/2)] -- the middle gap for an odd count, the upper of the two
    middle gaps for an even count.  The answer is 0 only when there are
    fewer than two children or no positive gap; a single positive gap is
    returned as it is.  For adjacent gaps 10, 12, 11, 90 the result is
    12. *)
Theorem calculateGap_upper_median (children : list Node) (direction : string) :
  let key := axisKey direction in
  let sorted := JS.sort (fun a b => JS.sub (key a) (key b)) children in
  let gaps := JS.sort (fun a b => JS.sub a b) (positiveGaps direction sorted) in
  Permutation sorted children /\
  Sorted (fun a b => JS.gt (key a) (key b) = false) sorted /\
  Permutation gaps (positiveGaps direction sorted) /\
  Sorted (fun g g' => JS.gt g g' = false) gaps /\
  (forall g, In g gaps ->
     JS.gt g JS.zero = true /\
     exists (i : nat) (a b : Node),
       nth_error sorted i = Some a /\ nth_error sorted (S i) = Some b /\
       g = axisDistance direction (n_bounds a) (n_bounds b)) /\
  ((length children < 2)%nat -> calculateGap children direction = JS.zero) /\
  ((2 <= length children)%nat -> gaps = [] ->
   calculateGap children direction = JS.zero) /\
  ((2 <= length children)%nat -> forall g, gaps = [g] ->
   calculateGap children direction = g) /\
  ((2 <= length children)%nat -> gaps <> [] ->
   nth_error gaps (length gaps / 2) = Some (calculateGap children direction)) /\
  calculateGap Samples.gapRow "row" = JS.of_Z 12.
Proof.
  cbv zeta. repeat apply conj.
  - apply JSFacts.sort_Permutation.
  - apply JSFacts.sort_by_key_Sorted.
  - apply JSFacts.sort_Permutation.
  - apply (JSFacts.sort_by_key_Sorted (fun g => g)).
  - intros g Hg. apply positiveGaps_spec.
    eapply Permutation_in; [apply JSFacts.sort_Permutation|exact Hg].
  - intros H. unfold calculateGap.
    destruct (Nat.ltb_spec (length children) 2); [reflexivity|lia].
  - intros H Hg. rewrite calculateGap_unfold by assumption. cbv zeta.
    now rewrite Hg.
  - intros H g Hg. rewrite calculateGap_unfold by assumption. cbv zeta.
    now rewrite Hg.
  - intros H Hg. rewrite calculateGap_unfold by assumption. cbv zeta.
    set (gaps := JS.sort _ _) in *.
    destruct gaps as [|g0 gaps'] eqn:E; [congruence|]. rewrite <- E.
    assert (Hlt : (length gaps / 2 < length gaps)%nat).
    { apply Nat.div_lt; [rewrite E; simpl; lia | lia]. }
    destruct (nth_error gaps (length gaps / 2)) eqn:En.
    + f_equal. symmetry. now apply nth_error_nth.
    + apply nth_error_None in En. lia.
  - vm_compute; reflexivity.
Qed.

Lemma calculateGap_upper_median_witness :
  calculateGap Samples.gapPair "row" = JS.of_Z 10.
Proof.
  apply (calculateGap_upper_median Samples.gapPair "row");
    [ simpl; lia | vm_compute; reflexivity ].
Defined.

End LayoutFacts.

(* ===================================================================== *)
(** ** Numbers up to the value they denote *)
(* ===================================================================== *)

Module NumEquiv.
Import JS (eqv).

#[global] Instance eqv_equiv : Equivalence eqv.
Proof.
  split.
  - intros [p| | |]; simpl; auto with qarith.
  - intros [p| | |] [q| | |]; simpl; auto with qarith.
  - intros [p| | |] [q| | |] [r| | |]; simpl; try tauto. apply Qeq_trans.
Qed.

#[global] Instance compare_proper : Proper (eqv ==> eqv ==> eq) JS.compare.
Proof.
  intros [p| | |] [p'| | |] Hp [q| | |] [q'| | |] Hq; simpl in *;
    try tauto; try reflexivity.
  now rewrite Hp, Hq.
Qed.

#[global] Instance neg_proper : Proper (eqv ==> eqv) JS.neg.
Proof.
  intros [p| | |] [p'| | |] Hp; simpl in *; try tauto. now rewrite Hp.
Qed.

#[global] Instance add_proper : Proper (eqv ==> eqv ==> eqv) JS.add.
Proof.
  intros [p| | |] [p'| | |] Hp [q| | |] [q'| | |] Hq; simpl in *; try tauto.
  now rewrite Hp, Hq.
Qed.

#[global] Instance sub_proper : Proper (eqv ==> eqv ==> eqv) JS.sub.
Proof. intros x x' Hx y y' Hy. unfold JS.sub. now rewrite Hx, Hy. Qed.

#[global] Instance mul_proper : Proper (eqv ==> eqv ==> eqv) JS.mul.
Proof.
  intros x x' Hx y y' Hy.
  assert (Hcx := compare_proper _ _ Hx JS.zero JS.zero (reflexivity _)).
  assert (Hcy := compare_proper _ _ Hy JS.zero JS.zero (reflexivity _)).
  destruct x as [p| | |], x' as [p'| | |]; simpl in Hx; try tauto;
    destruct y as [q| | |], y' as [q'| | |]; simpl in Hy; try tauto;
    try reflexivity;
    try (unfold JS.mul; rewrite <- ?Hcx, <- ?Hcy; reflexivity).
  simpl. now rewrite Hx, Hy.
Qed.

#[global] Instance max_proper : Proper (eqv ==> eqv ==> eqv) JS.max.
Proof.
  intros x x' Hx y y' Hy. unfold JS.max.
  rewrite (compare_proper _ _ Hx _ _ Hy).
  destruct (JS.compare x' y') as [[]|]; auto. reflexivity.
Qed.

#[global] Instance min_proper : Proper (eqv ==> eqv ==> eqv) JS.min.
Proof.
  intros x x' Hx y y' Hy. unfold JS.min.
  rewrite (compare_proper _ _ Hx _ _ Hy).
  destruct (JS.compare x' y') as [[]|]; auto. reflexivity.
Qed.

Lemma compare_antisym (x y : num) :
  JS.compare y x = option_map CompOpp (JS.compare x y).
Proof.
  destruct x as [p| | |], y as [q| | |]; simpl; try reflexivity.
  now rewrite <- Qcompare_antisym.
Qed.

Lemma compare_Eq_eqv (x y : num) : JS.compare x y = Some Eq -> eqv x y.
Proof.
  destruct x as [p| | |], y as [q| | |]; simpl; try discriminate; auto.
  intros H. apply Qeq_alt. congruence.
Qed.

Lemma max_comm (x y : num) : eqv (JS.max x y) (JS.max y x).
Proof.
  unfold JS.max. rewrite (compare_antisym x y).
  destruct (JS.compare x y) as [[]|] eqn:E; simpl; try reflexivity.
  now apply compare_Eq_eqv.
Qed.

Lemma min_comm (x y : num) : eqv (JS.min x y) (JS.min y x).
Proof.
  unfold JS.min. rewrite (compare_antisym x y).
  destruct (JS.compare x y) as [[]|] eqn:E; simpl; try reflexivity.
  now apply compare_Eq_eqv.
Qed.

Lemma surd_le_proper (x y t : num) :
  eqv x y -> JS.surd_le (JS.Sqrt x) t = JS.surd_le (JS.Sqrt y) t.
Proof.
  destruct x as [p| | |], y as [q| | |]; simpl; try tauto.
  intros H. destruct t as [r| | |]; try reflexivity.
  - assert (E1 : Qle_bool 0 p = Qle_bool 0 q) by now rewrite H.
    assert (E2 : Qle_bool p (r * r) = Qle_bool q (r * r)) by now rewrite H.
    now rewrite E1, E2.
  - now rewrite H.
Qed.

End NumEquiv.

(* ===================================================================== *)
(** ** Whole-pixel boxes and the gap between two boxes *)
(* ===================================================================== *)

Module PixelFacts.
Import SpatialClusteringHelper GeometrySpec PixelSpec.

Lemma whole_inv (x : num) :
  whole x = true -> exists z : Z, x = JS.of_Z z /\ (Z.abs z <= LIMIT)%Z.
Proof.
  destruct x as [[n d]| | |]; try discriminate.
  unfold whole. cbn [Qden Qnum].
  intros [Hd Hn]%andb_true_iff. apply Pos.eqb_eq in Hd. apply Z.leb_le in Hn.
  subst d. exists n. split; [reflexivity|assumption].
Qed.

Lemma le_of_Z (x y : Z) : JS.le (JS.of_Z x) (JS.of_Z y) = true <-> (x <= y)%Z.
Proof. unfold JS.of_Z. rewrite JSFacts.le_Num, <- Zle_Qle. reflexivity. Qed.

(** The edges of a whole-pixel box, as integers. *)
Lemma pixel_edges_inv (b : Bounds) :
  pixel_edges b = true ->
  exists t l r bt : Z,
    (b_top b = JS.of_Z t /\ b_left b = JS.of_Z l /\
     b_right b = JS.of_Z r /\ b_bottom b = JS.of_Z bt) /\
    ((t <= bt)%Z /\ (l <= r)%Z) /\
    (Z.abs t <= LIMIT)%Z /\ (Z.abs l <= LIMIT)%Z /\
    (Z.abs r <= LIMIT)%Z /\ (Z.abs bt <= LIMIT)%Z.
Proof.
  unfold pixel_edges. rewrite !andb_true_iff.
  intros [[[[[(t & Et & Ht)%whole_inv (l & El & Hl)%whole_inv]
               (r & Er & Hr)%whole_inv] (bt & Eb & Hb)%whole_inv] Hv] Hh].
  rewrite Et, Eb in Hv. rewrite El, Er in Hh. apply le_of_Z in Hv, Hh.
  exists t, l, r, bt. auto 12.
Qed.

Lemma pixel_finite (b : Bounds) : pixel_edges b = true -> finite_edges b.
Proof.
  intros (t & l & r & bt & (Et & El & Er & Eb) & _)%pixel_edges_inv.
  exists (inject_Z t), (inject_Z l), (inject_Z r), (inject_Z bt). auto.
Qed.

Lemma pixel_well_formed (b : Bounds) : pixel_edges b = true -> well_formed b.
Proof.
  unfold pixel_edges, well_formed. rewrite !andb_true_iff. tauto.
Qed.

Lemma square_mono (g d : Q) :
  (0 <= g)%Q -> (g <= d)%Q \/ (g <= - d)%Q -> (g * g <= d * d)%Q.
Proof. intros Hg [H|H]; nra. Qed.

Lemma square_nonneg (d : Q) : (0 * 0 <= d * d)%Q.
Proof. destruct (Qlt_le_dec d 0); nra. Qed.

Lemma square_eq (g d : Q) : (d == g)%Q \/ (d == - g)%Q -> (d * d == g * g)%Q.
Proof. intros [H|H]; rewrite H; ring. Qed.

(** On one axis, for two intervals that are not inverted: the clamped
    difference of [getMinDistance] is a lower bound of the distance between
    a point of the one and a point of the other, and two such points are
    exactly that far apart. *)
Lemma axis_clamp (lo hi lo' hi' : Q) :
  (lo <= hi)%Q -> (lo' <= hi')%Q ->
  exists g : Q,
    JS.max JS.zero
      (JS.sub (JS.max (JS.Num lo) (JS.Num lo')) (JS.min (JS.Num hi) (JS.Num hi')))
    = JS.Num g /\
    (0 <= g)%Q /\
    (forall x x' : Q,
       (lo <= x)%Q -> (x <= hi)%Q -> (lo' <= x')%Q -> (x' <= hi')%Q ->
       (g * g <= (x - x') * (x - x'))%Q) /\
    (exists x x' : Q,
       ((lo <= x)%Q /\ (x <= hi)%Q) /\ ((lo' <= x')%Q /\ (x' <= hi')%Q) /\
       ((x - x') * (x - x') == g * g)%Q).
Proof.
  intros H H'.
  unfold JS.max, JS.min, JS.sub, JS.add, JS.neg, JS.zero, JS.compare; simpl.
  repeat match goal with
         | |- context [(?p ?= ?q)%Q] => destruct (Qcompare_spec p q); simpl
         end;
    (eexists; split; [reflexivity|]; split; [lra|]; split;
     [ intros x x' ? ? ? ?;
       first [ apply square_mono; [lra | first [left; lra | right; lra]]
             | apply square_nonneg ]
     | first [ exists lo, hi'; split; [lra|]; split; [lra|]; apply square_eq; first [left; lra | right; lra]
             | exists hi, lo'; split; [lra|]; split; [lra|]; apply square_eq; first [left; lra | right; lra]
             | exists lo, lo; split; [lra|]; split; [lra|]; apply square_eq; first [left; lra | right; lra]
             | exists lo', lo'; split; [lra|]; split; [lra|]; apply square_eq; first [left; lra | right; lra] ] ]).
Qed.

(** For finite boxes that are not inverted, the threshold test of the
    clusterer holds exactly when the gap between the boxes is at most the
    threshold. *)
Lemma surd_le_gap_within (a b : Bounds) (t : Q) :
  finite_edges a -> finite_edges b -> well_formed a -> well_formed b ->
  (0 <= t)%Q ->
  JS.surd_le (getMinDistance a b) (JS.Num t) = true <-> gap_within t a b.
Proof.
  intros (ta & la & ra & ba & Eta & Ela & Era & Eba)
         (tb & lb & rb & bb & Etb & Elb & Erb & Ebb) [Hav Hah] [Hbv Hbh] Ht.
  unfold gap_within, inside, getMinDistance.
  rewrite Eta, Ela, Era, Eba in *. rewrite Etb, Elb, Erb, Ebb in *.
  apply JSFacts.le_Num in Hav, Hah, Hbv, Hbh.
  destruct (axis_clamp la ra lb rb Hah Hbh)
    as (gh & -> & Hgh & Hlow_h & xa & xb & Hxa & Hxb & Exh).
  destruct (axis_clamp ta ba tb bb Hav Hbv)
    as (gv & -> & Hgv & Hlow_v & ya & yb & Hya & Hyb & Eyv).
  simpl. rewrite !andb_true_iff, !Qle_bool_iff. split.
  - intros [[_ _] Hle]. exists xa, ya, xb, yb.
    rewrite !JSFacts.le_Num. repeat split; try tauto.
    rewrite Exh, Eyv. exact Hle.
  - intros (x1 & y1 & x2 & y2 & (H1 & H2 & H3 & H4) & (H5 & H6 & H7 & H8) & Hle).
    rewrite JSFacts.le_Num in H1, H2, H3, H4, H5, H6, H7, H8.
    pose proof (Hlow_h x1 x2 H1 H2 H5 H6) as Hh.
    pose proof (Hlow_v y1 y2 H3 H4 H7 H8) as Hv.
    repeat split; nra.
Qed.

(** Whole pixels matter.  With edges that are not whole numbers the
    rounded computation can link two boxes whose gap exceeds the threshold:
    the boxes below are 50 apart horizontally and 2^-600 apart vertically, so
    their gap is more than 50; the square of 2^-600 rounds to 0, the rounded
    distance is 50, and the comparison with the threshold 50 succeeds. *)
Lemma rounding_links_a_wider_gap :
  Doubles.withinThreshold RoundingSamples.doubleA RoundingSamples.doubleB
                          (Doubles.of_Z 50) = true /\
  JS.surd_le (getMinDistance RoundingSamples.boxA RoundingSamples.boxB)
             (JS.of_Z 50) = false /\
  ~ gap_within 50 RoundingSamples.boxA RoundingSamples.boxB.
Proof.
  assert (E : JS.surd_le
                (getMinDistance RoundingSamples.boxA RoundingSamples.boxB)
                (JS.of_Z 50) = false) by (vm_compute; reflexivity).
  split; [vm_compute; reflexivity|]. split; [exact E|].
  intros H.
  apply (surd_le_gap_within RoundingSamples.boxA RoundingSamples.boxB 50) in H.
  - unfold JS.of_Z in E. change (inject_Z 50) with 50%Q in E. congruence.
  - repeat eexists.
  - repeat eexists.
  - split; reflexivity.
  - split; reflexivity.
  - discriminate.
Qed.

End PixelFacts.

(* ===================================================================== *)
(** ** SpatialClusteringHelper: the breadth-first expansion *)
(* ===================================================================== *)

Module ClusterFacts.
Import SpatialClusteringHelper ClusterSpec.
Local Open Scope list_scope.

Lemma getMinDistance_sym (a b : Bounds) (t : num) :
  JS.surd_le (getMinDistance a b) t = JS.surd_le (getMinDistance b a) t.
Proof.
  unfold getMinDistance. apply NumEquiv.surd_le_proper.
  rewrite (NumEquiv.max_comm (b_left a) (b_left b)).
  rewrite (NumEquiv.min_comm (b_right a) (b_right b)).
  rewrite (NumEquiv.max_comm (b_top a) (b_top b)).
  rewrite (NumEquiv.min_comm (b_bottom a) (b_bottom b)).
  reflexivity.
Qed.

Lemma near_sym (t : num) (a b : Node) : near t a b -> near t b a.
Proof. unfold near. now rewrite getMinDistance_sym. Qed.

Lemma isNeighbor_sym (t : num) (a b : Node) :
  isNeighbor t a b = isNeighbor t b a.
Proof.
  unfold isNeighbor. rewrite (String.eqb_sym (n_id b) (n_id a)).
  destruct (String.eqb (n_id a) (n_id b)); [reflexivity|].
  apply getMinDistance_sym.
Qed.

Lemma isNeighbor_spec (t : num) (a b : Node) :
  isNeighbor t a b = true <-> n_id a <> n_id b /\ near t a b.
Proof.
  unfold isNeighbor, near.
  destruct (String.eqb_spec (n_id b) (n_id a)) as [E|E].
  - split; [discriminate|]. intros [H _]. congruence.
  - split; [intros H; split; [congruence|assumption] | tauto].
Qed.

Lemma elem_of_findNeighbors (x y : Node) (all : list Node) (t : num) :
  y ∈ findNeighbors x all t <-> y ∈ all /\ isNeighbor t x y = true.
Proof. unfold findNeighbors. rewrite !list_elem_of_In. apply filter_In. Qed.

Lemma elem_of_ids (s : string) (l : list Node) :
  s ∈ ids l <-> exists x, x ∈ l /\ n_id x = s.
Proof.
  unfold ids. rewrite elem_of_list_to_set, list_elem_of_In, in_map_iff.
  split; intros (x & H1 & H2); exists x; rewrite ?list_elem_of_In in *; tauto.
Qed.

Lemma ids_app (l k : list Node) : ids (l ++ k) = ids l ∪ ids k.
Proof. unfold ids. rewrite map_app. apply list_to_set_app_L. Qed.

Lemma ids_cons (x : Node) (l : list Node) : ids (x :: l) = {[ n_id x ]} ∪ ids l.
Proof. reflexivity. Qed.

Lemma ids_nil : ids [] = ∅.
Proof. reflexivity. Qed.

Lemma size_ids_le (l : list Node) : size (ids l) <= length l.
Proof.
  induction l as [|x l IH]; [reflexivity|].
  rewrite ids_cons. simpl.
  pose proof (size_union_alt (C:=gset string) {[ n_id x ]} (ids l)) as H.
  rewrite size_singleton in H.
  pose proof (subseteq_size (ids l ∖ {[ n_id x ]}) (ids l)) as H'.
  assert (size (ids l ∖ {[n_id x]}) <= size (ids l)) by (apply H'; set_solver).
  lia.
Qed.

(** *** The inner loop *)

Lemma visitNeighbors_spec (neighbors : list Node) (st : bfs) :
  exists new : list Node,
    bfs_cluster (visitNeighbors neighbors st) = bfs_cluster st ++ new /\
    bfs_queue (visitNeighbors neighbors st) = bfs_queue st ++ new /\
    bfs_visited (visitNeighbors neighbors st) = ids new ∪ bfs_visited st /\
    (forall x, x ∈ new -> x ∈ neighbors) /\
    NoDup (List.map n_id new) /\
    (forall x, x ∈ new -> n_id x ∉ bfs_visited st) /\
    (forall y, y ∈ neighbors -> n_id y ∈ bfs_visited (visitNeighbors neighbors st)).
Proof.
  revert st. induction neighbors as [|n rest IH]; intros st; simpl.
  - exists []. rewrite !app_nil_r, ids_nil.
    repeat apply conj; try set_solver. constructor.
  - case_bool_decide as Hv.
    + destruct (IH st) as (new & Hc & Hq & Hvis & Hsub & Hnd & Hfresh & Hall).
      exists new. repeat apply conj; try assumption.
      * intros x Hx. apply elem_of_cons. right. auto.
      * intros y [->|Hy]%elem_of_cons; [|auto]. rewrite Hvis. set_solver.
    + destruct (IH (mkBfs (bfs_cluster st ++ [n]) (bfs_queue st ++ [n])
                          ({[ n_id n ]} ∪ bfs_visited st)))
        as (new & Hc & Hq & Hvis & Hsub & Hnd & Hfresh & Hall).
      simpl in *. exists (n :: new).
      rewrite Hc, Hq, Hvis, <- !app_assoc, ids_cons. simpl.
      repeat apply conj; try reflexivity.
      * set_solver.
      * intros x [->|Hx]%elem_of_cons; apply elem_of_cons; auto.
      * apply NoDup_cons. split; [|assumption].
        intros (x & Hx1 & Hx2)%list_elem_of_fmap.
        apply (Hfresh x Hx2). rewrite <- Hx1. set_solver.
      * intros x [->|Hx]%elem_of_cons; [assumption|].
        specialize (Hfresh x Hx). set_solver.
      * intros y [->|Hy]%elem_of_cons; [set_solver|].
        specialize (Hall y Hy). rewrite Hvis in Hall. set_solver.
Qed.

Lemma size_ids_NoDup (l : list Node) :
  NoDup (List.map n_id l) -> size (ids l) = length l.
Proof.
  intros H. unfold ids. rewrite size_list_to_set by assumption.
  apply length_map.
Qed.

Lemma unique_by_id (l : list Node) (x y : Node) :
  NoDup (List.map n_id l) -> x ∈ l -> y ∈ l -> n_id x = n_id y -> x = y.
Proof.
  induction l as [|z l IH]; simpl; intros Hnd Hx Hy E.
  - now apply elem_of_nil in Hx.
  - apply NoDup_cons in Hnd as [Hz Hnd].
    apply elem_of_cons in Hx as [->|Hx], Hy as [->|Hy]; auto.
    + exfalso. apply Hz. rewrite E. now apply (list_elem_of_fmap_2 n_id).
    + exfalso. apply Hz. rewrite <- E. now apply (list_elem_of_fmap_2 n_id).
Qed.

Lemma linked_sym (all : list Node) (t : num) (a b : Node) :
  linked all t a b -> linked all t b a.
Proof.
  unfold linked. induction 1 as [|x y z [Hx [Hy Hxy]] _ IH]; [constructor|].
  eapply rtc_r; [exact IH|]. repeat split; try assumption. now apply near_sym.
Qed.

(** *** The [while] loop *)

Section Expansion.
Variables (all : list Node) (t : num) (seed : Node) (visited0 : gset string).

Lemma bfs_inv_init :
  seed ∈ all -> n_id seed ∉ visited0 ->
  bfs_inv all t seed visited0 (mkBfs [seed] [seed] ({[ n_id seed ]} ∪ visited0)).
Proof.
  intros Hin Hfresh. split; simpl.
  - rewrite ids_cons, ids_nil. set_solver.
  - apply NoDup_singleton.
  - intros x ->%list_elem_of_singleton. assumption.
  - intros x ->%list_elem_of_singleton. assumption.
  - auto.
  - auto.
  - intros x ->%list_elem_of_singleton. constructor.
  - apply list_elem_of_singleton. reflexivity.
Qed.

Lemma bfs_step (st : bfs) (current : Node) (queue' : list Node) :
  bfs_inv all t seed visited0 st ->
  bfs_queue st = current :: queue' ->
  let st' := visitNeighbors (findNeighbors current all t)
               (mkBfs (bfs_cluster st) queue' (bfs_visited st)) in
  bfs_inv all t seed visited0 st' /\
  bfs_measure all st' + 1 <= bfs_measure all st.
Proof.
  intros [Hvis Hnd Hfresh Hall Hq Hcl Hch Hseed] Hqueue. cbv zeta.
  destruct (visitNeighbors_spec (findNeighbors current all t)
              (mkBfs (bfs_cluster st) queue' (bfs_visited st)))
    as (new & Ec & Eq & Ev & Hsub & Hnd' & Hfresh' & Hcover).
  simpl in Ec, Eq, Ev, Hfresh'.
  assert (Hnew : forall x, x ∈ new -> x ∈ all /\ isNeighbor t current x = true).
  { intros x Hx. now apply elem_of_findNeighbors, Hsub. }
  assert (Hcur : current ∈ bfs_cluster st).
  { apply Hq. rewrite Hqueue. apply elem_of_cons. now left. }
  split.
  - split; rewrite ?Ec, ?Eq, ?Ev.
    + rewrite ids_app, Hvis. set_solver.
    + rewrite map_app. apply NoDup_app. repeat split; try assumption.
      intros s (x & -> & Hx)%list_elem_of_fmap (y & Hs & Hy)%list_elem_of_fmap.
      apply (Hfresh' y Hy). rewrite Hvis, <- Hs.
      apply elem_of_union_l, elem_of_ids. now exists x.
    + intros x [Hx|Hx]%elem_of_app; [auto|].
      specialize (Hfresh' x Hx). rewrite Hvis in Hfresh'. set_solver.
    + intros x [Hx|Hx]%elem_of_app; [auto|]. now apply Hnew.
    + intros x [Hx|Hx]%elem_of_app; apply elem_of_app; [left|now right].
      apply Hq. rewrite Hqueue. apply elem_of_cons. now right.
    + intros x [Hx|Hx]%elem_of_app.
      * destruct (Hcl x Hx) as [Hxq|Hxc].
        -- rewrite Hqueue in Hxq. apply elem_of_cons in Hxq as [->|Hxq].
           ++ right. intros y Hy Hn. rewrite <- Ev. apply Hcover.
              now apply elem_of_findNeighbors.
           ++ left. apply elem_of_app. now left.
        -- right. intros y Hy Hn. apply elem_of_union_r. now apply Hxc.
      * left. apply elem_of_app. now right.
    + intros x [Hx|Hx]%elem_of_app; [auto|].
      destruct (Hnew x Hx) as [Hxa Hxn]. apply isNeighbor_spec in Hxn as [_ Hxn].
      eapply rtc_r; [apply (Hch current Hcur)|]. repeat split; auto.
    + apply elem_of_app. now left.
  - unfold bfs_measure. rewrite Eq, Ev, Hqueue, length_app. simpl.
    assert (Hsize : size (ids all ∖ (ids new ∪ bfs_visited st)) + length new
                    <= size (ids all ∖ bfs_visited st)).
    { rewrite <- (size_ids_NoDup new) by assumption.
      rewrite <- size_union.
      - apply subseteq_size. intros s [Hs|Hs]%elem_of_union; [set_solver|].
        apply elem_of_ids in Hs as (x & Hx & <-).
        apply elem_of_difference. split.
        + apply elem_of_ids. exists x. split; [now apply Hnew|reflexivity].
        + now apply Hfresh'.
      - set_solver. }
    lia.
Qed.

Lemma expandLoop_inv (fuel : nat) (st : bfs) :
  bfs_inv all t seed visited0 st ->
  bfs_measure all st <= fuel ->
  exists st', expandLoop fuel all t st = Some st' /\
              bfs_inv all t seed visited0 st' /\ bfs_queue st' = [].
Proof.
  revert st. induction fuel as [|fuel IH]; intros st Hinv Hm.
  - destruct (bfs_queue st) as [|current queue'] eqn:Eq.
    + exists st. simpl. rewrite Eq. auto.
    + unfold bfs_measure in Hm. rewrite Eq in Hm. simpl in Hm. lia.
  - destruct (bfs_queue st) as [|current queue'] eqn:Eq.
    + exists st. simpl. rewrite Eq. auto.
    + destruct (bfs_step st current queue' Hinv Eq) as [Hinv' Hm'].
      simpl. rewrite Eq. apply IH; [assumption|lia].
Qed.

(** [expandCluster] returns, and its cluster is what the invariant says. *)
Lemma expandCluster_spec (fuel : nat) :
  seed ∈ all -> n_id seed ∉ visited0 -> S (length all) <= fuel ->
  exists cluster visited',
    expandCluster fuel seed all t visited0 = Some (cluster, visited') /\
    visited' = ids cluster ∪ visited0 /\
    NoDup (List.map n_id cluster) /\
    (forall x, x ∈ cluster -> n_id x ∉ visited0) /\
    (forall x, x ∈ cluster -> x ∈ all) /\
    (forall x, x ∈ cluster -> forall y, y ∈ all ->
       isNeighbor t x y = true -> n_id y ∈ visited') /\
    (forall x, x ∈ cluster -> linked all t seed x) /\
    seed ∈ cluster.
Proof.
  intros Hin Hfresh Hfuel.
  destruct (expandLoop_inv fuel (mkBfs [seed] [seed] ({[ n_id seed ]} ∪ visited0)))
    as (st' & E & [Hvis Hnd Hfr Hall Hq Hcl Hch Hseed] & Hempty).
  - now apply bfs_inv_init.
  - unfold bfs_measure. simpl.
    pose proof (size_ids_le all) as Hle.
    assert (size (ids all ∖ ({[n_id seed]} ∪ visited0)) <= size (ids all))
      by (apply subseteq_size; set_solver).
    lia.
  - exists (bfs_cluster st'), (bfs_visited st'). unfold expandCluster. rewrite E.
    repeat split; try assumption.
    intros x Hx y Hy Hn. destruct (Hcl x Hx) as [Hxq|Hxc]; [|now apply Hxc].
    rewrite Hempty in Hxq. now apply elem_of_nil in Hxq.
Qed.

End Expansion.

End ClusterFacts.

(* ===================================================================== *)
(** ** SpatialClusteringHelper: partition and connectivity *)
(* ===================================================================== *)

Module Partition.
Import SpatialClusteringHelper ClusterSpec ClusterFacts.
Import GeometrySpec PixelSpec PixelFacts.
Local Open Scope list_scope.

Lemma elem_of_concat (x : Node) (ls : list (list Node)) :
  x ∈ concat ls <-> exists c, c ∈ ls /\ x ∈ c.
Proof.
  rewrite list_elem_of_In, in_concat.
  split; intros (c & H1 & H2); exists c; rewrite ?list_elem_of_In in *; tauto.
Qed.

Lemma concat_snoc (ls : list (list Node)) (c : list Node) :
  concat (ls ++ [c]) = concat ls ++ c.
Proof. rewrite concat_app. simpl. now rewrite app_nil_r. Qed.


Section Loop.
Variables (all : list Node) (t : num).

Lemma loop_inv_init : loop_inv all t [] ∅ [].
Proof.
  split; simpl.
  - reflexivity.
  - constructor.
  - intros x Hx. now apply elem_of_nil in Hx.
  - intros x Hx. now apply elem_of_nil in Hx.
  - intros c Hc. now apply elem_of_nil in Hc.
  - intros c Hc. now apply elem_of_nil in Hc.
  - intros _ c Hc. now apply elem_of_nil in Hc.
Qed.

Lemma loop_inv_skip (done : list Node) (visited : gset string)
    (clusters : list (list Node)) (layer : Node) :
  loop_inv all t done visited clusters ->
  n_id layer ∈ visited ->
  loop_inv all t (done ++ [layer]) visited clusters.
Proof.
  intros [Hv Hnd Hall Hdone Hne Hch Hcl] Hin. split; try assumption.
  intros x [Hx| ->%list_elem_of_singleton]%elem_of_app; auto.
Qed.

Lemma loop_inv_extend (done : list Node) (visited : gset string)
    (clusters : list (list Node)) (layer : Node) (cluster : list Node) :
  loop_inv all t done visited clusters ->
  NoDup (List.map n_id cluster) ->
  (forall x, x ∈ cluster -> n_id x ∉ visited) ->
  (forall x, x ∈ cluster -> x ∈ all) ->
  (forall x, x ∈ cluster -> forall y, y ∈ all ->
     isNeighbor t x y = true -> n_id y ∈ ids cluster ∪ visited) ->
  (forall x, x ∈ cluster -> linked all t layer x) ->
  layer ∈ cluster ->
  loop_inv all t (done ++ [layer]) (ids cluster ∪ visited) (clusters ++ [cluster]).
Proof.
  intros [Hv Hnd Hall Hdone Hne Hch Hcl] Hnd' Hfresh Hall' Hclosed Hchain Hseed.
  split.
  - rewrite concat_snoc, ids_app, Hv. set_solver.
  - rewrite concat_snoc, map_app. apply NoDup_app. repeat split; try assumption.
    intros s Hs (y & -> & Hy)%list_elem_of_fmap.
    apply (Hfresh y Hy). rewrite Hv. unfold ids.
    now apply elem_of_list_to_set.
  - rewrite concat_snoc. intros x [Hx|Hx]%elem_of_app; auto.
  - intros x [Hx| ->%list_elem_of_singleton]%elem_of_app.
    + apply elem_of_union_r. auto.
    + apply elem_of_union_l, elem_of_ids. now exists layer.
  - intros c [Hc| ->%list_elem_of_singleton]%elem_of_app; [auto|].
    intros ->. now apply elem_of_nil in Hseed.
  - intros c [Hc| ->%list_elem_of_singleton]%elem_of_app; [auto|].
    exists layer. auto.
  - intros Huniq c [Hc| ->%list_elem_of_singleton]%elem_of_app; [now apply Hcl | ].
    intros x Hx y Hy Hn.
    pose proof (Hclosed x Hx y Hy Hn) as Hin.
    apply elem_of_union in Hin as [Hin|Hin].
    + apply elem_of_ids in Hin as (y' & Hy' & E).
      now rewrite <- (unique_by_id all y' y Huniq (Hall' y' Hy') Hy E).
    + exfalso. rewrite Hv in Hin.
      apply elem_of_ids in Hin as (y' & Hy' & E).
      assert (y' = y) as -> by (apply (unique_by_id all); auto).
      apply elem_of_concat in Hy' as (c & Hc & Hyc).
      assert (Hxc : x ∈ c).
      { apply (Hcl Huniq c Hc y Hyc x (Hall' x Hx)). now rewrite isNeighbor_sym. }
      apply (Hfresh x Hx). rewrite Hv. apply elem_of_ids. exists x.
      split; [|reflexivity]. apply elem_of_concat. now exists c.
Qed.

Lemma clusterLoop_inv (fuel : nat) (todo done : list Node)
    (visited : gset string) (clusters : list (list Node)) :
  S (length all) <= fuel ->
  all = done ++ todo ->
  loop_inv all t done visited clusters ->
  exists result,
    clusterLoop fuel todo all t visited clusters = Some result /\
    loop_inv all t all (ids (concat result)) result.
Proof.
  intros Hfuel. revert done visited clusters.
  induction todo as [|layer rest IH]; intros done visited clusters Hall Hinv.
  - exists clusters. rewrite app_nil_r in Hall. subst done. simpl.
    split; [reflexivity|]. now rewrite <- (li_visited _ _ _ _ _ Hinv).
  - assert (Hall' : all = (done ++ [layer]) ++ rest)
      by now rewrite <- app_assoc.
    simpl. case_bool_decide as Hv.
    + apply (IH (done ++ [layer])); [assumption|]. now apply loop_inv_skip.
    + assert (Hin : layer ∈ all).
      { rewrite Hall. apply elem_of_app. right. apply elem_of_cons. now left. }
      destruct (expandCluster_spec all t layer visited fuel Hin Hv Hfuel)
        as (cluster & visited' & E & -> & Hnd & Hfresh & Hsub & Hcl & Hch & Hseed).
      rewrite E.
      assert (Hlen : (0 <? length cluster)%nat = true).
      { apply Nat.ltb_lt. destruct cluster; simpl; [|lia].
        now apply elem_of_nil in Hseed. }
      rewrite Hlen.
      apply (IH (done ++ [layer])); [assumption|].
      now apply loop_inv_extend.
Qed.

End Loop.

(** [clusterByProximity] returns for every input, and the outer invariant
    holds of what it returns. *)
Lemma clusterByProximity_inv (layers : list Node) (t : num) :
  exists clusters,
    clusterByProximity layers t = Some clusters /\
    loop_inv layers t layers (ids (concat clusters)) clusters.
Proof.
  unfold clusterByProximity, clusterByProximity_fuel.
  destruct layers as [|x [|y rest]].
  - exists []. split; [reflexivity|]. apply loop_inv_init.
  - exists [[x]]. split; [reflexivity|]. split; simpl.
    + reflexivity.
    + apply NoDup_singleton.
    + auto.
    + intros z ->%list_elem_of_singleton. rewrite ids_cons. set_solver.
    + intros c ->%list_elem_of_singleton. discriminate.
    + intros c ->%list_elem_of_singleton. exists x.
      split; [apply list_elem_of_singleton; reflexivity|].
      intros z ->%list_elem_of_singleton. constructor.
    + intros _ c ->%list_elem_of_singleton z ->%list_elem_of_singleton
             y ->%list_elem_of_singleton Hn.
      apply isNeighbor_spec in Hn as [Hn _]. congruence.
  - apply (clusterLoop_inv _ t _ _ []); [lia|reflexivity|apply loop_inv_init].
Qed.

Lemma loop_inv_cover (layers : list Node) (t : num)
    (clusters : list (list Node)) :
  NoDup (List.map n_id layers) ->
  loop_inv layers t layers (ids (concat clusters)) clusters ->
  forall l, l ∈ layers -> l ∈ concat clusters.
Proof.
  intros Huniq [Hv Hnd Hall Hdone Hne Hch Hcl] l Hl. specialize (Hdone l Hl).
  apply elem_of_ids in Hdone as (l' & Hl' & El).
  now rewrite <- (unique_by_id layers l' l Huniq (Hall l' Hl') Hl El).
Qed.

(** Chains of hops the clusterer follows are chains of hops whose gap is
    within the threshold, on whole-pixel boxes. *)
Lemma near_gap_within (layers : list Node) (t : Z) (a b : Node) :
  Forall (fun l => pixel_edges (n_bounds l) = true) layers ->
  (0 <= t)%Z -> a ∈ layers -> b ∈ layers ->
  near (JS.of_Z t) a b <-> gap_within (inject_Z t) (n_bounds a) (n_bounds b).
Proof.
  intros Hpx Ht Ha Hb. rewrite Forall_forall in Hpx.
  pose proof (Hpx a Ha) as Pa. pose proof (Hpx b Hb) as Pb.
  unfold near, JS.of_Z.
  apply surd_le_gap_within;
    auto using pixel_finite, pixel_well_formed.
  change 0%Q with (inject_Z 0). now rewrite <- Zle_Qle.
Qed.

Lemma linked_chained (layers : list Node) (t : Z) (a b : Node) :
  Forall (fun l => pixel_edges (n_bounds l) = true) layers ->
  (0 <= t)%Z ->
  linked layers (JS.of_Z t) a b -> chained layers (inject_Z t) a b.
Proof.
  intros Hpx Ht. apply rtc_subrel.
  intros x y (Hx & Hy & Hxy). repeat split; try assumption.
  now apply (near_gap_within layers).
Qed.




(** C2 (amended): connectivity, for layers with pairwise distinct ids
    whose boxes have whole-pixel edges of size at most 2^25 and are not
    inverted, and a whole-number threshold between 0 and 2^25.  Two layers
    whose minimum Euclidean gap is at most the threshold are in one cluster.
    Two layers that no chain of such hops through the input connects are in
    two clusters, and no cluster holds both.  The boxes spanning x = [0,10]
    and x = [15,25] form one cluster at threshold 10 and two clusters at
    threshold 2. *)
Theorem clusterByProximity_connectivity (layers : list Node) (t : Z) :
  NoDup (List.map n_id layers) ->
  Forall (fun l => pixel_edges (n_bounds l) = true) layers ->
  (0 <= t <= LIMIT)%Z ->
  (exists clusters,
     clusterByProximity layers (JS.of_Z t) = Some clusters /\
     (forall a b, a ∈ layers -> b ∈ layers ->
        gap_within (inject_Z t) (n_bounds a) (n_bounds b) ->
        exists c, c ∈ clusters /\ a ∈ c /\ b ∈ c) /\
     (forall a b, a ∈ layers -> b ∈ layers ->
        ~ chained layers (inject_Z t) a b ->
        (exists ca cb, ca ∈ clusters /\ cb ∈ clusters /\ a ∈ ca /\ b ∈ cb) /\
        forall c, c ∈ clusters -> ~ (a ∈ c /\ b ∈ c))) /\
  clusterByProximity Samples.nearPair (JS.of_Z 10) = Some [Samples.nearPair] /\
  clusterByProximity Samples.nearPair (JS.of_Z 2)
  = Some [[Samples.boxP]; [Samples.boxQ]].
Proof.
  intros Huniq Hpx [Ht _]. split; [|split; vm_compute; reflexivity].
  destruct (clusterByProximity_inv layers (JS.of_Z t)) as (clusters & E & Hinv).
  pose proof (loop_inv_cover layers _ clusters Huniq Hinv) as Hcover.
  destruct Hinv as [Hv Hnd Hall Hdone Hne Hch Hcl].
  exists clusters. repeat apply conj; [assumption| |].
  - intros a b Ha Hb Hab.
    apply (near_gap_within layers t a b Hpx Ht Ha Hb) in Hab.
    pose proof (Hcover a Ha) as Hac.
    apply elem_of_concat in Hac as (c & Hc & Hac).
    exists c. repeat split; try assumption.
    destruct (decide (n_id a = n_id b)) as [Eid|Nid].
    + now rewrite <- (unique_by_id layers a b Huniq Ha Hb Eid).
    + apply (Hcl Huniq c Hc a Hac b Hb). now apply isNeighbor_spec.
  - intros a b Ha Hb Hnot. split.
    + pose proof (Hcover a Ha) as (ca & Hca & Hac)%elem_of_concat.
      pose proof (Hcover b Hb) as (cb & Hcb & Hbc)%elem_of_concat.
      exists ca, cb. auto.
    + intros c Hc [Hac Hbc]. apply Hnot.
      apply (linked_chained layers t a b Hpx Ht).
      destruct (Hch c Hc) as (seed & Hseed & Hlink).
      unfold linked. etransitivity.
      * apply linked_sym, (Hlink a Hac).
      * apply (Hlink b Hbc).
Qed.

Lemma connectivity_witness :
  exists c,
    c ∈ [Samples.nearPair] /\ Samples.boxP ∈ c /\ Samples.boxQ ∈ c.
Proof.
  destruct (clusterByProximity_connectivity Samples.nearPair 10)
    as [(clusters & E & Hnear & _) [E10 _]].
  - apply (bool_decide_unpack _). vm_compute. reflexivity.
  - repeat constructor.
  - unfold LIMIT. lia.
  - rewrite E10 in E. injection E as <-.
    apply Hnear.
    + apply elem_of_cons. now left.
    + apply elem_of_cons. right. apply elem_of_cons. now left.
    + exists 10%Q, 0%Q, 15%Q, 0%Q.
      split; [repeat split|]. split; [repeat split|]. discriminate.
Defined.

(** C2, as stated for any two layers of the input, fails: of two
    overlapping layers with the same id only the first is clustered.  Their
    gap is 0, within the threshold 10, and no cluster holds both. *)
Lemma repeated_id_not_joined :
  clusterByProximity Samples.overlappingTwins (JS.of_Z 10)
  = Some [[Samples.boxP]] /\
  gap_within 10 (n_bounds Samples.boxP) (n_bounds Samples.boxPover) /\
  ~ (exists c, c ∈ [[Samples.boxP]] /\ Samples.boxP ∈ c /\ Samples.boxPover ∈ c).
Proof.
  split; [vm_compute; reflexivity|]. split.
  - exists 5%Q, 0%Q, 5%Q, 0%Q.
    split; [repeat split|]. split; [repeat split|]. discriminate.
  - intros (c & Hc & _ & Hin).
    apply list_elem_of_singleton in Hc as ->.
    apply list_elem_of_singleton in Hin. discriminate Hin.
Qed.

End Partition.

(* ===================================================================== *)
(** ** StructureInferenceEngine: the decision order of [inferWidgetType] *)
(* ===================================================================== *)

Module InferenceFacts.
Import StructureInferenceEngine InferenceSpec.
Local Open Scope list_scope.

Lemma analyzeLayer_hasImage (c : Composition) (l : Node) :
  hasImage (analyzeLayer c l) = hasImage c || isRegularImage l.
Proof.
  unfold analyzeLayer, isRegularImage.
  destruct (isTextLayer l); simpl.
  - destruct (JS.ge _ _); simpl; now rewrite orb_false_r.
  - destruct (isImageLayer l); simpl; [|now rewrite orb_false_r].
    destruct (JS.le _ _ && JS.le _ _); simpl;
      [now rewrite orb_false_r|now rewrite orb_true_r].
Qed.

Lemma analyzeLayer_hasHeading (c : Composition) (l : Node) :
  hasHeading (analyzeLayer c l) = hasHeading c || isHeadingText l.
Proof.
  unfold analyzeLayer, isHeadingText.
  destruct (isTextLayer l); simpl.
  - destruct (JS.ge _ _); simpl; [now rewrite orb_true_r|now rewrite orb_false_r].
  - destruct (isImageLayer l); simpl; now rewrite orb_false_r.
Qed.

Lemma fold_hasImage (cluster : list Node) (c : Composition) :
  hasImage (fold_left analyzeLayer cluster c)
  = hasImage c || existsb isRegularImage cluster.
Proof.
  revert c. induction cluster as [|l rest IH]; intros c; simpl.
  - now rewrite orb_false_r.
  - now rewrite IH, analyzeLayer_hasImage, orb_assoc.
Qed.

Lemma fold_hasHeading (cluster : list Node) (c : Composition) :
  hasHeading (fold_left analyzeLayer cluster c)
  = hasHeading c || existsb isHeadingText cluster.
Proof.
  revert c. induction cluster as [|l rest IH]; intros c; simpl.
  - now rewrite orb_false_r.
  - now rewrite IH, analyzeLayer_hasHeading, orb_assoc.
Qed.

(** The first rule of the decision order: it fires whatever else the
    cluster holds. *)
Lemma image_box_first (cluster : list Node) :
  (2 <= length cluster)%nat ->
  existsb isRegularImage cluster = true ->
  existsb isHeadingText cluster = true ->
  inferWidgetType cluster
  = mkInference WImageBox (JS.Num 0.85) cluster
      (Some (extractImageBoxData cluster (analyzeComposition cluster))).
Proof.
  intros Hlen Himg Hhead.
  destruct cluster as [|a [|b rest]]; simpl in Hlen; try lia.
  unfold inferWidgetType.
  unfold analyzeComposition at 1 2.
  rewrite fold_hasImage, fold_hasHeading, Himg, Hhead. reflexivity.
Qed.

(** A heading and two body texts: every member is text, so nothing is
    tallied as an image or a button shape, and the text count is 3. *)
Lemma heading_two_texts (h t1 t2 : Node) :
  isHeadingText h = true -> isBodyText t1 = true -> isBodyText t2 = true ->
  inferWidgetType [h; t1; t2]
  = mkInference WIconList (JS.Num 0.7) [h; t1; t2]
      (Some (ListData [textOf t1; textOf t2])).
Proof.
  unfold isHeadingText, isBodyText.
  intros [Hh1 Hh2]%andb_prop [Ht1 Ht1']%andb_prop [Ht2 Ht2']%andb_prop.
  apply negb_true_iff in Ht1', Ht2'.
  unfold inferWidgetType, analyzeComposition. simpl.
  unfold analyzeLayer. rewrite Hh1, Hh2. simpl.
  rewrite Ht1, Ht1'. simpl. rewrite Ht2, Ht2'. reflexivity.
Qed.

(** C4: in a cluster of two or more layers, a regular (not icon-sized) image
    together with a heading (text of size 24 or more) gives [image-box] with
    confidence 0.85, before any other rule is looked at; so does the cluster
    [image, heading]; and a heading with two body texts and no image gives
    [icon-list] with confidence 0.7. *)
Theorem inferWidgetType_decision_order :
  (forall cluster : list Node,
     (2 <= length cluster)%nat ->
     existsb isRegularImage cluster = true ->
     existsb isHeadingText cluster = true ->
     widgetType (inferWidgetType cluster) = WImageBox /\
     confidence (inferWidgetType cluster) = JS.Num 0.85 /\
     layers (inferWidgetType cluster) = cluster) /\
  (forall image heading : Node,
     isRegularImage image = true -> isHeadingText heading = true ->
     widgetType (inferWidgetType [image; heading]) = WImageBox /\
     confidence (inferWidgetType [image; heading]) = JS.Num 0.85) /\
  (forall h t1 t2 : Node,
     isHeadingText h = true -> isBodyText t1 = true -> isBodyText t2 = true ->
     widgetType (inferWidgetType [h; t1; t2]) = WIconList /\
     confidence (inferWidgetType [h; t1; t2]) = JS.Num 0.7 /\
     textCount (analyzeComposition [h; t1; t2]) = 3%nat /\
     imageCount (analyzeComposition [h; t1; t2]) = 0%nat) /\
  widgetType (inferWidgetType [Samples.photo; Samples.heading28]) = WImageBox /\
  inferWidgetType [Samples.heading28; Samples.body1; Samples.body2]
  = mkInference WIconList (JS.Num 0.7)
      [Samples.heading28; Samples.body1; Samples.body2]
      (Some (ListData ["First line of copy"; "Second line of copy"])).
Proof.
  repeat apply conj.
  - intros cluster Hlen Himg Hhead.
    now rewrite (image_box_first cluster Hlen Himg Hhead).
  - intros image heading Himg Hhead.
    rewrite (image_box_first [image; heading]); simpl; auto.
    + now rewrite Himg.
    + rewrite Hhead. now rewrite orb_true_r.
  - intros h t1 t2 Hh Ht1 Ht2.
    rewrite (heading_two_texts h t1 t2 Hh Ht1 Ht2). simpl.
    repeat split.
    all: unfold isHeadingText, isBodyText in *;
      apply andb_prop in Hh as [Hh1 Hh2];
      apply andb_prop in Ht1 as [Ht1 Ht1'];
      apply andb_prop in Ht2 as [Ht2 Ht2'];
      apply negb_true_iff in Ht1', Ht2';
      unfold analyzeComposition; simpl; unfold analyzeLayer;
      rewrite Hh1, Hh2; simpl; rewrite Ht1, Ht1'; simpl;
      rewrite Ht2, Ht2'; reflexivity.
  - vm_compute. reflexivity.
  - vm_compute. reflexivity.
Qed.

Lemma inferWidgetType_decision_order_witness :
  widgetType (inferWidgetType [Samples.photo; Samples.heading28; Samples.body1])
  = WImageBox /\
  widgetType (inferWidgetType [Samples.heading28; Samples.body1; Samples.body2])
  = WIconList.
Proof.
  destruct inferWidgetType_decision_order as (Hfirst & _ & Hlist & _).
  split.
  - apply Hfirst; [simpl; lia | vm_compute; reflexivity | vm_compute; reflexivity].
  - apply Hlist; vm_compute; reflexivity.
Defined.

End InferenceFacts.

(* ===================================================================== *)
(** ** ImageBoxContentClassifier: role scoring *)
(* ===================================================================== *)

Module TextRoleFacts.
Import ImageBoxContentClassifier TextRoleSpec.
Local Open Scope list_scope.
Local Open Scope Z_scope.

(** Weight, length and line count move the score by at most +35 and at
    least -25. *)
Lemma scoreLayer_bounds (l : Node) (ti : TextInfo) :
  n_textInfo l = Some ti ->
  exists s : Z,
    scoreLayer l = JS.Ok (mkScored l s (b_top (n_bounds l))) /\
    baseScore (n_name l) (ti_fontSize ti) - 25 <= s
    <= baseScore (n_name l) (ti_fontSize ti) + 35.
Proof.
  intros Hti. unfold scoreLayer, baseScore. rewrite Hti.
  eexists. split; [reflexivity|].
  destruct (JS.test_prefix_ci NAME_PATTERNS.heading (n_name l));
  destruct (JS.test_prefix_ci NAME_PATTERNS.description (n_name l));
  destruct (JS.ge (ti_fontSize ti) (JS.of_Z 24));
  destruct (JS.ge (ti_fontSize ti) (JS.of_Z 20));
  destruct (JS.ge (ti_fontSize ti) (JS.of_Z 18));
  destruct (JS.le (ti_fontSize ti) (JS.of_Z 14));
  destruct (String.eqb (ti_fontWeight ti) "bold");
  destruct (String.length (ti_text ti) <=? 50)%nat;
  destruct (100 <? String.length (ti_text ti))%nat;
  destruct (JS.lineCount (ti_text ti) =? 1)%nat;
  destruct (2 <? JS.lineCount (ti_text ti))%nat; lia.
Qed.

Lemma of_Z_gt_zero (z : Z) : JS.gt (JS.of_Z z) JS.zero = (0 <? z).
Proof.
  unfold JS.gt, JS.lt, JS.of_Z, JS.zero. simpl.
  unfold Qcompare. simpl. rewrite Z.mul_1_r.
  now destruct z.
Qed.

(** Two candidates whose scores differ: the higher one is the heading and
    the lower one the description, in whichever order they are given. *)
Lemma classifyTextLayers_two (a b : Node) (sa sb : Z) :
  scoreLayer a = JS.Ok (mkScored a sa (b_top (n_bounds a))) ->
  scoreLayer b = JS.Ok (mkScored b sb (b_top (n_bounds b))) ->
  sb < sa ->
  classifyTextLayers [a; b] = JS.Ok (Some a, Some b) /\
  classifyTextLayers [b; a] = JS.Ok (Some a, Some b).
Proof.
  intros Ha Hb Hlt. unfold classifyTextLayers. simpl. rewrite Ha, Hb. simpl.
  unfold JS.sort. simpl. rewrite !of_Z_gt_zero.
  destruct (Z.ltb_spec 0 (sb - sa)); [lia|].
  destruct (Z.ltb_spec 0 (sa - sb)); [|lia].
  simpl. destruct (Z.eqb_spec sa sb); [lia|]. split; reflexivity.
Qed.

(** C6: among the two candidates named "title_x" (size 30) and "desc_y"
    (size 14), whatever their text and weight, the scoring makes title_x the
    heading and desc_y the description, for both input orders; [classify]
    passes that result on. *)
Theorem title_desc_roles (t d : Node) (tt td : TextInfo) :
  n_name t = "title_x" -> n_textInfo t = Some tt -> ti_fontSize tt = JS.of_Z 30 ->
  n_name d = "desc_y" -> n_textInfo d = Some td -> ti_fontSize td = JS.of_Z 14 ->
  classifyTextLayers [t; d] = JS.Ok (Some t, Some d) /\
  classifyTextLayers [d; t] = JS.Ok (Some t, Some d) /\
  (n_type t = TText -> n_type d = TText ->
   forall th,
     JS.bind (classify th [t; d]) (fun r => JS.Ok (r_heading r, r_description r))
     = JS.Ok (Some t, Some d) /\
     JS.bind (classify th [d; t]) (fun r => JS.Ok (r_heading r, r_description r))
     = JS.Ok (Some t, Some d)).
Proof.
  intros Nt Tt St Nd Td Sd.
  destruct (scoreLayer_bounds t tt Tt) as (st & Est & Hst).
  destruct (scoreLayer_bounds d td Td) as (sd & Esd & Hsd).
  rewrite Nt, St in Hst. rewrite Nd, Sd in Hsd.
  change (baseScore "title_x" (JS.of_Z 30)) with 80 in Hst.
  change (baseScore "desc_y" (JS.of_Z 14)) with (-70) in Hsd.
  destruct (classifyTextLayers_two t d st sd Est Esd ltac:(lia)) as [E1 E2].
  repeat apply conj; try assumption.
  intros Xt Xd th.
  assert (Ft : fillTextInfo t = t) by (unfold fillTextInfo; now rewrite Tt, Xt).
  assert (Fd : fillTextInfo d = d) by (unfold fillTextInfo; now rewrite Td, Xd).
  unfold classify. simpl. rewrite Ft, Fd, Xt, Xd. simpl.
  rewrite E1, E2. simpl. split; reflexivity.
Qed.

Lemma title_desc_roles_witness :
  classifyTextLayers [Samples.title_x; Samples.desc_y]
  = JS.Ok (Some Samples.title_x, Some Samples.desc_y) /\
  classifyTextLayers [Samples.desc_y; Samples.title_x]
  = JS.Ok (Some Samples.title_x, Some Samples.desc_y).
Proof.
  destruct (title_desc_roles Samples.title_x Samples.desc_y
              (Samples.style "Welcome" 30 "normal")
              (Samples.style "A short description" 14 "normal"))
    as (H1 & H2 & _); try reflexivity.
  split; assumption.
Defined.

End TextRoleFacts.

(* ===================================================================== *)
(** ** layerClassifier: composite suppression *)
(* ===================================================================== *)

Module ClassifierFacts.
Import layerClassifier.
Local Open Scope list_scope.

Lemma existsb_map {A B : Type} (f : B -> bool) (g : A -> B) (l : list A) :
  existsb f (List.map g l) = existsb (fun x => f (g x)) l.
Proof. induction l as [|x l IH]; simpl; [reflexivity|now rewrite IH]. Qed.

(** The widget type [classifyLayer] assigns, spelled out. *)
Lemma classifyLayer_widgetType (layer : Node) :
  n_widgetType (classifyLayer layer) =
  Some (let w := determineWidgetType layer in
        match n_children layer with
        | [] => w
        | _ :: _ =>
            if existsb (fun c => bool_decide (c = w)) COMPOSITE_WIDGETS then w
            else match detectCompositeWidget
                         (List.map classifyLayer (n_children layer)) with
                 | Some compositeType =>
                     if bool_decide (w = WContainer) then compositeType else w
                 | None => w
                 end
        end).
Proof.
  destruct layer as [id name ty vis b children ti hi w0 bc sd conf lay cd ic slc rp pc].
  cbn [classifyLayer n_children].
  destruct children as [|c cs]; [reflexivity|].
  destruct (existsb _ COMPOSITE_WIDGETS); [reflexivity|].
  destruct (detectCompositeWidget _); [|reflexivity].
  destruct (bool_decide _); reflexivity.
Qed.

Lemma classifyLayer_children (layer : Node) :
  existsb (fun c => bool_decide (c = determineWidgetType layer)) COMPOSITE_WIDGETS
  = false ->
  n_children (classifyLayer layer) = List.map classifyLayer (n_children layer).
Proof.
  destruct layer as [id name ty vis b children ti hi w0 bc sd conf lay cd ic slc rp pc].
  cbn [classifyLayer n_children]. intros H.
  destruct children as [|c cs]; [reflexivity|].
  rewrite H.
  destruct (detectCompositeWidget _); [|reflexivity].
  destruct (bool_decide _); reflexivity.
Qed.

(** A complex child switches composite detection off. *)
Lemma detectCompositeWidget_suppressed (children : list Node) :
  existsb (fun c => isComplexWidget (n_widgetType c)) children = true ->
  detectCompositeWidget children = None.
Proof.
  intros H. unfold detectCompositeWidget.
  destruct children as [|c cs]; [reflexivity|].
  rewrite existsb_map. now rewrite H.
Qed.

(** C3: composite suppression.  When one of the classified children of a
    group is an image-box, icon-box, icon-list, container or button,
    [detectCompositeWidget] answers null whatever else the children are, and
    the group keeps the type its own name and kind gave it -- [container]
    for a group that classified as container.  A group holding an image-box
    child and a heading child is a container, not an image-box; a heading and
    a text next to two finished cards stay in a container, although the
    heading and the text alone collapse into an icon-box. *)
Theorem composite_suppression :
  (forall children : list Node,
     existsb (fun c => isComplexWidget (n_widgetType c)) children = true ->
     detectCompositeWidget children = None) /\
  (forall layer : Node,
     existsb (fun c => isComplexWidget (n_widgetType (classifyLayer c)))
             (n_children layer) = true ->
     n_widgetType (classifyLayer layer) = Some (determineWidgetType layer)) /\
  (forall layer : Node,
     determineWidgetType layer = WContainer ->
     existsb (fun c => isComplexWidget (n_widgetType (classifyLayer c)))
             (n_children layer) = true ->
     n_widgetType (classifyLayer layer) = Some WContainer /\
     n_isComposite (classifyLayer layer) = n_isComposite layer) /\
  (List.map n_widgetType (n_children (classifyLayer Samples.sectionGroup))
   = [Some WImageBox; Some WHeading] /\
   n_widgetType (classifyLayer Samples.sectionGroup) = Some WContainer) /\
  (List.map n_widgetType (n_children (classifyLayer Samples.cardsGroup))
   = [Some WHeading; Some WTextEditor; Some WImageBox; Some WImageBox] /\
   n_widgetType (classifyLayer Samples.cardsGroup) = Some WContainer /\
   n_widgetType (classifyLayer Samples.textsGroup) = Some WIconBox).
Proof.
  assert (Hkeep : forall layer : Node,
     existsb (fun c => isComplexWidget (n_widgetType (classifyLayer c)))
             (n_children layer) = true ->
     n_widgetType (classifyLayer layer) = Some (determineWidgetType layer)).
  { intros layer H. rewrite classifyLayer_widgetType. cbv zeta.
    destruct (n_children layer) as [|c cs] eqn:E; [reflexivity|].
    destruct (existsb _ COMPOSITE_WIDGETS); [reflexivity|].
    rewrite detectCompositeWidget_suppressed; [reflexivity|].
    now rewrite existsb_map. }
  repeat apply conj.
  - exact detectCompositeWidget_suppressed.
  - exact Hkeep.
  - intros layer Hw H. split; [now rewrite (Hkeep layer H), Hw|].
    destruct layer as [id name ty vis b children ti hi w0 bc sd conf lay cd ic slc rp pc].
    cbn [classifyLayer n_children n_isComposite] in *.
    destruct children as [|c cs]; [reflexivity|].
    destruct (existsb _ COMPOSITE_WIDGETS); [reflexivity|].
    rewrite detectCompositeWidget_suppressed; [reflexivity|].
    now rewrite existsb_map.
  - vm_compute. reflexivity.
  - vm_compute. reflexivity.
  - vm_compute. reflexivity.
  - vm_compute. reflexivity.
  - vm_compute. reflexivity.
Qed.

Lemma composite_suppression_witness :
  n_widgetType (classifyLayer Samples.sectionGroup) = Some WContainer /\
  n_isComposite (classifyLayer Samples.sectionGroup) = false.
Proof.
  destruct composite_suppression as (_ & _ & H & _).
  apply (H Samples.sectionGroup); vm_compute; reflexivity.
Defined.

End ClassifierFacts.

(* ===================================================================== *)
(** ** RawPSDAdapter: the boundary filter *)
(* ===================================================================== *)

Module BoundaryFacts.
Import RawPSDAdapter AdapterSpec.
Local Open Scope list_scope.

Lemma elem_of_filterValidLayers (layers : list Node) (l : Node) :
  l ∈ filterValidLayers layers <->
  l ∈ layers /\ n_visible l = true /\
  JS.gt (b_width (n_bounds l)) JS.zero = true /\
  JS.gt (b_height (n_bounds l)) JS.zero = true.
Proof.
  unfold filterValidLayers, isValidLayer.
  rewrite !list_elem_of_In, filter_In, !andb_true_iff. tauto.
Qed.

(** C8, as stated, fails: nothing rejects a non-finite bounds value.  A box
    with infinite right and bottom edges (and so an infinite size) and a box
    with NaN top and bottom beside a 10x10 size both pass the filter, enter
    the clustering, and the pipeline returns a tree whose root bounds are
    NaN. *)
Lemma nonfinite_bounds_pass_the_boundary :
  b_right (n_bounds Samples.unboundedBox) = JS.Infinity /\
  b_top (n_bounds Samples.nanEdgeBox) = JS.NaN /\
  filterValidLayers [Samples.unboundedBox; Samples.nanEdgeBox]
  = [Samples.unboundedBox; Samples.nanEdgeBox] /\
  SpatialClusteringHelper.clusterByProximity
    (filterValidLayers [Samples.unboundedBox; Samples.nanEdgeBox])
    CONFIG.PROXIMITY_THRESHOLD
  = Some [[Samples.unboundedBox]; [Samples.nanEdgeBox]] /\
  exists root k,
    processLayers Samples.randomId
      [Samples.farText; Samples.nanEdgeBox; Samples.unboundedBox]
      (JS.of_Z 1200) 0 = JS.Ok ([root], k) /\
    b_top (n_bounds root) = JS.NaN /\
    b_right (n_bounds root) = JS.Infinity.
Proof.
  repeat apply conj; try (vm_compute; reflexivity).
  eexists _, _. repeat apply conj; vm_compute; reflexivity.
Qed.

(** C8 (amended): the boundary filter keeps exactly the visible layers whose
    stored width and height are greater than zero, and raises nothing.  A
    layer whose width or height is NaN is dropped silently; the filter never
    looks at the four edges, so NaN or infinite edges pass, and so does an
    infinite width and height. *)
Theorem filterValidLayers_nonfinite :
  (forall (layers : list Node) (l : Node),
     l ∈ filterValidLayers layers <->
     l ∈ layers /\ n_visible l = true /\
     JS.gt (b_width (n_bounds l)) JS.zero = true /\
     JS.gt (b_height (n_bounds l)) JS.zero = true) /\
  (forall (layers : list Node) (l : Node),
     b_width (n_bounds l) = JS.NaN \/ b_height (n_bounds l) = JS.NaN ->
     l ∉ filterValidLayers layers) /\
  (forall (l : Node) (t lf r b : num),
     isValidLayer (with_edges l t lf r b) = isValidLayer l) /\
  (forall l : Node,
     n_visible l = true ->
     b_width (n_bounds l) = JS.Infinity -> b_height (n_bounds l) = JS.Infinity ->
     isValidLayer l = true) /\
  filterValidLayers
    [Samples.unboundedBox; Samples.nanEdgeBox; Samples.nanWidthBox; Samples.hiddenBox]
  = [Samples.unboundedBox; Samples.nanEdgeBox].
Proof.
  repeat apply conj.
  - exact elem_of_filterValidLayers.
  - intros layers l Hnan (_ & _ & Hw & Hh)%elem_of_filterValidLayers.
    destruct Hnan as [E|E]; rewrite E in *; discriminate.
  - reflexivity.
  - intros l Hv Hw Hh. unfold isValidLayer. now rewrite Hv, Hw, Hh.
  - vm_compute. reflexivity.
Qed.

Lemma filterValidLayers_nonfinite_witness :
  Samples.nanWidthBox ∉ filterValidLayers [Samples.nanWidthBox; Samples.photo] /\
  isValidLayer Samples.unboundedBox = true.
Proof.
  destruct filterValidLayers_nonfinite as (_ & Hnan & _ & Hinf & _).
  split.
  - apply Hnan. left. reflexivity.
  - apply Hinf; reflexivity.
Defined.

End BoundaryFacts.

(* ===================================================================== *)
(** ** RawPSDAdapter: the shape of the result of [buildTree] *)
(* ===================================================================== *)

Module TreeFacts.
Import RawPSDAdapter AdapterSpec.
Local Open Scope list_scope.

Section WithIdentifiers.
Variable randomId : nat -> string.

Lemma mapM_total {A B : Type} (f : A -> M B) (l : list A) :
  (forall x, x ∈ l -> forall k, exists y k', f x k = JS.Ok (y, k')) ->
  forall k, exists ys k', mapM f l k = JS.Ok (ys, k') /\ length ys = length l.
Proof.
  induction l as [|x l IH]; intros Hf k; simpl.
  - now exists [], k.
  - destruct (Hf x ltac:(apply elem_of_cons; now left) k) as (y & k1 & E1).
    destruct (IH (fun z Hz => Hf z ltac:(apply elem_of_cons; now right)) k1)
      as (ys & k2 & E2 & Hlen).
    exists (y :: ys), k2. unfold bindM. rewrite E1, E2. simpl.
    split; [reflexivity|now rewrite Hlen].
Qed.

Lemma buildWidgetFromLayer_total (layer : Node)
    (inference : StructureInferenceEngine.Inference) (k : nat) :
  exists y k', buildWidgetFromLayer randomId layer inference k = JS.Ok (y, k').
Proof.
  unfold buildWidgetFromLayer, bindM.
  destruct (n_id layer); simpl; eauto.
Qed.

(** A sub-clustering that splits leaves every part strictly smaller. *)
Lemma subClusters_shorter (cluster : list Node) (subClusters : list (list Node)) :
  subClusterLayers cluster = Some subClusters ->
  (1 < length subClusters)%nat ->
  forall c, c ∈ subClusters -> (length c < length cluster)%nat.
Proof.
  unfold subClusterLayers. intros E Hlen c Hc.
  destruct (Partition.clusterByProximity_inv cluster
              (JS.mul CONFIG.PROXIMITY_THRESHOLD (JS.Num 0.6)))
    as (clusters & E' & [Hv Hnd Hall Hdone Hne Hch Hcl]).
  rewrite E in E'. injection E' as <-.
  assert (Hle : (length (concat subClusters) <= length cluster)%nat).
  { apply submseteq_length, NoDup_submseteq; [|assumption].
    now apply NoDup_fmap_1 in Hnd. }
  apply list_elem_of_split in Hc as (l1 & l2 & ->).
  rewrite concat_app in Hle. simpl in Hle. rewrite !length_app in Hle.
  rewrite length_app in Hlen. simpl in Hlen.
  assert (Hpos : forall c', c' ∈ l1 ++ c :: l2 -> (0 < length c')%nat).
  { intros c' Hc'. specialize (Hne c' Hc'). destruct c'; simpl; [congruence|lia]. }
  destruct l1 as [|c1 l1'].
  - destruct l2 as [|c2 l2']; simpl in Hlen; [lia|].
    assert (0 < length c2)%nat.
    { apply Hpos. simpl. apply elem_of_cons. right. apply elem_of_cons. now left. }
    simpl in Hle. rewrite length_app in Hle. lia.
  - assert (0 < length c1)%nat by (apply Hpos; apply elem_of_cons; now left).
    simpl in Hle. rewrite length_app in Hle. lia.
Qed.

Lemma processCluster_unfold (fuel : nat) (cluster : list Node) (k : nat) :
  processCluster randomId fuel cluster k =
  let inference := StructureInferenceEngine.inferWidgetType cluster in
  let bounds := SpatialClusteringHelper.calculateClusterBounds cluster in
  let element :=
    StructureInferenceEngine.buildClassifiedLayer (randomId k) inference bounds in
  bindM
    (if bool_decide (StructureInferenceEngine.widgetType inference = WContainer)
        && (1 <? length cluster)%nat
     then
       match subClusterLayers cluster with
       | None => fun _ => JS.OutOfFuel
       | Some subClusters =>
           if (1 <? length subClusters)%nat
           then
             match fuel with
             | O => fun _ => JS.OutOfFuel
             | S fuel' =>
                 bindM (mapM (processCluster randomId fuel') subClusters)
                       (fun cs => ret (with_children element cs))
             end
           else
             bindM (mapM (fun layer =>
                            buildWidgetFromLayer randomId layer
                              (StructureInferenceEngine.inferWidgetType [layer]))
                         cluster)
                   (fun cs => ret (with_children element cs))
       end
     else ret element)
    (fun element =>
       ret (with_badgeClass element
              (getBadgeClass
                 (match n_widgetType element with
                  | Some w => w
                  | None => WContainer
                  end))))
    (S k).
Proof. destruct fuel; reflexivity. Qed.

(** [processCluster] returns for every cluster once the bound on the depth
    is at least the size of the cluster. *)
Lemma processCluster_total (fuel : nat) :
  forall (cluster : list Node) (k : nat),
    (length cluster <= fuel)%nat ->
    exists e k', processCluster randomId fuel cluster k = JS.Ok (e, k').
Proof.
  induction fuel as [|fuel IH]; intros cluster k Hlen;
    rewrite processCluster_unfold; cbv zeta.
  - destruct cluster; [|simpl in Hlen; lia].
    simpl. unfold bindM, ret. eauto.
  - destruct (bool_decide _ && (1 <? length cluster)%nat) eqn:Hc.
    + apply andb_prop in Hc as [_ Hc]. apply Nat.ltb_lt in Hc.
      destruct (Partition.clusterByProximity_inv cluster
                  (JS.mul CONFIG.PROXIMITY_THRESHOLD (JS.Num 0.6)))
        as (subClusters & E & _).
      fold (subClusterLayers cluster) in E. rewrite E.
      destruct (1 <? length subClusters)%nat eqn:Hs.
      * apply Nat.ltb_lt in Hs.
        destruct (mapM_total (processCluster randomId fuel) subClusters) with (k := S k)
          as (cs & k1 & Ecs & _).
        { intros c Hcs k0. apply IH.
          pose proof (subClusters_shorter cluster subClusters E Hs c Hcs). lia. }
        unfold bindM at 1 2. rewrite Ecs. unfold ret. eauto.
      * destruct (mapM_total
                    (fun layer => buildWidgetFromLayer randomId layer
                       (StructureInferenceEngine.inferWidgetType [layer]))
                    cluster) with (k := S k) as (cs & k1 & Ecs & _).
        { intros l _ k0. apply buildWidgetFromLayer_total. }
        unfold bindM at 1 2. rewrite Ecs. unfold ret. eauto.
    + unfold bindM, ret. eauto.
Qed.

Lemma mapM_bounds_clusters (items : list RowItem) :
  (forall it, it ∈ items -> exists c, it = ClusterItem c) ->
  exists bs,
    JS.mapM SpatialClusteringHelper.calculateClusterBounds_item items = JS.Ok bs.
Proof.
  induction items as [|it items IH]; intros H; simpl; [eauto|].
  destruct (H it ltac:(apply elem_of_cons; now left)) as [c ->]. simpl.
  destruct IH as [bs ->]; [|simpl; eauto].
  intros it' Hit'. apply H, elem_of_cons. now right.
Qed.

Lemma detectRepeatingPatterns_total (clusters : list RowItem) :
  (forall it, it ∈ clusters -> exists c, it = ClusterItem c) ->
  exists p, StructureInferenceEngine.detectRepeatingPatterns clusters = JS.Ok p.
Proof.
  intros H. unfold StructureInferenceEngine.detectRepeatingPatterns,
    SpatialClusteringHelper.detectRepeatingPattern.
  destruct (length clusters <? 2)%nat; simpl; [eauto|].
  destruct (mapM_bounds_clusters clusters H) as [bs ->]. simpl.
  destruct (negb _); [eauto|].
  destruct clusters as [|c0 rest]; [eauto|].
  destruct (H c0 ltac:(apply elem_of_cons; now left)) as [c ->]. simpl. eauto.
Qed.

Lemma processCluster_item_total (it : RowItem) (k : nat) :
  (exists c, it = ClusterItem c) ->
  exists e k', processCluster_item randomId it k = JS.Ok (e, k').
Proof. intros [c ->]. simpl. now apply processCluster_total. Qed.

Lemma createRowContainer_total (clusters : list RowItem) (k : nat) :
  (forall it, it ∈ clusters -> exists c, it = ClusterItem c) ->
  exists e k', createRowContainer randomId clusters k = JS.Ok (e, k').
Proof.
  intros H. unfold createRowContainer.
  destruct (detectRepeatingPatterns_total clusters H) as [p Ep].
  unfold bindM at 1. unfold lift. rewrite Ep.
  unfold bindM at 1. unfold generateId.
  destruct (mapM_total (processCluster_item randomId) clusters) with (k := S k)
    as (cs & k1 & Ecs & _).
  { intros it Hit k0. apply processCluster_item_total. now apply H. }
  unfold bindM. rewrite Ecs. unfold ret. eauto.
Qed.

(** The row pass returns on rows of clusters, with one result for each row
    that holds a cluster. *)
Lemma rowPass_total (rows : list (list RowItem)) :
  rows_of_clusters rows ->
  forall k, exists result k',
    rowPass randomId rows k = JS.Ok (result, k') /\
    length result = nonempty_rows rows.
Proof.
  unfold rows_of_clusters, nonempty_rows.
  induction rows as [|row rows IH]; intros H k; simpl.
  - now exists [], k.
  - assert (Hrest : forall row', row' ∈ rows ->
              forall it, it ∈ row' -> exists c, it = ClusterItem c).
    { intros row' Hr. apply H, elem_of_cons. now right. }
    assert (Hrow : forall it, it ∈ row -> exists c, it = ClusterItem c).
    { apply H, elem_of_cons. now left. }
    destruct row as [|it [|it2 row']].
    + apply IH; assumption.
    + destruct (processCluster_item_total it k) as (e & k1 & E1).
      { apply Hrow, elem_of_cons. now left. }
      destruct (IH Hrest k1) as (result & k2 & E2 & Hlen).
      exists (e :: result), k2. unfold bindM. rewrite E1, E2. simpl.
      split; [reflexivity|now rewrite Hlen].
    + destruct (createRowContainer_total (it :: it2 :: row') k Hrow)
        as (e & k1 & E1).
      destruct (IH Hrest k1) as (result & k2 & E2 & Hlen).
      exists (e :: result), k2. unfold bindM. rewrite E1, E2. simpl.
      split; [reflexivity|now rewrite Hlen].
Qed.

End WithIdentifiers.

(** The synthesized bounds span every element whose own edges are numbers. *)
Lemma union_bounds_within (elements : list Node) (e : Node) :
  Forall (fun x => edges_not_NaN (n_bounds x)) elements ->
  e ∈ elements ->
  within (n_bounds e) (union_bounds elements).
Proof.
  intros Hall He. unfold within, union_bounds. simpl.
  assert (Hmem : forall f : Bounds -> num,
            f (n_bounds e) ∈ List.map f (List.map n_bounds elements)).
  { intros f. rewrite map_map. apply (list_elem_of_fmap_2 (fun x => f (n_bounds x))).
    exact He. }
  assert (Hnn : forall f : Bounds -> num,
            (forall b, edges_not_NaN b -> JS.not_NaN (f b)) ->
            Forall JS.not_NaN (List.map f (List.map n_bounds elements))).
  { intros f Hf. rewrite map_map. apply Forall_fmap.
    eapply Forall_impl; [exact Hall|]. intros x Hx. now apply Hf. }
  repeat apply conj.
  - apply JSFacts.min_list_le; [apply Hnn; now intros b (?&?&?&?)|apply Hmem].
  - apply JSFacts.min_list_le; [apply Hnn; now intros b (?&?&?&?)|apply Hmem].
  - apply JSFacts.max_list_ge; [apply Hnn; now intros b (?&?&?&?)|apply Hmem].
  - apply JSFacts.max_list_ge; [apply Hnn; now intros b (?&?&?&?)|apply Hmem].
Qed.

(** C10, as stated, fails: an input with no visible, positive-area leaf
    yields an empty list, not a single-root tree. *)
Lemma no_root_for_empty_input :
  buildTree Samples.randomId [] (JS.of_Z 1200) 0 = JS.Ok ([], 0%nat) /\
  processLayers Samples.randomId [] (JS.of_Z 1200) 0 = JS.Ok ([], 0%nat) /\
  processLayers Samples.randomId [Samples.hiddenBox] (JS.of_Z 1200) 0
  = JS.Ok ([], 0%nat).
Proof. repeat apply conj; vm_compute; reflexivity. Qed.

(** The single-cluster shortcut of [detectContainerBoundaries] hands the
    cluster list itself to [buildTree], which then takes the layers of the
    cluster for clusters: the call throws. *)
Lemma single_cluster_input_throws :
  SpatialClusteringHelper.detectContainerBoundaries
    [[Samples.photo; Samples.heading28]] (JS.of_Z 1200)
  = [[LayerItem Samples.photo; LayerItem Samples.heading28]] /\
  processLayers Samples.randomId [Samples.photo; Samples.heading28]
    (JS.of_Z 1200) 0 = JS.TypeError "cluster is not iterable" /\
  processLayers Samples.randomId [Samples.photo] (JS.of_Z 1200) 0
  = JS.TypeError "cluster is not iterable".
Proof. repeat apply conj; vm_compute; reflexivity. Qed.

(** The shape of the result of [buildTree] on rows of clusters. *)
Lemma buildTree_shape (randomId : nat -> string) (rows : list (list RowItem))
    (canvasWidth : num) (k : nat) :
  rows_of_clusters rows ->
  exists (result : list Node) (k' : nat),
    rowPass randomId rows k = JS.Ok (result, k') /\
    length result = nonempty_rows rows /\
    match result with
    | [] => buildTree randomId rows canvasWidth k = JS.Ok ([], k')
    | [element] => buildTree randomId rows canvasWidth k = JS.Ok ([element], k')
    | _ =>
        exists root,
          buildTree randomId rows canvasWidth k = JS.Ok ([root], S k') /\
          is_column_root root (randomId k') result /\
          (Forall (fun e => edges_not_NaN (n_bounds e)) result ->
           forall e, e ∈ result -> within (n_bounds e) (n_bounds root))
    end.
Proof.
  intros Hrows.
  destruct (rowPass_total randomId rows Hrows k) as (result & k' & E & Hlen).
  exists result, k'. repeat apply conj; try assumption.
  unfold buildTree, bindM. rewrite E.
  destruct result as [|e1 [|e2 rest]]; try reflexivity.
  eexists. split; [reflexivity|]. split.
  - repeat split.
  - intros Hall e He. now apply union_bounds_within.
Qed.

(** The row segmentation closes only rows that hold a cluster. *)
Lemma groupLoop_nonempty (clusters : list (list Node))
    (rows : list (list (list Node))) (currentRow : list (list Node))
    (b : SpatialClusteringHelper.RowBounds) :
  Forall (fun r => r <> []) rows -> currentRow <> [] ->
  SpatialClusteringHelper.groupLoop clusters rows currentRow b <> [] /\
  Forall (fun r => r <> [])
         (SpatialClusteringHelper.groupLoop clusters rows currentRow b).
Proof.
  revert rows currentRow b.
  induction clusters as [|c clusters IH]; intros rows currentRow b Hrows Hcur; simpl.
  - split; [now destruct rows|].
    apply Forall_app. split; [assumption|now repeat constructor].
  - destruct (JS.gt _ _).
    + apply IH; [assumption|now destruct currentRow].
    + apply IH; [|discriminate].
      apply Forall_app. split; [assumption|now repeat constructor].
Qed.

Lemma detectContainerBoundaries_rows (clusters : list (list Node)) (w : num) :
  (2 <= length clusters)%nat ->
  rows_of_clusters (SpatialClusteringHelper.detectContainerBoundaries clusters w) /\
  (1 <= nonempty_rows
          (SpatialClusteringHelper.detectContainerBoundaries clusters w))%nat.
Proof.
  intros Hlen. unfold SpatialClusteringHelper.detectContainerBoundaries.
  destruct clusters as [|c1 [|c2 rest]]; simpl in Hlen; try lia.
  set (sorted := JS.sort _ _).
  assert (Hs : sorted <> []).
  { intros E. pose proof (JSFacts.sort_length
      (fun a b => JS.sub (b_top (SpatialClusteringHelper.calculateClusterBounds a))
                         (b_top (SpatialClusteringHelper.calculateClusterBounds b)))
      (c1 :: c2 :: rest)) as Hl.
    fold sorted in Hl. rewrite E in Hl. discriminate. }
  split.
  - intros row (r & -> & Hr)%list_elem_of_fmap it (c & -> & Hc)%list_elem_of_fmap.
    eauto.
  - unfold SpatialClusteringHelper.groupIntoRows.
    destruct sorted as [|s0 srest]; [congruence|].
    destruct (groupLoop_nonempty srest [] [s0]
                (SpatialClusteringHelper.rowBounds_of
                   (SpatialClusteringHelper.calculateClusterBounds s0)))
      as [Hne Hall]; [constructor|discriminate|].
    unfold nonempty_rows.
    destruct (SpatialClusteringHelper.groupLoop _ _ _ _) as [|r rows];
      [congruence|].
    apply Forall_cons in Hall as [Hr _]. simpl.
    destruct r; [congruence|]. simpl. lia.
Qed.

(** C10 (amended): the orchestrator returns one root or none.  On rows of
    clusters, as the row segmentation builds them, the row pass returns one
    result for every non-empty row, and [buildTree] returns the empty list
    when there is no result, the one result as it is when there is exactly
    one, and otherwise one synthesized column container that holds all of
    them and whose bounds are their union (it spans every result whose edges
    are numbers).  End to end: an input without a visible, positive-area
    leaf yields the empty list, and an input whose valid leaves form two or
    more proximity clusters yields exactly one root. *)
Theorem orchestrator_root (randomId : nat -> string) :
  (forall (rows : list (list RowItem)) (canvasWidth : num) (k : nat),
     rows_of_clusters rows ->
     exists (result : list Node) (k' : nat),
       rowPass randomId rows k = JS.Ok (result, k') /\
       length result = nonempty_rows rows /\
       match result with
       | [] => buildTree randomId rows canvasWidth k = JS.Ok ([], k')
       | [element] =>
           buildTree randomId rows canvasWidth k = JS.Ok ([element], k')
       | _ =>
           exists root,
             buildTree randomId rows canvasWidth k = JS.Ok ([root], S k') /\
             is_column_root root (randomId k') result /\
             (Forall (fun e => edges_not_NaN (n_bounds e)) result ->
              forall e, e ∈ result -> within (n_bounds e) (n_bounds root))
       end) /\
  (forall (layers : list Node) (canvasWidth : num) (k : nat),
     filterValidLayers (flattenLayers layers) = [] ->
     processLayers randomId layers canvasWidth k = JS.Ok ([], k)) /\
  (forall (layers : list Node) (canvasWidth : num) (k : nat)
          (clusters : list (list Node)),
     SpatialClusteringHelper.clusterByProximity
       (filterValidLayers (flattenLayers layers)) CONFIG.PROXIMITY_THRESHOLD
     = Some clusters ->
     (2 <= length clusters)%nat ->
     exists root k', processLayers randomId layers canvasWidth k
                     = JS.Ok ([root], k')).
Proof.
  repeat apply conj.
  - intros rows w k. apply buildTree_shape.
  - intros layers w k E. unfold processLayers. rewrite E.
    now destruct (flattenLayers layers).
  - intros layers w k clusters E Hlen. unfold processLayers.
    destruct (filterValidLayers (flattenLayers layers)) as [|v vs] eqn:Ev.
    { vm_compute in E. injection E as <-. simpl in Hlen. lia. }
    destruct (flattenLayers layers) as [|f fs] eqn:Ef; [discriminate|].
    rewrite E.
    destruct (detectContainerBoundaries_rows clusters w Hlen) as [Hrows Hne].
    destruct (buildTree_shape randomId _ w k Hrows) as (result & k' & _ & Hl & Hb).
    destruct result as [|e1 [|e2 rest]].
    + simpl in Hl. lia.
    + eauto.
    + destruct Hb as (root & Hb & _). eauto.
Qed.

Lemma orchestrator_root_witness :
  exists root k',
    processLayers Samples.randomId
      [Samples.photo; Samples.heading28; Samples.farText] (JS.of_Z 1200) 0
    = JS.Ok ([root], k').
Proof.
  destruct (orchestrator_root Samples.randomId) as (_ & _ & H).
  apply (H _ _ _ [[Samples.photo; Samples.heading28]; [Samples.farText]]).
  - vm_compute. reflexivity.
  - simpl. lia.
Defined.

End TreeFacts.

(* ===================================================================== *)
(** ** Shared objects: input nodes keep their fields *)
(* ===================================================================== *)

Module StoreFacts.
Import Store.
Local Open Scope list_scope.




















End StoreFacts.

(* ===================================================================== *)
(** ** Gaps between boxes *)
(* ===================================================================== *)

Module DistanceFacts.
Import LayoutDistanceHelper SpatialClusteringHelper GeometrySpec PixelSpec.
Local Open Scope list_scope.

(** Case analysis on numbers: the constructors first, then the order of
    every pair of rationals that is compared. *)
Ltac by_cases :=
  unfold JS.ge, JS.gt, JS.le, JS.lt, JS.strict_eq, JS.min, JS.max, JS.sub,
         JS.add, JS.neg, JS.zero, JS.compare in *;
  simpl in *;
  repeat match goal with
         | |- context [(?p ?= ?q)%Q] =>
             destruct (Qcompare_spec p q); simpl in *
         | H : context [(?p ?= ?q)%Q] |- _ =>
             destruct (Qcompare_spec p q); simpl in *
         end;
  try reflexivity; try discriminate; try lra.

Lemma gap_sign (lo hi lo' hi' : num) :
  let gap := if JS.lt hi lo' then JS.sub lo' hi
             else if JS.lt hi' lo then JS.sub lo hi'
             else JS.zero in
  JS.le JS.zero gap = true /\
  JS.strict_eq gap JS.zero = negb (JS.lt hi lo') && negb (JS.lt hi' lo).
Proof.
  destruct lo as [p| | |], hi as [q| | |], lo' as [p'| | |], hi' as [q'| | |];
    split; by_cases.
Qed.

Lemma smart_sign (v h : num) :
  JS.le JS.zero v = true -> JS.le JS.zero h = true ->
  let s := if JS.strict_eq v JS.zero then h
           else if JS.strict_eq h JS.zero then v
           else JS.min v h in
  JS.le JS.zero s = true /\
  JS.strict_eq s JS.zero = JS.strict_eq v JS.zero && JS.strict_eq h JS.zero.
Proof.
  destruct v as [p| | |], h as [q| | |]; intros Hv Hh; split; by_cases.
Qed.

(** X1: the gaps are never negative and never NaN, whatever the edges are.
    A gap is zero exactly when neither box lies strictly beyond the other on
    that axis, and the smart distance is zero exactly when both gaps are. *)
Theorem gaps_never_negative (a b : Bounds) :
  JS.le JS.zero (verticalDistance a b) = true /\
  JS.le JS.zero (horizontalDistance a b) = true /\
  JS.le JS.zero (smartDistance a b) = true /\
  JS.strict_eq (verticalDistance a b) JS.zero
  = negb (JS.lt (b_bottom a) (b_top b)) && negb (JS.lt (b_bottom b) (b_top a)) /\
  JS.strict_eq (horizontalDistance a b) JS.zero
  = negb (JS.lt (b_right a) (b_left b)) && negb (JS.lt (b_right b) (b_left a)) /\
  JS.strict_eq (smartDistance a b) JS.zero
  = JS.strict_eq (verticalDistance a b) JS.zero
    && JS.strict_eq (horizontalDistance a b) JS.zero.
Proof.
  destruct (gap_sign (b_top a) (b_bottom a) (b_top b) (b_bottom b)) as [Hv Hv0].
  destruct (gap_sign (b_left a) (b_right a) (b_left b) (b_right b)) as [Hh Hh0].
  destruct (smart_sign _ _ Hv Hh) as [Hs Hs0].
  repeat apply conj; assumption.
Qed.

Lemma gap_sym (lo hi lo' hi' : num) :
  JS.le lo hi = true -> JS.le lo' hi' = true ->
  (if JS.lt hi lo' then JS.sub lo' hi
   else if JS.lt hi' lo then JS.sub lo hi' else JS.zero)
  = (if JS.lt hi' lo then JS.sub lo hi'
     else if JS.lt hi lo' then JS.sub lo' hi else JS.zero).
Proof.
  destruct lo as [p| | |], hi as [q| | |], lo' as [p'| | |], hi' as [q'| | |];
    intros H H'; by_cases.
Qed.

(** X2: for boxes that are not inverted, the gaps and the smart distance do
    not depend on the order of the two arguments. *)
Theorem gaps_symmetric (a b : Bounds) :
  well_formed a -> well_formed b ->
  verticalDistance a b = verticalDistance b a /\
  horizontalDistance a b = horizontalDistance b a /\
  smartDistance a b = smartDistance b a.
Proof.
  intros [Hav Hah] [Hbv Hbh].
  assert (Ev : verticalDistance a b = verticalDistance b a)
    by (apply gap_sym; assumption).
  assert (Eh : horizontalDistance a b = horizontalDistance b a)
    by (apply gap_sym; assumption).
  repeat apply conj; try assumption.
  unfold smartDistance. now rewrite Ev, Eh.
Qed.

Lemma gaps_symmetric_witness :
  well_formed Samples.rectA /\ well_formed Samples.rectB /\
  smartDistance Samples.rectA Samples.rectB
  = smartDistance Samples.rectB Samples.rectA.
Proof.
  assert (Ha : well_formed Samples.rectA) by (split; reflexivity).
  assert (Hb : well_formed Samples.rectB) by (split; reflexivity).
  split; [exact Ha|]. split; [exact Hb|].
  apply (gaps_symmetric Samples.rectA Samples.rectB Ha Hb).
Defined.

(** On one axis: the clamped difference of the clusterer is the gap of the
    distance helper, for intervals that are not inverted. *)
Lemma axis_gap (lo hi lo' hi' : Q) :
  (lo <= hi)%Q -> (lo' <= hi')%Q ->
  JS.eqv
    (JS.max JS.zero
       (JS.sub (JS.max (JS.Num lo) (JS.Num lo')) (JS.min (JS.Num hi) (JS.Num hi'))))
    (if JS.lt (JS.Num hi) (JS.Num lo') then JS.sub (JS.Num lo') (JS.Num hi)
     else if JS.lt (JS.Num hi') (JS.Num lo) then JS.sub (JS.Num lo) (JS.Num hi')
     else JS.zero).
Proof. intros H H'. unfold JS.eqv. by_cases. Qed.

(** X3: for finite boxes that are not inverted, the distance the clusterer
    measures is the Euclidean combination of the two gaps of
    [LayoutDistanceHelper]: the number under the square root is
    [horizontal * horizontal + vertical * vertical], so both agree on every
    threshold test. *)
Theorem getMinDistance_euclidean (a b : Bounds) :
  finite_edges a -> finite_edges b -> well_formed a -> well_formed b ->
  let h := horizontalDistance a b in
  let v := verticalDistance a b in
  JS.eqv (radicand_of (getMinDistance a b)) (JS.add (JS.mul h h) (JS.mul v v)) /\
  forall t : num,
    JS.surd_le (getMinDistance a b) t
    = JS.surd_le (JS.Sqrt (JS.add (JS.mul h h) (JS.mul v v))) t.
Proof.
  intros (ta & la & ra & ba & Eta & Ela & Era & Eba)
         (tb & lb & rb & bb & Etb & Elb & Erb & Ebb) [Hav Hah] [Hbv Hbh].
  rewrite Eta, Eba in Hav. rewrite Ela, Era in Hah.
  rewrite Etb, Ebb in Hbv. rewrite Elb, Erb in Hbh.
  apply JSFacts.le_Num in Hav, Hah, Hbv, Hbh.
  assert (E : JS.eqv (radicand_of (getMinDistance a b))
                (JS.add (JS.mul (horizontalDistance a b) (horizontalDistance a b))
                        (JS.mul (verticalDistance a b) (verticalDistance a b)))).
  { unfold getMinDistance, horizontalDistance, verticalDistance, radicand_of.
    rewrite Eta, Ela, Era, Eba, Etb, Elb, Erb, Ebb.
    rewrite (axis_gap la ra lb rb Hah Hbh), (axis_gap ta ba tb bb Hav Hbv).
    reflexivity. }
  split; [exact E|].
  intros t. now apply NumEquiv.surd_le_proper.
Qed.

Lemma getMinDistance_euclidean_witness :
  JS.surd_le (getMinDistance Samples.rectA Samples.rectB) (JS.of_Z 21) = true /\
  JS.surd_le (getMinDistance Samples.rectA Samples.rectB) (JS.of_Z 20) = false.
Proof.
  assert (Ha : finite_edges Samples.rectA) by (repeat eexists).
  assert (Hb : finite_edges Samples.rectB) by (repeat eexists).
  assert (Wa : well_formed Samples.rectA) by (split; reflexivity).
  assert (Wb : well_formed Samples.rectB) by (split; reflexivity).
  destruct (getMinDistance_euclidean Samples.rectA Samples.rectB Ha Hb Wa Wb)
    as [_ H].
  split; rewrite H; reflexivity.
Defined.

(** With the radicand taken exactly, the distance of two finite boxes that
    are not inverted is zero exactly when the boxes meet. *)
Lemma zero_radicand_iff_meet (a b : Bounds) :
  finite_edges a -> finite_edges b -> well_formed a -> well_formed b ->
  JS.surd_le (getMinDistance a b) JS.zero = true <-> meet a b.
Proof.
  intros (ta & la & ra & ba & Eta & Ela & Era & Eba)
         (tb & lb & rb & bb & Etb & Elb & Erb & Ebb) [Hav Hah] [Hbv Hbh].
  unfold meet, getMinDistance.
  rewrite Eta, Ela, Era, Eba in *. rewrite Etb, Elb, Erb, Ebb in *.
  rewrite !JSFacts.le_Num. apply JSFacts.le_Num in Hav, Hah, Hbv, Hbh.
  rewrite (NumEquiv.surd_le_proper _ _ _
             (NumEquiv.add_proper _ _
                (NumEquiv.mul_proper _ _ (axis_gap la ra lb rb Hah Hbh)
                                     _ _ (axis_gap la ra lb rb Hah Hbh))
                _ _
                (NumEquiv.mul_proper _ _ (axis_gap ta ba tb bb Hav Hbv)
                                     _ _ (axis_gap ta ba tb bb Hav Hbv)))).
  unfold JS.lt, JS.sub, JS.zero; simpl.
  destruct (Qcompare_spec ra lb), (Qcompare_spec rb la),
           (Qcompare_spec ba tb), (Qcompare_spec bb ta); simpl;
    rewrite ?andb_true_iff, ?Qle_bool_iff; split; intros; nra.
Qed.

(** X4: for boxes with whole-pixel edges of size at most 2^25 that are
    not inverted, the distance is zero exactly when the boxes overlap or
    touch; and two different layers whose finite boxes meet are neighbours at
    every threshold that is not negative. *)
Theorem meeting_boxes_are_neighbours :
  (forall a b : Bounds,
     pixel_edges a = true -> pixel_edges b = true ->
     JS.surd_le (getMinDistance a b) JS.zero = true <-> meet a b) /\
  (forall (x y : Node) (t : Q),
     finite_edges (n_bounds x) -> finite_edges (n_bounds y) ->
     well_formed (n_bounds x) -> well_formed (n_bounds y) ->
     meet (n_bounds x) (n_bounds y) -> n_id x <> n_id y -> (0 <= t)%Q ->
     isNeighbor (JS.Num t) x y = true /\ y ∈ findNeighbors x [x; y] (JS.Num t)).
Proof.
  split.
  - intros a b Pa Pb.
    apply zero_radicand_iff_meet;
      auto using PixelFacts.pixel_finite, PixelFacts.pixel_well_formed.
  - intros x y t (ta & la & ra & ba & Eta & Ela & Era & Eba)
           (tb & lb & rb & bb & Etb & Elb & Erb & Ebb)
           [Hav Hah] [Hbv Hbh] Hmeet Hid Ht.
    assert (E : isNeighbor (JS.Num t) x y = true).
    { unfold isNeighbor.
      destruct (String.eqb_spec (n_id y) (n_id x)) as [E|_]; [congruence|].
      unfold meet, getMinDistance in *.
      rewrite Eta, Ela, Era, Eba in *. rewrite Etb, Elb, Erb, Ebb in *.
      rewrite !JSFacts.le_Num in Hmeet. destruct Hmeet as (H1 & H2 & H3 & H4).
      apply JSFacts.le_Num in Hav, Hah, Hbv, Hbh.
      unfold JS.max, JS.min, JS.sub, JS.add, JS.neg, JS.zero, JS.compare; simpl.
      repeat match goal with
             | |- context [(?p ?= ?q)%Q] => destruct (Qcompare_spec p q); simpl
             end;
        rewrite ?andb_true_iff, ?Qle_bool_iff; repeat split; nra. }
    split; [exact E|].
    unfold findNeighbors. simpl. rewrite E.
    destruct (isNeighbor (JS.Num t) x x); set_solver.
Qed.

Lemma meeting_boxes_are_neighbours_witness :
  (JS.surd_le (getMinDistance Samples.rectA Samples.rectB) JS.zero = true <->
   meet Samples.rectA Samples.rectB) /\
  isNeighbor (JS.of_Z 0) Samples.boxP (Samples.box "r" 10 30) = true.
Proof.
  destruct meeting_boxes_are_neighbours as [H0 H]. split.
  - apply (H0 Samples.rectA Samples.rectB); reflexivity.
  - refine (proj1 (H Samples.boxP (Samples.box "r" 10 30) 0%Q _ _ _ _ _ _ _)).
    + repeat eexists.
    + repeat eexists.
    + split; reflexivity.
    + split; reflexivity.
    + repeat split.
    + discriminate.
    + lra.
Defined.

End DistanceFacts.

(* ===================================================================== *)
(** ** Union boxes *)
(* ===================================================================== *)

Module BoxFacts.
Import SpatialClusteringHelper AdapterSpec GeometrySpec.
Local Open Scope list_scope.

Lemma fold_left_key {A : Type} (op : num -> num -> num) (f : A -> num)
    (l : list A) (acc : num) :
  fold_left (fun m x => op m (f x)) l acc = fold_left op (List.map f l) acc.
Proof. revert acc. induction l as [|x l IH]; intros acc; simpl; auto. Qed.

(** [Math.min] and [Math.max] return one of their arguments. *)
Lemma min_cases (x y : num) : JS.min x y = x \/ JS.min x y = y.
Proof.
  unfold JS.min. destruct (JS.compare x y) as [[]|] eqn:E; auto.
  destruct x as [p| | |], y as [q| | |]; simpl in E; try discriminate; auto.
Qed.

Lemma max_cases (x y : num) : JS.max x y = x \/ JS.max x y = y.
Proof.
  unfold JS.max. destruct (JS.compare x y) as [[]|] eqn:E; auto.
  destruct x as [p| | |], y as [q| | |]; simpl in E; try discriminate; auto.
Qed.

Lemma fold_min_elem (xs : list num) (acc : num) :
  fold_left JS.min xs acc = acc \/ fold_left JS.min xs acc ∈ xs.
Proof.
  revert acc. induction xs as [|x xs IH]; intros acc; simpl; [now left|].
  destruct (IH (JS.min acc x)) as [E|E]; [|right; now constructor].
  rewrite E. destruct (min_cases acc x) as [-> | ->]; [now left|].
  right. constructor.
Qed.

Lemma fold_max_elem (xs : list num) (acc : num) :
  fold_left JS.max xs acc = acc \/ fold_left JS.max xs acc ∈ xs.
Proof.
  revert acc. induction xs as [|x xs IH]; intros acc; simpl; [now left|].
  destruct (IH (JS.max acc x)) as [E|E]; [|right; now constructor].
  rewrite E. destruct (max_cases acc x) as [-> | ->]; [now left|].
  right. constructor.
Qed.

(** Of a list that is not empty, the minimum and the maximum are among the
    elements: the infinities the folds start from do not survive. *)
Lemma min_list_elem (xs : list num) : xs <> [] -> JS.min_list xs ∈ xs.
Proof.
  destruct xs as [|x xs]; [congruence|intros _].
  unfold JS.min_list. simpl.
  assert (E : JS.min JS.Infinity x = x) by now destruct x.
  rewrite E. destruct (fold_min_elem xs x) as [-> | H]; now constructor.
Qed.

Lemma max_list_elem (xs : list num) : xs <> [] -> JS.max_list xs ∈ xs.
Proof.
  destruct xs as [|x xs]; [congruence|intros _].
  unfold JS.max_list. simpl.
  assert (E : JS.max JS.NegInfinity x = x) by now destruct x.
  rewrite E. destruct (fold_max_elem xs x) as [-> | H]; now constructor.
Qed.

Lemma calculateClusterBounds_lists (cluster : list Node) :
  cluster <> [] ->
  calculateClusterBounds cluster
  = mkBounds (JS.min_list (List.map (fun l => b_top (n_bounds l)) cluster))
             (JS.min_list (List.map (fun l => b_left (n_bounds l)) cluster))
             (JS.max_list (List.map (fun l => b_right (n_bounds l)) cluster))
             (JS.max_list (List.map (fun l => b_bottom (n_bounds l)) cluster))
             (JS.sub (JS.max_list (List.map (fun l => b_right (n_bounds l)) cluster))
                     (JS.min_list (List.map (fun l => b_left (n_bounds l)) cluster)))
             (JS.sub (JS.max_list (List.map (fun l => b_bottom (n_bounds l)) cluster))
                     (JS.min_list (List.map (fun l => b_top (n_bounds l)) cluster))).
Proof.
  destruct cluster as [|c cluster]; [congruence|intros _].
  unfold calculateClusterBounds, JS.min_list, JS.max_list.
  rewrite (fold_left_key JS.min (fun l => b_top (n_bounds l))).
  rewrite (fold_left_key JS.min (fun l => b_left (n_bounds l))).
  rewrite (fold_left_key JS.max (fun l => b_right (n_bounds l))).
  rewrite (fold_left_key JS.max (fun l => b_bottom (n_bounds l))).
  reflexivity.
Qed.

Lemma elem_of_key {A : Type} (f : A -> num) (l : list A) (v : num) :
  v ∈ List.map f l -> exists x, x ∈ l /\ v = f x.
Proof. intros (x & -> & Hx)%list_elem_of_fmap. eauto. Qed.

Lemma calculateClusterBounds_attained (cluster : list Node) :
  cluster <> [] ->
  let B := calculateClusterBounds cluster in
  (exists l, l ∈ cluster /\ b_top B = b_top (n_bounds l)) /\
  (exists l, l ∈ cluster /\ b_left B = b_left (n_bounds l)) /\
  (exists l, l ∈ cluster /\ b_right B = b_right (n_bounds l)) /\
  (exists l, l ∈ cluster /\ b_bottom B = b_bottom (n_bounds l)).
Proof.
  intros Hne B. subst B.
  rewrite (calculateClusterBounds_lists cluster Hne). simpl.
  assert (Hm : forall f : Node -> num, List.map f cluster <> []).
  { intros f. destruct cluster; [congruence|discriminate]. }
  repeat apply conj;
    apply elem_of_key; first [apply min_list_elem | apply max_list_elem];
    apply Hm.
Qed.

Lemma calculateClusterBounds_within (cluster : list Node) (l : Node) :
  Forall (fun l => edges_not_NaN (n_bounds l)) cluster ->
  l ∈ cluster -> within (n_bounds l) (calculateClusterBounds cluster).
Proof.
  intros Hall Hl.
  assert (Hne : cluster <> []) by (intros ->; now apply elem_of_nil in Hl).
  rewrite (calculateClusterBounds_lists cluster Hne).
  assert (Hnn : forall f : Bounds -> num,
            (forall b, edges_not_NaN b -> JS.not_NaN (f b)) ->
            Forall JS.not_NaN (List.map (fun l => f (n_bounds l)) cluster)).
  { intros f Hf. apply Forall_fmap.
    eapply Forall_impl; [exact Hall|]. intros x Hx. now apply Hf. }
  assert (Hmem : forall f : Node -> num, f l ∈ List.map f cluster).
  { intros f. now apply (list_elem_of_fmap_2 f). }
  unfold within; simpl. repeat apply conj.
  - apply JSFacts.min_list_le;
      [apply (Hnn b_top); now intros b (?&?&?&?)
      |apply (Hmem (fun l => b_top (n_bounds l)))].
  - apply JSFacts.min_list_le;
      [apply (Hnn b_left); now intros b (?&?&?&?)
      |apply (Hmem (fun l => b_left (n_bounds l)))].
  - apply JSFacts.max_list_ge;
      [apply (Hnn b_right); now intros b (?&?&?&?)
      |apply (Hmem (fun l => b_right (n_bounds l)))].
  - apply JSFacts.max_list_ge;
      [apply (Hnn b_bottom); now intros b (?&?&?&?)
      |apply (Hmem (fun l => b_bottom (n_bounds l)))].
Qed.

(** The bounds of a part lie within the bounds of the whole. *)
Lemma calculateClusterBounds_mono (part whole : list Node) :
  part <> [] -> (forall l, l ∈ part -> l ∈ whole) ->
  Forall (fun l => edges_not_NaN (n_bounds l)) whole ->
  within (calculateClusterBounds part) (calculateClusterBounds whole).
Proof.
  intros Hne Hsub Hall.
  destruct (calculateClusterBounds_attained part Hne)
    as ((lt & Hlt & Et) & (ll & Hll & El) & (lr & Hlr & Er) & (lb & Hlb & Eb)).
  unfold within. rewrite Et, El, Er, Eb.
  destruct (calculateClusterBounds_within whole lt Hall (Hsub _ Hlt)) as (H & _).
  destruct (calculateClusterBounds_within whole ll Hall (Hsub _ Hll)) as (_ & H0 & _).
  destruct (calculateClusterBounds_within whole lr Hall (Hsub _ Hlr)) as (_ & _ & H1 & _).
  destruct (calculateClusterBounds_within whole lb Hall (Hsub _ Hlb)) as (_ & _ & _ & H2).
  auto.
Qed.

Lemma calculateClusterBounds_not_NaN (cluster : list Node) :
  cluster <> [] ->
  Forall (fun l => edges_not_NaN (n_bounds l)) cluster ->
  edges_not_NaN (calculateClusterBounds cluster).
Proof.
  intros Hne Hall. rewrite Forall_forall in Hall.
  destruct (calculateClusterBounds_attained cluster Hne)
    as ((lt & Hlt & Et) & (ll & Hll & El) & (lr & Hlr & Er) & (lb & Hlb & Eb)).
  unfold edges_not_NaN. rewrite Et, El, Er, Eb.
  destruct (Hall lt Hlt) as (? & _), (Hall ll Hll) as (_ & ? & _),
           (Hall lr Hlr) as (_ & _ & ? & _), (Hall lb Hlb) as (_ & _ & _ & ?).
  auto.
Qed.

(** X5: the bounds of a cluster are the smallest box around its layers.
    Each edge of the result is that edge of one of the layers, width and
    height are the differences of the edges, and when no edge is NaN every
    layer lies within the result.  The empty cluster gives the zero box. *)
Theorem calculateClusterBounds_smallest_box :
  calculateClusterBounds []
  = mkBounds JS.zero JS.zero JS.zero JS.zero JS.zero JS.zero /\
  forall cluster : list Node,
    cluster <> [] ->
    let B := calculateClusterBounds cluster in
    (exists l, l ∈ cluster /\ b_top B = b_top (n_bounds l)) /\
    (exists l, l ∈ cluster /\ b_left B = b_left (n_bounds l)) /\
    (exists l, l ∈ cluster /\ b_right B = b_right (n_bounds l)) /\
    (exists l, l ∈ cluster /\ b_bottom B = b_bottom (n_bounds l)) /\
    b_width B = JS.sub (b_right B) (b_left B) /\
    b_height B = JS.sub (b_bottom B) (b_top B) /\
    (Forall (fun l => edges_not_NaN (n_bounds l)) cluster ->
     forall l, l ∈ cluster -> within (n_bounds l) B).
Proof.
  split; [reflexivity|].
  intros cluster Hne B. subst B.
  destruct (calculateClusterBounds_attained cluster Hne) as (Ht & Hl & Hr & Hb).
  split; [exact Ht|]. split; [exact Hl|]. split; [exact Hr|]. split; [exact Hb|].
  rewrite (calculateClusterBounds_lists cluster Hne). simpl.
  split; [reflexivity|]. split; [reflexivity|].
  rewrite <- (calculateClusterBounds_lists cluster Hne).
  intros Hall l Hl'. now apply calculateClusterBounds_within.
Qed.

Lemma calculateClusterBounds_smallest_box_witness :
  within (n_bounds Samples.boxQ) (calculateClusterBounds Samples.nearPair).
Proof.
  destruct calculateClusterBounds_smallest_box as [_ H].
  destruct (H Samples.nearPair ltac:(discriminate)) as (_ & _ & _ & _ & _ & _ & Hin).
  apply Hin.
  - repeat constructor; discriminate.
  - set_solver.
Defined.

(** X6: the three places that compute a union box agree on every list
    that is not empty, NaN edges included: [calculateClusterBounds], the
    inline computation of [createColumnContainer] and [mergeBounds].  On the
    empty list they part: the first gives the zero box, the other two an
    inverted box with infinite edges. *)
Theorem union_boxes_agree :
  (forall elements : list Node,
     elements <> [] ->
     calculateClusterBounds elements = RawPSDAdapter.union_bounds elements /\
     RawPSDAdapter.union_bounds elements
     = LayoutRelationshipHelper.mergeBounds (List.map n_bounds elements)) /\
  calculateClusterBounds []
  = mkBounds JS.zero JS.zero JS.zero JS.zero JS.zero JS.zero /\
  RawPSDAdapter.union_bounds []
  = mkBounds JS.Infinity JS.Infinity JS.NegInfinity JS.NegInfinity
             JS.NegInfinity JS.NegInfinity /\
  LayoutRelationshipHelper.mergeBounds []
  = mkBounds JS.Infinity JS.Infinity JS.NegInfinity JS.NegInfinity
             JS.NegInfinity JS.NegInfinity.
Proof.
  split; [|repeat apply conj; reflexivity].
  intros elements Hne. split; [|reflexivity].
  rewrite (calculateClusterBounds_lists elements Hne).
  unfold RawPSDAdapter.union_bounds. now rewrite !map_map.
Qed.

Lemma union_boxes_agree_witness :
  calculateClusterBounds Samples.nearPair
  = LayoutRelationshipHelper.mergeBounds (List.map n_bounds Samples.nearPair).
Proof.
  destruct union_boxes_agree as [H _].
  destruct (H Samples.nearPair ltac:(discriminate)) as [E1 E2].
  now rewrite E1, E2.
Defined.

(** Where the centre, taken exactly, puts an image of positive size beside a
    text box that is not inverted. *)
Lemma position_by_exact_centre (il ir it ib : Q) (text : Bounds)
    (tl tr tt tb : Q) :
  let image := rect (JS.Num it) (JS.Num il) (JS.Num ir) (JS.Num ib) in
  let position := LayoutRelationshipHelper.getRelativePosition image text in
  let direction := LayoutRelationshipHelper.inferFlexDirection image text in
  (il < ir)%Q -> (it < ib)%Q ->
  b_left text = JS.Num tl -> b_right text = JS.Num tr ->
  b_top text = JS.Num tt -> b_bottom text = JS.Num tb ->
  (tl <= tr)%Q -> (tt <= tb)%Q ->
  ((ir <= tl)%Q -> position = "left" /\ direction = "row") /\
  ((tr <= il)%Q -> position = "right" /\ direction = "row-reverse") /\
  ((tl <= (il + ir) / 2 <= tr)%Q -> (ib <= tt)%Q ->
   position = "top" /\ direction = "column") /\
  ((tl <= (il + ir) / 2 <= tr)%Q -> (tb <= it)%Q ->
   position = "bottom" /\ direction = "column-reverse") /\
  ((tl <= (il + ir) / 2 <= tr)%Q -> (tt <= (it + ib) / 2 <= tb)%Q ->
   position = "overlapping" /\ direction = "row").
Proof.
  intros image position direction Hw Hh El Er Et Eb Htw Hth.
  subst image position direction.
  unfold LayoutRelationshipHelper.inferFlexDirection,
         LayoutRelationshipHelper.getRelativePosition,
         LayoutRelationshipHelper.getCenter, rect.
  rewrite El, Er, Et, Eb.
  unfold JS.gt, JS.lt, JS.add, JS.sub, JS.div, JS.neg, JS.of_Z, JS.compare.
  simpl.
  assert (Ex : ((il + (ir + - il) / inject_Z 2) == (il + ir) / 2)%Q)
    by (unfold inject_Z; field).
  assert (Ey : ((it + (ib + - it) / inject_Z 2) == (it + ib) / 2)%Q)
    by (unfold inject_Z; field).
  rewrite !Ex, !Ey. clear Ex Ey.
  assert (Mx : (2 * ((il + ir) / 2) == il + ir)%Q) by field.
  assert (My : (2 * ((it + ib) / 2) == it + ib)%Q) by field.
  revert Mx My.
  generalize ((il + ir) / 2)%Q as cx. generalize ((it + ib) / 2)%Q as cy.
  intros cy cx Mx My.
  repeat apply conj; intros;
    repeat match goal with
           | |- context [(?p ?= ?q)%Q] =>
               destruct (Qcompare_spec p q); simpl
           end;
    try (split; reflexivity); exfalso; lra.
Qed.

(** X7: where [getRelativePosition] puts an image of positive size with
    whole-pixel edges of size at most 2^25, whose stored width and height are
    the differences of its edges, beside a finite text box that is not
    inverted.  The centre of the image decides: an image wholly to the left
    of the text is "left" and one wholly to the right is "right", whatever
    their vertical placement; with the centre within the horizontal extent of
    the text, an image wholly above is "top" and one wholly below is
    "bottom"; with the centre inside the text box the answer is
    "overlapping".  [inferFlexDirection] maps the five answers to row,
    row-reverse, column, column-reverse and row. *)
Theorem relative_position_by_centre (il ir it ib : Z) (text : Bounds)
    (tl tr tt tb : Q) :
  let image := rect (JS.of_Z it) (JS.of_Z il) (JS.of_Z ir) (JS.of_Z ib) in
  let position := LayoutRelationshipHelper.getRelativePosition image text in
  let direction := LayoutRelationshipHelper.inferFlexDirection image text in
  let cx := ((inject_Z il + inject_Z ir) / 2)%Q in
  let cy := ((inject_Z it + inject_Z ib) / 2)%Q in
  PixelSpec.pixel_edges image = true -> (il < ir)%Z -> (it < ib)%Z ->
  b_left text = JS.Num tl -> b_right text = JS.Num tr ->
  b_top text = JS.Num tt -> b_bottom text = JS.Num tb ->
  (tl <= tr)%Q -> (tt <= tb)%Q ->
  ((inject_Z ir <= tl)%Q -> position = "left" /\ direction = "row") /\
  ((tr <= inject_Z il)%Q -> position = "right" /\ direction = "row-reverse") /\
  ((tl <= cx <= tr)%Q -> (inject_Z ib <= tt)%Q ->
   position = "top" /\ direction = "column") /\
  ((tl <= cx <= tr)%Q -> (tb <= inject_Z it)%Q ->
   position = "bottom" /\ direction = "column-reverse") /\
  ((tl <= cx <= tr)%Q -> (tt <= cy <= tb)%Q ->
   position = "overlapping" /\ direction = "row").
Proof.
  intros image position direction cx cy _ Hw Hh El Er Et Eb Htw Hth.
  rewrite Zlt_Qlt in Hw, Hh.
  exact (position_by_exact_centre (inject_Z il) (inject_Z ir) (inject_Z it)
           (inject_Z ib) text tl tr tt tb Hw Hh El Er Et Eb Htw Hth).
Qed.

Lemma relative_position_by_centre_witness :
  LayoutRelationshipHelper.getRelativePosition Samples.rectA Samples.rectB
  = "left".
Proof.
  refine (proj1 (proj1 (relative_position_by_centre 0 10 0 10 Samples.rectB
                          15 25 30 40 _ _ _ _ _ _ _ _ _) _));
    try reflexivity; unfold inject_Z; lra.
Defined.

End BoxFacts.

(* ===================================================================== *)
(** ** Rows of clusters *)
(* ===================================================================== *)

Module RowFacts.
Import SpatialClusteringHelper AdapterSpec.
Local Open Scope list_scope.

Lemma groupLoop_concat (clusters : list (list Node))
    (rows : list (list (list Node))) (currentRow : list (list Node))
    (b : RowBounds) :
  List.concat (groupLoop clusters rows currentRow b)
  = List.concat rows ++ currentRow ++ clusters.
Proof.
  revert rows currentRow b.
  induction clusters as [|c clusters IH]; intros rows currentRow b; simpl.
  - now rewrite concat_app, app_nil_r; simpl; rewrite app_nil_r.
  - destruct (JS.gt _ _); rewrite IH.
    + now rewrite <- app_assoc.
    + rewrite concat_app. simpl. now rewrite app_nil_r, <- app_assoc.
Qed.

Lemma groupIntoRows_concat (clusters : list (list Node)) :
  List.concat (groupIntoRows clusters) = clusters.
Proof.
  destruct clusters as [|c clusters]; [reflexivity|].
  unfold groupIntoRows. now rewrite groupLoop_concat.
Qed.

Lemma groupIntoRows_nonempty (clusters : list (list Node)) :
  Forall (fun row => row <> []) (groupIntoRows clusters).
Proof.
  destruct clusters as [|c clusters]; [constructor|].
  unfold groupIntoRows.
  apply TreeFacts.groupLoop_nonempty; [constructor|discriminate].
Qed.

Lemma detectContainerBoundaries_sorted (clusters : list (list Node))
    (canvasWidth : num) :
  (2 <= length clusters)%nat ->
  exists sorted : list (list Node),
    Permutation sorted clusters /\
    detectContainerBoundaries clusters canvasWidth
    = List.map (List.map ClusterItem) (groupIntoRows sorted).
Proof.
  intros Hlen.
  exists (JS.sort (fun a b => JS.sub (b_top (calculateClusterBounds a))
                                     (b_top (calculateClusterBounds b)))
                  clusters).
  split; [apply JSFacts.sort_Permutation|].
  destruct clusters as [|c1 [|c2 rest]]; simpl in Hlen; try lia.
  reflexivity.
Qed.

(** X8: the row segmentation keeps every cluster, once and in order.  The
    rows of [groupIntoRows], laid end to end, are the list it was given, and
    no row is empty.  For two or more clusters [detectContainerBoundaries]
    therefore returns rows that hold each cluster exactly once: laid end to
    end they are the clusters reordered so that no cluster is directly
    followed by one whose top edge is strictly higher. *)
Theorem rows_keep_every_cluster :
  (forall clusters : list (list Node),
     List.concat (groupIntoRows clusters) = clusters /\
     Forall (fun row => row <> []) (groupIntoRows clusters)) /\
  (forall (clusters : list (list Node)) (canvasWidth : num),
     (2 <= length clusters)%nat ->
     exists sorted : list (list Node),
       Permutation sorted clusters /\
       Sorted (fun a b => JS.gt (b_top (calculateClusterBounds a))
                                (b_top (calculateClusterBounds b)) = false)
              sorted /\
       detectContainerBoundaries clusters canvasWidth
       = List.map (List.map ClusterItem) (groupIntoRows sorted) /\
       List.concat (detectContainerBoundaries clusters canvasWidth)
       = List.map ClusterItem sorted /\
       Forall (fun row => row <> [])
              (detectContainerBoundaries clusters canvasWidth)).
Proof.
  split.
  - intros clusters. split;
      [apply groupIntoRows_concat|apply groupIntoRows_nonempty].
  - intros clusters w Hlen.
    exists (JS.sort (fun a b => JS.sub (b_top (calculateClusterBounds a))
                                       (b_top (calculateClusterBounds b)))
                    clusters).
    assert (E : detectContainerBoundaries clusters w
                = List.map (List.map ClusterItem)
                    (groupIntoRows
                       (JS.sort
                          (fun a b => JS.sub (b_top (calculateClusterBounds a))
                                             (b_top (calculateClusterBounds b)))
                          clusters))).
    { destruct clusters as [|c1 [|c2 rest]]; simpl in Hlen; try lia.
      reflexivity. }
    repeat apply conj.
    + apply JSFacts.sort_Permutation.
    + apply (JSFacts.sort_by_key_Sorted
               (fun c => b_top (calculateClusterBounds c))).
    + exact E.
    + rewrite E, <- concat_map, groupIntoRows_concat. reflexivity.
    + rewrite E. apply Forall_fmap.
      eapply Forall_impl; [apply groupIntoRows_nonempty|].
      intros row Hrow. simpl. now destruct row.
Qed.

Lemma rows_keep_every_cluster_witness :
  exists sorted : list (list Node),
    Permutation sorted [[Samples.boxP]; [Samples.farText]] /\
    List.concat (detectContainerBoundaries
                   [[Samples.boxP]; [Samples.farText]] (JS.of_Z 1200))
    = List.map ClusterItem sorted.
Proof.
  destruct rows_keep_every_cluster as [_ H].
  destruct (H [[Samples.boxP]; [Samples.farText]] (JS.of_Z 1200))
    as (sorted & Hp & _ & _ & E & _); [simpl; lia|].
  exists sorted. split; assumption.
Defined.

Lemma mapM_bounds_of_clusters (clusters : list (list Node)) :
  JS.mapM calculateClusterBounds_item (List.map ClusterItem clusters)
  = JS.Ok (List.map calculateClusterBounds clusters).
Proof.
  induction clusters as [|c clusters IH]; simpl; [reflexivity|].
  now rewrite IH.
Qed.

(** The sum of [n] numbers that all stand for [w] stands for [a + n * w]. *)
Lemma sum_of_equal (xs : list num) (w a : Q) :
  Forall (fun x => JS.eqv x (JS.Num w)) xs ->
  JS.eqv (fold_left JS.add xs (JS.Num a))
         (JS.Num (a + inject_Z (Z.of_nat (length xs)) * w)).
Proof.
  revert a. induction xs as [|x xs IH]; intros a Hall.
  - cbn [fold_left length JS.eqv]. change (inject_Z (Z.of_nat 0)) with 0%Q. ring.
  - apply Forall_cons in Hall as [Hx Hall].
    destruct x as [p| | |]; cbn [JS.eqv] in Hx; try tauto.
    cbn [fold_left JS.add length].
    etransitivity; [apply IH; assumption|].
    cbn [JS.eqv]. rewrite Hx, Nat2Z.inj_succ, <- Z.add_1_r, inject_Z_plus.
    change (inject_Z 1) with 1%Q. ring.
Qed.

Lemma average_of_equal (xs : list num) (w : Q) :
  xs <> [] ->
  Forall (fun x => JS.eqv x (JS.Num w)) xs ->
  JS.eqv (JS.div (fold_left JS.add xs JS.zero) (JS.of_nat (length xs)))
         (JS.Num w).
Proof.
  intros Hne Hall.
  pose proof (sum_of_equal xs w 0 Hall) as Hs.
  unfold JS.zero. destruct (fold_left JS.add xs (JS.Num 0)) as [s| | |];
    simpl in Hs; try tauto.
  assert (Hn : ~ (inject_Z (Z.of_nat (length xs)) == 0)%Q).
  { destruct xs; [congruence|]. simpl length.
    unfold Qeq, inject_Z; simpl. lia. }
  unfold JS.div, JS.of_nat, JS.of_Z.
  destruct (Qeq_bool _ 0) eqn:E; [apply Qeq_bool_iff in E; tauto|].
  simpl. rewrite Hs. field. exact Hn.
Qed.

Lemma within_tolerance (x avg : num) (w : Q) :
  (0 < w)%Q -> JS.eqv x (JS.Num w) -> JS.eqv avg (JS.Num w) ->
  JS.lt (JS.abs (JS.sub x avg)) (JS.mul avg (JS.Num 0.2)) = true.
Proof.
  intros Hw Hx Ha.
  destruct x as [p| | |], avg as [q| | |]; simpl in Hx, Ha; try tauto.
  unfold JS.lt, JS.abs, JS.sub, JS.mul, JS.add, JS.neg, JS.compare.
  assert (H : (Qabs (p + - q) < q * 0.2)%Q).
  { assert (E : (p + - q == 0)%Q) by (rewrite Hx, Ha; ring).
    rewrite E, Ha. change (Qabs 0) with 0%Q. lra. }
  destruct (Qcompare_spec (Qabs (p + - q)) (q * 0.2)) as [H'|H'|H'];
    [rewrite H' in H|reflexivity|]; exfalso; lra.
Qed.

(** With sums and averages taken exactly, clusters of one common positive
    size repeat. *)
Lemma equal_sizes_repeat (clusters : list (list Node)) (w h : Q) :
  (2 <= length clusters)%nat -> (0 < w)%Q -> (0 < h)%Q ->
  Forall (fun c => JS.eqv (b_width (calculateClusterBounds c)) (JS.Num w) /\
                   JS.eqv (b_height (calculateClusterBounds c)) (JS.Num h))
         clusters ->
  (exists p, detectRepeatingPattern (List.map ClusterItem clusters) = JS.Ok p /\
             isRepeating p = true /\ count p = Some (length clusters)) /\
  (exists r, StructureInferenceEngine.detectRepeatingPatterns
               (List.map ClusterItem clusters) = JS.Ok r /\
             StructureInferenceEngine.rp_isRepeating r = true /\
             StructureInferenceEngine.rp_count r = Some (length clusters)).
Proof.
  intros Hlen Hw Hh Hall.
  set (bounds := List.map calculateClusterBounds clusters).
  assert (Hbw : Forall (fun x => JS.eqv x (JS.Num w)) (List.map b_width bounds)).
  { subst bounds. rewrite map_map. apply Forall_fmap.
    eapply Forall_impl; [exact Hall|]. now intros c [H _]. }
  assert (Hbh : Forall (fun x => JS.eqv x (JS.Num h)) (List.map b_height bounds)).
  { subst bounds. rewrite map_map. apply Forall_fmap.
    eapply Forall_impl; [exact Hall|]. now intros c [_ H]. }
  assert (Hne : forall f : Bounds -> num, List.map f bounds <> []).
  { intros f. subst bounds. destruct clusters; [simpl in Hlen; lia|discriminate]. }
  assert (Hrep :
    forallb (fun b =>
      JS.lt (JS.abs (JS.sub (b_width b)
               (JS.div (fold_left JS.add (List.map b_width bounds) JS.zero)
                       (JS.of_nat (length (List.map b_width bounds))))))
            (JS.mul (JS.div (fold_left JS.add (List.map b_width bounds) JS.zero)
                            (JS.of_nat (length (List.map b_width bounds))))
                    (JS.Num 0.2)) &&
      JS.lt (JS.abs (JS.sub (b_height b)
               (JS.div (fold_left JS.add (List.map b_height bounds) JS.zero)
                       (JS.of_nat (length (List.map b_height bounds))))))
            (JS.mul (JS.div (fold_left JS.add (List.map b_height bounds) JS.zero)
                            (JS.of_nat (length (List.map b_height bounds))))
                    (JS.Num 0.2))) bounds = true).
  { apply forallb_forall. intros b Hb.
    apply andb_true_iff. split.
    - apply (within_tolerance _ _ w Hw);
        [|apply average_of_equal; [apply Hne|exact Hbw]].
      rewrite Forall_forall in Hbw. apply Hbw.
      apply (list_elem_of_fmap_2 b_width), list_elem_of_In, Hb.
    - apply (within_tolerance _ _ h Hh);
        [|apply average_of_equal; [apply Hne|exact Hbh]].
      rewrite Forall_forall in Hbh. apply Hbh.
      apply (list_elem_of_fmap_2 b_height), list_elem_of_In, Hb. }
  assert (E : exists p,
             detectRepeatingPattern (List.map ClusterItem clusters) = JS.Ok p /\
             isRepeating p = true /\ count p = Some (length clusters)).
  { unfold detectRepeatingPattern.
    rewrite length_map.
    destruct (Nat.ltb_spec (length clusters) 2) as [?|_]; [lia|].
    rewrite mapM_bounds_of_clusters. fold bounds. cbn [JS.bind].
    eexists. split; [reflexivity|]. split; [exact Hrep|reflexivity]. }
  split; [exact E|].
  destruct E as (p & Ep & Hp & Hc).
  unfold StructureInferenceEngine.detectRepeatingPatterns.
  rewrite Ep. cbn [JS.bind]. rewrite Hp. cbn [negb].
  destruct clusters as [|c0 rest]; [simpl in Hlen; lia|].
  cbn [List.map StructureInferenceEngine.inferWidgetType_item JS.bind].
  eexists. split; [reflexivity|]. split; [reflexivity|exact Hc].
Qed.

(** X9: clusters of one common size form a repeating pattern.  When two
    or more clusters all have bounds of the same width and the same height,
    both positive whole numbers of pixels of at most 2^25,
    [detectRepeatingPattern] reports a repetition and counts every cluster,
    and [detectRepeatingPatterns] passes both on. *)
Theorem equal_clusters_repeat (clusters : list (list Node)) (w h : Z) :
  (2 <= length clusters)%nat ->
  (0 < w <= PixelSpec.LIMIT)%Z -> (0 < h <= PixelSpec.LIMIT)%Z ->
  Forall (fun c => JS.eqv (b_width (calculateClusterBounds c)) (JS.of_Z w) /\
                   JS.eqv (b_height (calculateClusterBounds c)) (JS.of_Z h))
         clusters ->
  (exists p, detectRepeatingPattern (List.map ClusterItem clusters) = JS.Ok p /\
             isRepeating p = true /\ count p = Some (length clusters)) /\
  (exists r, StructureInferenceEngine.detectRepeatingPatterns
               (List.map ClusterItem clusters) = JS.Ok r /\
             StructureInferenceEngine.rp_isRepeating r = true /\
             StructureInferenceEngine.rp_count r = Some (length clusters)).
Proof.
  intros Hlen [Hw _] [Hh _] Hall.
  apply (equal_sizes_repeat clusters (inject_Z w) (inject_Z h) Hlen).
  - change 0%Q with (inject_Z 0). now rewrite <- Zlt_Qlt.
  - change 0%Q with (inject_Z 0). now rewrite <- Zlt_Qlt.
  - exact Hall.
Qed.

Lemma equal_clusters_repeat_witness :
  exists p,
    detectRepeatingPattern
      (List.map ClusterItem [[Samples.boxP]; [Samples.boxQ]]) = JS.Ok p /\
    isRepeating p = true /\ count p = Some 2%nat.
Proof.
  refine (proj1 (equal_clusters_repeat [[Samples.boxP]; [Samples.boxQ]]
                   10 10 _ _ _ _)).
  - simpl. lia.
  - unfold PixelSpec.LIMIT. lia.
  - unfold PixelSpec.LIMIT. lia.
  - repeat constructor; reflexivity.
Defined.

End RowFacts.

(* ===================================================================== *)
(** ** ContainerLayoutHelper: direction and layout *)
(* ===================================================================== *)

Module FlexFacts.
Import ContainerLayoutHelper.
Local Open Scope list_scope.

(** The test on a pair of boxes does not depend on their order. *)
Lemma rowPair_sym (a b : Bounds) : rowPair a b = rowPair b a.
Proof.
  unfold rowPair, JS.gt, JS.lt.
  assert (E1 : JS.eqv
            (JS.mul (JS.min (b_height a) (b_height b)) (JS.Num 0.3))
            (JS.mul (JS.min (b_height b) (b_height a)) (JS.Num 0.3))).
  { apply NumEquiv.mul_proper; [apply NumEquiv.min_comm|reflexivity]. }
  assert (E2 : JS.eqv
            (JS.max JS.zero (JS.sub (JS.min (b_bottom a) (b_bottom b))
                                    (JS.max (b_top a) (b_top b))))
            (JS.max JS.zero (JS.sub (JS.min (b_bottom b) (b_bottom a))
                                    (JS.max (b_top b) (b_top a))))).
  { apply NumEquiv.max_proper; [reflexivity|].
    apply NumEquiv.sub_proper; [apply NumEquiv.min_comm|apply NumEquiv.max_comm]. }
  now rewrite (NumEquiv.compare_proper _ _ E1 _ _ E2).
Qed.

Lemma existsb_Permutation {A : Type} (f : A -> bool) (l l' : list A) :
  Permutation l l' -> existsb f l = existsb f l'.
Proof.
  induction 1 as [|x l l' _ IH|x y l|l l' l'' _ IH1 _ IH2]; simpl.
  - reflexivity.
  - now rewrite IH.
  - now destruct (f x), (f y).
  - congruence.
Qed.

Lemma hasRowStructure_Permutation (l l' : list Node) :
  Permutation l l' -> hasRowStructure l = hasRowStructure l'.
Proof.
  induction 1 as [|x l l' Hp IH|x y l|l l' l'' _ IH1 _ IH2]; simpl.
  - reflexivity.
  - now rewrite IH, (existsb_Permutation _ _ _ Hp).
  - rewrite (rowPair_sym (n_bounds y) (n_bounds x)).
    destruct (rowPair (n_bounds x) (n_bounds y)),
             (existsb (fun b => rowPair (n_bounds y) (n_bounds b)) l),
             (existsb (fun b => rowPair (n_bounds x) (n_bounds b)) l);
      reflexivity.
  - congruence.
Qed.

Lemma existsb_lookup {A : Type} (f : A -> bool) (l : list A) :
  existsb f l = true <-> exists j b, l !! j = Some b /\ f b = true.
Proof.
  rewrite existsb_exists. split.
  - intros (b & Hb & Hf). apply list_elem_of_In, list_elem_of_lookup in Hb.
    destruct Hb as [j Hj]. eauto.
  - intros (j & b & Hj & Hf). exists b. split; [|assumption].
    apply list_elem_of_In, list_elem_of_lookup. eauto.
Qed.

Lemma hasRowStructure_lookup (l : list Node) :
  hasRowStructure l = true <->
  exists i j a b, (i < j)%nat /\ l !! i = Some a /\ l !! j = Some b /\
                  rowPair (n_bounds a) (n_bounds b) = true.
Proof.
  induction l as [|x l IH]; simpl.
  - split; [discriminate|]. now intros (i & j & a & b & _ & H & _).
  - rewrite orb_true_iff, IH, existsb_lookup. split.
    + intros [(j & b & Hj & Hf)|(i & j & a & b & Hij & Hi & Hj & Hf)].
      * exists 0%nat, (S j), x, b. repeat split; [lia|assumption..].
      * exists (S i), (S j), a, b. repeat split; [lia|assumption..].
    + intros (i & j & a & b & Hij & Hi & Hj & Hf).
      destruct j as [|j]; [lia|]. destruct i as [|i].
      * left. simpl in Hi. injection Hi as ->. exists j, b. now split.
      * right. exists i, j, a, b. repeat split; [lia|assumption..].
Qed.

(** X10: the flex direction is a property of the set of children, not of
    their order.  The answer is "row" exactly when two children at different
    positions overlap vertically by more than 30% of the smaller stored
    height, and "column" otherwise; reordering the children never changes
    it. *)
Theorem flex_direction_ignores_order :
  (forall children : list Node,
     (detectFlexDirection children = "row" <->
      exists i j a b, i <> j /\ children !! i = Some a /\ children !! j = Some b /\
                      rowPair (n_bounds a) (n_bounds b) = true) /\
     (detectFlexDirection children = "row" \/
      detectFlexDirection children = "column")) /\
  (forall children children' : list Node,
     Permutation children children' ->
     detectFlexDirection children = detectFlexDirection children').
Proof.
  split.
  - intros children.
    assert (Hshort : (length children < 2)%nat -> hasRowStructure children = false).
    { destruct children as [|x [|y l]]; simpl; try reflexivity; lia. }
    assert (Hrow : detectFlexDirection children = "row" <->
                   hasRowStructure children = true).
    { unfold detectFlexDirection.
      destruct (Nat.ltb_spec (length children) 2) as [Hl|Hl].
      - rewrite (Hshort Hl). split; discriminate.
      - destruct (hasRowStructure children); split; congruence. }
    split.
    + rewrite Hrow, hasRowStructure_lookup. split.
      * intros (i & j & a & b & Hij & H). exists i, j, a, b.
        split; [lia|exact H].
      * intros (i & j & a & b & Hij & Hi & Hj & Hf).
        destruct (Nat.lt_ge_cases i j) as [Hlt|Hge].
        -- exists i, j, a, b. auto.
        -- exists j, i, b, a. rewrite rowPair_sym.
           repeat split; [lia|assumption..].
    + unfold detectFlexDirection.
      destruct (_ <? _)%nat; [now right|].
      destruct (hasRowStructure children); auto.
  - intros children children' Hp. unfold detectFlexDirection.
    now rewrite (Permutation_length Hp), (hasRowStructure_Permutation _ _ Hp).
Qed.

Lemma flex_direction_ignores_order_witness :
  detectFlexDirection [Samples.boxP; Samples.boxQ]
  = detectFlexDirection [Samples.boxQ; Samples.boxP].
Proof.
  destruct flex_direction_ignores_order as [_ H].
  apply H. apply perm_swap.
Defined.

Lemma filter_idempotent {A : Type} (f : A -> bool) (l : list A) :
  List.filter f (List.filter f l) = List.filter f l.
Proof.
  induction l as [|x l IH]; simpl; [reflexivity|].
  destruct (f x) eqn:E; simpl; now rewrite ?E, IH.
Qed.

Lemma calculateGap_sign (children : list Node) (direction : string) :
  calculateGap children direction = JS.zero \/
  JS.gt (calculateGap children direction) JS.zero = true.
Proof.
  destruct (Nat.lt_ge_cases (length children) 2) as [Hl|Hl].
  - left. unfold calculateGap.
    destruct (Nat.ltb_spec (length children) 2); [reflexivity|lia].
  - rewrite LayoutFacts.calculateGap_unfold by assumption. cbv zeta.
    set (gaps := JS.sort _ _).
    destruct gaps as [|g0 gaps'] eqn:E; [now left|right]. rewrite <- E.
    assert (Hin : In (nth (length gaps / 2) gaps JS.zero) gaps).
    { apply nth_In. apply Nat.div_lt; [rewrite E; simpl; lia|lia]. }
    eapply (proj1 (LayoutFacts.positiveGaps_spec direction _ _ _)).
    Unshelve.
    2: { eapply Permutation_in; [apply JSFacts.sort_Permutation|exact Hin]. }
Qed.

Lemma detectFlexDirection_values (children : list Node) :
  detectFlexDirection children = "row" \/
  detectFlexDirection children = "column".
Proof.
  unfold detectFlexDirection. destruct (_ <? _)%nat; [now right|].
  destruct (hasRowStructure children); auto.
Qed.

(** X11: what [calculateLayout] can return.  The direction is "row" or
    "column" and fixes [justifyContent] and [alignItems]; "wrap" comes only
    with a row of at least three visible children; the gap is zero or
    greater than zero, never negative and never NaN, whatever the bounds
    are; with fewer than two visible children of positive size the layout is
    the default column.  Children that are hidden or have no positive stored
    size do not influence the result. *)
Theorem calculateLayout_invariants (children : list Node) :
  let L := calculateLayout children in
  (lay_direction L = "row" /\ lay_justifyContent L = "space-between" /\
   lay_alignItems L = "flex-start"
   \/
   lay_direction L = "column" /\ lay_justifyContent L = "flex-start" /\
   lay_alignItems L = "stretch" /\ lay_wrap L = "nowrap") /\
  (lay_wrap L = "wrap" \/ lay_wrap L = "nowrap") /\
  (lay_wrap L = "wrap" ->
   (3 <= length (getVisibleChildren children))%nat) /\
  (exists g, lay_gap L = Some g /\ (g = JS.zero \/ JS.gt g JS.zero = true)) /\
  ((length (getVisibleChildren children) < 2)%nat ->
   L = mkLayout "column" "nowrap" (Some JS.zero) "flex-start" "stretch") /\
  calculateLayout (getVisibleChildren children) = L.
Proof.
  cbv zeta.
  assert (Eidem : calculateLayout (getVisibleChildren children)
                  = calculateLayout children).
  { assert (E : getVisibleChildren (getVisibleChildren children)
                 = getVisibleChildren children) by apply filter_idempotent.
    unfold calculateLayout. now rewrite E. }
  rewrite Eidem. clear Eidem.
  unfold calculateLayout. set (vis := getVisibleChildren children).
  destruct (Nat.ltb_spec (length vis) 2) as [Hl|Hl].
  - simpl.
    split; [right; repeat split|].
    split; [now right|].
    split; [discriminate|].
    split; [eexists; split; [reflexivity|now left]|].
    split; [reflexivity|reflexivity].
  - pose proof (calculateGap_sign vis (detectFlexDirection vis)) as Hg.
    destruct (detectFlexDirection_values vis) as [Ed|Ed]; rewrite Ed in *; simpl.
    + split; [left; repeat split|].
      split; [destruct (detectWrap vis); auto|].
      split.
      { unfold detectWrap.
        destruct (Nat.ltb_spec (length vis) 3) as [H3|H3]; [discriminate|auto]. }
      split; [eexists; split; [reflexivity|exact Hg]|].
      split; [intros; lia|reflexivity].
    + split; [right; repeat split|].
      split; [now right|].
      split; [discriminate|].
      split; [eexists; split; [reflexivity|exact Hg]|].
      split; [intros; lia|reflexivity].
Qed.

End FlexFacts.

(* ===================================================================== *)
(** ** ImageBoxContentClassifier: the roles *)
(* ===================================================================== *)

Module RoleFacts.
Import ImageBoxContentClassifier.
Local Open Scope list_scope.

Lemma mapM_scoreLayer_layers (l : list Node) :
  Forall (fun v => is_Some (n_textInfo v)) l ->
  exists scored, JS.mapM scoreLayer l = JS.Ok scored /\
                 List.map s_layer scored = l.
Proof.
  induction 1 as [|v l [ti Hti] _ (scored & IH & El)]; simpl; [eauto|].
  unfold scoreLayer at 1. rewrite Hti. simpl. rewrite IH. simpl.
  eexists. split; [reflexivity|]. simpl. now rewrite El.
Qed.

(** The first and the last element of a list with two or more elements. *)
Lemma ends_of (L : list Scored) :
  (2 <= length L)%nat ->
  exists s0 mid z,
    L = s0 :: mid ++ [z] /\
    option_map s_layer (List.head L) = Some (s_layer s0) /\
    option_map s_layer (List.last (List.map Some L) None) = Some (s_layer z).
Proof.
  destruct L as [|s0 rest]; [simpl; lia|]. intros Hlen.
  destruct (exists_last (l := rest)) as (mid & z & ->);
    [destruct rest; simpl in *; [lia|discriminate]|].
  exists s0, mid, z. split; [reflexivity|]. split; [reflexivity|].
  assert (E : List.last (List.map Some (s0 :: mid ++ [z])) None = Some z).
  { change (s0 :: mid ++ [z]) with ((s0 :: mid) ++ [z]).
    rewrite map_app. apply last_last. }
  now rewrite E.
Qed.

Lemma ends_differ (L : list Scored) (s0 z : Scored) (mid : list Scored) :
  L = s0 :: mid ++ [z] -> NoDup (List.map s_layer L) -> s_layer s0 <> s_layer z.
Proof.
  intros -> Hnd E. simpl in Hnd. apply NoDup_cons in Hnd as [Hnot _].
  apply Hnot. rewrite map_app, E. simpl. apply elem_of_app. right.
  constructor.
Qed.

Lemma textLayers_have_textInfo (children : list Node) :
  Forall (fun v => is_Some (n_textInfo v))
         (List.filter (fun c => bool_decide (n_type c = TText))
                      (List.map fillTextInfo children)).
Proof.
  apply Forall_forall. intros v Hv.
  apply list_elem_of_In, filter_In in Hv as [Hv Hty].
  apply in_map_iff in Hv as (u & <- & _).
  apply bool_decide_eq_true in Hty.
  unfold fillTextInfo in *.
  destruct (n_type u) eqn:Eu; simpl in Hty; try discriminate;
    try (rewrite Eu in Hty; discriminate).
  destruct (n_textInfo u) eqn:Ei; simpl; eauto.
Qed.

Lemma pickImage_spec (imageLayers : list Node) :
  (pickImage imageLayers = None <-> imageLayers = []) /\
  forall l, pickImage imageLayers = Some l -> l ∈ imageLayers.
Proof.
  unfold pickImage. destruct imageLayers as [|first rest].
  - split; [tauto|discriminate].
  - destruct (List.find _ _) as [l'|] eqn:E.
    + split; [split; discriminate|].
      intros l [= <-]. apply find_some in E as [E _].
      now apply list_elem_of_In.
    + split; [split; discriminate|].
      intros l [= <-]. constructor.
Qed.

(** X12: [classify] always returns, and every role it fills is one of the
    children it was given (as they are once a missing text style has been
    filled in).  The image role is an image child and is filled exactly when
    there is one; the text roles are text children; without a text child
    neither is filled, with one text child exactly one of them is, and with
    two or more both are -- by two different children when the text children
    are pairwise different. *)
Theorem classify_roles (th : thresholds) (children : list Node) :
  let kids := List.map fillTextInfo children in
  let images := List.filter isImageChild kids in
  let texts := List.filter (fun c => bool_decide (n_type c = TText)) kids in
  exists roles,
    classify th children = JS.Ok roles /\
    (r_image roles = None <-> images = []) /\
    (forall l, r_image roles = Some l -> l ∈ images) /\
    (forall l, r_heading roles = Some l -> l ∈ texts) /\
    (forall l, r_description roles = Some l -> l ∈ texts) /\
    (texts = [] -> r_heading roles = None /\ r_description roles = None) /\
    (length texts = 1%nat ->
     (is_Some (r_heading roles) /\ r_description roles = None) \/
     (r_heading roles = None /\ is_Some (r_description roles))) /\
    ((2 <= length texts)%nat ->
     is_Some (r_heading roles) /\ is_Some (r_description roles) /\
     (NoDup texts -> r_heading roles <> r_description roles)).
Proof.
  cbv zeta. unfold classify.
  pose proof (textLayers_have_textInfo children) as Hinfo.
  set (texts := List.filter (fun c => bool_decide (n_type c = TText)) _) in *.
  set (images := List.filter isImageChild _).
  destruct (pickImage_spec images) as [Hnone Hsome].
  destruct texts as [|a [|b rest]] eqn:Et.
  - eexists. split; [reflexivity|]. cbn [r_image r_heading r_description].
    split; [exact Hnone|]. split; [exact Hsome|].
    split; [discriminate|]. split; [discriminate|].
    split; [auto|]. split; [discriminate|].
    simpl. intros. lia.
  - apply Forall_cons in Hinfo as [[ti Hti] _].
    unfold assignSingleText. rewrite Hti.
    destruct (_ || _); (eexists; split; [reflexivity|]);
      cbn [r_image r_heading r_description];
      (split; [exact Hnone|]); (split; [exact Hsome|]).
    + split; [intros l [= <-]; constructor|]. split; [discriminate|].
      split; [discriminate|]. split; [intros _; left; eauto|].
      simpl. intros. lia.
    + split; [discriminate|]. split; [intros l [= <-]; constructor|].
      split; [discriminate|]. split; [intros _; right; eauto|].
      simpl. intros. lia.
  - rewrite <- Et in *.
    assert (Hlen : (2 <= length texts)%nat) by (rewrite Et; simpl; lia).
    destruct (mapM_scoreLayer_layers _ Hinfo) as (scored & Es & El).
    unfold classifyTextLayers. rewrite Es. cbn [JS.bind].
    set (byScore := JS.sort (fun a b => JS.of_Z (s_score b - s_score a)) scored).
    set (byTop := JS.sort (fun a b => JS.sub (s_top a) (s_top b)) byScore).
    assert (Hp1 : Permutation (List.map s_layer byScore) texts).
    { rewrite <- El. apply Permutation_map, JSFacts.sort_Permutation. }
    assert (Hp2 : Permutation (List.map s_layer byTop) texts).
    { rewrite <- Hp1. apply Permutation_map, JSFacts.sort_Permutation. }
    assert (Hl1 : (2 <= length byScore)%nat).
    { rewrite <- (length_map s_layer), (Permutation_length Hp1). exact Hlen. }
    assert (Hl2 : (2 <= length byTop)%nat).
    { rewrite <- (length_map s_layer), (Permutation_length Hp2). exact Hlen. }
    assert (Hfinal : forall L : list Scored,
              (2 <= length L)%nat -> Permutation (List.map s_layer L) texts ->
              let hd := option_map s_layer (List.head L) in
              let ds := option_map s_layer (List.last (List.map Some L) None) in
              (forall l, hd = Some l -> l ∈ texts) /\
              (forall l, ds = Some l -> l ∈ texts) /\
              is_Some hd /\ is_Some ds /\ (NoDup texts -> hd <> ds)).
    { intros L HL Hp. cbv zeta.
      destruct (ends_of L HL) as (s0 & mid & z & EL & -> & ->).
      repeat apply conj; eauto.
      - intros l [= <-]. rewrite <- Hp, EL. simpl. constructor.
      - intros l [= <-]. rewrite <- Hp, EL. simpl.
        rewrite map_app. apply elem_of_cons. right. apply elem_of_app. right.
        constructor.
      - intros Hnd [= E]. revert E. apply (ends_differ L s0 z mid EL).
        now rewrite Hp. }
    assert (Hout : exists hd ds,
              (match byScore with
               | s0 :: s1 :: _ =>
                   if (s_score s0 =? s_score s1)%Z
                   then JS.Ok (option_map s_layer (List.head byTop),
                               option_map s_layer
                                 (List.last (List.map Some byTop) None))
                   else JS.Ok (option_map s_layer (List.head byScore),
                               option_map s_layer
                                 (List.last (List.map Some byScore) None))
               | _ => JS.Ok (option_map s_layer (List.head byScore),
                             option_map s_layer
                               (List.last (List.map Some byScore) None))
               end) = JS.Ok (hd, ds) /\
              (forall l, hd = Some l -> l ∈ texts) /\
              (forall l, ds = Some l -> l ∈ texts) /\
              is_Some hd /\ is_Some ds /\ (NoDup texts -> hd <> ds)).
    { destruct byScore as [|s0 [|s1 r]] eqn:Eb;
        try (simpl in Hl1; lia).
      rewrite <- Eb in *.
      destruct (Z.eqb _ _); eexists _, _; (split; [reflexivity|]).
      - apply (Hfinal byTop Hl2 Hp2).
      - apply (Hfinal byScore Hl1 Hp1). }
    destruct Hout as (hd & ds & Eo & H1 & H2 & H3 & H4 & H5).
    subst byTop. rewrite Eo. cbn [JS.bind fst snd].
    eexists. split; [reflexivity|]. cbn [r_image r_heading r_description].
    split; [exact Hnone|]. split; [exact Hsome|].
    split; [exact H1|]. split; [exact H2|].
    split; [intros E; rewrite E in Hlen; simpl in Hlen; lia|].
    split; [intros E; lia|].
    intros _. repeat apply conj; assumption.
Qed.

End RoleFacts.

(* ===================================================================== *)
(** ** StructureInferenceEngine: what an inference result holds *)
(* ===================================================================== *)

Module InferenceInvariants.
Import StructureInferenceEngine CompositionSpec.
Local Open Scope list_scope.

Lemma snoc_not_nil {A : Type} (l : list A) (x : A) : l ++ [x] <> [].
Proof. now destruct l. Qed.

Lemma counted_step (n : nat) (seen : list Node) (c : Composition) (l : Node) :
  counted n seen c -> counted (S n) (seen ++ [l]) (analyzeLayer c l).
Proof.
  intros [H1 H2 H3 H4 H5 H6 H7 H8 H9]. unfold analyzeLayer.
  assert (Hseen : forall x, x ∈ seen -> x ∈ seen ++ [l]).
  { intros x Hx. apply elem_of_app. now left. }
  assert (Hl : l ∈ seen ++ [l]).
  { apply elem_of_app. right. constructor. }
  destruct (isTextLayer l) eqn:Et.
  - destruct (JS.ge _ _); constructor; simpl;
      rewrite ?length_app; simpl; try lia; try assumption;
      try (split; [intros _; apply snoc_not_nil|reflexivity]).
    + intros x [Hx| ->%list_elem_of_singleton]%elem_of_app;
        [destruct (H8 x Hx); auto|auto].
    + intros x Hx. destruct (H9 x Hx); auto.
    + intros x Hx. destruct (H8 x Hx); auto.
    + intros x Hx. destruct (H9 x Hx); auto.
  - destruct (isImageLayer l) eqn:Ei.
    + constructor; simpl; rewrite ?length_app; simpl; try lia; try assumption.
      * split; [intros _; apply snoc_not_nil|intros _].
        destruct (JS.le _ _ && JS.le _ _); simpl;
          [apply orb_true_r|reflexivity].
      * intros _. apply snoc_not_nil.
      * intros x Hx. destruct (H8 x Hx); auto.
      * intros x [Hx| ->%list_elem_of_singleton]%elem_of_app;
          [destruct (H9 x Hx); auto|auto].
    + constructor; try assumption; try lia.
      * intros x Hx. destruct (H8 x Hx); auto.
      * intros x Hx. destruct (H9 x Hx); auto.
Qed.

Lemma counted_fold (cluster : list Node) (n : nat) (seen : list Node)
    (c : Composition) :
  counted n seen c ->
  counted (n + length cluster) (seen ++ cluster) (fold_left analyzeLayer cluster c).
Proof.
  revert n seen c. induction cluster as [|l cluster IH]; intros n seen c H; simpl.
  - now rewrite Nat.add_0_r, app_nil_r.
  - replace (n + S (length cluster))%nat with (S n + length cluster)%nat by lia.
    replace (seen ++ l :: cluster) with ((seen ++ [l]) ++ cluster)
      by now rewrite <- app_assoc.
    apply IH. now apply counted_step.
Qed.

Lemma analyzeComposition_tallies_aux (cluster : list Node) :
  textCount (analyzeComposition cluster)
  = (length (headings (analyzeComposition cluster))
     + length (texts (analyzeComposition cluster)))%nat.
Proof.
  unfold analyzeComposition.
  assert (H0 : counted 0 [] emptyComposition).
  { constructor; simpl; try lia; try (split; [discriminate|congruence]);
      try discriminate; intros l Hl; now apply elem_of_nil in Hl. }
  apply (cnt_text _ _ _ (counted_fold cluster 0 [] emptyComposition H0)).
Qed.

(** X13: the tallies of [analyzeComposition] are consistent.  The text
    count is the number of headings plus the number of body texts, the image
    count the number of images, and together they never exceed the size of
    the cluster; each flag is set exactly when its list is not empty; the
    headings and the images are layers of the cluster, the images never text
    layers. *)
Theorem analyzeComposition_tallies (cluster : list Node) :
  let c := analyzeComposition cluster in
  textCount c = (length (headings c) + length (texts c))%nat /\
  imageCount c = length (images c) /\
  (textCount c + imageCount c <= length cluster)%nat /\
  (hasHeading c = true <-> headings c <> []) /\
  (hasText c = true <-> texts c <> []) /\
  (hasImage c || hasSmallImage c = true <-> images c <> []) /\
  (hasButtonShape c = true -> images c <> []) /\
  (forall l, l ∈ headings c -> l ∈ cluster /\ isTextLayer l = true) /\
  (forall l, l ∈ images c -> l ∈ cluster /\ isTextLayer l = false).
Proof.
  cbv zeta. unfold analyzeComposition.
  assert (H0 : counted 0 [] emptyComposition).
  { constructor; simpl; try lia; try (split; [discriminate|congruence]);
      try discriminate; intros l Hl; now apply elem_of_nil in Hl. }
  pose proof (counted_fold cluster 0 [] emptyComposition H0) as H.
  change (counted (length cluster) cluster
            (fold_left analyzeLayer cluster emptyComposition)) in H.
  destruct H as [H1 H2 H3 H4 H5 H6 H7 H8 H9].
  repeat match goal with |- _ /\ _ => split end; assumption.
Qed.

Lemma classifySingleLayer_shape (l : Node) :
  layers (classifySingleLayer l) = [l] /\
  compositeData (classifySingleLayer l) = None /\
  composite (widgetType (classifySingleLayer l)) = false /\
  JS.le JS.zero (confidence (classifySingleLayer l)) = true /\
  JS.le (confidence (classifySingleLayer l)) (JS.Num 0.9) = true.
Proof.
  unfold classifySingleLayer.
  destruct (isTextLayer l); [destruct (JS.ge _ _)|];
    [| |destruct (isButtonShape l); [|destruct (isImageLayer l)]];
    repeat split.
Qed.

Lemma inferWidgetType_layers (cluster : list Node) :
  layers (inferWidgetType cluster) = cluster.
Proof.
  destruct cluster as [|l0 [|l1 rest]]; [reflexivity| |].
  - apply classifySingleLayer_shape.
  - unfold inferWidgetType.
    repeat match goal with |- context [if ?b then _ else _] => destruct b end;
      reflexivity.
Qed.

(** X14: what [inferWidgetType] returns, and what [buildClassifiedLayer]
    makes of it.  The result lists exactly the layers of the cluster, its
    confidence lies between 0 and 0.9, and it carries composite data exactly
    when the widget type is image-box, icon-box or icon-list -- of the
    matching shape, with the url left empty, and only for clusters of two or
    more layers.  The list items of an icon-list are the body texts alone:
    headings count towards the three texts it takes but are not listed.  The
    layer built from the result is marked composite in exactly those cases,
    and then its children are copies of the layers of the cluster, in order,
    with their ids and bounds and each with a widget type; otherwise it has
    no children. *)
Theorem inference_result_shape (cluster : list Node) (newId : string)
    (bounds : Bounds) :
  let i := inferWidgetType cluster in
  let e := buildClassifiedLayer newId i bounds in
  layers i = cluster /\
  JS.le JS.zero (confidence i) = true /\
  JS.le (confidence i) (JS.Num 0.9) = true /\
  (is_Some (compositeData i) <-> composite (widgetType i) = true) /\
  (is_Some (compositeData i) -> (2 <= length cluster)%nat) /\
  match compositeData i with
  | Some (ImageBoxData _ _ url) => widgetType i = WImageBox /\ url = ""
  | Some (IconBoxData _ _ url) => widgetType i = WIconBox /\ url = ""
  | Some (ListData items) =>
      widgetType i = WIconList /\
      items = texts (analyzeComposition cluster) /\
      (3 <= length items + length (headings (analyzeComposition cluster)))%nat
  | None => True
  end /\
  n_id e = newId /\ n_bounds e = bounds /\ n_visible e = true /\
  n_widgetType e = Some (widgetType i) /\
  n_isComposite e = composite (widgetType i) /\
  (composite (widgetType i) = true ->
   List.map n_id (n_children e) = List.map n_id cluster /\
   List.map n_bounds (n_children e) = List.map n_bounds cluster /\
   Forall (fun c => is_Some (n_widgetType c)) (n_children e)) /\
  (composite (widgetType i) = false -> n_children e = []).
Proof.
  cbv zeta.
  assert (Hkids :
    List.map n_id (List.map compositeChild cluster) = List.map n_id cluster /\
    List.map n_bounds (List.map compositeChild cluster)
    = List.map n_bounds cluster /\
    Forall (fun c => is_Some (n_widgetType c)) (List.map compositeChild cluster)).
  { rewrite !map_map. repeat split.
    apply Forall_fmap, Forall_forall. intros c _. simpl. eauto. }
  destruct cluster as [|l0 [|l1 rest]].
  - simpl. repeat split; try discriminate; try reflexivity;
      try (intros [x Hx]; discriminate); try (intros; lia).
  - change (inferWidgetType [l0]) with (classifySingleLayer l0).
    destruct (classifySingleLayer_shape l0) as (E1 & E2 & E3 & E4 & E5).
    unfold buildClassifiedLayer. rewrite E1, E2, E3. simpl.
    repeat match goal with |- _ /\ _ => split end;
      try assumption; try reflexivity; try discriminate;
      try (split; [intros [x Hx]|]; discriminate);
      try (intros [x Hx]; discriminate).
  - pose proof (analyzeComposition_tallies_aux
                  (l0 :: l1 :: rest)) as Ht.
    unfold inferWidgetType.
    set (cluster := l0 :: l1 :: rest) in *.
    set (c := analyzeComposition cluster) in *.
    assert (Hlen : (2 <= length cluster)%nat) by (simpl; lia).
    destruct (hasImage c && hasHeading c);
      [|destruct (hasSmallImage c && hasHeading c && hasText c);
        [|destruct (hasButtonShape c && (textCount c =? 1)%nat);
          [|destruct ((3 <=? textCount c)%nat && negb (hasImage c)) eqn:E3]]];
      unfold buildClassifiedLayer; simpl;
      repeat match goal with |- _ /\ _ => split end;
      try assumption; try reflexivity; try discriminate; try tauto;
      try (intros; eauto; fail);
      try (split; [intros [x Hx]|]; discriminate);
      try (intros [x Hx]; discriminate);
      try apply Hkids;
      try (split; [reflexivity|intros _; eauto]).
    apply andb_true_iff in E3 as [E3 _]. apply Nat.leb_le in E3.
    rewrite Ht in E3. lia.
Qed.

End InferenceInvariants.

(* ===================================================================== *)
(** ** layerClassifier: what classification changes *)
(* ===================================================================== *)

Module ClassifierFrame.
Import layerClassifier ClassifierSpec CompositionSpec.
Local Open Scope list_scope.

(** Induction on layer trees: a property that holds of a layer whenever it
    holds of all its children holds of every layer. *)
Lemma Node_tree_ind (P : Node -> Prop) :
  (forall layer, Forall P (n_children layer) -> P layer) ->
  forall layer, P layer.
Proof.
  intros H. fix IH 1.
  intros layer. apply H.
  destruct layer as [id name ty vis b children ti hi w bc sd conf lay cd ic slc rp pc].
  simpl. induction children as [|c cs IHcs]; constructor; [apply IH|apply IHcs].
Qed.

Lemma map_ext_Forall {A B : Type} (f g : A -> B) (l : list A) :
  Forall (fun x => f x = g x) l -> List.map f l = List.map g l.
Proof. induction 1 as [|x l E _ IH]; simpl; [reflexivity|now rewrite E, IH]. Qed.

(** X15: classification only writes [widgetType], [badgeClass] and
    [isComposite].  With these three blanked at every depth the classified
    tree is the input tree: ids, names, types, visibility, bounds, text
    styles and the shape of the tree are all kept.  Every layer that is
    returned at the top carries a widget type and the badge of that type. *)
Theorem classification_frame :
  (forall layer : Node, unclassified (classifyLayer layer) = unclassified layer) /\
  (forall layers : list Node,
     List.map unclassified (classifyLayers layers) = List.map unclassified layers /\
     length (classifyLayers layers) = length layers /\
     Forall (fun c => exists w, n_widgetType c = Some w /\
                                n_badgeClass c = Some (BADGE_CLASSES w))
            (classifyLayers layers)).
Proof.
  assert (Hframe : forall layer,
            unclassified (classifyLayer layer) = unclassified layer).
  { apply Node_tree_ind.
    intros [id name ty vis b children ti hi w bc sd conf lay cd ic slc rp pc] IH.
    cbn [n_children] in IH. cbn [classifyLayer].
    assert (Ekids : List.map unclassified (List.map classifyLayer children)
                    = List.map unclassified children).
    { rewrite map_map. now apply map_ext_Forall. }
    destruct children as [|c cs]; [reflexivity|].
    destruct (existsb _ COMPOSITE_WIDGETS); [reflexivity|].
    destruct (detectCompositeWidget _);
      [destruct (bool_decide _)|]; cbn [unclassified]; now rewrite Ekids. }
  split; [exact Hframe|].
  intros layers. unfold classifyLayers. repeat split.
  - rewrite map_map. apply map_ext_Forall, Forall_forall. intros l _. apply Hframe.
  - apply length_map.
  - apply Forall_fmap, Forall_forall. intros l _. unfold compose.
    destruct l as [id name ty vis b children ti hi w bc sd conf lay cd ic slc rp pc].
    cbn [classifyLayer].
    destruct children as [|c cs]; [simpl; eauto|].
    destruct (existsb _ COMPOSITE_WIDGETS); [simpl; eauto|].
    destruct (detectCompositeWidget _);
      [destruct (bool_decide _)|]; simpl; eauto.
Qed.

Lemma detectCompositeWidget_Some (children : list Node) (ct : WidgetType) :
  detectCompositeWidget children = Some ct ->
  composite ct = true /\
  existsb isComplexWidget (List.map n_widgetType children) = false /\
  (ct = WImageBox ->
   (exists c, c ∈ children /\ n_widgetType c = Some WImage) /\
   (exists c, c ∈ children /\ n_widgetType c = Some WHeading)).
Proof.
  unfold detectCompositeWidget. destruct children as [|c0 cs]; [discriminate|].
  set (children := c0 :: cs). set (types := List.map n_widgetType children).
  destruct (existsb isComplexWidget types) eqn:Ec; [discriminate|].
  assert (Hin : forall w, includesType types w = true ->
                          exists c, c ∈ children /\ n_widgetType c = Some w).
  { intros w Hw. unfold includesType in Hw.
    apply existsb_exists in Hw as (t & Ht & Hb).
    apply bool_decide_eq_true in Hb. subst t.
    apply in_map_iff in Ht as (c & Hc & Hin). exists c.
    split; [now apply list_elem_of_In|assumption]. }
  destruct (includesType types WImage && includesType types WHeading) eqn:Eih.
  - intros [= <-]. apply andb_true_iff in Eih as [Hi Hh].
    split; [reflexivity|]. split; [reflexivity|].
    intros _. split; now apply Hin.
  - destruct (_ && negb _);
      [intros [= <-]; split; [reflexivity|split; [reflexivity|discriminate]]|].
    destruct (_ && _ && negb _);
      [intros [= <-]; split; [reflexivity|split; [reflexivity|discriminate]]|].
    discriminate.
Qed.

Lemma not_complex_simple (w : WidgetType) :
  isComplexWidget (Some w) = false -> simple (Some w).
Proof. unfold simple. destruct w; simpl; try discriminate; auto. Qed.

(** X16: which groups are marked composite.  A layer that was not marked
    before is marked by [classifyLayer] only if its own name and kind made it
    a container, it has children, its new widget type is image-box, icon-box
    or icon-list, and every one of its classified children is an image, a
    heading or a text -- an image-box has at least one image and one heading
    among them.  A layer whose name alone makes it an image-box, icon-box or
    icon-list keeps its mark and its children as they were: the children are
    not classified. *)
Theorem composite_marking (layer : Node) :
  (n_isComposite layer = false ->
   n_isComposite (classifyLayer layer) = true ->
   determineWidgetType layer = WContainer /\
   n_children layer <> [] /\
   n_children (classifyLayer layer) = List.map classifyLayer (n_children layer) /\
   Forall (fun c => simple (n_widgetType c)) (n_children (classifyLayer layer)) /\
   exists w, n_widgetType (classifyLayer layer) = Some w /\
             composite w = true /\
             (w = WImageBox ->
              (exists c, c ∈ n_children (classifyLayer layer) /\
                         n_widgetType c = Some WImage) /\
              (exists c, c ∈ n_children (classifyLayer layer) /\
                         n_widgetType c = Some WHeading))) /\
  (composite (determineWidgetType layer) = true ->
   n_isComposite (classifyLayer layer) = n_isComposite layer /\
   n_children (classifyLayer layer) = n_children layer /\
   n_widgetType (classifyLayer layer) = Some (determineWidgetType layer)).
Proof.
  assert (Hcw : forall w, existsb (fun c => bool_decide (c = w)) COMPOSITE_WIDGETS
                          = composite w).
  { intros w. destruct w; reflexivity. }
  destruct layer as [id name ty vis b children ti hi w0 bc sd conf lay cd ic slc rp pc].
  split.
  - cbn [n_isComposite n_children classifyLayer]. intros -> Hc. revert Hc.
    destruct children as [|c cs]; [discriminate|].
    rewrite Hcw.
    destruct (composite (determineWidgetType _)) eqn:Ecomp; [discriminate|].
    destruct (detectCompositeWidget _) as [ct|] eqn:Ed; [|discriminate].
    destruct (bool_decide_reflect
                (determineWidgetType
                   (mkNode id name ty vis b (c :: cs) ti hi w0 bc sd conf lay cd
                           false slc rp pc) = WContainer))
      as [Ew|Ew]; [|discriminate].
    intros _.
    destruct (detectCompositeWidget_Some _ _ Ed) as (Hct & Hcomplex & Hbox).
    cbn [n_children n_widgetType].
    split; [exact Ew|]. split; [discriminate|]. split; [reflexivity|].
    split.
    + apply Forall_forall. intros x Hx.
      assert (Hx' : In (n_widgetType x)
                       (List.map n_widgetType (List.map classifyLayer (c :: cs)))).
      { apply in_map, list_elem_of_In, Hx. }
      apply list_elem_of_fmap in Hx as (y & -> & _).
      rewrite ClassifierFacts.classifyLayer_widgetType in Hx' |- *.
      apply not_complex_simple.
      destruct (isComplexWidget _) eqn:E; [|reflexivity].
      rewrite <- Hcomplex. symmetry. apply existsb_exists. eauto.
    + exists ct. split; [reflexivity|]. split; [exact Hct|exact Hbox].
  - intros Hcomp. cbn [n_isComposite n_children n_widgetType classifyLayer].
    rewrite Hcw, Hcomp.
    destruct children; repeat split.
Qed.

Lemma composite_marking_witness :
  n_isComposite (classifyLayer Samples.textsGroup) = true /\
  Forall (fun c => simple (n_widgetType c))
         (n_children (classifyLayer Samples.textsGroup)).
Proof.
  assert (H : n_isComposite (classifyLayer Samples.textsGroup) = true)
    by reflexivity.
  split; [exact H|].
  destruct (proj1 (composite_marking Samples.textsGroup) eq_refl H)
    as (_ & _ & _ & Hs & _).
  exact Hs.
Defined.

Lemma lower_ascii_idempotent (c : ascii) :
  JS.lower_ascii (JS.lower_ascii c) = JS.lower_ascii c.
Proof. destruct c as [[] [] [] [] [] [] [] []]; vm_compute; reflexivity. Qed.

Lemma toLowerCase_idempotent (s : string) :
  JS.toLowerCase (JS.toLowerCase s) = JS.toLowerCase s.
Proof.
  induction s as [|c s IH]; simpl; [reflexivity|].
  now rewrite lower_ascii_idempotent, IH.
Qed.

(** X17: the text pattern ends with a bare [p], so every name that begins
    with p or P is decided by name alone, whatever the kind of the layer: it
    is a text-editor -- unless the name begins with "product", which makes it
    an image-box.  The alternatives photo, picture and pic of the image
    pattern therefore never decide: an image layer named "photo" is a
    text-editor. *)
Theorem names_beginning_with_p (layer : Node) :
  String.prefix "p" (JS.toLowerCase (n_name layer)) = true ->
  determineWidgetType layer
  = (if String.prefix "product" (JS.toLowerCase (n_name layer))
     then WImageBox else WTextEditor) /\
  determineWidgetType layer <> WImage.
Proof.
  intros Hp.
  assert (E : determineWidgetType layer
              = if String.prefix "product" (JS.toLowerCase (n_name layer))
                then WImageBox else WTextEditor).
  { unfold determineWidgetType, JS.test_prefix_ci.
    rewrite toLowerCase_idempotent.
    destruct (JS.toLowerCase (n_name layer)) as [|a rest];
      cbn [String.prefix] in Hp; [discriminate|].
    destruct (ascii_dec "p" a) as [<-|]; [|discriminate].
    cbn [existsb PATTERNS.button PATTERNS.heading PATTERNS.iconBox
         PATTERNS.imageBox PATTERNS.iconList PATTERNS.text].
    assert (Hpre : forall (c : ascii) (alt : string),
              String.prefix (String c alt) (String "p" rest)
              = if Ascii.eqb c "p" then String.prefix alt rest else false).
    { intros c alt. cbn [String.prefix].
      destruct (ascii_dec c "p") as [->|Hc]; [reflexivity|].
      apply Ascii.eqb_neq in Hc. now rewrite Hc. }
    rewrite !Hpre.
    set (pr := String.prefix "roduct" rest).
    set (pa := String.prefix "aragraph" rest).
    simpl. rewrite ?Hp. destruct pr, pa; reflexivity. }
  split; [exact E|]. rewrite E.
  destruct (String.prefix "product" _); discriminate.
Qed.

Lemma names_beginning_with_p_witness :
  determineWidgetType
    (layer "i7" "Photo_1" TImage true Samples.rectA [] None true)
  = WTextEditor.
Proof.
  apply (names_beginning_with_p
           (layer "i7" "Photo_1" TImage true Samples.rectA [] None true)).
  reflexivity.
Defined.

End ClassifierFrame.

(* ===================================================================== *)
(** ** RawPSDAdapter: flattening and filtering *)
(* ===================================================================== *)

Module FlattenFacts.
Import RawPSDAdapter TreeSpec.
Local Open Scope list_scope.

Lemma flattenLayer_unfold (n : Node) :
  flattenLayer n = match n_children n with
                   | [] => [n]
                   | _ => flat_map flattenLayer (n_children n)
                   end.
Proof. now destruct n. Qed.

Lemma elem_of_flat_map {A B : Type} (f : A -> list B) (l : list A) (y : B) :
  y ∈ flat_map f l <-> exists x, x ∈ l /\ y ∈ f x.
Proof.
  rewrite list_elem_of_In, in_flat_map. split.
  - intros (x & Hx & Hy). exists x. now rewrite !list_elem_of_In.
  - intros (x & Hx & Hy). exists x. now rewrite <- !list_elem_of_In.
Qed.

Lemma elem_of_flattenLayer (x n : Node) :
  x ∈ flattenLayer n <-> leaf x /\ in_tree x n.
Proof.
  revert n. apply (ClassifierFrame.Node_tree_ind
                     (fun n => x ∈ flattenLayer n <-> leaf x /\ in_tree x n)).
  intros n IH. rewrite flattenLayer_unfold. split.
  - destruct (n_children n) as [|c cs] eqn:E.
    + intros ->%list_elem_of_singleton. split; [exact E|constructor].
    + intros (c' & Hc' & Hx)%elem_of_flat_map.
      rewrite Forall_forall in IH.
      destruct (proj1 (IH c' Hc') Hx) as [Hl Ht].
      split; [exact Hl|]. apply (in_tree_below x c' n); [now rewrite E|exact Ht].
  - intros [Hl Ht]. destruct Ht as [|c n Hc Ht].
    + unfold leaf in Hl. rewrite Hl. constructor.
    + rewrite Forall_forall in IH.
      destruct (n_children n) as [|c0 cs] eqn:E; [now apply elem_of_nil in Hc|].
      apply elem_of_flat_map. exists c. split; [exact Hc|].
      apply IH; [exact Hc|]. now split.
Qed.

Lemma flattenLayers_of_leaves (layers : list Node) :
  Forall leaf layers -> flattenLayers layers = layers.
Proof.
  unfold flattenLayers.
  induction 1 as [|l layers Hl _ IH]; simpl; [reflexivity|].
  rewrite flattenLayer_unfold, Hl, IH. reflexivity.
Qed.

Lemma flattenLayers_leaf (layers : list Node) :
  Forall leaf (flattenLayers layers).
Proof.
  apply Forall_forall. intros x (n & _ & Hx)%elem_of_flat_map.
  now apply elem_of_flattenLayer in Hx as [Hl _].
Qed.

(** X18: [flattenLayers] returns exactly the leaves of the layer trees.  A
    layer is returned when, and only when, it has no children and is one of
    the given layers or lies below one; a group with children is never
    returned, a group without children is.  A list of leaves is returned
    unchanged, so flattening twice is flattening once. *)
Theorem flattenLayers_leaves (layers : list Node) :
  (forall x, x ∈ flattenLayers layers <->
             leaf x /\ exists root, root ∈ layers /\ in_tree x root) /\
  (Forall leaf layers -> flattenLayers layers = layers) /\
  flattenLayers (flattenLayers layers) = flattenLayers layers.
Proof.
  repeat match goal with |- _ /\ _ => split end.
  - intros x. unfold flattenLayers. rewrite elem_of_flat_map. split.
    + intros (n & Hn & Hx). apply elem_of_flattenLayer in Hx as [Hl Ht]. eauto.
    + intros (Hl & n & Hn & Ht). exists n. split; [exact Hn|].
      now apply elem_of_flattenLayer.
  - apply flattenLayers_of_leaves.
  - apply flattenLayers_of_leaves, flattenLayers_leaf.
Qed.

Lemma flattenLayers_leaves_witness :
  flattenLayers [Samples.photo; Samples.heading28]
  = [Samples.photo; Samples.heading28].
Proof.
  refine (proj1 (proj2 (flattenLayers_leaves
                          [Samples.photo; Samples.heading28])) _).
  repeat constructor.
Defined.

Lemma filterValidLayers_leaves (layers : list Node) :
  Forall leaf layers -> Forall leaf (filterValidLayers layers).
Proof.
  intros H. apply Forall_forall. intros x Hx.
  apply list_elem_of_In, filter_In in Hx as [Hx _].
  rewrite Forall_forall in H. now apply H, list_elem_of_In.
Qed.

(** X19: the orchestrator looks only at the visible leaves of positive
    stored size.  Running it on the layer trees and running it on the list
    of their valid leaves give the same result, identifiers included: groups,
    hidden layers and empty layers never influence what is built. *)
Theorem processLayers_sees_valid_leaves (randomId : nat -> string)
    (layers : list Node) (canvasWidth : num) (k : nat) :
  processLayers randomId layers canvasWidth k
  = processLayers randomId (filterValidLayers (flattenLayers layers))
                  canvasWidth k.
Proof.
  set (valid := filterValidLayers (flattenLayers layers)).
  assert (Hflat : flattenLayers valid = valid).
  { apply flattenLayers_of_leaves, filterValidLayers_leaves, flattenLayers_leaf. }
  assert (Hvalid : filterValidLayers valid = valid).
  { apply FlexFacts.filter_idempotent. }
  unfold processLayers. rewrite Hflat, Hvalid. subst valid.
  destruct (flattenLayers layers) as [|l ls]; [reflexivity|].
  destruct (filterValidLayers (l :: ls)); reflexivity.
Qed.

End FlattenFacts.

(* ===================================================================== *)
(** ** RawPSDAdapter: what holds of every node of the tree *)
(* ===================================================================== *)

Module TreeInvariants.
Import RawPSDAdapter AdapterSpec TreeSpec.
Local Open Scope list_scope.

Lemma everywhere_impl (P Q : Node -> Prop) (n : Node) :
  (forall x, P x -> Q x) -> everywhere P n -> everywhere Q n.
Proof. intros H. induction 1 as [n Hn _ IH]. constructor; auto. Qed.

(** What a successful [mapM] says of its results, element by element. *)
Lemma mapM_Forall2 {A B : Type} (f : A -> M B) (R : A -> B -> Prop)
    (l : list A) :
  (forall x k y k', x ∈ l -> f x k = JS.Ok (y, k') -> R x y) ->
  forall k ys k', mapM f l k = JS.Ok (ys, k') -> Forall2 R l ys.
Proof.
  induction l as [|x l IH]; intros Hf k ys k'; simpl.
  - unfold ret. intros [= <- _]. constructor.
  - unfold bindM at 1.
    destruct (f x k) as [[y k1]| |] eqn:E1; try discriminate.
    unfold bindM at 1.
    destruct (mapM f l k1) as [[ys' k2]| |] eqn:E2; try discriminate.
    unfold ret. intros [= <- _]. constructor.
    + apply (Hf x k y k1); [apply elem_of_cons; now left|exact E1].
    + apply (IH (fun z k0 y0 k0' Hz => Hf z k0 y0 k0' ltac:(apply elem_of_cons; now right))
                k1 ys' k2 E2).
Qed.

Lemma Forall2_right {A B : Type} (R : A -> B -> Prop) (l : list A)
    (ys : list B) (y : B) :
  Forall2 R l ys -> y ∈ ys -> exists x, x ∈ l /\ R x y.
Proof.
  induction 1 as [|x y' l ys Hxy _ IH]; intros Hy.
  - now apply elem_of_nil in Hy.
  - apply elem_of_cons in Hy as [->|Hy].
    + exists x. split; [constructor|exact Hxy].
    + destruct (IH Hy) as (x' & Hx' & HR). exists x'.
      split; [now constructor|exact HR].
Qed.

Section Source.
Variable randomId : nat -> string.
Variable source : list Node.
Hypothesis source_valid :
  forall l, l ∈ source -> leaf l /\ n_visible l = true.

Lemma from_source_not_NaN (cluster : list Node) :
  (forall l, l ∈ cluster -> l ∈ source) ->
  Forall (fun l => edges_not_NaN (n_bounds l)) source ->
  Forall (fun l => edges_not_NaN (n_bounds l)) cluster.
Proof.
  intros Hsub Hall. apply Forall_forall. intros l Hl.
  rewrite Forall_forall in Hall. auto.
Qed.

Lemma compositeChild_sound (l : Node) :
  l ∈ source ->
  everywhere (sound source) (StructureInferenceEngine.compositeChild l).
Proof using source_valid.
  intros Hl. destruct (source_valid l Hl) as [Hleaf Hvis].
  unfold leaf in Hleaf.
  constructor.
  - split; [split; simpl; eauto|]. split; [exact Hvis|].
    intros _ c Hc. simpl in Hc. rewrite Hleaf in Hc. now apply elem_of_nil in Hc.
  - intros c Hc. simpl in Hc. rewrite Hleaf in Hc. now apply elem_of_nil in Hc.
Qed.

Lemma buildWidgetFromLayer_spec (l : Node)
    (inference : StructureInferenceEngine.Inference) (k : nat) (c : Node)
    (k' : nat) :
  buildWidgetFromLayer randomId l inference k = JS.Ok (c, k') ->
  n_bounds c = n_bounds l /\ n_visible c = n_visible l /\ typed c /\
  n_children c = [].
Proof.
  unfold buildWidgetFromLayer, bindM, generateId, ret.
  destruct (n_id l); intros [= <- _]; repeat split; simpl; eauto.
Qed.

Lemma built_element_sound (cluster : list Node) (newId badge : string)
    (children : list Node) :
  cluster <> [] ->
  (forall l, l ∈ cluster -> l ∈ source) ->
  (forall c, c ∈ children ->
     everywhere (sound source) c /\
     (Forall (fun l => edges_not_NaN (n_bounds l)) source ->
      within (n_bounds c)
             (SpatialClusteringHelper.calculateClusterBounds cluster))) ->
  let element :=
    StructureInferenceEngine.buildClassifiedLayer newId
      (StructureInferenceEngine.inferWidgetType cluster)
      (SpatialClusteringHelper.calculateClusterBounds cluster) in
  everywhere (sound source)
             (with_badgeClass (with_children element children) badge).
Proof.
  intros Hne Hsub Hkids element. constructor.
  - split; [split; simpl; eauto|]. split; [reflexivity|].
    intros Hall c Hc. simpl in Hc |- *. now apply Hkids.
  - intros c Hc. simpl in Hc. now apply Hkids.
Qed.

Lemma with_children_self (element : Node) :
  with_children element (n_children element) = element.
Proof. now destruct element. Qed.

Lemma element_children (cluster : list Node) (newId : string) (b : Bounds)
    (c : Node) :
  c ∈ n_children
        (StructureInferenceEngine.buildClassifiedLayer newId
           (StructureInferenceEngine.inferWidgetType cluster) b) ->
  exists l, l ∈ cluster /\ c = StructureInferenceEngine.compositeChild l.
Proof.
  unfold StructureInferenceEngine.buildClassifiedLayer. simpl.
  rewrite InferenceInvariants.inferWidgetType_layers.
  destruct (StructureInferenceEngine.compositeData _).
  - intros (l & -> & Hl)%list_elem_of_fmap. eauto.
  - intros H. now apply elem_of_nil in H.
Qed.

(** One level of [processCluster], given what the calls on the
    sub-clusters return. *)
Lemma processCluster_sound_step (fuel : nat) :
  (forall fuel', fuel = S fuel' ->
   forall (cluster : list Node) (k : nat) (e : Node) (k' : nat),
     cluster <> [] ->
     (forall l, l ∈ cluster -> l ∈ source) ->
     processCluster randomId fuel' cluster k = JS.Ok (e, k') ->
     n_bounds e = SpatialClusteringHelper.calculateClusterBounds cluster /\
     everywhere (sound source) e) ->
  forall (cluster : list Node) (k : nat) (e : Node) (k' : nat),
    cluster <> [] ->
    (forall l, l ∈ cluster -> l ∈ source) ->
    processCluster randomId fuel cluster k = JS.Ok (e, k') ->
    n_bounds e = SpatialClusteringHelper.calculateClusterBounds cluster /\
    everywhere (sound source) e.
Proof using source_valid.
  intros IH cluster k e k' Hne Hsub.
  rewrite TreeFacts.processCluster_unfold. cbv zeta.
  set (element := StructureInferenceEngine.buildClassifiedLayer _ _ _).
  destruct (bool_decide _ && (1 <? length cluster)%nat) eqn:Hc.
  - destruct (Partition.clusterByProximity_inv cluster
                (JS.mul CONFIG.PROXIMITY_THRESHOLD (JS.Num 0.6)))
      as (subs & Es & [Hv Hnd Hall Hdone Hnonempty Hch Hcl]).
    fold (subClusterLayers cluster) in Es. rewrite Es.
    destruct (1 <? length subs)%nat eqn:Hs.
    + destruct fuel as [|fuel']; [unfold bindM; discriminate|].
      unfold bindM at 1. unfold bindM at 1.
      destruct (mapM (processCluster randomId fuel') subs (S k))
        as [[cs k1]| |] eqn:Ecs; try discriminate.
      assert (Hsubs : forall sub, sub ∈ subs ->
                sub <> [] /\ forall l, l ∈ sub -> l ∈ cluster).
      { intros sub Hsub'. split; [now apply Hnonempty|].
        intros l Hl. apply Hall, Partition.elem_of_concat. eauto. }
      pose proof (mapM_Forall2 (processCluster randomId fuel')
                    (fun sub c =>
                       n_bounds c
                       = SpatialClusteringHelper.calculateClusterBounds sub /\
                       everywhere (sound source) c)
                    subs
                    (fun sub k0 y k0' Hin E =>
                       IH fuel' eq_refl sub k0 y k0' (proj1 (Hsubs sub Hin))
                          (fun l Hl => Hsub l (proj2 (Hsubs sub Hin) l Hl)) E)
                    _ _ _ Ecs) as Hcs.
      unfold ret. intros [= <- _]. split; [reflexivity|].
      apply built_element_sound; [assumption..|].
      intros c Hcin.
      destruct (Forall2_right _ _ _ _ Hcs Hcin) as (sub & Hin & Eb & Hev).
      split; [exact Hev|].
      intros Hnn. rewrite Eb.
      apply BoxFacts.calculateClusterBounds_mono;
        [apply Hsubs, Hin|apply Hsubs, Hin|now apply from_source_not_NaN].
    + unfold bindM at 1. unfold bindM at 1.
      set (f := fun layer : Node =>
                  buildWidgetFromLayer randomId layer
                    (StructureInferenceEngine.inferWidgetType [layer])).
      destruct (mapM f cluster (S k)) as [[cs k1]| |] eqn:Ecs;
        try discriminate.
      pose proof (mapM_Forall2 f
                    (fun l c => n_bounds c = n_bounds l /\
                                n_visible c = n_visible l /\
                                typed c /\ n_children c = [])
                    cluster
                    (fun x k0 y k0' _ E =>
                       buildWidgetFromLayer_spec x _ k0 y k0' E)
                    _ _ _ Ecs) as Hcs.
      unfold ret. intros [= <- _]. split; [reflexivity|].
      apply built_element_sound; [assumption..|].
      intros c Hcin.
      destruct (Forall2_right _ _ _ _ Hcs Hcin)
        as (l & Hl & Eb & Ev & Ht & Ek).
      split.
      * constructor.
        -- split; [exact Ht|]. split.
           ++ rewrite Ev. apply (source_valid l (Hsub l Hl)).
           ++ intros _ c' Hc'. rewrite Ek in Hc'. now apply elem_of_nil in Hc'.
        -- intros c' Hc'. rewrite Ek in Hc'. now apply elem_of_nil in Hc'.
      * intros Hnn. rewrite Eb.
        apply BoxFacts.calculateClusterBounds_within;
          [now apply from_source_not_NaN|exact Hl].
  - unfold bindM, ret. intros [= <- _]. split; [reflexivity|].
    rewrite <- (with_children_self element).
    apply built_element_sound; [assumption..|].
    intros c (l & Hl & ->)%element_children. split.
    + apply compositeChild_sound. auto.
    + intros Hnn. apply (BoxFacts.calculateClusterBounds_within cluster l);
        [now apply from_source_not_NaN|exact Hl].
Qed.

(** Every element [processCluster] returns is sound at every depth, and its
    box is the box of the cluster. *)
Lemma processCluster_sound (fuel : nat) :
  forall (cluster : list Node) (k : nat) (e : Node) (k' : nat),
    cluster <> [] ->
    (forall l, l ∈ cluster -> l ∈ source) ->
    processCluster randomId fuel cluster k = JS.Ok (e, k') ->
    n_bounds e = SpatialClusteringHelper.calculateClusterBounds cluster /\
    everywhere (sound source) e.
Proof using source_valid.
  induction fuel as [|fuel IH]; apply processCluster_sound_step.
  - discriminate.
  - intros fuel' [= <-]. exact IH.
Qed.

Lemma flat_of_clusters (clusters : list (list Node)) :
  flat (List.map ClusterItem clusters) = concat clusters.
Proof.
  unfold flat. induction clusters as [|c cs IH]; simpl; [reflexivity|].
  now rewrite IH.
Qed.

Lemma processCluster_item_sound (clusters : list (list Node)) :
  (forall c, c ∈ clusters -> c <> [] /\ forall l, l ∈ c -> l ∈ source) ->
  forall (it : RowItem) (k : nat) (e : Node) (k' : nat),
    it ∈ List.map ClusterItem clusters ->
    processCluster_item randomId it k = JS.Ok (e, k') ->
    exists c, c ∈ clusters /\
              n_bounds e = SpatialClusteringHelper.calculateClusterBounds c /\
              everywhere (sound source) e.
Proof using source_valid.
  intros Hcl it k e k' (c & -> & Hc)%list_elem_of_fmap E. simpl in E.
  exists c. split; [exact Hc|].
  destruct (Hcl c Hc) as [Hne Hsub].
  now apply (processCluster_sound (length c) c k e k').
Qed.

Lemma concat_not_nil (clusters : list (list Node)) :
  clusters <> [] -> (forall c, c ∈ clusters -> c <> []) -> concat clusters <> [].
Proof.
  destruct clusters as [|c cs]; [congruence|]. intros _ H.
  specialize (H c ltac:(constructor)). simpl. now destruct c.
Qed.

Lemma createRowContainer_sound (clusters : list (list Node)) (k : nat)
    (e : Node) (k' : nat) :
  clusters <> [] ->
  (forall c, c ∈ clusters -> c <> [] /\ forall l, l ∈ c -> l ∈ source) ->
  createRowContainer randomId (List.map ClusterItem clusters) k = JS.Ok (e, k') ->
  n_bounds e = SpatialClusteringHelper.calculateClusterBounds (concat clusters) /\
  everywhere (sound source) e.
Proof using source_valid.
  intros Hne Hcl. unfold createRowContainer.
  unfold bindM at 1, lift.
  destruct (StructureInferenceEngine.detectRepeatingPatterns _) as [p| |];
    try discriminate.
  unfold bindM at 1, generateId. unfold bindM at 1.
  destruct (mapM (processCluster_item randomId) (List.map ClusterItem clusters)
                 (S k)) as [[cs k1]| |] eqn:Ecs; try discriminate.
  pose proof (mapM_Forall2 (processCluster_item randomId)
                (fun it c =>
                   it ∈ List.map ClusterItem clusters /\
                   exists cl, cl ∈ clusters /\
                     n_bounds c
                     = SpatialClusteringHelper.calculateClusterBounds cl /\
                     everywhere (sound source) c)
                (List.map ClusterItem clusters)
                (fun it k0 y k0' Hin E =>
                   conj Hin (processCluster_item_sound clusters Hcl it k0 y k0'
                               Hin E))
                _ _ _ Ecs) as Hcs.
  unfold ret. intros [= <- _]. rewrite flat_of_clusters.
  split; [reflexivity|]. constructor.
  - split; [split; simpl; eauto|]. split; [reflexivity|].
    intros Hnn c Hc. simpl in Hc |- *.
    destruct (Forall2_right _ _ _ _ Hcs Hc) as (it & _ & _ & cl & Hcl' & Eb & _).
    rewrite Eb.
    apply BoxFacts.calculateClusterBounds_mono.
    + apply Hcl, Hcl'.
    + intros l Hl. apply Partition.elem_of_concat. eauto.
    + apply from_source_not_NaN; [|exact Hnn].
      intros l (c0 & Hc0 & Hl)%Partition.elem_of_concat.
      now apply (Hcl c0 Hc0).
  - intros c Hc. simpl in Hc.
    destruct (Forall2_right _ _ _ _ Hcs Hc) as (it & _ & _ & cl & _ & _ & Hev).
    exact Hev.
Qed.

(** The row pass: every result is sound at every depth, and no edge of its
    box is NaN when no edge of a source layer is. *)
Lemma rowPass_sound (rows : list (list (list Node))) :
  (forall row, row ∈ rows ->
   forall c, c ∈ row -> c <> [] /\ forall l, l ∈ c -> l ∈ source) ->
  forall (k : nat) (result : list Node) (k' : nat),
    rowPass randomId (List.map (List.map ClusterItem) rows) k
    = JS.Ok (result, k') ->
    Forall (fun e => everywhere (sound source) e /\
                     (Forall (fun l => edges_not_NaN (n_bounds l)) source ->
                      edges_not_NaN (n_bounds e)))
           result.
Proof using source_valid.
  induction rows as [|row rows IH]; intros Hrows k result k'.
  - simpl. unfold ret. intros [= <- _]. constructor.
  - assert (Hrow : forall c, c ∈ row ->
                     c <> [] /\ forall l, l ∈ c -> l ∈ source).
    { apply Hrows. constructor. }
    assert (Hrest : forall row', row' ∈ rows ->
              forall c, c ∈ row' -> c <> [] /\ forall l, l ∈ c -> l ∈ source).
    { intros row' Hin. apply Hrows. now constructor. }
    destruct row as [|c [|c2 r]].
    + simpl. apply IH. exact Hrest.
    + cbn [List.map rowPass]. unfold bindM at 1.
      destruct (processCluster_item randomId (ClusterItem c) k)
        as [[e k1]| |] eqn:Ee; try discriminate.
      unfold bindM at 1.
      destruct (rowPass randomId (List.map (List.map ClusterItem) rows) k1)
        as [[res k2]| |] eqn:Er; try discriminate.
      unfold ret. intros [= <- _]. constructor; [|now apply (IH Hrest k1 res k2)].
      destruct (Hrow c ltac:(constructor)) as [Hne Hsub].
      simpl in Ee.
      destruct (processCluster_sound (length c) c k e k1 Hne Hsub Ee) as [Eb Hev].
      split; [exact Hev|]. intros Hnn. rewrite Eb.
      apply BoxFacts.calculateClusterBounds_not_NaN; [exact Hne|].
      now apply from_source_not_NaN.
    + change (List.map (List.map ClusterItem) ((c :: c2 :: r) :: rows))
        with ((ClusterItem c :: ClusterItem c2 :: List.map ClusterItem r)
                :: List.map (List.map ClusterItem) rows).
      cbn [rowPass]. unfold bindM at 1.
      change (ClusterItem c :: ClusterItem c2 :: List.map ClusterItem r)
        with (List.map ClusterItem (c :: c2 :: r)).
      destruct (createRowContainer randomId (List.map ClusterItem (c :: c2 :: r)) k)
        as [[e k1]| |] eqn:Ee; try discriminate.
      unfold bindM at 1.
      destruct (rowPass randomId (List.map (List.map ClusterItem) rows) k1)
        as [[res k2]| |] eqn:Er; try discriminate.
      unfold ret. intros [= <- _]. constructor; [|now apply (IH Hrest k1 res k2)].
      destruct (createRowContainer_sound (c :: c2 :: r) k e k1
                  ltac:(discriminate) Hrow Ee) as [Eb Hev].
      split; [exact Hev|]. intros Hnn. rewrite Eb.
      apply BoxFacts.calculateClusterBounds_not_NaN.
      * apply concat_not_nil; [discriminate|]. intros c0 Hc0. now apply Hrow.
      * apply from_source_not_NaN; [|exact Hnn].
        intros l (c0 & Hc0 & Hl)%Partition.elem_of_concat.
        now apply (Hrow c0 Hc0).
Qed.

Lemma buildTree_sound (rows : list (list (list Node))) (canvasWidth : num)
    (k : nat) (result : list Node) (k' : nat) :
  (forall row, row ∈ rows ->
   forall c, c ∈ row -> c <> [] /\ forall l, l ∈ c -> l ∈ source) ->
  buildTree randomId (List.map (List.map ClusterItem) rows) canvasWidth k
  = JS.Ok (result, k') ->
  Forall (everywhere (sound source)) result.
Proof using source_valid.
  intros Hrows. unfold buildTree. unfold bindM at 1.
  destruct (rowPass randomId (List.map (List.map ClusterItem) rows) k)
    as [[res k1]| |] eqn:Er; try discriminate.
  pose proof (rowPass_sound rows Hrows k res k1 Er) as Hres.
  assert (Hev : Forall (everywhere (sound source)) res).
  { eapply Forall_impl; [exact Hres|]. now intros e [He _]. }
  destruct res as [|e1 [|e2 rest]].
  - unfold ret. intros [= <- _]. constructor.
  - unfold ret. intros [= <- _]. exact Hev.
  - unfold createColumnContainer, bindM, generateId, ret.
    intros [= <- _]. constructor; [|constructor].
    constructor.
    + split; [split; simpl; eauto|]. split; [reflexivity|].
      intros Hnn c Hc. simpl in Hc |- *.
      apply TreeFacts.union_bounds_within; [|exact Hc].
      eapply Forall_impl; [exact Hres|]. intros e [_ He]. now apply He.
    + intros c Hc. simpl in Hc. rewrite Forall_forall in Hev. now apply Hev.
Qed.

End Source.

Lemma valid_leaves (layers : list Node) (l : Node) :
  l ∈ filterValidLayers (flattenLayers layers) -> leaf l /\ n_visible l = true.
Proof.
  intros Hl. apply list_elem_of_In, filter_In in Hl as [Hl Hv].
  split.
  - pose proof (FlattenFacts.flattenLayers_leaf layers) as H.
    rewrite Forall_forall in H. now apply H, list_elem_of_In.
  - unfold isValidLayer in Hv. now destruct (n_visible l).
Qed.

(** The whole pipeline: whatever [processLayers] returns is sound at every
    depth with respect to the valid leaves of the input. *)
Lemma processLayers_sound (randomId : nat -> string) (layers : list Node)
    (canvasWidth : num) (k : nat) (result : list Node) (k' : nat) :
  processLayers randomId layers canvasWidth k = JS.Ok (result, k') ->
  Forall (everywhere (sound (filterValidLayers (flattenLayers layers)))) result.
Proof.
  unfold processLayers.
  destruct (flattenLayers layers) as [|l0 ls] eqn:Ef;
    [unfold ret; intros [= <- _]; constructor|].
  rewrite <- Ef. set (valid := filterValidLayers (flattenLayers layers)).
  destruct valid as [|v0 vs] eqn:Ev;
    [unfold ret; intros [= <- _]; constructor|].
  rewrite <- Ev.
  destruct (Partition.clusterByProximity_inv valid CONFIG.PROXIMITY_THRESHOLD)
    as (clusters & Ec & [Hv Hnd Hall Hdone Hnonempty Hch Hcl]).
  rewrite Ec.
  destruct clusters as [|c1 [|c2 rest]].
  - unfold buildTree, bindM, ret. simpl. intros [= <- _]. constructor.
  - assert (Hc1 : c1 <> []) by (apply Hnonempty; constructor).
    destruct c1 as [|x [|y r]]; [congruence| |]; intros E; exfalso; revert E;
      unfold buildTree, bindM; simpl; discriminate.
  - set (clusters := c1 :: c2 :: rest) in *.
    destruct (RowFacts.detectContainerBoundaries_sorted clusters canvasWidth)
      as (sorted & Hp & E); [simpl; lia|].
    rewrite E.
    apply (buildTree_sound randomId valid (valid_leaves layers)).
    intros row Hrow c Hc.
    assert (Hin : c ∈ clusters).
    { rewrite <- Hp, <- (RowFacts.groupIntoRows_concat sorted).
      apply list_elem_of_In, in_concat. exists row.
      split; now apply list_elem_of_In. }
    split; [now apply Hnonempty|].
    intros l Hl. apply Hall, Partition.elem_of_concat. eauto.
Qed.

(** X20: every node of the tree [processLayers] returns carries a widget
    type and a badge class and is visible -- the roots, the synthesized
    containers, the widgets and the children kept under composite
    widgets. *)
Theorem every_node_is_typed (randomId : nat -> string) (layers : list Node)
    (canvasWidth : num) (k : nat) (result : list Node) (k' : nat) :
  processLayers randomId layers canvasWidth k = JS.Ok (result, k') ->
  Forall (everywhere (fun n => typed n /\ n_visible n = true)) result.
Proof.
  intros E. eapply Forall_impl; [exact (processLayers_sound _ _ _ _ _ _ E)|].
  intros e He. eapply everywhere_impl; [|exact He].
  intros x (Ht & Hv & _). now split.
Qed.

Lemma every_node_is_typed_witness :
  exists result k',
    processLayers Samples.randomId [Samples.sectionGroup; Samples.farText]
                  (JS.of_Z 1200) 0 = JS.Ok (result, k') /\
    Forall (everywhere (fun n => typed n /\ n_visible n = true)) result.
Proof.
  eexists _, _. split; [vm_compute; reflexivity|].
  eapply (every_node_is_typed Samples.randomId
            [Samples.sectionGroup; Samples.farText] (JS.of_Z 1200) 0).
  vm_compute; reflexivity.
Defined.

(** X21: boxes nest.  When no edge of a valid leaf is NaN, the box of
    every child lies within the box of its parent at every depth of the tree
    [processLayers] returns: sub-clusters within their cluster, clusters
    within their row, rows within the root. *)
Theorem children_lie_within_parents (randomId : nat -> string)
    (layers : list Node) (canvasWidth : num) (k : nat) (result : list Node)
    (k' : nat) :
  Forall (fun l => edges_not_NaN (n_bounds l))
         (filterValidLayers (flattenLayers layers)) ->
  processLayers randomId layers canvasWidth k = JS.Ok (result, k') ->
  Forall (everywhere encloses_children) result.
Proof.
  intros Hnn E. eapply Forall_impl; [exact (processLayers_sound _ _ _ _ _ _ E)|].
  intros e He. eapply everywhere_impl; [|exact He].
  intros x (_ & _ & Hx). now apply Hx.
Qed.

Lemma children_lie_within_parents_witness :
  exists result k',
    processLayers Samples.randomId [Samples.sectionGroup; Samples.farText]
                  (JS.of_Z 1200) 0 = JS.Ok (result, k') /\
    Forall (everywhere encloses_children) result.
Proof.
  eexists _, _. split; [vm_compute; reflexivity|].
  eapply (children_lie_within_parents Samples.randomId
            [Samples.sectionGroup; Samples.farText] (JS.of_Z 1200) 0).
  - vm_compute. repeat constructor; discriminate.
  - vm_compute; reflexivity.
Defined.

End TreeInvariants.

(* ===================================================================== *)
(** ** elementorGenerator: composite data, and the engine's *)
(* ===================================================================== *)

Module GeneratorFacts.
Import elementorGenerator StructureInferenceEngine.
Local Open Scope list_scope.

Lemma last_of_nonempty {A : Type} (x : A) (l : list A) :
  exists y, List.last (List.map Some (x :: l)) None = Some y.
Proof.
  revert x. induction l as [|z l IH]; intros x; [simpl; eauto|].
  change (List.last (List.map Some (x :: z :: l)) None)
    with (List.last (List.map Some (z :: l)) None).
  apply IH.
Qed.

(** The loop of [extractCompositeData], from any state whose description
    is already set and whose texts so far were not empty. *)
Lemma fold_compositeStep (children : list Node) (data : ChildData) :
  Forall (fun c => n_widgetType c = Some WTextEditor -> textOf c <> "") children ->
  let d := fold_left compositeStep children data in
  let headings :=
    List.filter (fun c => bool_decide (n_widgetType c = Some WHeading)) children in
  let texts :=
    List.map textOf
      (List.filter (fun c => bool_decide (n_widgetType c = Some WTextEditor))
                   children) in
  title d = match List.last (List.map Some headings) None with
            | Some h => textOf h
            | None => title data
            end /\
  (description data <> "" ->
   description d = description data /\ listItems d = listItems data ++ texts) /\
  (description data = "" ->
   match texts with
   | [] => description d = "" /\ listItems d = listItems data
   | t :: ts => description d = t /\ listItems d = listItems data ++ ts
   end).
Proof.
  revert data. induction children as [|c children IH]; intros data Hall.
  - simpl. repeat split; intros; rewrite ?app_nil_r; auto.
  - apply Forall_cons in Hall as [Hc Hall].
    specialize (IH (compositeStep data c) Hall).
    cbv zeta in IH |- *. cbn [fold_left List.filter].
    destruct IH as (IHt & IHset & IHunset).
    set (hs := List.filter
                 (fun c => bool_decide (n_widgetType c = Some WHeading)) children)
      in *.
    set (ts := List.filter
                 (fun c => bool_decide (n_widgetType c = Some WTextEditor)) children)
      in *.
    destruct (decide (n_widgetType c = Some WHeading)) as [Eh|Nh];
      [|destruct (decide (n_widgetType c = Some WTextEditor)) as [Et|Nt]].
    + (* a heading *)
      assert (Es : compositeStep data c
                   = mkChildData (textOf c) (description data) (imageUrl data)
                                 (listItems data))
        by (unfold compositeStep; now rewrite Eh).
      rewrite Es in IHt, IHset, IHunset |- *. cbn [title description listItems] in *.
      rewrite (bool_decide_eq_true_2 _ Eh).
      rewrite bool_decide_eq_false_2 by congruence.
      split; [|split; [exact IHset|exact IHunset]].
      rewrite IHt. cbn [List.map].
      destruct hs as [|h hs']; [reflexivity|]. cbn [List.map].
      change (List.last (Some c :: Some h :: List.map Some hs') None)
        with (List.last (Some h :: List.map Some hs') None).
      destruct (last_of_nonempty h hs') as [y Ey].
      cbn [List.map] in Ey. now rewrite Ey.
    + (* a text *)
      assert (Hne : textOf c <> "") by (apply Hc; exact Et).
      rewrite (bool_decide_eq_true_2 _ Et).
      rewrite bool_decide_eq_false_2 by congruence.
      cbn [List.map].
      destruct (description data) as [|a s] eqn:Ed.
      * assert (Es : compositeStep data c
                     = mkChildData (title data) (textOf c) (imageUrl data)
                                   (listItems data))
          by (unfold compositeStep; now rewrite Et, Ed).
        rewrite Es in IHt, IHset, IHunset |- *. cbn [title description listItems] in *.
        split; [exact IHt|]. split; [congruence|]. intros _.
        destruct (IHset Hne) as [E1 E2]. now split.
      * assert (Es : compositeStep data c
                     = mkChildData (title data) (String a s) (imageUrl data)
                                   (listItems data ++ [textOf c]))
          by (unfold compositeStep; now rewrite Et, Ed).
        rewrite Es in IHt, IHset, IHunset |- *. cbn [title description listItems] in *.
        split; [exact IHt|]. split; [|congruence]. intros _.
        destruct (IHset ltac:(discriminate)) as [E1 E2].
        split; [exact E1|]. now rewrite E2, <- app_assoc.
    + (* anything else *)
      assert (Es : title (compositeStep data c) = title data /\
                   description (compositeStep data c) = description data /\
                   listItems (compositeStep data c) = listItems data).
      { unfold compositeStep.
        destruct (n_widgetType c) as [[]|]; try congruence; repeat split. }
      destruct Es as (E1 & E2 & E3). rewrite E1, E2, E3 in *.
      rewrite !bool_decide_eq_false_2 by assumption.
      split; [exact IHt|]. split; [exact IHset|exact IHunset].
Qed.

(** The engine's lists, as filters of the cluster. *)
Lemma fold_analyzeLayer_lists (cluster : list Node) (c : Composition) :
  headings (fold_left analyzeLayer cluster c)
  = headings c ++
    List.filter (fun l => isTextLayer l
                          && JS.ge (fontSizeOf l) THRESHOLDS.HEADING_FONT_SIZE)
                cluster /\
  texts (fold_left analyzeLayer cluster c)
  = texts c ++
    List.map textOf
      (List.filter (fun l => isTextLayer l
                             && negb (JS.ge (fontSizeOf l)
                                            THRESHOLDS.HEADING_FONT_SIZE))
                   cluster).
Proof.
  revert c. induction cluster as [|l cluster IH]; intros c.
  - simpl. now rewrite !app_nil_r.
  - cbn [fold_left List.filter]. destruct (IH (analyzeLayer c l)) as [E1 E2].
    rewrite E1, E2. unfold analyzeLayer.
    destruct (isTextLayer l); [destruct (JS.ge _ _)|destruct (isImageLayer l)];
      simpl; rewrite <- ?app_assoc; split; reflexivity.
Qed.

Lemma compositeChild_kind (l : Node) :
  bool_decide (n_widgetType (compositeChild l) = Some WHeading)
  = isTextLayer l && JS.ge (fontSizeOf l) THRESHOLDS.HEADING_FONT_SIZE /\
  bool_decide (n_widgetType (compositeChild l) = Some WTextEditor)
  = isTextLayer l && negb (JS.ge (fontSizeOf l) THRESHOLDS.HEADING_FONT_SIZE) /\
  textOf (compositeChild l) = textOf l.
Proof.
  unfold compositeChild, classifySingleLayer. cbn [n_widgetType].
  destruct (isTextLayer l); [destruct (JS.ge _ _)|];
    [| |destruct (isButtonShape l); [|destruct (isImageLayer l)]];
    repeat split.
Qed.

Lemma filter_map_compositeChild (f : Node -> bool) (g : Node -> bool)
    (cluster : list Node) :
  (forall l, f (compositeChild l) = g l) ->
  List.filter f (List.map compositeChild cluster)
  = List.map compositeChild (List.filter g cluster).
Proof.
  intros H. induction cluster as [|l cluster IH]; simpl; [reflexivity|].
  rewrite H. destruct (g l); simpl; now rewrite IH.
Qed.

Lemma last_map_Some {A B : Type} (f : A -> B) (l : list A) :
  List.last (List.map Some (List.map f l)) None
  = option_map f (List.last (List.map Some l) None).
Proof.
  induction l as [|x l IH]; [reflexivity|].
  destruct l as [|y l]; [reflexivity|].
  change (List.last (List.map Some (List.map f (x :: y :: l))) None)
    with (List.last (List.map Some (List.map f (y :: l))) None).
  change (List.last (List.map Some (x :: y :: l)) None)
    with (List.last (List.map Some (y :: l)) None).
  exact IH.
Qed.

(** X22: the generator and the inference engine read a composite widget
    differently.  From the children kept under a composite layer
    [extractCompositeData] takes the title from the last heading, where the
    engine took the first; both take the first body text for the
    description; and the generator lists only the body texts after the
    first, where the engine's icon-list data lists them all -- so an
    icon-list inferred from n body texts is generated with n-1 items.  (The
    body texts are taken to be non-empty.) *)
Theorem composite_data_two_readings (cluster : list Node) :
  let c := analyzeComposition cluster in
  let d := extractCompositeData (List.map compositeChild cluster) in
  Forall (fun t => t <> "") (texts c) ->
  title d = match List.last (List.map Some (headings c)) None with
            | Some h => textOf h
            | None => ""
            end /\
  titleOf c = match headings c with
              | h :: _ => textOf h
              | [] => ""
              end /\
  description d = descriptionOf c /\
  listItems d = List.tl (texts c) /\
  imageUrl d = "".
Proof.
  cbv zeta. intros Hne.
  destruct (fold_analyzeLayer_lists cluster emptyComposition) as [Eh Et].
  fold (analyzeComposition cluster) in Eh, Et. simpl in Eh, Et.
  set (kids := List.map compositeChild cluster).
  assert (Hheads :
    List.filter (fun c => bool_decide (n_widgetType c = Some WHeading)) kids
    = List.map compositeChild (headings (analyzeComposition cluster))).
  { rewrite Eh. apply filter_map_compositeChild.
    intros l. apply compositeChild_kind. }
  assert (Htexts :
    List.map textOf
      (List.filter (fun c => bool_decide (n_widgetType c = Some WTextEditor)) kids)
    = texts (analyzeComposition cluster)).
  { rewrite Et. unfold kids.
    rewrite (filter_map_compositeChild _
               (fun l => isTextLayer l
                         && negb (JS.ge (fontSizeOf l) THRESHOLDS.HEADING_FONT_SIZE)))
      by (intros l; apply compositeChild_kind).
    rewrite map_map. apply map_ext. intros l. apply compositeChild_kind. }
  assert (Hall : Forall (fun c => n_widgetType c = Some WTextEditor ->
                                  textOf c <> "") kids).
  { apply Forall_forall. intros k Hk Hw.
    rewrite Forall_forall in Hne. apply Hne. rewrite <- Htexts.
    apply (list_elem_of_fmap_2 textOf), list_elem_of_In, filter_In.
    split; [now apply list_elem_of_In|now apply bool_decide_eq_true]. }
  destruct (fold_compositeStep kids (mkChildData "" "" "" []) Hall)
    as (Ht & _ & Hd).
  fold (extractCompositeData kids) in Ht, Hd.
  rewrite Hheads in Ht. rewrite Htexts in Hd. specialize (Hd eq_refl).
  cbn [title listItems] in Ht, Hd.
  split.
  { rewrite Ht, last_map_Some.
    destruct (List.last (List.map Some (headings (analyzeComposition cluster)))
                        None) as [h|]; simpl; [apply compositeChild_kind|reflexivity]. }
  split; [reflexivity|].
  unfold descriptionOf.
  assert (Himg : forall (l : list Node) (data : ChildData),
            imageUrl data = "" -> imageUrl (fold_left compositeStep l data) = "").
  { induction l as [|x l IHl]; intros data Hd0; simpl; [exact Hd0|].
    apply IHl. unfold compositeStep.
    destruct (n_widgetType x) as [[]|]; try exact Hd0; try reflexivity.
    destruct (description data); exact Hd0. }
  destruct (texts (analyzeComposition cluster)) as [|t ts].
  - destruct Hd as [E1 E2]. repeat split; auto.
    unfold extractCompositeData. now apply Himg.
  - destruct Hd as [E1 E2]. repeat split; auto.
    unfold extractCompositeData. now apply Himg.
Qed.

Lemma composite_data_two_readings_witness :
  listItems (extractCompositeData
               (List.map compositeChild
                  [Samples.heading28; Samples.body1; Samples.body2]))
  = ["Second line of copy"].
Proof.
  refine (proj1 (proj2 (proj2 (proj2
            (composite_data_two_readings
               [Samples.heading28; Samples.body1; Samples.body2] _))))).
  repeat constructor; discriminate.
Defined.

End GeneratorFacts.

(* ===================================================================== *)
(** ** LayerPreview: drag and drop keeps the layers *)
(* ===================================================================== *)

Module LayerPreviewFacts.
Import LayerPreview LayerPreviewSpec.
Local Open Scope list_scope.

Lemma list_eq_nil_snoc {A : Type} (l : list A) :
  l = [] \/ exists l' x, l = (l' ++ [x])%list.
Proof.
  induction l as [|y l IH] using rev_ind; [now left|right; eauto].
Qed.

Lemma layer_ids_app (a b : list Node) : ids (a ++ b) = (ids a ++ ids b)%list.
Proof. apply flat_map_app. Qed.

Lemma layer_ids_cons (l : Node) (a : list Node) :
  ids (l :: a) = (n_id l :: ids (n_children l) ++ ids a)%list.
Proof. destruct l; reflexivity. Qed.

Lemma findIndex_pre (id : string) (pre ls : list Node) (l : Node) :
  Forall (fun x => n_id x <> id) pre -> n_id l = id ->
  findIndex id (pre ++ l :: ls) = Some (length pre).
Proof.
  intros Hpre Hl. induction Hpre as [|x pre Hx _ IH]; simpl.
  - apply String.eqb_eq in Hl. now rewrite Hl.
  - apply String.eqb_neq in Hx. now rewrite Hx, IH.
Qed.

Lemma nth_error_pre {A : Type} (pre ls : list A) (l : A) :
  nth_error (pre ++ l :: ls) (length pre) = Some l.
Proof. induction pre; simpl; auto. Qed.

Lemma searched_step (id : string) :
  forall ls pre,
    Forall (fun l => searched id [] (n_children l)) ls ->
    Forall (fun x => n_id x <> id) pre -> searched id pre ls.
Proof.
  assert (Hnode : forall layer,
            findLayerById_children id layer
            = scan (fun i l => if String.eqb (n_id l) id then Some ([i], l)
                               else under i (findLayerById_children id l))
                   0 (n_children layer)).
  { intros [? ? ? ? ? ch]; reflexivity. }
  assert (HnodeP : forall layer,
            findParentOf_children id layer
            = scan (fun i l => if String.eqb (n_id l) id
                               then Some ([], n_children layer)
                               else under i (findParentOf_children id l))
                   0 (n_children layer)).
  { intros [? ? ? ? ? ch]; reflexivity. }
  induction ls as [|l rest IHrest]; intros pre Hls Hpre.
  - unfold searched; simpl. split; [reflexivity|tauto].
  - inversion Hls as [|? ? Hl Hrest]; subst.
    unfold searched. cbn [scan].
    destruct (String.eqb (n_id l) id) eqn:E.
    + apply String.eqb_eq in E.
      exists [], (pre ++ l :: rest)%list, (length pre).
      repeat split; auto using findIndex_pre, nth_error_pre.
    + apply String.eqb_neq in E.
      rewrite (HnodeP l). rewrite (Hnode l).
      red in Hl. cbn zeta in Hl. cbn [length app] in Hl.
      destruct (scan _ 0 (n_children l)) as [[q n]|] eqn:Ef.
      * destruct Hl as (p & sib & index & -> & Hp & Hi & Hn & Ha & Hid).
        rewrite Hp. cbn [under].
        exists (length pre :: p), sib, index.
        repeat split; auto.
        cbn [arrayAt]. now rewrite nth_error_pre.
      * destruct Hl as [Hp Hnot]. rewrite Hp. cbn [under].
        specialize (IHrest (pre ++ [l])%list Hrest).
        unfold searched in IHrest. cbn zeta in IHrest.
        rewrite length_app, Nat.add_1_r, <- app_assoc in IHrest.
        cbn [app] in IHrest.
        assert (Hpre' : Forall (fun x => n_id x <> id) (pre ++ [l])).
        { apply Forall_app. split; [exact Hpre|]. now constructor. }
        specialize (IHrest Hpre').
        destruct (scan _ (S (length pre)) rest) as [[q n]|].
        -- exact IHrest.
        -- destruct IHrest as [Hp' Hnot']. split; [exact Hp'|].
           rewrite layer_ids_cons. intros [H|H]; [now apply E|].
           apply in_app_or in H. tauto.
Qed.

Lemma searched_all (id : string) (ls pre : list Node) :
  Forall (fun x => n_id x <> id) pre -> searched id pre ls.
Proof.
  assert (Hall : forall layer, searched id [] (n_children layer)).
  { apply (ClassifierFrame.Node_tree_ind
             (fun layer => searched id [] (n_children layer))).
    intros layer IH. apply searched_step; [exact IH|constructor]. }
  intros Hpre. apply searched_step; [|exact Hpre].
  apply Forall_forall. intros l _. apply Hall.
Qed.

(** What the searches return on the whole tree. *)
Lemma find_site (id : string) (layers : list Node) :
  match findLayerById id layers with
  | None => removalSite id layers = None /\ findParentOf id layers = None
            /\ ~ In id (ids layers)
  | Some (q, n) =>
      exists p sib index,
        q = (p ++ [index])%list /\
        findParentOf id layers = Some (p, sib) /\
        findIndex id sib = Some index /\
        removalSite id layers = Some (p, index, n) /\
        arrayAt p layers = Some sib /\
        nth_error sib index = Some n /\
        n_id n = id
  end.
Proof.
  pose proof (searched_all id layers [] (List.Forall_nil _)) as H.
  unfold searched in H. cbn zeta in H. cbn [length app] in H.
  unfold findLayerById, findLayerById_loop, removalSite, findParentOf,
    findParentOf_loop.
  destruct (scan _ 0 layers) as [[q n]|].
  - destruct H as (p & sib & index & -> & Hp & Hi & Hn & Ha & Hid).
    exists p, sib, index. rewrite Hp, Hi, Hn. repeat split; auto.
  - destruct H as [Hp Hnot]. rewrite Hp. auto.
Qed.

Lemma ids_nth (a : list Node) (i : nat) (n : Node) :
  nth_error a i = Some n -> forall x, In x (idsOf n) -> In x (ids a).
Proof.
  intros Hn x Hx. apply nth_error_In in Hn.
  unfold ids. apply in_flat_map. eauto.
Qed.

Lemma idsOf_children (n : Node) (x : string) :
  In x (ids (n_children n)) -> In x (idsOf n).
Proof. destruct n; simpl; auto. Qed.

Lemma idsOf_self (n : Node) : In (n_id n) (idsOf n).
Proof. destruct n; simpl; auto. Qed.

Lemma arrayAt_ids (p : path) :
  forall (ls a : list Node),
    arrayAt p ls = Some a -> forall x, In x (ids a) -> In x (ids ls).
Proof.
  induction p as [|i q IH]; intros ls a Ha x Hx; simpl in Ha.
  - now inversion Ha; subst.
  - destruct (nth_error ls i) as [l|] eqn:El; [|discriminate].
    apply (ids_nth _ _ _ El), idsOf_children. eapply IH; eauto.
Qed.

Lemma arrayAt_app (p q : path) (ls : list Node) :
  arrayAt (p ++ q)%list ls
  = match arrayAt p ls with Some a => arrayAt q a | None => None end.
Proof.
  revert ls. induction p as [|i p IH]; intros ls; simpl; [reflexivity|].
  destruct (nth_error ls i); [apply IH|reflexivity].
Qed.

(** A missing id is exactly what [findLayerById] answers [null] to. *)
Lemma findLayerById_None (id : string) (layers : list Node) :
  findLayerById id layers = None <-> ~ In id (ids layers).
Proof.
  pose proof (find_site id layers) as H.
  destruct (findLayerById id layers) as [[q n]|].
  - destruct H as (p & sib & index & _ & _ & _ & _ & Ha & Hn & Hid).
    split; [discriminate|]. intros Hnot. exfalso. apply Hnot.
    apply (arrayAt_ids _ _ _ Ha), (ids_nth _ _ _ Hn).
    rewrite <- Hid. apply idsOf_self.
  - tauto.
Qed.

Lemma isDescendantOf_spec (id : string) (layer : Node) :
  isDescendantOf id layer = true <-> In id (ids (n_children layer)).
Proof.
  revert layer. apply ClassifierFrame.Node_tree_ind. intros layer IH.
  assert (E : isDescendantOf id layer
              = existsb (fun child => String.eqb (n_id child) id
                                      || isDescendantOf id child)
                        (n_children layer)) by (destruct layer; reflexivity).
  rewrite E. clear E.
  induction IH as [|c cs Hc _ IHcs]; [simpl; split; [discriminate|tauto]|].
  cbn [existsb]. rewrite layer_ids_cons. cbn [In]. rewrite in_app_iff.
  rewrite !orb_true_iff, String.eqb_eq, Hc, IHcs. tauto.
Qed.

(** ** The ids under an edited array *)

Lemma insert_split {A : Type} (ls : list A) (i : nat) (l l' : A) :
  nth_error ls i = Some l ->
  ls = (firstn i ls ++ l :: skipn (S i) ls)%list /\
  <[i := l']> ls = (firstn i ls ++ l' :: skipn (S i) ls)%list.
Proof.
  revert i. induction ls as [|x ls IH]; intros [|i] H; simpl in *;
    try discriminate.
  - inversion H; subst. auto.
  - destruct (IH i H) as [E1 E2]. split; [now rewrite <- E1|now rewrite <- E2].
Qed.

Lemma idsOf_with_children (l : Node) (cs : list Node) :
  idsOf (RawPSDAdapter.with_children l cs) = n_id l :: ids cs.
Proof. reflexivity. Qed.

Lemma idsOf_unfold (l : Node) : idsOf l = n_id l :: ids (n_children l).
Proof. destruct l; reflexivity. Qed.

Lemma updateArray_ids (f : list Node -> list Node) (p : path) :
  forall (ls a : list Node),
    arrayAt p ls = Some a ->
    (ids (updateArray p f ls) ++ ids a)%list ≡ₚ (ids ls ++ ids (f a))%list.
Proof.
  induction p as [|i q IH]; intros ls a Ha; simpl in Ha |- *.
  - inversion Ha; subst. apply Permutation_app_comm.
  - destruct (nth_error ls i) as [l|] eqn:El; [|discriminate].
    specialize (IH _ _ Ha).
    destruct (insert_split ls i l
                (RawPSDAdapter.with_children l (updateArray q f (n_children l)))
                El) as [E1 E2].
    rewrite E2. rewrite E1 at 3.
    rewrite !layer_ids_app. unfold ids at 2 5. cbn [flat_map].
    rewrite idsOf_with_children, (idsOf_unfold l).
    fold (ids (skipn (S i) ls)).
    set (A := ids (firstn i ls)). set (B := ids (skipn (S i) ls)).
    set (U := ids (updateArray q f (n_children l))) in *.
    set (C := ids (n_children l)) in *.
    set (Ia := ids a) in *. set (Fa := ids (f a)) in *.
    clearbody A B U C Ia Fa.
    transitivity (A ++ n_id l :: B ++ (U ++ Ia))%list; [solve_Permutation|].
    rewrite IH. solve_Permutation.
Qed.

Lemma splice_out_ids (a : list Node) (index : nat) (removed : Node) :
  nth_error a index = Some removed ->
  (ids (splice_out index a) ++ idsOf removed)%list ≡ₚ ids a.
Proof.
  intros Hn. destruct (insert_split a index removed removed Hn) as [E _].
  pose proof (f_equal ids E) as Eids. rewrite layer_ids_app in Eids.
  change (ids (removed :: skipn (S index) a))
    with (idsOf removed ++ ids (skipn (S index) a))%list in Eids.
  unfold splice_out. rewrite layer_ids_app, Eids. solve_Permutation.
Qed.

Lemma splice_in_ids (a : list Node) (index : nat) (x : Node) :
  ids (splice_in index x a) ≡ₚ (ids a ++ idsOf x)%list.
Proof.
  pose proof (f_equal ids (firstn_skipn index a)) as Eids.
  rewrite layer_ids_app in Eids.
  unfold splice_in. rewrite layer_ids_app, <- Eids.
  change (ids (x :: skipn index a))
    with (idsOf x ++ ids (skipn index a))%list.
  solve_Permutation.
Qed.

(** Taking a layer out leaves all the other ids. *)
Lemma removeLayer_ids (id : string) (layers : list Node) (p : path)
    (index : nat) (removed : Node) :
  removalSite id layers = Some (p, index, removed) ->
  (ids (updateArray p (splice_out index) layers) ++ idsOf removed)%list
  ≡ₚ ids layers.
Proof.
  intros Hsite.
  pose proof (find_site id layers) as H.
  destruct (findLayerById id layers) as [[q n]|].
  - destruct H as (p' & sib & index' & _ & _ & _ & Hs & Ha & Hn & _).
    rewrite Hs in Hsite. inversion Hsite; subst.
    pose proof (updateArray_ids (splice_out index) _ _ _ Ha) as Hu.
    pose proof (splice_out_ids _ _ _ Hn) as Ho.
    apply (Permutation_app_inv_r (ids sib)).
    rewrite <- app_assoc, (Permutation_app_comm (idsOf removed)), app_assoc.
    rewrite Hu. rewrite <- app_assoc. apply Permutation_app_head.
    exact Ho.
  - destruct H as [Hs _]. rewrite Hs in Hsite. discriminate.
Qed.

(** X23: moving a layer never loses or duplicates one.  Whatever
    [moveLayer] returns holds the same ids as before.  It changes nothing
    when the target is the dragged layer or lies inside it, and it throws --
    exactly -- when the dragged id is not in the tree and differs from the
    target. *)
Theorem moveLayer_keeps_every_layer (draggedId targetId : string)
    (before : bool) (layers : list Node) :
  match moveLayer draggedId targetId before layers with
  | JS.Ok layers' => ids layers' ≡ₚ ids layers
  | JS.TypeError _ => draggedId <> targetId /\ ~ In draggedId (ids layers)
  | JS.OutOfFuel => False
  end /\
  (draggedId <> targetId -> ~ In draggedId (ids layers) ->
   exists msg, moveLayer draggedId targetId before layers = JS.TypeError msg) /\
  (forall q dragged,
     findLayerById draggedId layers = Some (q, dragged) ->
     In targetId (idsOf dragged) ->
     moveLayer draggedId targetId before layers = JS.Ok layers).
Proof.
  split; [|split].
  - unfold moveLayer.
    destruct (String.eqb draggedId targetId) eqn:E; [reflexivity|].
    apply String.eqb_neq in E.
    pose proof (find_site draggedId layers) as H.
    destruct (findLayerById draggedId layers) as [[q n]|].
    2:{ split; [exact E|]. now destruct H as (_ & _ & H). }
    destruct H as (p & sib & index & _ & _ & _ & Hs & Ha & Hn & Hid).
    destruct (isDescendantOf targetId n); [reflexivity|].
    unfold removeLayer. rewrite Hs.
    pose proof (removeLayer_ids _ _ _ _ _ Hs) as Hrem.
    set (layers1 := updateArray p (splice_out index) layers) in *.
    pose proof (find_site targetId layers1) as Ht.
    destruct (findLayerById targetId layers1) as [[qt nt]|].
    + destruct Ht as (pt & sibt & it & _ & Hp & Hi & _ & Hat & _ & _).
      rewrite Hp, Hi.
      pose proof (updateArray_ids
                    (splice_in (if before then it else S it) n) _ _ _ Hat) as Hu.
      rewrite splice_in_ids in Hu.
      apply (Permutation_app_inv_r (ids sibt)).
      rewrite Hu, <- Hrem. solve_Permutation.
    + destruct Ht as (_ & Hp & _). rewrite Hp.
      rewrite layer_ids_app, <- Hrem. unfold ids at 2. cbn [flat_map].
      now rewrite app_nil_r.
  - intros E Hnot. apply findLayerById_None in Hnot.
    unfold moveLayer. apply String.eqb_neq in E. rewrite E, Hnot. eauto.
  - intros q dragged Hf Hin. unfold moveLayer.
    destruct (String.eqb draggedId targetId) eqn:E; [reflexivity|].
    apply String.eqb_neq in E. rewrite Hf.
    pose proof (find_site draggedId layers) as H. rewrite Hf in H.
    destruct H as (_ & _ & _ & _ & _ & _ & _ & _ & _ & Hid).
    rewrite idsOf_unfold in Hin. destruct Hin as [Hin|Hin]; [congruence|].
    apply isDescendantOf_spec in Hin. now rewrite Hin.
Qed.

Lemma moveLayer_keeps_every_layer_witness :
  exists msg,
    moveLayer "t404" "g1" true [Samples.sectionGroup; Samples.farText]
    = JS.TypeError msg.
Proof.
  refine (proj1 (proj2 (moveLayer_keeps_every_layer
                          "t404" "g1" true
                          [Samples.sectionGroup; Samples.farText])) _ _).
  - discriminate.
  - vm_compute. intuition discriminate.
Defined.

(** ** The container after the removal *)

Lemma nth_error_splice_out {A : Type} (index : nat) :
  forall (a : list A) (j : nat),
    j <> index ->
    nth_error (firstn index a ++ skipn (S index) a)
              (if (index <? j)%nat then pred j else j)
    = nth_error a j.
Proof.
  induction index as [|index IH]; intros [|x a] j Hj.
  - destruct j; simpl; [congruence|]. now destruct j.
  - destruct j as [|j]; [congruence|]. reflexivity.
  - cbn [firstn skipn app]. destruct (_ <? _)%nat; now rewrite !nth_error_nil.
  - destruct j as [|j]; [reflexivity|].
    cbn [firstn skipn app].
    specialize (IH a j ltac:(congruence)).
    change (S index <? S j)%nat with (index <? j)%nat.
    destruct (index <? j)%nat eqn:E.
    + apply Nat.ltb_lt in E. destruct j as [|j]; [lia|].
      cbn [pred nth_error] in *. exact IH.
    + cbn [nth_error]. exact IH.
Qed.

Lemma nth_error_insert_eq {A : Type} (x y : A) :
  forall (a : list A) (i : nat),
    nth_error a i = Some y -> nth_error (<[i := x]> a) i = Some x.
Proof. induction a as [|z a IH]; intros [|i] H; simpl in *; try discriminate; auto. Qed.

Lemma nth_error_insert_ne {A : Type} (x : A) :
  forall (a : list A) (i j : nat),
    i <> j -> nth_error (<[i := x]> a) j = nth_error a j.
Proof.
  induction a as [|z a IH]; intros [|i] [|j] H; simpl; try congruence; auto.
Qed.

Lemma afterSplice_valid (index : nat) (p : path) :
  forall (ls sib : list Node) (pc : path) (a : list Node),
    arrayAt p ls = Some sib ->
    arrayAt pc ls = Some a ->
    (forall rest, pc <> (p ++ index :: rest)%list) ->
    exists a', arrayAt (afterSplice p index pc)
                       (updateArray p (splice_out index) ls) = Some a'.
Proof.
  induction p as [|i p IH]; intros ls sib pc a Hp Hpc Hout.
  - destruct pc as [|j q]; [simpl; eauto|].
    cbn [afterSplice updateArray arrayAt]. unfold splice_out.
    rewrite nth_error_splice_out.
    + cbn [arrayAt] in Hpc. destruct (nth_error ls j); [eauto|discriminate].
    + intros ->. now apply (Hout q).
  - destruct pc as [|j q]; [simpl; eauto|].
    cbn [arrayAt] in Hp, Hpc. cbn [afterSplice updateArray].
    destruct (nth_error ls i) as [l|] eqn:El; [|discriminate].
    destruct (Nat.eqb_spec i j) as [<-|Hij].
    + rewrite El in Hpc. cbn [arrayAt].
      rewrite (nth_error_insert_eq _ l _ _ El). cbn [n_children RawPSDAdapter.with_children].
      apply (IH _ _ _ _ Hp Hpc).
      intros rest ->. now apply (Hout rest).
    + cbn [arrayAt]. rewrite nth_error_insert_ne by exact Hij.
      destruct (nth_error ls j); [eauto|discriminate].
Qed.

(** A layer that is neither the dragged one nor below it is not at a place
    under the dragged one. *)
Lemma outside_dragged (layers : list Node) (p pcp : path) (index ic : nat)
    (sib sibc : list Node) (dragged container : Node) :
  arrayAt p layers = Some sib -> nth_error sib index = Some dragged ->
  arrayAt pcp layers = Some sibc -> nth_error sibc ic = Some container ->
  ~ In (n_id container) (idsOf dragged) ->
  forall rest, (pcp ++ [ic])%list <> (p ++ index :: rest)%list.
Proof.
  intros Hp Hd Hc Hn Hnot rest E. apply Hnot.
  destruct (list_eq_nil_snoc rest) as [->|(rest' & k & ->)].
  - apply app_inj_tail in E. destruct E as [-> ->].
    rewrite Hp in Hc. inversion Hc; subst. rewrite Hd in Hn.
    inversion Hn; subst. apply idsOf_self.
  - change (p ++ index :: rest' ++ [k])%list
      with (p ++ (index :: rest') ++ [k])%list in E.
    rewrite app_assoc in E. apply app_inj_tail in E. destruct E as [-> ->].
    rewrite arrayAt_app, Hp in Hc. cbn [arrayAt] in Hc. rewrite Hd in Hc.
    apply idsOf_children, (arrayAt_ids _ _ _ Hc), (ids_nth _ _ _ Hn).
    apply idsOf_self.
Qed.

(** What [nestLayer] does when it goes through: the tree left by the
    removal, edited at the container's place. *)
Lemma nestLayer_through (draggedId containerId : string) (layers : list Node)
    (qd pc : path) (dragged container : Node) :
  draggedId <> containerId ->
  findLayerById draggedId layers = Some (qd, dragged) ->
  findLayerById containerId layers = Some (pc, container) ->
  ~ In containerId (idsOf dragged) ->
  exists p index a',
    removalSite draggedId layers = Some (p, index, dragged) /\
    arrayAt (afterSplice p index pc)
            (updateArray p (splice_out index) layers) = Some a' /\
    nestLayer draggedId containerId layers
    = updateArray (afterSplice p index pc)
                  (fun children => (children ++ [dragged])%list)
                  (updateArray p (splice_out index) layers).
Proof.
  intros Hdc Hd Hc Hnot.
  pose proof (find_site draggedId layers) as Sd. rewrite Hd in Sd.
  destruct Sd as (p & sib & index & _ & _ & _ & Hs & Ha & Hn & Hid).
  pose proof (find_site containerId layers) as Sc. rewrite Hc in Sc.
  destruct Sc as (pcp & sibc & ic & -> & _ & _ & _ & Hac & Hnc & Hidc).
  assert (Hout : forall rest, (pcp ++ [ic])%list <> (p ++ index :: rest)%list).
  { apply (outside_dragged layers p pcp index ic sib sibc dragged container);
      auto. now rewrite Hidc. }
  assert (Hpc : arrayAt (pcp ++ [ic])%list layers = Some (n_children container)).
  { rewrite arrayAt_app, Hac. cbn [arrayAt]. now rewrite Hnc. }
  destruct (afterSplice_valid index p layers sib _ _ Ha Hpc Hout) as [a' Ha'].
  exists p, index, a'. split; [exact Hs|]. split; [exact Ha'|].
  unfold nestLayer. apply String.eqb_neq in Hdc. rewrite Hdc, Hd, Hc.
  destruct (isDescendantOf containerId dragged) eqn:Edesc.
  { exfalso. apply Hnot. apply isDescendantOf_spec in Edesc.
    now apply idsOf_children. }
  unfold removeLayer. rewrite Hs. reflexivity.
Qed.

(** ** Looking a layer up after an edit *)

Lemma scan_find_shift (id : string) (ls : list Node) :
  forall i,
    option_map fst
      (scan (fun i layer =>
               if String.eqb (n_id layer) id then Some ([i], layer)
               else under i (findLayerById_children id layer)) (S i) ls)
    = option_map bump
        (option_map fst
           (scan (fun i layer =>
                    if String.eqb (n_id layer) id then Some ([i], layer)
                    else under i (findLayerById_children id layer)) i ls)).
Proof.
  induction ls as [|l rest IH]; intros i; [reflexivity|].
  cbn [scan]. destruct (String.eqb (n_id l) id); [reflexivity|].
  destruct (findLayerById_children id l) as [[q n]|]; [reflexivity|].
  cbn [under]. apply IH.
Qed.

Lemma findPath_cons (id : string) (l : Node) (rest : list Node) :
  findPath id (l :: rest)
  = if String.eqb (n_id l) id then Some [0%nat]
    else match findPath id (n_children l) with
         | Some q => Some (0%nat :: q)
         | None => option_map bump (findPath id rest)
         end.
Proof.
  unfold findPath, findLayerById, findLayerById_loop. cbn [scan].
  destruct (String.eqb (n_id l) id); [reflexivity|].
  replace (findLayerById_children id l)
    with (scan (fun i layer =>
                  if String.eqb (n_id layer) id then Some ([i], layer)
                  else under i (findLayerById_children id layer))
               0 (n_children l)) by (destruct l; reflexivity).
  destruct (scan _ 0 (n_children l)) as [[q n]|]; [reflexivity|].
  cbn [under option_map]. apply scan_find_shift.
Qed.

Lemma findPath_None (id : string) (ls : list Node) :
  findPath id ls = None <-> ~ In id (ids ls).
Proof.
  rewrite <- findLayerById_None. unfold findPath.
  destruct (findLayerById id ls); simpl; split; congruence.
Qed.

Lemma findPath_nonempty (id : string) (ls : list Node) :
  findPath id ls <> Some [].
Proof.
  unfold findPath. pose proof (find_site id ls) as H.
  destruct (findLayerById id ls) as [[q n]|]; [|discriminate].
  destruct H as (p & sib & index & -> & _). simpl.
  intros E. inversion E as [E']. now destruct p.
Qed.

Lemma afterSplice_nil (p : path) (index : nat) : afterSplice p index [] = [].
Proof. now destruct p. Qed.

(** Splicing a layer without the id out of the searched array. *)
Lemma findPath_splice_out (id : string) :
  forall (index : nat) (ls : list Node) (D : Node),
    nth_error ls index = Some D -> ~ In id (idsOf D) ->
    findPath id (splice_out index ls)
    = option_map (afterSplice [] index) (findPath id ls).
Proof.
  induction index as [|k IH]; intros [|l rest] D Hn Hnot;
    simpl in Hn; try discriminate.
  - inversion Hn; subst. change (splice_out 0 (D :: rest)) with rest.
    rewrite findPath_cons.
    rewrite idsOf_unfold in Hnot.
    destruct (String.eqb_spec (n_id D) id) as [E|E].
    { exfalso. apply Hnot. now left. }
    assert (Hc : findPath id (n_children D) = None).
    { apply findPath_None. intros H. apply Hnot. now right. }
    rewrite Hc. destruct (findPath id rest) as [[|j q]|]; reflexivity.
  - change (splice_out (S k) (l :: rest)) with (l :: splice_out k rest).
    rewrite !findPath_cons.
    destruct (String.eqb (n_id l) id); [reflexivity|].
    destruct (findPath id (n_children l)); [reflexivity|].
    rewrite (IH rest D Hn Hnot).
    destruct (findPath id rest) as [[|j q]|]; try reflexivity.
    cbn [option_map bump afterSplice].
    change (S k <? S j)%nat with (k <? j)%nat.
    destruct (k <? j)%nat eqn:E; [|reflexivity].
    apply Nat.ltb_lt in E. destruct j; [lia|reflexivity].
Qed.

(** Replacing one element of the searched array by a layer of the same id
    whose children answer the search as [g] says. *)
Lemma findPath_insert (id : string) (g : path -> path) (l l' : Node) :
  g [] = [] ->
  n_id l' = n_id l ->
  (n_id l = id \/
   findPath id (n_children l') = option_map g (findPath id (n_children l))) ->
  forall (i : nat) (ls : list Node),
    nth_error ls i = Some l ->
    findPath id (<[i := l']> ls) = option_map (liftAt i g) (findPath id ls).
Proof.
  intros Hnil Hid Hg. induction i as [|k IH]; intros [|x rest] Hn;
    simpl in Hn; try discriminate.
  - inversion Hn; subst.
    change (<[0%nat:=l']> (l :: rest)) with (l' :: rest).
    rewrite !findPath_cons, Hid.
    destruct (String.eqb_spec (n_id l) id) as [E|E].
    { cbn [option_map liftAt Nat.eqb]. now rewrite Hnil. }
    destruct Hg as [Hg|Hg]; [contradiction|]. rewrite Hg.
    destruct (findPath id (n_children l)) as [q|]; [reflexivity|].
    cbn [option_map].
    destruct (findPath id rest) as [[|j q]|]; reflexivity.
  - change (<[S k:=l']> (x :: rest)) with (x :: <[k:=l']> rest).
    rewrite !findPath_cons.
    destruct (String.eqb (n_id x) id); [reflexivity|].
    destruct (findPath id (n_children x)); [reflexivity|].
    rewrite (IH rest Hn).
    destruct (findPath id rest) as [[|j q]|]; try reflexivity.
    cbn [option_map bump liftAt].
    change (S k =? S j)%nat with (k =? j)%nat.
    now destruct (k =? j)%nat.
Qed.

Lemma findPath_after_removal (id : string) (index : nat) (D : Node) :
  ~ In id (idsOf D) ->
  forall (p : path) (ls sib : list Node),
    arrayAt p ls = Some sib -> nth_error sib index = Some D ->
    findPath id (updateArray p (splice_out index) ls)
    = option_map (afterSplice p index) (findPath id ls).
Proof.
  intros Hnot. induction p as [|i p IH]; intros ls sib Ha Hn.
  - simpl in Ha. inversion Ha; subst. now apply findPath_splice_out with D.
  - cbn [arrayAt] in Ha. cbn [updateArray].
    destruct (nth_error ls i) as [l|] eqn:El; [|discriminate].
    rewrite (findPath_insert id (afterSplice p index) l
               (RawPSDAdapter.with_children l
                  (updateArray p (splice_out index) (n_children l)))
               (afterSplice_nil p index) eq_refl
               (or_intror (IH _ _ Ha Hn)) i ls El).
    destruct (findPath id ls) as [[|j q]|]; reflexivity.
Qed.

Lemma findPath_inv (id : string) :
  forall (i : nat) (ls : list Node) (q : path),
    findPath id ls = Some (i :: q) ->
    exists l, nth_error ls i = Some l /\
              ((n_id l = id /\ q = []) \/
               (n_id l <> id /\ findPath id (n_children l) = Some q)).
Proof.
  induction i as [|k IH]; intros [|x rest] q H;
    try (unfold findPath in H; simpl in H; discriminate).
  - rewrite findPath_cons in H. exists x. split; [reflexivity|].
    destruct (String.eqb_spec (n_id x) id) as [E|E].
    + left. split; [exact E|]. now inversion H.
    + right. split; [exact E|].
      destruct (findPath id (n_children x)) as [q'|]; [now inversion H|].
      destruct (findPath id rest) as [[|j q']|]; discriminate.
  - rewrite findPath_cons in H.
    destruct (String.eqb (n_id x) id); [discriminate|].
    destruct (findPath id (n_children x)); [discriminate|].
    destruct (findPath id rest) as [[|j q']|] eqn:E; try discriminate.
    cbn [option_map bump] in H. inversion H; subst.
    apply (IH rest q E).
Qed.

(** An edit of the children of the layer found does not move it. *)
Lemma findPath_after_edit (id : string) (f : list Node -> list Node) :
  forall (q : path) (ls : list Node),
    findPath id ls = Some q ->
    findPath id (updateArray q f ls) = Some q.
Proof.
  induction q as [|i q IH]; intros ls H.
  - now apply findPath_nonempty in H.
  - destruct (findPath_inv id i ls q H) as (l & El & Hcase).
    cbn [updateArray]. rewrite El.
    assert (Hg : n_id l = id \/
                 findPath id (n_children
                    (RawPSDAdapter.with_children l
                       (updateArray q f (n_children l))))
                 = option_map (fun q => q) (findPath id (n_children l))).
    { destruct Hcase as [[E _]|[_ Hq]]; [now left|right].
      cbn [n_children RawPSDAdapter.with_children].
      rewrite (IH _ Hq), Hq. reflexivity. }
    rewrite (findPath_insert id (fun q => q) l
               (RawPSDAdapter.with_children l (updateArray q f (n_children l)))
               eq_refl eq_refl Hg i ls El).
    rewrite H. cbn [option_map liftAt]. now rewrite Nat.eqb_refl.
Qed.

Lemma arrayAt_updateArray (f : list Node -> list Node) :
  forall (p : path) (ls a : list Node),
    arrayAt p ls = Some a -> arrayAt p (updateArray p f ls) = Some (f a).
Proof.
  induction p as [|i p IH]; intros ls a H; simpl in H |- *.
  - now inversion H.
  - destruct (nth_error ls i) as [l|] eqn:El; [|discriminate].
    cbn [arrayAt]. rewrite (nth_error_insert_eq _ l _ _ El).
    cbn [n_children RawPSDAdapter.with_children]. now apply IH.
Qed.

(** X24: nesting a layer never loses or duplicates one, and puts it last in
    the container.  The tree returned by [nestLayer] holds the same ids as
    before.  It is the tree given when either id is missing, or when the
    container is the dragged layer or lies inside it.  In every other case
    a fresh lookup of the container finds a layer whose last child is the
    dragged layer. *)
Theorem nestLayer_keeps_every_layer (draggedId containerId : string)
    (layers : list Node) :
  ids (nestLayer draggedId containerId layers) ≡ₚ ids layers /\
  (~ In draggedId (ids layers) \/ ~ In containerId (ids layers) ->
   nestLayer draggedId containerId layers = layers) /\
  (forall q dragged,
     findLayerById draggedId layers = Some (q, dragged) ->
     (In containerId (idsOf dragged) ->
      nestLayer draggedId containerId layers = layers) /\
     (In containerId (ids layers) -> ~ In containerId (idsOf dragged) ->
      exists q' container' kept,
        findLayerById containerId (nestLayer draggedId containerId layers)
        = Some (q', container') /\
        n_children container' = (kept ++ [dragged])%list)).
Proof.
  assert (Hrefuse : forall q dragged,
            findLayerById draggedId layers = Some (q, dragged) ->
            In containerId (idsOf dragged) ->
            nestLayer draggedId containerId layers = layers).
  { intros q dragged Hd Hin. unfold nestLayer.
    destruct (String.eqb draggedId containerId) eqn:E; [reflexivity|].
    apply String.eqb_neq in E. rewrite Hd.
    destruct (findLayerById containerId layers) as [[pc c]|]; [|reflexivity].
    pose proof (find_site draggedId layers) as H. rewrite Hd in H.
    destruct H as (_ & _ & _ & _ & _ & _ & _ & _ & _ & Hid).
    rewrite idsOf_unfold in Hin. destruct Hin as [Hin|Hin]; [congruence|].
    apply isDescendantOf_spec in Hin. now rewrite Hin. }
  assert (Hmissing : ~ In draggedId (ids layers) \/ ~ In containerId (ids layers) ->
                     nestLayer draggedId containerId layers = layers).
  { intros H. unfold nestLayer.
    destruct (String.eqb draggedId containerId); [reflexivity|].
    destruct H as [H|H]; apply findLayerById_None in H; rewrite H;
      [reflexivity|].
    now destruct (findLayerById draggedId layers) as [[? ?]|]. }
  split; [|split; [exact Hmissing|]].
  - destruct (findLayerById draggedId layers) as [[qd dragged]|] eqn:Hd.
    2:{ rewrite Hmissing; [reflexivity|]. left. now apply findLayerById_None. }
    destruct (findLayerById containerId layers) as [[pc container]|] eqn:Hc.
    2:{ rewrite Hmissing; [reflexivity|]. right. now apply findLayerById_None. }
    destruct (in_dec string_dec containerId (idsOf dragged)) as [Hin|Hnot].
    { now rewrite (Hrefuse _ _ eq_refl Hin). }
    assert (Hdc : draggedId <> containerId).
    { intros ->. apply Hnot.
      pose proof (find_site containerId layers) as H. rewrite Hd in H.
      destruct H as (_ & _ & _ & _ & _ & _ & _ & _ & _ & Hid).
      rewrite <- Hid at 1. apply idsOf_self. }
    destruct (nestLayer_through _ _ _ _ _ _ _ Hdc Hd Hc Hnot)
      as (p & index & a' & Hs & Ha' & ->).
    pose proof (removeLayer_ids _ _ _ _ _ Hs) as Hrem.
    pose proof (updateArray_ids
                  (fun children => (children ++ [dragged])%list) _ _ _ Ha') as Hu.
    cbv beta in Hu. rewrite layer_ids_app in Hu.
    apply (Permutation_app_inv_r (ids a')).
    rewrite Hu, <- Hrem.
    change (ids [dragged]) with (idsOf dragged ++ [])%list.
    rewrite app_nil_r. solve_Permutation.
  - intros q dragged Hd. split; [now apply Hrefuse with q|].
    intros Hin Hnot.
    destruct (findLayerById containerId layers) as [[pc container]|] eqn:Hc.
    2:{ now apply findLayerById_None in Hc. }
    assert (Hdc : draggedId <> containerId).
    { intros ->. apply Hnot.
      pose proof (find_site containerId layers) as H. rewrite Hd in H.
      destruct H as (_ & _ & _ & _ & _ & _ & _ & _ & _ & Hid).
      rewrite <- Hid at 1. apply idsOf_self. }
    destruct (nestLayer_through _ _ _ _ _ _ _ Hdc Hd Hc Hnot)
      as (p & index & a' & Hs & Ha' & ->).
    pose proof (find_site draggedId layers) as Sd. rewrite Hd in Sd.
    destruct Sd as (p0 & sib & index0 & _ & _ & _ & Hs0 & Ha & Hn & _).
    rewrite Hs in Hs0. inversion Hs0; subst p0 index0. clear Hs0.
    assert (Hp1 : findPath containerId (updateArray p (splice_out index) layers)
                  = Some (afterSplice p index pc)).
    { rewrite (findPath_after_removal containerId index dragged Hnot p layers sib Ha Hn).
      unfold findPath. now rewrite Hc. }
    pose proof (findPath_after_edit containerId
                  (fun children => (children ++ [dragged])%list) _ _ Hp1) as Hp2.
    pose proof (arrayAt_updateArray
                  (fun children => (children ++ [dragged])%list) _ _ _ Ha') as Harr.
    set (result := updateArray (afterSplice p index pc) _ _) in *.
    unfold findPath in Hp2.
    pose proof (find_site containerId result) as Sr.
    destruct (findLayerById containerId result) as [[q' container']|];
      [|discriminate].
    inversion Hp2; subst q'.
    destruct Sr as (pp & sibr & ii & E & _ & _ & _ & Har & Hnr & _).
    exists (afterSplice p index pc), container', a'.
    split; [reflexivity|].
    rewrite E, arrayAt_app, Har in Harr. cbn [arrayAt] in Harr.
    rewrite Hnr in Harr. now inversion Harr.
Qed.

Lemma nestLayer_keeps_every_layer_witness :
  exists q' container' kept,
    findLayerById "g1" (nestLayer (n_id Samples.farText) "g1"
                          [Samples.sectionGroup; Samples.farText])
    = Some (q', container') /\
    n_children container' = kept ++ [Samples.farText].
Proof.
  refine (proj2 (proj2 (proj2 (nestLayer_keeps_every_layer
                                 (n_id Samples.farText) "g1"
                                 [Samples.sectionGroup; Samples.farText]))
                       [1%nat] Samples.farText _) _ _).
  - vm_compute. reflexivity.
  - vm_compute. intuition discriminate.
  - vm_compute. intuition discriminate.
Defined.

(** X25: a layer taken out of a tree with distinct ids is gone with all it
    holds, and nothing else is.  When the id is in the tree, [removeLayer]
    returns the layer of that id and a tree in which a lookup fails for
    exactly the ids of that layer and of the layers below it; together the
    two hold the ids there were.  When the id is missing it returns [null]
    and the tree as it was. *)
Theorem removeLayer_then_lookup (id : string) (layers : list Node) :
  NoDup (ids layers) ->
  match removeLayer id layers with
  | (Some removed, rest) =>
      n_id removed = id /\
      (ids rest ++ idsOf removed)%list ≡ₚ ids layers /\
      (forall x, In x (ids layers) ->
                 (findLayerById x rest = None <-> In x (idsOf removed)))
  | (None, rest) => rest = layers /\ ~ In id (ids layers)
  end.
Proof.
  intros Hdup. unfold removeLayer.
  pose proof (find_site id layers) as H.
  destruct (findLayerById id layers) as [[q n]|].
  - destruct H as (p & sib & index & _ & _ & _ & Hs & _ & _ & Hid).
    rewrite Hs. pose proof (removeLayer_ids _ _ _ _ _ Hs) as Hrem.
    split; [exact Hid|]. split; [exact Hrem|].
    intros x Hx. rewrite findLayerById_None.
    rewrite <- Hrem in Hdup, Hx.
    apply NoDup_app in Hdup.
    destruct Hdup as (_ & Hdisj & _).
    apply in_app_or in Hx. split.
    + intros Hnot. destruct Hx as [Hx|Hx]; [contradiction|exact Hx].
    + intros Hin Hrest. apply (Hdisj x); now apply list_elem_of_In.
  - destruct H as (Hs & _ & Hnot). rewrite Hs. auto.
Qed.

Lemma removeLayer_then_lookup_witness :
  match removeLayer "g1" [Samples.sectionGroup; Samples.farText] with
  | (Some removed, rest) =>
      n_id removed = "g1" /\
      (ids rest ++ idsOf removed)%list
      ≡ₚ ids [Samples.sectionGroup; Samples.farText] /\
      (forall x, In x (ids [Samples.sectionGroup; Samples.farText]) ->
                 (findLayerById x rest = None <-> In x (idsOf removed)))
  | (None, rest) =>
      rest = [Samples.sectionGroup; Samples.farText] /\
      ~ In "g1" (ids [Samples.sectionGroup; Samples.farText])
  end.
Proof.
  apply (removeLayer_then_lookup "g1" [Samples.sectionGroup; Samples.farText]).
  apply (bool_decide_unpack _). vm_compute. reflexivity.
Defined.

End LayerPreviewFacts.

(* ===================================================================== *)
(** ** psdParser: what the decoder's tree becomes *)
(* ===================================================================== *)

Module ParserFacts.
Import psdParser ParserSpec AdapterSpec.
Local Open Scope list_scope.

Lemma PsdLayer_tree_ind {TextData : Type} (P : PsdLayer TextData -> Prop) :
  (forall layer, Forall P (psd_children layer) -> P layer) ->
  forall layer, P layer.
Proof.
  intros H. fix IH 1.
  intros layer. apply H.
  destruct layer as [name hidden t l r b children text vm vs].
  simpl. induction children as [|c cs IHcs]; constructor; [apply IH|apply IHcs].
Qed.

Lemma or0_not_NaN (x : option num) : JS.not_NaN (or0 x).
Proof.
  destruct x as [[q| | |]|]; unfold or0, JS.or_default; simpl; try discriminate.
  destruct (negb (Qeq_bool q 0)); discriminate.
Qed.

Lemma extend_spec (e : Extent) (c : LayerInfo) :
  extent_ok e -> edges_not_NaN (li_bounds c) ->
  extent_ok (extend e c) /\ extent_grows e (extend e c) /\
  (sized (li_bounds c) ->
   extent_holds (extend e c) (li_bounds c) /\ hasValidBounds (extend e c) = true) /\
  (hasValidBounds e = true -> hasValidBounds (extend e c) = true).
Proof.
  intros (H1 & H2 & H3 & H4) (B1 & B2 & B3 & B4).
  unfold extend, sized.
  destruct (JS.strict_eq (b_width (li_bounds c)) JS.zero
            && JS.strict_eq (b_height (li_bounds c)) JS.zero).
  - repeat split; auto using JSFacts.le_refl; discriminate.
  - unfold extent_ok, extent_grows, extent_holds. cbn.
    repeat split;
      auto using JSFacts.min_not_NaN, JSFacts.max_not_NaN, JSFacts.min_le_l,
        JSFacts.min_le_r, JSFacts.max_ge_l, JSFacts.max_ge_r.
Qed.

Lemma extent_holds_grows (e e' : Extent) (b : Bounds) :
  extent_holds e b -> extent_grows e e' -> extent_holds e' b.
Proof.
  intros (A1 & A2 & A3 & A4) (G1 & G2 & G3 & G4).
  repeat split; eauto using JSFacts.le_trans.
Qed.

Lemma extent_grows_trans (e1 e2 e3 : Extent) :
  extent_grows e1 e2 -> extent_grows e2 e3 -> extent_grows e1 e3.
Proof.
  intros (A1 & A2 & A3 & A4) (G1 & G2 & G3 & G4).
  repeat split; eauto using JSFacts.le_trans.
Qed.

Lemma fold_extend_spec (cs : list LayerInfo) :
  forall e,
    extent_ok e -> Forall (fun c => edges_not_NaN (li_bounds c)) cs ->
    let e' := fold_left extend cs e in
    extent_ok e' /\ extent_grows e e' /\
    Forall (fun c => sized (li_bounds c) ->
                     extent_holds e' (li_bounds c) /\ hasValidBounds e' = true) cs /\
    (hasValidBounds e = true -> hasValidBounds e' = true).
Proof.
  induction cs as [|c cs IH]; intros e He Hcs; cbn [fold_left].
  - destruct He as (H1 & H2 & H3 & H4).
    repeat split; auto using JSFacts.le_refl.
  - inversion Hcs as [|? ? Hc Hrest]; subst.
    destruct (extend_spec e c He Hc) as (Ok1 & G1 & S1 & V1).
    destruct (IH (extend e c) Ok1 Hrest) as (Ok2 & G2 & S2 & V2).
    split; [exact Ok2|]. split; [eapply extent_grows_trans; eauto|].
    split; [|auto].
    constructor; [|exact S2].
    intros Hs. destruct (S1 Hs) as [Hh Hv].
    split; [eapply extent_holds_grows; eauto|auto].
Qed.

Lemma calculateBoundsFromChildren_spec (cs : list LayerInfo) :
  Forall (fun c => edges_not_NaN (li_bounds c)) cs ->
  match calculateBoundsFromChildren cs with
  | Some b =>
      edges_not_NaN b /\
      b_width b = JS.sub (b_right b) (b_left b) /\
      b_height b = JS.sub (b_bottom b) (b_top b) /\
      Forall (fun c => sized (li_bounds c) -> within (li_bounds c) b) cs
  | None => Forall (fun c => ~ sized (li_bounds c)) cs
  end.
Proof.
  intros Hcs. unfold calculateBoundsFromChildren.
  destruct cs as [|c0 cs0]; [constructor|].
  set (cs := c0 :: cs0) in *.
  set (e0 := mkExtent JS.Infinity JS.Infinity JS.NegInfinity JS.NegInfinity false).
  assert (He0 : extent_ok e0) by (repeat split; discriminate).
  destruct (fold_extend_spec cs e0 He0 Hcs) as (Ok & _ & S & _).
  cbv zeta in S. 
  destruct (hasValidBounds (fold_left extend cs e0)) eqn:Ev.
  - split; [exact Ok|]. split; [reflexivity|]. split; [reflexivity|].
    eapply Forall_impl; [exact S|]. intros c Hc Hs.
    destruct (Hc Hs) as [(A1 & A2 & A3 & A4) _]. repeat split; assumption.
  - eapply Forall_impl; [exact S|]. intros c Hc Hs.
    destruct (Hc Hs) as [_ Hv]. congruence.
Qed.

Section WithSources.

Variable TextData : Type.
Variable extract : TextData -> TextInfo.
Variable randomId : nat -> string.

Abbreviation extractChild := (psdParser.extractChild TextData extract randomId).
Abbreviation extractLayers := (psdParser.extractLayers TextData extract randomId).
Abbreviation extractLayerInfo := (psdParser.extractLayerInfo TextData extract randomId).

Lemma extractLayerInfo_box (layer : PsdLayer TextData) (depth k : nat) :
  let b := li_bounds (extractLayerInfo layer depth k) in
  edges_not_NaN b /\ b_width b = JS.sub (b_right b) (b_left b) /\
  b_height b = JS.sub (b_bottom b) (b_top b).
Proof.
  cbn. repeat split; apply or0_not_NaN.
Qed.

Lemma extractChild_unfold (depth : nat) (child : PsdLayer TextData) (k : nat) :
  extractChild depth child k
  = let layer := extractLayerInfo child depth k in
    match psd_children child with
    | [] => (layer, S k)
    | _ :: _ =>
        let (children, k1) :=
          extractLayers_loop TextData (extractChild (S depth))
                             (psd_children child) (S k) in
        let layer := with_children layer children in
        match li_type layer, children with
        | TGroup, _ :: _ =>
            match calculateBoundsFromChildren children with
            | Some calculatedBounds => (with_bounds layer calculatedBounds, k1)
            | None => (layer, k1)
            end
        | _, _ => (layer, k1)
        end
    end.
Proof. destruct child; reflexivity. Qed.

(** What a kept child becomes: the layer built for it, over the children
    the loop returned, in its own box or in the one computed from them. *)
Lemma extractChild_shape (depth : nat) (child : PsdLayer TextData) (k : nat) :
  exists (bounds : Bounds) (children : list LayerInfo) (k' : nat),
    extractChild depth child k
    = (with_bounds (with_children (extractLayerInfo child depth k) children)
                   bounds, k') /\
    (children, k')
    = match psd_children child with
      | [] => ([], S k)
      | _ :: _ => extractLayers_loop TextData (extractChild (S depth))
                                     (psd_children child) (S k)
      end /\
    match calculateBoundsFromChildren children with
    | Some calculatedBounds => bounds = calculatedBounds
    | None => bounds = li_bounds (extractLayerInfo child depth k)
    end.
Proof.
  rewrite extractChild_unfold. cbv zeta.
  destruct (psd_children child) as [|c cs] eqn:Ec.
  - exists (li_bounds (extractLayerInfo child depth k)), [], (S k).
    repeat split; reflexivity.
  - destruct (extractLayers_loop TextData (extractChild (S depth)) (c :: cs) (S k))
      as [children k1].
    cbn [li_type with_children psdParser.extractLayerInfo].
    unfold getLayerType. rewrite Ec.
    destruct children as [|c1 cs1].
    { exists (li_bounds (extractLayerInfo child depth k)), [], k1.
      repeat split; reflexivity. }
    destruct (calculateBoundsFromChildren (c1 :: cs1)) as [b|] eqn:Eb.
    + exists b, (c1 :: cs1), k1. rewrite Eb. repeat split; reflexivity.
    + exists (li_bounds (extractLayerInfo child depth k)), (c1 :: cs1), k1.
      rewrite Eb. repeat split; reflexivity.
Qed.

Lemma everywhere_here (P : LayerInfo -> Prop) (l : LayerInfo) :
  everywhere P l -> P l.
Proof. now intros [H _]. Qed.

Lemma loop_Forall (P : LayerInfo -> Prop) (depth : nat)
    (cs : list (PsdLayer TextData)) :
  Forall (fun c => forall depth k, P (fst (extractChild depth c k))) cs ->
  forall k, Forall P (fst (extractLayers_loop TextData (extractChild depth) cs k)).
Proof.
  induction 1 as [|c cs Hc _ IH]; intros k; cbn [extractLayers_loop];
    [constructor|].
  destruct (ignored c); [apply IH|].
  specialize (Hc depth k).
  destruct (extractChild depth c k) as [layer k1].
  specialize (IH k1).
  destruct (extractLayers_loop TextData (extractChild depth) cs k1) as [layers k2].
  now constructor.
Qed.

Lemma extractChild_boxed (child : PsdLayer TextData) :
  forall depth k, everywhere boxed (fst (extractChild depth child k)).
Proof.
  revert child. apply (PsdLayer_tree_ind (fun child => forall depth k,
    everywhere boxed (fst (extractChild depth child k)))).
  intros child IH depth k.
  destruct (extractChild_shape depth child k)
    as (bounds & children & k' & -> & Hloop & Hb).
  cbn [fst].
  assert (Hkids : Forall (everywhere boxed) children).
  { destruct (psd_children child) as [|c cs] eqn:Ec.
    - inversion Hloop; subst. constructor.
    - pose proof (loop_Forall (everywhere boxed) (S depth) (c :: cs) IH (S k)) as H.
      rewrite <- Hloop in H. exact H. }
  constructor; [|exact Hkids].
  assert (Hnn : Forall (fun c => edges_not_NaN (li_bounds c)) children).
  { eapply Forall_impl; [exact Hkids|]. intros c Hc.
    now destruct (everywhere_here _ _ Hc). }
  pose proof (calculateBoundsFromChildren_spec children Hnn) as Hspec.
  unfold boxed. cbn [li_bounds li_children with_bounds with_children].
  destruct (calculateBoundsFromChildren children) as [b|]; subst bounds.
  - exact Hspec.
  - destruct (extractLayerInfo_box child depth k) as (B1 & B2 & B3).
    split; [exact B1|]. split; [exact B2|]. split; [exact B3|].
    eapply Forall_impl; [exact Hspec|]. intros c Hc Hs. contradiction.
Qed.

Lemma toNode_unfold (l : LayerInfo) :
  toNode l = layer (li_id l) (li_name l) (li_type l) (li_visible l)
                   (li_bounds l) (List.map toNode (li_children l))
                   (li_textInfo l) (li_hasImage l).
Proof. destruct l; reflexivity. Qed.

Lemma in_tree_toNode (P : LayerInfo -> Prop) (x n : Node) :
  TreeSpec.in_tree x n ->
  forall l, n = toNode l -> everywhere P l ->
            exists l', x = toNode l' /\ P l'.
Proof.
  induction 1 as [|c n Hc Hx IH]; intros l -> Hl.
  - exists l. split; [reflexivity|now apply everywhere_here].
  - rewrite toNode_unfold in Hc. cbn [n_children layer] in Hc.
    apply list_elem_of_fmap in Hc as (c' & -> & Hc').
    destruct Hl as [_ Hkids]. rewrite Forall_forall in Hkids.
    apply (IH c' eq_refl). now apply Hkids.
Qed.

(** X26: the boxes of parsed layers.  At every depth of the tree
    [extractLayers] returns, no edge of a box is NaN (an absent, zero or NaN
    edge of the file reads as 0), the width and the height are the
    differences of the edges, and the box of a layer holds the box of each
    of its children that has a size.  So the layers the adapter keeps from a
    parsed tree have no NaN edge. *)
Theorem parsed_boxes_enclose (children : list (PsdLayer TextData))
    (depth k : nat) :
  let layers := fst (extractLayers children depth k) in
  Forall (everywhere boxed) layers /\
  Forall (fun l => edges_not_NaN (n_bounds l))
         (RawPSDAdapter.filterValidLayers
            (RawPSDAdapter.flattenLayers (List.map toNode layers))).
Proof.
  cbv zeta.
  assert (H : Forall (everywhere boxed) (fst (extractLayers children depth k))).
  { apply loop_Forall. apply Forall_forall. intros c _. apply extractChild_boxed. }
  split; [exact H|].
  apply Forall_forall. intros x Hx.
  apply list_elem_of_In, filter_In in Hx as [Hx _].
  apply list_elem_of_In, FlattenFacts.elem_of_flat_map in Hx as (n & Hn & Hx).
  apply FlattenFacts.elem_of_flattenLayer in Hx as [_ Hx].
  apply list_elem_of_fmap in Hn as (l & -> & Hl).
  rewrite Forall_forall in H.
  destruct (in_tree_toNode boxed x (toNode l) Hx l eq_refl (H l Hl))
    as (l' & -> & Hb & _).
  rewrite toNode_unfold. exact Hb.
Qed.

Lemma unsized_children_no_box (cs : list LayerInfo) :
  Forall (fun c => ~ sized (li_bounds c)) cs ->
  calculateBoundsFromChildren cs = None.
Proof.
  intros H. unfold calculateBoundsFromChildren.
  destruct cs as [|c0 cs0]; [reflexivity|].
  assert (E : forall e, fold_left extend (c0 :: cs0) e = e).
  { induction H as [|c cs Hc _ IH]; intros e; [reflexivity|].
    cbn [fold_left]. rewrite <- (IH e) at 2. f_equal.
    unfold extend, sized in *.
    destruct (JS.strict_eq (b_width (li_bounds c)) JS.zero
              && JS.strict_eq (b_height (li_bounds c)) JS.zero);
      [reflexivity|now elim Hc]. }
  now rewrite E.
Qed.

(** ** Which layers are read *)

Lemma flatten_unfold (l : LayerInfo) :
  flatten l = l :: flat_map flatten (li_children l).
Proof. destruct l; reflexivity. Qed.

Lemma kept_unfold (c : PsdLayer TextData) :
  kept c = c :: keptOf (psd_children c).
Proof. destruct c; reflexivity. Qed.

Lemma extracted_loop (depth : nat) (cs : list (PsdLayer TextData)) :
  Forall (fun c => forall depth k,
            extracted extract randomId depth k [fst (extractChild depth c k)]
                      (snd (extractChild depth c k)) (kept c)) cs ->
  forall k,
    extracted extract randomId depth k
      (fst (extractLayers_loop TextData (extractChild depth) cs k))
      (snd (extractLayers_loop TextData (extractChild depth) cs k))
      (keptOf cs).
Proof.
  induction 1 as [|c cs Hc _ IH]; intros k; cbn [extractLayers_loop].
  - unfold extracted, keptOf. cbn. repeat split; auto; constructor.
  - unfold keptOf. cbn [flat_map]. fold (keptOf cs).
    destruct (ignored c); [apply IH|].
    specialize (Hc depth k).
    destruct (extractChild depth c k) as [layer k1]. cbn [fst snd] in Hc.
    specialize (IH k1).
    destruct (extractLayers_loop TextData (extractChild depth) cs k1)
      as [layers k2]. cbn [fst snd] in IH |- *.
    destruct Hc as (R1 & I1 & K1 & D1 & E1).
    destruct IH as (R2 & I2 & K2 & D2 & E2).
    cbv zeta in R1, I1, K1, R2, I2, K2. cbn [flat_map] in R1, I1, K1.
    rewrite app_nil_r in R1, I1, K1.
    unfold extracted. cbv zeta. cbn [flat_map].
    split; [now apply Forall2_app|].
    split.
    { rewrite map_app, length_app, seq_app, map_app, I1, <- K1, I2.
      reflexivity. }
    split; [rewrite length_app; lia|].
    split; [constructor; [now inversion D1|exact D2]|].
    constructor; [now inversion E1|exact E2].
Qed.

Lemma extracted_child (child : PsdLayer TextData) :
  forall depth k,
    extracted extract randomId depth k [fst (extractChild depth child k)]
              (snd (extractChild depth child k)) (kept child).
Proof.
  revert child. apply (PsdLayer_tree_ind (fun child => forall depth k,
    extracted extract randomId depth k [fst (extractChild depth child k)]
              (snd (extractChild depth child k)) (kept child))).
  intros child IH depth k.
  destruct (extractChild_shape depth child k)
    as (bounds & children & k' & -> & Hloop & Hb).
  cbn [fst snd].
  assert (Hkids : extracted extract randomId (S depth) (S k) children k'
                            (keptOf (psd_children child))).
  { destruct (psd_children child) as [|c cs] eqn:Ec.
    - inversion Hloop; subst. unfold extracted, keptOf. cbn.
      repeat split; auto; constructor.
    - pose proof (extracted_loop (S depth) (c :: cs) IH (S k)) as H.
      rewrite <- Hloop in H. exact H. }
  destruct Hkids as (R & I & K & D & E). cbv zeta in R, I, K.
  unfold extracted. cbv zeta. cbn [flat_map]. rewrite app_nil_r.
  rewrite flatten_unfold, kept_unfold.
  cbn [li_children with_bounds with_children length List.map seq].
  split.
  { constructor; [|exact R].
    unfold reads, displayName.
    cbn [li_name li_type li_visible li_textInfo li_hasImage li_bounds
         li_children with_bounds with_children psdParser.extractLayerInfo].
    split; [reflexivity|]. split; [reflexivity|]. split; [reflexivity|].
    split; [reflexivity|]. split.
    - unfold getLayerType.
      destruct (psd_children child), (psd_text child),
        (psd_vectorMask child || psd_vectorStroke child); reflexivity.
    - intros Hun. rewrite (unsized_children_no_box children Hun) in Hb.
      exact Hb. }
  split; [cbn [li_id with_bounds with_children psdParser.extractLayerInfo];
          now rewrite I|].
  split; [lia|].
  split; [repeat constructor|].
  repeat constructor; [|exact E].
  unfold children_deeper.
  cbn [li_children li_depth with_bounds with_children
       psdParser.extractLayerInfo]. exact D.
Qed.

Lemma keptOf_unmarked (cs : list (PsdLayer TextData)) :
  Forall (fun c : PsdLayer TextData => ignored c = false) (keptOf cs).
Proof.
  assert (Hk : forall c : PsdLayer TextData,
            Forall (fun c : PsdLayer TextData => ignored c = false)
                   (keptOf (psd_children c))).
  { apply (PsdLayer_tree_ind
             (fun c => Forall (fun c : PsdLayer TextData => ignored c = false)
                              (keptOf (psd_children c)))).
    intros c IH. induction IH as [|x xs Hx _ IHxs]; [constructor|].
    unfold keptOf. cbn [flat_map]. fold (keptOf xs).
    destruct (ignored x) eqn:Ex; [exact IHxs|].
    apply Forall_app. split; [|exact IHxs].
    rewrite kept_unfold. now constructor. }
  induction cs as [|x xs IH]; [constructor|].
  unfold keptOf. cbn [flat_map]. fold (keptOf xs).
  destruct (ignored x) eqn:Ex; [exact IH|].
  apply Forall_app. split; [|exact IH].
  rewrite kept_unfold. constructor; [exact Ex|apply Hk].
Qed.

(** X27: the parser reads every layer that is not marked [__ignore] and
    lies under no marked layer, and no other.  Listed parents first, the
    layers of the tree [extractLayers] returns are, one for one and in the
    order of the file, those layers with their name (or "Unnamed Layer"),
    type, visibility and text style, and with the box of the file when none
    of their children has a size; no name in the tree contains
    [__ignore]; the identifiers are the successive draws of [generateId],
    parents before children; the roots are at the depth asked for and every
    child is one deeper than its parent. *)
Theorem unmarked_layers_are_read (children : list (PsdLayer TextData))
    (depth k : nat) :
  let out := extractLayers children depth k in
  let flat := flat_map flatten (fst out) in
  Forall2 (reads extract) flat (keptOf children) /\
  Forall (fun l => JS.includes (li_name l) "__ignore" = false) flat /\
  List.map li_id flat = List.map randomId (seq k (length flat)) /\
  snd out = (k + length flat)%nat /\
  Forall (fun l => li_depth l = depth) (fst out) /\
  Forall (everywhere children_deeper) (fst out).
Proof.
  cbv zeta.
  assert (H : extracted extract randomId depth k (fst (extractLayers children depth k))
                        (snd (extractLayers children depth k))
                        (keptOf children)).
  { apply extracted_loop. apply Forall_forall. intros c _.
    apply extracted_child. }
  destruct H as (R & I & K & D & E). cbv zeta in R, I, K.
  split; [exact R|]. split; [|auto].
  pose proof (keptOf_unmarked children) as Hk.
  revert R Hk. generalize (keptOf children).
  generalize (flat_map flatten (fst (extractLayers children depth k))).
  intros flat src R.
  induction R as [|l c ls cs' (Hn & _) _ IH]; intros Hk; constructor.
  - apply Forall_cons in Hk as [Hc _]. rewrite Hn.
    unfold displayName. unfold ignored in Hc.
    destruct (psd_name c) as [[|a name]|]; [reflexivity|exact Hc|reflexivity].
  - apply IH. now apply Forall_cons in Hk as [_ Hk].
Qed.

End WithSources.

End ParserFacts.

(* ===================================================================== *)
(** ** TextStyleExtractor: colours that can be read back *)
(* ===================================================================== *)

Module TextColorFacts.
Import TextColor TextColorSpec.
Local Open Scope list_scope.

Lemma clamp_of_Z (n : Z) :
  JS.max JS.zero (JS.min (JS.of_Z 255) (JS.of_Z n))
  = JS.of_Z (Z.max 0 (Z.min 255 n)).
Proof.
  unfold JS.max, JS.min, JS.of_Z, JS.zero, JS.compare.
  unfold Qcompare, inject_Z. cbn [Qnum Qden].
  rewrite !Z.mul_1_r.
  destruct (Z.compare_spec 255 n) as [E|E|E].
  - subst. reflexivity.
  - cbn. now rewrite Z.min_l, Z.max_r by lia.
  - cbn [Qnum Qden]. rewrite !Z.mul_1_r.
    destruct (Z.compare_spec 0 n) as [E'|E'|E'].
    + subst. reflexivity.
    + now rewrite Z.min_r, Z.max_r by lia.
    + now rewrite Z.min_r, Z.max_l by lia.
Qed.

Lemma two_digits_all (z : Z) : (0 <= z <= 255)%Z -> two_digits z = true.
Proof.
  intros Hz.
  assert (H : forallb (fun n => two_digits (Z.of_nat n)) (seq 0 256) = true)
    by (vm_compute; reflexivity).
  rewrite forallb_forall in H.
  specialize (H (Z.to_nat z)). rewrite Z2Nat.id in H by lia.
  apply H, in_seq. lia.
Qed.

(** One channel: two digits that read back as the channel, or "NaN". *)
Lemma channel_written (x : option num) :
  let s := padStart2 (toString16 (JS.max JS.zero
                                    (JS.min (JS.of_Z 255) (roundChannel x)))) in
  match channel x with
  | Some z => exists hi lo, s = String hi (String lo "") /\ hexPair hi lo = Some z
  | None => s = "NaN"
  end.
Proof.
  cbv zeta.
  assert (Hz : forall z, (0 <= z <= 255)%Z ->
            exists hi lo,
              padStart2 (toString16 (JS.of_Z z)) = String hi (String lo "") /\
              hexPair hi lo = Some z).
  { intros z Hz. pose proof (two_digits_all z Hz) as H. unfold two_digits in H.
    destruct (padStart2 (toString16 (JS.of_Z z))) as [|hi [|lo [|? ?]]];
      try discriminate.
    exists hi, lo. split; [reflexivity|].
    destruct (hexPair hi lo) as [v|]; [|discriminate].
    apply Z.eqb_eq in H. now subst. }
  destruct x as [[q| | |]|]; cbn [channel roundChannel round].
  - rewrite clamp_of_Z. apply Hz. lia.
  - apply (Hz 255%Z). lia.
  - apply (Hz 0%Z). lia.
  - reflexivity.
  - reflexivity.
Qed.

(** X28: the colour of a text can be read back exactly when its three
    channels are numbers.  Without a fill colour, or without its [r], the
    colour is black.  Otherwise, when [r], [g] and [b] are numbers other
    than NaN, [extractColor] writes [#rrggbb] with each channel rounded and
    kept within 0..255; when one of them is absent or NaN the text "NaN"
    takes its place and what is written is no colour. *)
Theorem colour_is_read_back (fillColor : option FillColor) :
  readColor (extractColor fillColor)
  = match fillColor with
    | None => Some (0, 0, 0)%Z
    | Some c =>
        match fc_r c with
        | None => Some (0, 0, 0)%Z
        | Some _ =>
            match channel (fc_r c), channel (fc_g c), channel (fc_b c) with
            | Some r, Some g, Some b => Some (r, g, b)
            | _, _, _ => None
            end
        end
    end.
Proof.
  destruct fillColor as [[r g b]|]; [|reflexivity].
  cbn [extractColor fc_r fc_g fc_b].
  destruct r as [r|]; [|reflexivity].
  unfold rgbToHex. cbn [List.map String.concat].
  pose proof (channel_written (Some r)) as Hr.
  pose proof (channel_written g) as Hg.
  pose proof (channel_written b) as Hb.
  cbv zeta in Hr, Hg, Hb.
  destruct (channel (Some r)) as [vr|], (channel g) as [vg|],
    (channel b) as [vb|];
    repeat match goal with
           | H : exists _, _ |- _ => destruct H as (? & ? & ? & ?)
           end;
    repeat match goal with
           | H : padStart2 _ = _ |- _ => rewrite H; clear H
           end;
    cbv beta iota zeta delta [String.append readColor];
    repeat match goal with
           | H : hexPair _ _ = _ |- _ => rewrite H; clear H
           end;
    try reflexivity.
Qed.

End TextColorFacts.

(* ===================================================================== *)
(** ** ContainerLayoutScorer: the scores and the detectors *)
(* ===================================================================== *)

Module ScorerFacts.
Import ContainerLayoutHelper ContainerLayoutScorer ScorerSpec.
Local Open Scope list_scope.

Lemma of_nat_pos (n : nat) : (0 < n)%nat -> (0 < inject_Z (Z.of_nat n))%Q.
Proof. intros H. change 0%Q with (inject_Z 0). rewrite <- Zlt_Qlt. lia. Qed.

Lemma div_of_nat (s c : nat) :
  (0 < c)%nat ->
  JS.div (JS.of_nat s) (JS.of_nat c)
  = JS.Num (inject_Z (Z.of_nat s) / inject_Z (Z.of_nat c)).
Proof.
  intros Hc. unfold JS.div, JS.of_nat, JS.of_Z.
  destruct (Qeq_bool (inject_Z (Z.of_nat c)) 0) eqn:E; [|reflexivity].
  apply Qeq_bool_iff in E. pose proof (of_nat_pos c Hc) as H.
  rewrite E in H. now apply Qlt_irrefl in H.
Qed.

Lemma fraction_unit (s c : nat) :
  (s <= c)%nat ->
  unit_score (fraction s c) /\
  (JS.gt (fraction s c) JS.zero = true <-> (0 < s)%nat).
Proof.
  intros Hsc. unfold fraction. destruct c as [|c].
  - assert (s = 0)%nat by lia. subst.
    split; [split; reflexivity|]. split; [discriminate|lia].
  - rewrite div_of_nat by lia.
    pose proof (of_nat_pos (S c) ltac:(lia)) as Hc.
    assert (Hs : (0 <= inject_Z (Z.of_nat s))%Q).
    { change 0%Q with (inject_Z 0). rewrite <- Zle_Qle. lia. }
    assert (Hle : (inject_Z (Z.of_nat s) <= inject_Z (Z.of_nat (S c)))%Q).
    { rewrite <- Zle_Qle. lia. }
    set (a := inject_Z (Z.of_nat s)) in *.
    set (b := inject_Z (Z.of_nat (S c))) in *.
    split; [split|].
    + apply JSFacts.le_Num. apply Qle_shift_div_l; [exact Hc|]. lra.
    + apply JSFacts.le_Num. apply Qle_shift_div_r; [exact Hc|].
      change (inject_Z 1) with 1%Q. lra.
    + unfold JS.gt, JS.lt, JS.zero. cbn [JS.compare].
      destruct (Qcompare_spec 0 (a / b)) as [E|E|E].
      * split; [discriminate|]. intros H0.
        assert (0 < a)%Q.
        { change 0%Q with (inject_Z 0). subst a. rewrite <- Zlt_Qlt. lia. }
        assert (0 < a / b)%Q by (apply Qlt_shift_div_l; [exact Hc|lra]).
        rewrite <- E in H1. now apply Qlt_irrefl in H1.
      * split; [intros _|reflexivity].
        destruct s; [|lia]. exfalso.
        assert (Ea : a == 0) by reflexivity.
        rewrite Ea in E. unfold Qdiv in E. rewrite Qmult_0_l in E.
        now apply Qlt_irrefl in E.
      * split; [discriminate|]. intros H0. exfalso.
        assert (0 <= a / b)%Q by (apply Qle_shift_div_l; [exact Hc|lra]).
        lra.
Qed.

Lemma filter_length_le {A : Type} (p : A -> bool) (l : list A) :
  (length (List.filter p l) <= length l)%nat.
Proof. induction l as [|x l IH]; simpl; [lia|destruct (p x); simpl; lia]. Qed.

Lemma filter_length_pos {A : Type} (p : A -> bool) (l : list A) :
  (0 < length (List.filter p l))%nat <-> existsb p l = true.
Proof.
  induction l as [|x l IH]; simpl; [split; [lia|discriminate]|].
  destruct (p x); simpl; [split; [reflexivity|lia]|exact IH].
Qed.

Lemma hasRowStructure_pairs (children : list Node) :
  hasRowStructure children
  = existsb (fun '(a, b) => rowPair (n_bounds a) (n_bounds b)) (pairs children).
Proof.
  induction children as [|a rest IH]; [reflexivity|].
  cbn [hasRowStructure pairs]. rewrite existsb_app, IH. f_equal.
  clear IH. induction rest as [|b rest IH]; [reflexivity|].
  cbn [existsb List.map]. now rewrite IH.
Qed.

Lemma axisDistance_finite (direction : string) (a b : Bounds) :
  GeometrySpec.finite_edges a -> GeometrySpec.finite_edges b ->
  exists q, axisDistance direction a b = JS.Num q.
Proof.
  intros (ta & la & ra & ba & A1 & A2 & A3 & A4)
         (tb & lb & rb & bb & B1 & B2 & B3 & B4).
  unfold axisDistance, LayoutDistanceHelper.horizontalDistance,
    LayoutDistanceHelper.verticalDistance.
  rewrite A1, A2, A3, A4, B1, B2, B3, B4.
  destruct (String.eqb direction "row");
    repeat match goal with
           | |- context [if ?c then _ else _] => destruct c
           end; cbn; eauto.
Qed.

Lemma gaps_finite (direction : string) (children : list Node) :
  Forall (fun c => GeometrySpec.finite_edges (n_bounds c)) children ->
  exists qs,
    positiveGaps direction
      (JS.sort (fun a b => JS.sub (axisKey direction a) (axisKey direction b))
               children)
    = List.map JS.Num qs /\
    Forall (fun q => (0 < q)%Q) qs.
Proof.
  intros Hfin.
  set (sorted := JS.sort _ children).
  assert (Hs : Forall (fun c => GeometrySpec.finite_edges (n_bounds c)) sorted).
  { rewrite Forall_forall in Hfin |- *. intros c Hc. apply Hfin.
    apply list_elem_of_In.
    apply list_elem_of_In in Hc.
    eapply Permutation_in; [apply JSFacts.sort_Permutation|exact Hc]. }
  assert (Hg : Forall (fun g => exists q, g = JS.Num q /\ (0 < q)%Q)
                      (positiveGaps direction sorted)).
  { apply Forall_forall. intros g Hin. apply list_elem_of_In in Hin.
    destruct (LayoutFacts.positiveGaps_spec direction sorted g Hin)
      as (Hpos & i & a & b & Ha & Hb & ->).
    rewrite Forall_forall in Hs.
    destruct (axisDistance_finite direction (n_bounds a) (n_bounds b))
      as [q Eq].
    { apply Hs, list_elem_of_In. eapply nth_error_In; eauto. }
    { apply Hs, list_elem_of_In. eapply nth_error_In; eauto. }
    rewrite Eq in Hpos |- *. exists q. split; [reflexivity|].
    unfold JS.gt, JS.lt, JS.zero in Hpos. cbn in Hpos.
    destruct (Qcompare_spec 0 q); try discriminate. assumption. }
  clear Hs. induction Hg as [|g gs (q & -> & Hq) _ (qs & -> & Hqs)].
  - exists []. split; [reflexivity|constructor].
  - exists (q :: qs). split; [reflexivity|now constructor].
Qed.

Lemma sum_Num (qs : list Q) (a : Q) :
  fold_left (fun s g => JS.add s g) (List.map JS.Num qs) (JS.Num a)
  = JS.Num (fold_left Qplus qs a).
Proof. revert a. induction qs as [|q qs IH]; intros a; simpl; auto. Qed.

Lemma squares_Num (m : Q) (qs : list Q) (a : Q) :
  fold_left (fun s g => JS.add s (JS.mul (JS.sub g (JS.Num m))
                                         (JS.sub g (JS.Num m))))
            (List.map JS.Num qs) (JS.Num a)
  = JS.Num (fold_left (fun s q => (s + (q + - m) * (q + - m))%Q) qs a).
Proof. revert a. induction qs as [|q qs IH]; intros a; simpl; auto. Qed.

Lemma Qsquare_nonneg (x : Q) : (0 <= x * x)%Q.
Proof. nra. Qed.

Lemma squares_nonneg (m : Q) (qs : list Q) (a : Q) :
  (0 <= a)%Q ->
  (0 <= fold_left (fun s q => (s + (q + - m) * (q + - m))%Q) qs a)%Q.
Proof.
  revert a. induction qs as [|q qs IH]; intros a Ha; simpl; [exact Ha|].
  apply IH. pose proof (Qsquare_nonneg (q + - m)) as H. lra.
Qed.

Lemma half_unit : unit_score (JS.Num 0.5%Q).
Proof. split; reflexivity. Qed.

Lemma zero_unit : unit_score JS.zero.
Proof. split; reflexivity. Qed.

Lemma scoreGapConsistency_unit (children : list Node) (direction : string) :
  Forall (fun c => GeometrySpec.finite_edges (n_bounds c)) children ->
  unit_score (scoreGapConsistency children direction).
Proof.
  intros Hfin. unfold scoreGapConsistency.
  destruct (length children <? 3)%nat; [apply half_unit|].
  destruct (gaps_finite direction children Hfin) as (qs & -> & Hqs).
  cbv zeta. rewrite length_map.
  destruct (length qs <? 2)%nat eqn:En; [apply half_unit|].
  apply Nat.ltb_ge in En.
  change JS.zero with (JS.Num 0%Q). rewrite sum_Num.
  set (total := fold_left Qplus qs 0%Q).
  set (n := inject_Z (Z.of_nat (length qs))).
  assert (Hn : (0 < n)%Q) by (apply of_nat_pos; lia).
  assert (Hn0 : Qeq_bool n 0 = false).
  { destruct (Qeq_bool n 0) eqn:E; [|reflexivity].
    apply Qeq_bool_iff in E. lra. }
  assert (Eavg : JS.div (JS.Num total) (JS.of_nat (length qs))
                 = JS.Num (total / n)).
  { unfold JS.div, JS.of_nat, JS.of_Z. fold n. now rewrite Hn0. }
  rewrite Eavg. set (m := (total / n)%Q).
  rewrite squares_Num.
  set (V := fold_left (fun s q => (s + (q + - m) * (q + - m))%Q) qs 0%Q).
  assert (HV : (0 <= V)%Q) by (apply squares_nonneg; lra).
  assert (Evar : JS.div (JS.Num V) (JS.of_nat (length qs)) = JS.Num (V / n)).
  { unfold JS.div, JS.of_nat, JS.of_Z. fold n. now rewrite Hn0. }
  rewrite Evar.
  assert (Hvar : (0 <= V / n)%Q) by (apply Qle_shift_div_l; [exact Hn|lra]).
  cbn [JS.mul JS.add JS.of_Z].
  set (d := (m * m + inject_Z 1)%Q).
  assert (Hd : (0 < d)%Q).
  { unfold d. change (inject_Z 1) with 1%Q.
    pose proof (Qsquare_nonneg m). lra. }
  assert (Hd0 : Qeq_bool d 0 = false).
  { destruct (Qeq_bool d 0) eqn:E; [|reflexivity].
    apply Qeq_bool_iff in E. lra. }
  unfold JS.div. rewrite Hd0.
  assert (Hr : (0 <= V / n / d)%Q) by (apply Qle_shift_div_l; [exact Hd|lra]).
  set (r := (V / n / d)%Q) in *.
  unfold JS.sub, JS.of_Z. cbn [JS.neg JS.add].
  change (inject_Z 1) with 1%Q.
  unfold JS.max, JS.zero. cbn [JS.compare].
  destruct (Qcompare_spec 0 (1 + - r)) as [E|E|E].
  - apply zero_unit.
  - split; apply JSFacts.le_Num; change (inject_Z 1) with 1%Q; lra.
  - apply zero_unit.
Qed.

Lemma scoreWrap_spec (children : list Node) :
  unit_score (scoreWrap children) /\
  (JS.gt (scoreWrap children) JS.zero = true <-> detectWrap children = true).
Proof.
  unfold scoreWrap, detectWrap.
  destruct (length children <? 3)%nat eqn:En.
  { split; [apply zero_unit|]. split; discriminate. }
  apply Nat.ltb_ge in En.
  destruct (JS.sort _ children) as [|first rest].
  { split; [apply zero_unit|]. split; discriminate. }
  cbv zeta.
  set (rows := wrapSweep rest 1 (b_top (n_bounds first))
                         (b_bottom (n_bounds first))).
  destruct (1 <? rows)%nat eqn:Er.
  2:{ split; [apply zero_unit|]. split; discriminate. }
  apply Nat.ltb_lt in Er.
  rewrite div_of_nat by lia.
  set (q := (inject_Z (Z.of_nat (rows - 1))
             / inject_Z (Z.of_nat (length children - 1)))%Q).
  assert (Hq : (0 < q)%Q).
  { apply Qlt_shift_div_l; [apply of_nat_pos; lia|].
    rewrite Qmult_0_l. apply of_nat_pos. lia. }
  unfold JS.min, JS.of_Z. cbn [JS.compare].
  change (inject_Z 1) with 1%Q.
  destruct (Qcompare_spec 1 q) as [E|E|E].
  - split; [split; reflexivity|]. split; reflexivity.
  - split; [split; reflexivity|]. split; reflexivity.
  - split.
    + split; apply JSFacts.le_Num; change (inject_Z 1) with 1%Q; lra.
    + split; [reflexivity|intros _].
      unfold JS.gt, JS.lt, JS.zero. cbn [JS.compare].
      destruct (Qcompare_spec 0 q); [lra|reflexivity|lra].
Qed.

(** X29: the scores of [ContainerLayoutScorer] and the detectors of
    [ContainerLayoutHelper] tell the same story.  The row, column and wrap
    scores of any children lie between 0 and 1; the row score is above 0
    exactly when [detectFlexDirection] answers "row", and the wrap score is
    above 0 exactly when [detectWrap] answers true.  The gap-consistency
    score lies between 0 and 1 as well when the boxes of the children have
    whole-pixel edges of size at most 2^25 and are not inverted. *)
Theorem scores_agree_with_detectors (children : list Node) :
  unit_score (scoreRow children) /\
  unit_score (scoreColumn children) /\
  unit_score (scoreWrap children) /\
  (JS.gt (scoreRow children) JS.zero = true
   <-> detectFlexDirection children = "row") /\
  (JS.gt (scoreWrap children) JS.zero = true
   <-> detectWrap children = true) /\
  (forall direction,
     Forall (fun c => PixelSpec.pixel_edges (n_bounds c) = true) children ->
     unit_score (scoreGapConsistency children direction)).
Proof.
  pose proof (fraction_unit
                (length (List.filter
                           (fun '(a, b) => rowPair (n_bounds a) (n_bounds b))
                           (pairs children)))
                (length (pairs children))
                (filter_length_le _ _)) as [Hrow Hrow'].
  pose proof (fraction_unit
                (length (List.filter
                           (fun '(a, b) =>
                              JS.le (b_bottom (n_bounds a)) (b_top (n_bounds b)))
                           (consecutive children)))
                (length (consecutive children))
                (filter_length_le _ _)) as [Hcol _].
  destruct (scoreWrap_spec children) as [Hwrap Hwrap'].
  split; [exact Hrow|]. split; [exact Hcol|]. split; [exact Hwrap|].
  split; [|split; [exact Hwrap'|]].
  2:{ intros d Hpx. apply scoreGapConsistency_unit.
      eapply Forall_impl; [exact Hpx|].
      intros c Hc. now apply PixelFacts.pixel_finite. }
  unfold scoreRow. cbv zeta. rewrite Hrow', filter_length_pos.
  rewrite <- hasRowStructure_pairs. unfold detectFlexDirection.
  destruct (length children <? 2)%nat eqn:En.
  - apply Nat.ltb_lt in En.
    destruct children as [|a [|b rest]]; simpl in En; try lia;
      split; discriminate.
  - destruct (hasRowStructure children); split; congruence.
Qed.

End ScorerFacts.
